(* ===== verification/_CoqProject ===== *)
-Q . S2P
Prelude.v
Stateful.v
GoStrings.v
Float64.v
Rpn.v
Rrd.v
SetGraph.v
Connector.v
Registry.v
Discovery.v
DiscoverySpec.v
WalkTree.v
CatalogSize.v
Stream.v
DiscoveryExamples.v
TreeExamples.v
Examples.v
ParseInfo.v
StatRoundTrip.v
PercentileKeys.v
EngineSem.v
ProgramWf.v
GetData.v
CompileSpec.v
Names.v
Expressions.v
CompileWf.v
GetDataSpec.v
Merge.v
ProgramSem.v
StatSem.v
EndToEnd.v
Safety.v
RefreshQuery.v
Configured.v
EngineExamples.v
PipelineExamples.v
