(* ===== verification/Prelude.v ===== *)
(** * Verification of the RRD connector (pkg/connector/rrd.go)

    The connector exposes a tree of round-robin archives as a source of
    metrics.  Its source is one file, [src/pkg/connector/rrd.go], with
    these parts:

    - the catalog: [RRDConnector.metrics], a map from source name to a map
      from metric name to [rrdMetric] (archive file and dataset);
    - the query path: [GetPlots] calls [rrdGetData], which compiles a
      group query into two programs of the time-series engine (a graph
      program with the statistics requests of [rrdSetGraph], an export
      program with the output columns), runs them, copies the exported
      columns into the result and lets [rrdParseInfo] add the statistics
      the graph run printed;
    - discovery: [Refresh] walks the archive tree, fills the catalog and
      streams what it finds on a channel;
    - registration: [init] puts a factory into the global table.

    ** How the code is modelled

    The development is a shallow embedding: every function of rrd.go is a
    Rocq function of the same name that can be evaluated.

    - A Go function that returns [(T, error)] and may panic returns an
      [outcome T]: [Ok], [Err] with the error's message, or [Panic] with
      the cause.  Sequencing is [let! x := e in k]; a [for ... range] loop
      with early exit is [foldM] or [foldMi] (with the index), one without
      is [foldi].  These are in this file, with their laws.
    - [Refresh], which sends on channels and fills the catalog while it
      runs, is a function from the state (connector, error channel, log) to
      the new state and an [outcome] ([Stateful]): what it has done stays
      done when it stops early, and its deferred calls run on every path.
      The state also keeps the history of the call ([rs_events]): the
      sends and the closes that have completed, in their order.  It is a
      variable of the model that no operation reads.
    - Maps are stdpp's [gmap] with string keys.  A Go map of pointers
      ([map[string]*PlotResult]) is a map of records: the code never keeps
      a pointer to an entry beyond the statement that updates it, so
      updating through the pointer is [alter] on the map.
    - Strings are [String.string]; [strconv.Itoa], [strings.Join] and
      [strings.SplitN] are in [GoStrings].  [float64] is the Standard
      Library's [spec_float] at precision 53; the verbs [%f], [%.2f] and
      [%.0f] print the exact binary value rounded half-even, and
      [int(x)] truncates, with the amd64 result for values out of range
      ([Float64]).
    - The rrd binding is outside the source.  Its builders are records that
      collect an ordered list of operations ([Rrd.Grapher], [Rrd.Exporter],
      one function per method); the runs [Xport] and [Graph] are the fields
      of the class [Engine], and [strconv.ParseFloat] is the class
      [Strconv].  The theorems about the connector alone hold for every
      instance; witnesses use the engines of [Examples] and the decimal
      parser [decimal_Strconv].
    - What the programs mean is given by a reference semantics of the
      engine, modelled from the engine's interface as the specification
      describes it: reverse-Polish expressions over rows ([Rpn]), the five
      operations over archives and statistics ([EngineSem]), which makes
      [rpn_Engine] an instance of [Engine].  The archives and the
      statistics functions are the classes [Samples] and [Statistics].
      With it a call is followed from the query to the samples
      ([EndToEnd]).
    - The channels of [Refresh] and their reader are a step relation on
      the history of a call, the two channels and the reader's state
      ([Stream]); a send waits for room or for a reader.
    - The one resource of the query path is the buffer of an export
      result.  [rrdGetData] takes and returns the number [live] of buffers
      the engine holds, so that releasing, or failing to release, is part
      of its result ([call_result]).
    - Loops run over finite lists and the functions are structurally
      recursive: there is no fuel, and every theorem about a result is
      about a call that returns.

    ** Files

    - [Prelude] (this file): [outcome] and its monad, loops, channels,
      [insert_all], [last_assoc], the hint databases and tactics.
    - [Stateful]: the monad of code that updates state and may fail, with
      the state kept on failing paths; Go's [defer] and the catch of an
      error; specifications as triples and their rules.
    - [GoStrings], [Float64]: the Go library functions the connector calls.
    - [Rrd]: the engine's interface and the types of a query and a result
      ([GroupQuery], [SerieQuery], [MetricQuery], [OperGroupType],
      [PlotResult]), which the package declares outside rrd.go.
    - [SetGraph]: [rrdSetGraph] and [rrdSetGraph_percentile] (its loop
      body), with the statistics program as a list ([stat_program]).
    - [Connector]: [rrdMetric], [RRDConnector], the lookup [metric_of].
    - [Registry]: [init] and the factory it registers ([rrd_factory]).
    - [Discovery]: [Refresh] in the pieces the code has: the validation
      of the pattern ([validate_keys], [validate_groups]), [walkFunc] with
      [source_and_metric], [ensure_source] and [register] (the loop over
      the datasets), the sends and the deferred closes.  The regular
      expression, the walk and [rrd.Info] are the classes [Regexp],
      [Walker] and [Archives].
    - [DiscoverySpec]: the validation as a function of the group names
      ([pattern_error]); a call of [walkFunc] branch by branch
      ([visit_result], with [visit_effect] and [visit_outcome]) and the
      calls of a walk ([walk_calls], [walk_effect], [discovered]); a
      whole call on every path ([walk_result], [body_result]) and what it
      sends ([refresh_pairs], [refresh_errors], [refresh_events]); the
      walk up to its first error when no visit panics ([until_error],
      [walked], [refreshed]); the theorems about [Refresh].
    - [WalkTree]: a walker that walks a file tree in the manner of Go's
      [filepath.Walk] ([node], [walk_node], [walk_tree], [tree_Walker]),
      and [Refresh] on it.
    - [CatalogSize]: the number of metrics of the catalog
      ([metrics_size]) and how a walk changes it.
    - [Stream]: the history of a run of [Refresh] ([events_of]), channels
      with a capacity ([port_send], [port_close], [port_read]), consumers
      ([draining], [sequential], [stops_after]), the interleavings
      ([step], [run]) and the states in which nothing can move
      ([blocked]).
    - [DiscoveryExamples]: a matcher for paths [source/metric.rrd], a tree
      and its archives; witnesses and evaluations of [Refresh].
    - [TreeExamples]: the same tree as a [node]; witnesses of the theorems
      about trees, and a configured path that ends with a separator.
    - [Examples]: a catalog, series, queries, tables and engines.
    - [ParseInfo]: [rrdParseInfo] and [rrdParseInfo_line] (its loop body);
      the specification by triples ([parse_lines], [store]).
    - [StatRoundTrip]: the lines the engine prints for the formats of a
      statistics block ([fill_lf], [printed]), and the way of a statistic
      from [rrdSetGraph] to the result of [rrdParseInfo].
    - [PercentileKeys]: the percentile a key names ([key_percentile]) and
      the keys of the percentiles from 0 to 100 in steps of a tenth.
    - [Rpn]: the engine's expressions: fields, tokens, the evaluator on a
      stack ([rpn_eval]) and the stack discipline ([rpn_wf]).
    - [EngineSem]: the engine's operations on a state of series, values,
      columns and lines ([run_arg], [run_program]); the table of an
      export ([table_of]); [rpn_Engine].
    - [ProgramWf]: the check that a program defines no identifier twice
      and uses only what is defined ([wf_program]), and its soundness.
    - [GetData]: [rrdGetData] in the pieces the code has: [collapse],
      [compile_init], [none_body], [agg_body], [agg_finish], [compile],
      [collect_legend], [run_export], [run_graph], [execute]; [GetPlots].
    - [CompileSpec]: what is compiled, declaratively: the contributing
      series ([resolve]), the programs of a group without operator
      ([none_state]) and of a sum or average ([agg_compiled]).
    - [Names]: the identifiers a compiled program defines, as suffixes
      of the identifier of a series, and their uniqueness.
    - [Expressions]: what the expressions of the connector compute
      ([zero_unknown], [apply_scale], [aggregate]).
    - [CompileWf]: the compiled programs pass the check of [ProgramWf].
    - [GetDataSpec]: the error paths, the collapsing rule, which runs a
      call makes, and the buffers it leaves.
    - [Merge]: the merge of an export table as one assignment per column
      ([column_results]) and the result of a successful call.
    - [ProgramSem]: the columns the export programs yield on the engine
      ([none_column], [agg_value]).
    - [StatSem]: the lines the statistics blocks print on the engine
      ([stat_values], [stat_lines]) and what [rrdParseInfo] reads in them
      ([stat_triples]).
    - [EndToEnd]: [rrdGetData] and [GetPlots] on [rpn_Engine], from the
      query to the samples and the statistics, for a sum or an average
      and for a group without operator, with and without samples.
    - [Safety]: what the connector relies on from an engine
      ([EngineContract]), the condition under which a call panics
      ([panics]) and the errors a call returns.
    - [RefreshQuery]: discovery and queries together: the connectors a
      query cannot tell apart ([connector_equiv]), the connector between
      two visits of a walk ([connector_after]), a refresh followed by a
      query.
    - [Configured]: the factory, the first refresh on a file tree and a
      query, in the order a server uses them.
    - [EngineExamples]: two archives and their statistics; witnesses and
      evaluations of whole calls.
    - [PipelineExamples]: the example tree and the example archives
      together; queries before, during and after a refresh.

    ** What the theorems show

    - Refinement of the builders: [rrdSetGraph] appends exactly
      [stat_program]; [compile] builds exactly [none_state] or
      [agg_compiled] over the series that have a metric, panics when a
      series names a metric the catalog lacks, and fails on an unknown
      operator ([compile_cases], [compile_None_spec], [compile_agg_spec]).
    - The statistic keys: the lines printed are [label,key,%lf] for [min],
      [avg], [max], [last] and [<p>th] per percentile, two decimals iff the
      percentile has a fractional part; no key contains a comma or a
      percent sign.  Every statistic requested for a label comes back under
      its key when the label has neither character and the keys of the
      percentiles are distinct ([statistics_round_trip]); percentiles that
      agree in two decimals share a key ([percentile_keys_collide]).  For
      the percentiles from 0 to 100 with one decimal at most the key is
      the decimal text of the percentile and reads back as it, so the
      keys of distinct percentiles are distinct and [rrdSetGraph] asks
      for no line twice ([percentile_key_tenth], [key_percentile_key],
      [rrdSetGraph_prints_NoDup]).
    - Scales: a scale is written with six decimals, so a scale below 5e-7
      multiplies by [0.000000] ([scaled_small_scale]); the decimal parser
      reads back what [%f] prints ([ParseFloat_format_f]).
    - The compiled programs: no identifier is defined twice
      ([compile_defines_NoDup]); with readable archives and finite scales
      every operation uses what is defined before it and every expression
      leaves one value ([compile_wf]), so the engine runs the programs to
      their end ([wf_program_runs]); an expression has a value exactly
      when it is well formed ([rpn_eval_wf]).
    - From the query to the samples: for a sum or an average of several
      series the samples under the group's name are the sum of the
      samples with unknowns as zero, divided by the number of series of
      the query for an average, through the group's scale
      ([rrdGetData_aggregate], [GetPlots_aggregate]); for a group without
      operator the samples under a name are those of the archive of the
      last series of that name, through the two scales
      ([rrdGetData_series], [GetPlots_series]).  The result has an entry
      under the name of the group, or under the name of each series that
      has a metric, and under no other label when the names have neither
      a comma nor a percent sign: a series without metric is left out.
      The statistics under a name are the engine's statistics of the same
      series over the window of the graph run, each as [ParseFloat] reads
      it in the printed text, provided the names have neither a comma nor
      a percent sign and the keys of the percentiles are distinct.  A call
      for the statistics only returns them without samples and leaves the
      buffers alone.  The theorems are total: the call is shown to
      succeed.
    - Panics: on every engine that meets [EngineContract], a call panics
      exactly when the operator is one of the three and a series names a
      metric the catalog lacks ([rrdGetData_panics_iff]); the condition
      is the boolean [panics] ([panics_spec]); [rpn_Engine] meets the
      contract, and an engine that prints a line without its fields shows
      that the contract is needed.
    - Errors: on such an engine a call returns an error exactly when the
      query has no series, the operator is none of the three, or one of
      the two runs fails, and the error of a run is returned as it is
      ([rrdGetData_errors]).  Together with the panics this leaves
      success: a call that neither panics nor fails returns the merged
      result ([execute_Ok]).
    - The query after a call: [rrdGetData] writes the operator into the
      caller's query; the query it leaves is [collapse query] on every
      path, and a second call on it returns what the first did
      ([rrdGetData_again]).
    - Discovery and queries together: a query reads the connector through
      its daemon setting and the lookups of its catalog only (the
      [Proper] instances of [RefreshQuery]), so its result does not depend
      on the order of the walk ([query_walk_order]); between two visits of
      a walk a query panics exactly when one of its metrics was not in the
      catalog before and has not been found yet ([query_between_visits]);
      after a refresh the query of a metric the walk found returns the
      samples of the archive found last for it ([GetPlots_found],
      [refresh_then_GetPlots]).
    - From the configuration to the samples: the connector of the factory
      has an empty catalog, so after its first refresh on a file tree the
      query of a metric returns the samples of the archive the walk found
      last for it before its first error, and panics when the walk found
      none ([configured_GetPlots]).
    - The merge: [rrdParseInfo] is a fold of upserts; it is idempotent,
      keeps samples, gives a label without column an empty sample list,
      stores not-a-number for a value that does not parse, and panics on a
      line with fewer than two commas.  The loop over the legends assigns
      each label its column; with equal labels the last column wins.
    - The executor: errors of either run are returned unchanged, a call for
      statistics never runs the export, and the buffer of an export is never
      released.  A call adds its buffers to those the engine holds and is
      otherwise independent of them, so two calls return the same and
      leave the same in either order ([rrdGetData_frame],
      [calls_commute]).
    - Discovery: from open channels [Refresh] closes both channels on every
      path and can only panic for three causes outside its control
      ([Refresh_closes_channels]); called with a closed channel it panics
      in its deferred closes, so a second refresh on the same channels
      panics ([Refresh_closed_panics], [Refresh_again_panics]).  On a
      pattern that compiles the state a call leaves is one function of
      the pattern and of the walk up to its first error ([refreshed],
      [Refresh_compiled]): an invalid pattern is reported before any
      file is visited; a walk without error does exactly the effect of its
      visits ([Refresh_success]); a walk error is reported and keeps what
      was found before it; the catalog after a walk is a function of the
      entries found, independent of their order when they are of distinct
      metrics; no metric is ever removed; a walk that finds [D] datasets
      of distinct metrics the catalog lacks adds [D] metrics and sends [D]
      pairs ([walk_catalog_size]); a refresh logs one warning at most per
      regular file, none for a file that adds a metric, and does not log
      the errors it sends ([walk_log_length], [Refresh_log]).
    - Discovery on a file tree: when the root is a directory and the
      walker builds its paths on a root not shorter than the configured
      one, no slice of a path is out of range and [Refresh] returns on
      every tree ([walk_tree_safe], [Refresh_tree]); the catalog does not
      depend on the order in which the directories list their entries
      ([walk_tree_perm], [Refresh_tree_order]); a root that is a regular
      file makes [Refresh] panic ([Refresh_root_file]); with a configured
      path that ends with a separator every source loses its first byte
      ([trailing_slash_loses_byte]).
    - Discovery on every path: a call of [walkFunc] on an open output
      channel does what [visit_effect] says and returns what
      [visit_outcome] says, whatever the visit ([walkFunc_total]); the
      loop of the walker does the effects of the calls it makes and ends
      with what the last returned ([WalkDir_total]); so a call of
      [Refresh] with open channels is [body_result] followed by the two
      closes, whether the pattern compiles or not, is valid or not, and
      whether the walk ends, fails or panics ([Refresh_total]).  The
      history of the call is the pairs in the order of the walk, then one
      error at most, then the close of the error channel, then the close
      of the output channel ([Refresh_history]); the loop over the
      datasets of an archive fills the catalog alike in every order
      ([register_order]).
    - The stream: every run of [Refresh] and a consumer is finite, with
      a bound in the entries the walk finds ([step_terminates],
      [Refresh_stream_bound]); a consumer that reads both channels until
      each is closed always comes to its end with everything the call
      sent ([Refresh_stream_delivered]); one that reads the output channel
      first can wait for ever ([sequential_consumer_waits]); when the walk
      finds more entries than [k] plus the capacity of the channel, a
      consumer that stops reading after [k] pairs leaves the producer
      waiting on a send on every interleaving, with neither channel
      closed ([Refresh_stream_abandoned]).
    - Registration: the factory's errors in their order, and the connector
      it returns.
    - Examples evaluate the functions on concrete inputs where the code
      and its specification differ (the collapsing rule, the divisor of an
      average, an aggregate of nothing, a pattern with an unnamed group, a
      configuration without daemon).

    ** Bounds and assumptions

    - In [Discovery] a channel is seen from the sender ([chan]: what was
      sent, whether closed) and an operation is modelled where it
      completes.  [Stream] runs the history of the call against channels
      of any capacity, where a send can wait: a call that waits has done
      a prefix of its history.  This is sound because nothing [Refresh]
      does depends on the reader: a send and a close return nothing, and
      the channels are closed by the call alone.
    - The witness of the bound on the runs follows one run for 20 steps
      at most ([run]); the run of the example ends after 8.
    - The engine's operators are those the connector emits: [+], [*], [/]
      (IEEE binary64, round to nearest even), [UN] (1 for not-a-number,
      else 0) and [IF] (the third operand when the first is zero or
      not-a-number).  A number is a plain decimal literal; an
      identifier is defined once; a program is run from an empty state;
      the daemon of a builder is not looked at.
    - The end-to-end theorems assume that the archive of every
      contributing series can be read in the window of each run and that
      the scales are finite numbers; without these the call returns the
      engine's error ([sum_of_nothing_fails], [nan_scale_fails]).
    - A walk is the finite list of visits the walker makes; the order of
      the datasets of an archive is the order the instance of [Archives]
      gives, since Go leaves the order of a map iteration open.
    - The walker of [WalkTree] follows [filepath.Walk], which
      [utils.WalkDir] is taken to wrap: the root is visited under the
      path it was given, an entry under the path of its directory, a
      separator and its name, and the paths below the root are built on
      what the walker makes of the root (the parameter [clean];
      [filepath.Join] cleans what it joins).  [trim_slash] is
      [filepath.Clean] for a trailing separator only.
    - [os.ModeType] is the mask of directory, symbolic link, device, named
      pipe and socket.
    - [int(x)] of a float out of the range of [int] is the amd64 result.
    - The keys of the percentiles are checked by evaluation for the 1001
      percentiles [n / 10] with [0 <= n <= 1000]: the Standard Library
      has no theory of the rounding of [SpecFloat], so a proof for every
      float64 is out of reach here; the range holds the percentiles in
      use (50, 90, 95, 99, 99.9), and the kernel evaluates it in seconds.

    ** Not modelled

    The engine is outside the repository: its semantics here is a
    reference, not a model of its code.  The archive format, the
    consolidation of samples, the daemon protocol and the statistics
    functions are parameters ([Samples], [Statistics]); the operators the
    connector never emits and the engine's reading of the words [NaN] and
    [Inf] are left out.  The matching of regular expressions is an
    interface; the file system is an interface with a tree as one
    instance, in which symbolic links are not followed and a file cannot
    change during the walk.  A consumer that closes a channel itself is
    not modelled.  The connector is one the factory has built, with the
    channel of its caller: a nil catalog, a nil channel and a nil pointer
    to the channel are not values of the model (the fields are not
    exported, and rrd.go builds a connector in the factory only).  A
    value under [ds.index] that is not a map, which would make the type
    assertion of line 143 panic, is among the panics of [rrd_Info].  A reader of the catalog that runs while [Refresh] fills it
    is modelled between two calls of [walkFunc] only ([connector_after]):
    Go gives no meaning to a read of a map that races with a write, so
    the states inside a visit are left out.  Logging is kept as the list
    of messages, without time stamps. *)

From Stdlib Require Import ZArith String Ascii List Lia.
From stdpp Require Import base tactics option list gmap strings.

(** ** Failure values of Go code *)

(** A run-time panic of the Go runtime, by cause. *)
Inductive go_panic : Type :=
| NilDereference
| IndexOutOfRange
| SliceOutOfRange
| SendOnClosedChannel
| CloseOfClosedChannel
| AssignToNilMap
| MustCompilePanic.

(** The result of a Go function that returns [(T, error)] and may panic:
    [Err] carries the error's message. *)
Inductive outcome (A : Type) : Type :=
| Ok (a : A)
| Err (msg : string)
| Panic (p : go_panic).

Arguments Ok {A} a.
Arguments Err {A} msg.
Arguments Panic {A} p.

#[export] Instance go_panic_eq_dec : EqDecision go_panic.
Proof. solve_decision. Defined.

#[export] Instance outcome_eq_dec `{EqDecision A} : EqDecision (outcome A).
Proof. solve_decision. Defined.

Definition obind {A B : Type} (m : outcome A) (k : A → outcome B) : outcome B :=
  match m with
  | Ok a => k a
  | Err e => Err e
  | Panic p => Panic p
  end.

Definition outcome_map {A B : Type} (f : A → B) (m : outcome A) : outcome B :=
  obind m (λ a, Ok (f a)).

Definition is_Ok {A : Type} (m : outcome A) : bool :=
  match m with Ok _ => true | _ => false end.

Definition of_option {A : Type} (p : go_panic) (o : option A) : outcome A :=
  match o with Some a => Ok a | None => Panic p end.

Declare Scope go_scope.
Delimit Scope go_scope with go.

Notation "'let!' x ':=' e 'in' k" := (obind e (λ x, k))
  (at level 10, x name, e at level 100, k at level 200,
   format "'[' 'let!'  x  ':='  e  'in'  '/' k ']'") : go_scope.
Notation "'let!' ' p ':=' e 'in' k" := (obind e (λ p, k))
  (at level 10, p pattern, e at level 100, k at level 200,
   format "'[' 'let!'  ' p  ':='  e  'in'  '/' k ']'") : go_scope.

#[global] Open Scope go_scope.

(** A [for ... range] loop whose body may fail: the state is threaded
    left to right and the first failure ends the loop. *)
Fixpoint foldM {S A : Type} (f : S → A → outcome S) (l : list A) (s : S)
  : outcome S :=
  match l with
  | [] => Ok s
  | a :: l' => let! s' := f s a in foldM f l' s'
  end.

(** Every element through a function that may fail, first failure first. *)
Fixpoint mapM {A B : Type} (f : A → outcome B) (l : list A) : outcome (list B) :=
  match l with
  | [] => Ok []
  | a :: l' =>
      let! b := f a in
      let! bs := mapM f l' in
      Ok (b :: bs)
  end.

(** The same loop with the element's index, as [for index, x := range l]. *)
Fixpoint foldMi {S A : Type} (f : S → nat → A → outcome S)
  (i : nat) (l : list A) (s : S) : outcome S :=
  match l with
  | [] => Ok s
  | a :: l' => let! s' := f s i a in foldMi f (Datatypes.S i) l' s'
  end.

(** ** Channels *)

(** A channel, seen from its sender: the values sent so far, oldest first,
    and whether it has been closed.  The receiver is assumed to drain the
    channel, so a send on an open channel completes. *)
Record chan (A : Type) : Type := { sent : list A; closed : bool }.

Arguments sent {A} c.
Arguments closed {A} c.

Definition chan_make {A : Type} : chan A := {| sent := []; closed := false |}.

(** [c <- x]: panics on a closed channel. *)
Definition chan_send {A : Type} (x : A) (c : chan A) : outcome (chan A) :=
  if closed c then Panic SendOnClosedChannel
  else Ok {| sent := sent c ++ [x]; closed := false |}.

(** [close(c)]: panics on a closed channel. *)
Definition chan_close {A : Type} (c : chan A) : outcome (chan A) :=
  if closed c then Panic CloseOfClosedChannel
  else Ok {| sent := sent c; closed := true |}.

(** A [for index, x := range l] loop that cannot fail. *)
Fixpoint foldi {S A : Type} (f : S → nat → A → S) (i : nat) (l : list A) (s : S)
  : S :=
  match l with
  | [] => s
  | a :: l' => foldi f (Datatypes.S i) l' (f s i a)
  end.

(** [m[k] = v] for each pair of a list, in order. *)
Definition insert_all {V : Type} (kvs : list (string * V)) (m : gmap string V)
  : gmap string V :=
  fold_left (λ m kv, <[kv.1 := kv.2]> m) kvs m.

(** The value the last pair with key [k] carries, in a list of
    assignments read left to right. *)
Fixpoint last_assoc {K V : Type} `{EqDecision K} (l : list (K * V)) (k : K)
  : option V :=
  match l with
  | [] => None
  | kv :: l' =>
      match last_assoc l' k with
      | Some v => Some v
      | None => if decide (kv.1 = k) then Some kv.2 else None
      end
  end.

(** ** Automation *)

Create HintDb rrd discriminated.
Create Rewrite HintDb rrd_simpl.

(** Close a decidable closed goal by evaluating its decision procedure. *)
Ltac compute_decide :=
  cbv zeta; apply (bool_decide_unpack _); vm_compute; exact I.

(** Invert hypotheses that say a bind succeeded or failed. *)
Ltac outcome_inv :=
  repeat match goal with
  | H : Ok _ = Ok _ |- _ => injection H as H; try subst
  | H : Ok _ = Err _ |- _ => discriminate H
  | H : Ok _ = Panic _ |- _ => discriminate H
  | H : Err _ = Ok _ |- _ => discriminate H
  | H : Err _ = Err _ |- _ => injection H as H; try subst
  | H : Err _ = Panic _ |- _ => discriminate H
  | H : Panic _ = Ok _ |- _ => discriminate H
  | H : Panic _ = Err _ |- _ => discriminate H
  | H : Panic _ = Panic _ |- _ => injection H as H; try subst
  | H : obind ?m _ = _ |- _ =>
      let E := fresh "E" in destruct m eqn:E; simpl in H
  end.

(** Case analysis on the scrutinee of the first bind of the goal. *)
Ltac case_obind :=
  match goal with
  | |- context [obind ?m _] =>
      let E := fresh "E" in destruct m eqn:E; simpl
  end.

(** ** Laws of the outcome monad *)

Section outcome_laws.
Context {A B C : Type}.
Implicit Types (m : outcome A) (f : A → outcome B) (g : B → outcome C).

Lemma obind_Ok_l (a : A) f : obind (Ok a) f = f a.
Proof. reflexivity. Qed.

Lemma obind_Ok_r m : obind m Ok = m.
Proof. by destruct m. Qed.

Lemma obind_assoc m f g :
  obind (obind m f) g = obind m (λ a, obind (f a) g).
Proof. by destruct m. Qed.

Lemma obind_Ok_inv m f (b : B) :
  obind m f = Ok b ↔ ∃ a, m = Ok a ∧ f a = Ok b.
Proof.
  split; [|by intros (a & -> & ?)].
  destruct m; simpl; [eauto|done..].
Qed.

Lemma obind_ext m f (f' : A → outcome B) :
  (∀ a, m = Ok a → f a = f' a) → obind m f = obind m f'.
Proof. destruct m; simpl; auto. Qed.

Lemma is_Ok_true m : is_Ok m = true ↔ ∃ a, m = Ok a.
Proof. destruct m; simpl; split; try done; eauto; by intros [? ?]. Qed.
End outcome_laws.

#[export] Hint Rewrite @obind_Ok_l @obind_Ok_r @obind_assoc : rrd_simpl.

(** ** Laws of the failing loops *)

Section foldM_laws.
Context {S A : Type}.
Implicit Types (f : S → A → outcome S) (l : list A) (s : S).

Lemma foldM_app f l1 l2 s :
  foldM f (l1 ++ l2) s = obind (foldM f l1 s) (foldM f l2).
Proof.
  revert s; induction l1 as [|a l1 IH]; intros s; simpl; [done|].
  destruct (f s a); simpl; auto.
Qed.

(** A loop whose body never fails is a plain left fold. *)
Lemma foldM_total f (g : S → A → S) l s :
  (∀ s a, f s a = Ok (g s a)) → foldM f l s = Ok (fold_left g l s).
Proof.
  intros Hf; revert s; induction l as [|a l IH]; intros s; simpl; [done|].
  by rewrite Hf; simpl.
Qed.

(** Invariant rule: what holds before the loop and is kept by every
    successful iteration holds after a successful loop. *)
Lemma foldM_invariant (P : S → Prop) f l s s' :
  P s → (∀ s a s', a ∈ l → P s → f s a = Ok s' → P s') →
  foldM f l s = Ok s' → P s'.
Proof.
  revert s; induction l as [|a l IH]; intros s Hs Hstep; simpl.
  - by intros [= <-].
  - destruct (f s a) as [s1| |] eqn:E; simpl; try done.
    apply IH.
    + eapply Hstep; [|done..]. by left.
    + intros ?????; eapply Hstep; [by right|done..].
Qed.

(** A loop whose body never panics with [p] does not either. *)
Lemma foldM_no_panic f l s p :
  (∀ s a, a ∈ l → f s a ≠ Panic p) → foldM f l s ≠ Panic p.
Proof.
  revert s; induction l as [|a l IH]; intros s Hf; simpl; [done|].
  destruct (f s a) as [s1| |q] eqn:E; simpl; [|done|].
  - apply IH. intros ???; apply Hf. by right.
  - rewrite <- E. apply Hf. by left.
Qed.

Lemma foldMi_app (f : S → nat → A → outcome S) i l1 l2 s :
  foldMi f i (l1 ++ l2) s
  = obind (foldMi f i l1 s) (foldMi f (i + length l1) l2).
Proof.
  revert i s; induction l1 as [|a l1 IH]; intros i s; simpl.
  - by rewrite Nat.add_0_r.
  - destruct (f s i a); simpl; [|done..].
    rewrite IH. by replace (Datatypes.S i + length l1) with (i + Datatypes.S (length l1)) by lia.
Qed.
End foldM_laws.

(** A loop whose every iteration appends a block to a list held in the
    state appends the blocks in order. *)
Lemma foldi_appends {S A B : Type} (proj : S → list B)
    (f : S → nat → A → S) (blk : nat → A → list B) (k : nat) (l : list A) (s : S) :
  (∀ s i a, proj (f s i a) = proj s ++ blk i a) →
  proj (foldi f k l s) = proj s ++ concat (imap (λ j, blk (k + j)) l).
Proof.
  intros Hf; revert k s; induction l as [|a l IH]; intros k s; simpl.
  - by rewrite app_nil_r.
  - rewrite IH, Hf, <- app_assoc, Nat.add_0_r. do 3 f_equal.
    apply imap_ext; intros; simpl. f_equal; lia.
Qed.

Lemma foldi_preserves {S A B : Type} (proj : S → B)
    (f : S → nat → A → S) (k : nat) (l : list A) (s : S) :
  (∀ s i a, proj (f s i a) = proj s) → proj (foldi f k l s) = proj s.
Proof.
  intros Hf; revert k s; induction l as [|a l IH]; intros k s; simpl; [done|].
  by rewrite IH.
Qed.

Lemma elem_of_concat {A : Type} (x : A) (ls : list (list A)) :
  x ∈ concat ls ↔ ∃ l, x ∈ l ∧ l ∈ ls.
Proof.
  induction ls as [|l ls IH]; simpl.
  - split; [by intros ?%elem_of_nil|]. by intros (l & _ & ?%elem_of_nil).
  - rewrite elem_of_app, IH. split.
    + intros [Hx|(l' & Hx & Hl')]; [exists l|exists l'];
        (split; [done|]); by constructor.
    + intros (l' & Hx & [->|Hl']%elem_of_cons); [by left|].
      right. by exists l'.
Qed.

Lemma length_concat_imap {A B : Type} (f : nat → A → list B) (n : nat) (l : list A) :
  (∀ i a, length (f i a) = n) → length (concat (imap f l)) = n * length l.
Proof.
  revert f; induction l as [|a l IH]; intros f Hf; simpl; [lia|].
  rewrite length_app, Hf, IH by (intros; apply Hf). lia.
Qed.

Lemma mapM_app {A B : Type} (f : A → outcome B) (l1 l2 : list A) :
  mapM f (l1 ++ l2)
  = let! bs1 := mapM f l1 in let! bs2 := mapM f l2 in Ok (bs1 ++ bs2).
Proof.
  induction l1 as [|a l1 IH]; simpl.
  - by destruct (mapM f l2).
  - destruct (f a); simpl; [|done..]. rewrite IH.
    destruct (mapM f l1); simpl; [|done..]. by destruct (mapM f l2).
Qed.

(** A function that succeeds on every element succeeds on the list. *)
Lemma mapM_total {A B : Type} (f : A → outcome B) (g : A → B) (l : list A) :
  (∀ a, a ∈ l → f a = Ok (g a)) → mapM f l = Ok (map g l).
Proof.
  induction l as [|a l IH]; intros Hf; simpl; [done|].
  rewrite Hf by (by left). simpl. rewrite IH; [done|].
  intros; apply Hf; by right.
Qed.

Lemma mapM_no_panic {A B : Type} (f : A → outcome B) (l : list A) p :
  (∀ a, a ∈ l → f a ≠ Panic p) → mapM f l ≠ Panic p.
Proof.
  induction l as [|a l IH]; intros Hf; simpl; [done|].
  destruct (f a) as [b| |q] eqn:E; simpl; [|done|].
  - assert (mapM f l ≠ Panic p) as Hl
      by (apply IH; intros ??; apply Hf; by right).
    by destruct (mapM f l).
  - intros [= ->]. by apply (Hf a); [left|].
Qed.

Lemma mapM_length {A B : Type} (f : A → outcome B) (l : list A) (bs : list B) :
  mapM f l = Ok bs → length bs = length l.
Proof.
  revert bs; induction l as [|a l IH]; intros bs; simpl; [by intros [= <-]|].
  destruct (f a); simpl; [|done..]. destruct (mapM f l); simpl; [|done..].
  intros [= <-]. simpl. f_equal. by apply IH.
Qed.

(** ** Successive assignments to a map *)

Section insert_all.
Context {V : Type}.
Implicit Types (kvs : list (string * V)) (m : gmap string V).

Lemma insert_all_cons k v kvs m :
  insert_all ((k, v) :: kvs) m = insert_all kvs (<[k := v]> m).
Proof. reflexivity. Qed.

Lemma insert_all_app kvs1 kvs2 m :
  insert_all (kvs1 ++ kvs2) m = insert_all kvs2 (insert_all kvs1 m).
Proof. apply fold_left_app. Qed.

Lemma insert_all_lookup_notin kvs m key :
  key ∉ kvs.*1 → insert_all kvs m !! key = m !! key.
Proof.
  revert m; induction kvs as [|[k v] kvs IH]; intros m Hnot; [done|].
  rewrite insert_all_cons. rewrite fmap_cons, not_elem_of_cons in Hnot.
  destruct Hnot as [Hk Hnot]. rewrite IH by done. by apply lookup_insert_ne.
Qed.

(** The last assignment to a key is the one that stays. *)
Lemma insert_all_lookup_last kvs1 kvs2 m key v :
  key ∉ kvs2.*1 → insert_all (kvs1 ++ (key, v) :: kvs2) m !! key = Some v.
Proof.
  intros Hnot. rewrite insert_all_app, insert_all_cons.
  rewrite insert_all_lookup_notin by done. apply lookup_insert_eq.
Qed.

Lemma insert_all_lookup_in kvs m key v :
  NoDup kvs.*1 → (key, v) ∈ kvs → insert_all kvs m !! key = Some v.
Proof.
  intros Hnd (kvs1 & kvs2 & ->)%list_elem_of_split.
  apply insert_all_lookup_last.
  rewrite fmap_app, fmap_cons in Hnd. apply NoDup_app in Hnd as (_ & _ & Hnd).
  by apply NoDup_cons in Hnd as [? _].
Qed.

(** The keys after the assignments: those of the map and those
    assigned. *)
Lemma insert_all_is_Some kvs m key :
  is_Some (insert_all kvs m !! key) ↔ is_Some (m !! key) ∨ key ∈ kvs.*1.
Proof.
  revert m; induction kvs as [|[k v] kvs IH]; intros m.
  - split; [by left|]. intros [?|Hin]; [done|]. by apply elem_of_nil in Hin.
  - rewrite insert_all_cons, IH, fmap_cons, elem_of_cons. cbn [fst].
    destruct (decide (k = key)) as [->|Hne].
    + rewrite lookup_insert_eq. split; [intros _; right; by left|eauto].
    + rewrite lookup_insert_ne by done. intuition congruence.
Qed.
End insert_all.

(** ** The last assignment to a key *)

Section last_assoc.
Context {K V : Type} `{EqDecision K}.
Implicit Types (l : list (K * V)) (k : K) (v : V).

Lemma last_assoc_app l1 l2 k :
  last_assoc (l1 ++ l2) k
  = match last_assoc l2 k with Some v => Some v | None => last_assoc l1 k end.
Proof.
  induction l1 as [|kv l1 IH]; simpl; [by destruct (last_assoc l2 k)|].
  rewrite IH. by destruct (last_assoc l2 k).
Qed.

Lemma last_assoc_None l k : last_assoc l k = None ↔ k ∉ l.*1.
Proof.
  induction l as [|[k' v'] l IH]; simpl.
  - split; [intros _; apply not_elem_of_nil|done].
  - rewrite not_elem_of_cons, <- IH.
    destruct (last_assoc l k); [intuition congruence|].
    case_decide; intuition congruence.
Qed.

Lemma last_assoc_Some_elem l k v : last_assoc l k = Some v → (k, v) ∈ l.
Proof.
  induction l as [|[k' v'] l IH]; simpl; [done|].
  destruct (last_assoc l k) as [v0|].
  - intros [= ->]. right; auto.
  - case_decide; [|done]. intros [= <-]. simpl in *; subst. by left.
Qed.

(** When no key is assigned twice, the last assignment is the only one. *)
Lemma last_assoc_NoDup l k v :
  NoDup l.*1 → last_assoc l k = Some v ↔ (k, v) ∈ l.
Proof.
  intros Hnd; split; [apply last_assoc_Some_elem|].
  induction l as [|[k' v'] l IH]; [by intros ?%elem_of_nil|].
  apply NoDup_cons in Hnd as [Hk' Hnd]. simpl in *.
  intros [[= <- <-]|Hin]%elem_of_cons.
  - apply last_assoc_None in Hk' as ->. by rewrite decide_True.
  - by rewrite (IH Hnd Hin).
Qed.

(** Then the order of the assignments does not matter. *)
Lemma last_assoc_Permutation l l' k :
  NoDup l.*1 → l ≡ₚ l' → last_assoc l k = last_assoc l' k.
Proof.
  intros Hnd Hp. assert (NoDup l'.*1) as Hnd' by (by rewrite <- Hp).
  apply option_eq; intros v. rewrite !last_assoc_NoDup by done. by rewrite Hp.
Qed.

End last_assoc.
