(* ===== verification/Stateful.v ===== *)
(** * Code that updates state and may fail

    [Refresh] updates the catalog, sends on channels and writes to the log
    while it runs, and what it has done stays done when it stops early.
    Such code is a function from the state to the new state and an
    [outcome]: the state is kept on every path, the failing ones too.
    This file has the monad, its loop, Go's [defer], and their laws. *)

From Stdlib Require Import String List.
From stdpp Require Import base tactics option list.
From S2P Require Import Prelude.

(** A computation over a state [S] that returns an [A], fails with an error
    or panics. *)
Definition stateful (S A : Type) : Type := S → S * outcome A.

Definition sret {S A : Type} (a : A) : stateful S A := λ s, (s, Ok a).

Definition sbind {S A B : Type} (m : stateful S A) (k : A → stateful S B)
  : stateful S B :=
  λ s, match m s with
       | (s', Ok a) => k a s'
       | (s', Err e) => (s', Err e)
       | (s', Panic p) => (s', Panic p)
       end.

(** [return err]. *)
Definition sfail {S A : Type} (e : string) : stateful S A := λ s, (s, Err e).

(** A value that is computed without the state and may fail. *)
Definition slift {S A : Type} (o : outcome A) : stateful S A := λ s, (s, o).

(** Read a part of the state. *)
Definition sgets {S A : Type} (f : S → A) : stateful S A := λ s, (s, Ok (f s)).

(** Update the state. *)
Definition smodify {S : Type} (f : S → S) : stateful S unit := λ s, (f s, Ok tt).

(** Update the state by a step that may fail; a failing step leaves the
    state as it is. *)
Definition supdate {S : Type} (f : S → outcome S) : stateful S unit :=
  λ s, match f s with
       | Ok s' => (s', Ok tt)
       | Err e => (s, Err e)
       | Panic p => (s, Panic p)
       end.

Notation "'do!' x ':=' e 'in' k" := (sbind e (λ x, k))
  (at level 10, x name, e at level 100, k at level 200,
   format "'[' 'do!'  x  ':='  e  'in'  '/' k ']'") : go_scope.
Notation "'do!' ' p ':=' e 'in' k" := (sbind e (λ p, k))
  (at level 10, p pattern, e at level 100, k at level 200,
   format "'[' 'do!'  ' p  ':='  e  'in'  '/' k ']'") : go_scope.

(** A [for ... range] loop over stateful steps; the first failure ends it. *)
Fixpoint sfor {S A : Type} (l : list A) (f : A → stateful S unit)
  : stateful S unit :=
  match l with
  | [] => sret tt
  | a :: l' => do! _ := f a in sfor l' f
  end.

(** [defer d] before [body]: [d] runs when [body] is left, however it is
    left; a panic of [d] replaces the outcome of [body]. *)
Definition sdefer {S A : Type} (d : stateful S unit) (body : stateful S A)
  : stateful S A :=
  λ s, let '(s1, r) := body s in
       match d s1 with
       | (s2, Panic p) => (s2, Panic p)
       | (s2, _) => (s2, r)
       end.

(** [if err := m; err != nil { h err }]. *)
Definition scatch {S : Type} (m : stateful S unit) (h : string → stateful S unit)
  : stateful S unit :=
  λ s, match m s with
       | (s', Err e) => h e s'
       | r => r
       end.

(** ** Specifications *)

(** How a computation may fail. *)
Inductive failure : Type :=
| Failed (e : string)
| Panicked (p : go_panic).

Definition failure_of {A : Type} (r : outcome A) : option failure :=
  match r with
  | Ok _ => None
  | Err e => Some (Failed e)
  | Panic p => Some (Panicked p)
  end.

(** [triple P F m Q]: started in a state of [P], [m] leaves a state of [Q]
    on every path, the failing ones included, and fails in [F] only. *)
Definition triple {S A : Type} (P : S → Prop) (F : failure → Prop)
    (m : stateful S A) (Q : S → Prop) : Prop :=
  ∀ s, P s → Q (m s).1 ∧ ∀ f, failure_of (m s).2 = Some f → F f.

(** No failure at all. *)
Definition never : failure → Prop := λ _, False.

(** Any failure. *)
Definition any_failure : failure → Prop := λ _, True.

(** Panics only, and only those of [allowed]. *)
Definition panics_in (allowed : go_panic → Prop) : failure → Prop :=
  λ f, match f with Failed _ => False | Panicked p => allowed p end.

(** ** Laws *)

Section stateful_laws.
Context {S A B C : Type}.
Implicit Types (s : S) (m : stateful S A) (k : A → stateful S B).

Lemma sbind_sret_l (a : A) k s : sbind (sret a) k s = k a s.
Proof. done. Qed.

Lemma sbind_sret_r m s : sbind m sret s = m s.
Proof. unfold sbind, sret. by destruct (m s) as [s' [a| |]]. Qed.

Lemma sbind_assoc m k (g : B → stateful S C) s :
  sbind (sbind m k) g s = sbind m (λ a, sbind (k a) g) s.
Proof. unfold sbind. by destruct (m s) as [s' [a| |]]. Qed.

Lemma sbind_Ok m k s s' a : m s = (s', Ok a) → sbind m k s = k a s'.
Proof. unfold sbind. by intros ->. Qed.

Lemma sbind_Err m k s s' e : m s = (s', Err e) → sbind m k s = (s', Err e).
Proof. unfold sbind. by intros ->. Qed.

Lemma sbind_Panic m k s s' p : m s = (s', Panic p) → sbind m k s = (s', Panic p).
Proof. unfold sbind. by intros ->. Qed.

(** What holds of the state after [m] and is kept by [k] holds after
    both. *)
Lemma sbind_state (I : S → Prop) m k s :
  I (m s).1 → (∀ a s', I s' → I (k a s').1) → I (sbind m k s).1.
Proof. unfold sbind. destruct (m s) as [s' [a| |]]; simpl; auto. Qed.

End stateful_laws.

Section sfor_laws.
Context {S A : Type}.
Implicit Types (s : S) (f : A → stateful S unit) (l : list A).

Lemma sfor_app l1 l2 f s :
  sfor (l1 ++ l2) f s = sbind (sfor l1 f) (λ _, sfor l2 f) s.
Proof.
  revert s; induction l1 as [|a l1 IH]; intros s; cbn [sfor app]; [done|].
  rewrite sbind_assoc. unfold sbind at 1 2.
  destruct (f a s) as [s' [[]| |]]; [apply IH|done..].
Qed.

(** An invariant of the state that every step keeps, failing or not, holds
    when the loop is left. *)
Lemma sfor_state (I : S → Prop) l f s :
  (∀ a s, a ∈ l → I s → I (f a s).1) → I s → I (sfor l f s).1.
Proof.
  revert s; induction l as [|a l IH]; intros s Hf Hs; [done|].
  cbn [sfor]. apply sbind_state; [apply Hf; [left|done]|].
  intros _ s' Hs'. apply IH; [|done]. intros; apply Hf; [by right|done].
Qed.

(** A loop of steps that succeed succeeds. *)
Lemma sfor_Ok (I : S → Prop) l f s :
  (∀ a s, a ∈ l → I s → (f a s).2 = Ok tt ∧ I (f a s).1) → I s →
  (sfor l f s).2 = Ok tt ∧ I (sfor l f s).1.
Proof.
  revert s; induction l as [|a l IH]; intros s Hf Hs; [done|].
  cbn [sfor]. unfold sbind.
  destruct (Hf a s ltac:(left) Hs) as [Hr Hi].
  destruct (f a s) as [s' r]; simpl in *; subst r.
  apply IH; [|done]. intros; apply Hf; [by right|done].
Qed.

(** The loop as a fold, when no step fails. *)
Lemma sfor_fold l f (g : S → A → S) s :
  (∀ a s, f a s = (g s a, Ok tt)) → sfor l f s = (fold_left g l s, Ok tt).
Proof.
  intros Hf. revert s; induction l as [|a l IH]; intros s; [done|].
  cbn [sfor fold_left]. unfold sbind. by rewrite Hf, IH.
Qed.

End sfor_laws.

Section sdefer_laws.
Context {S A : Type}.
Implicit Types (s : S) (d : stateful S unit) (body : stateful S A).

(** The deferred call runs on the state the body leaves. *)
Lemma sdefer_state d body s : (sdefer d body s).1 = (d (body s).1).1.
Proof.
  unfold sdefer. destruct (body s) as [s1 r]; simpl.
  by destruct (d s1) as [s2 [[]| |]].
Qed.

(** A deferred call that returns leaves the outcome of the body. *)
Lemma sdefer_outcome d body s :
  (d (body s).1).2 = Ok tt → (sdefer d body s).2 = (body s).2.
Proof.
  unfold sdefer. destruct (body s) as [s1 r]; simpl.
  destruct (d s1) as [s2 [[]| |]]; simpl; congruence.
Qed.

End sdefer_laws.

(** ** Rules *)

Section triple_rules.
Context {S : Type}.
Implicit Types (P Q R I : S → Prop) (F : failure → Prop).

Lemma triple_weaken {A} P P' F F' (m : stateful S A) Q Q' :
  triple P F m Q → (∀ s, P' s → P s) → (∀ s, Q s → Q' s) → (∀ f, F f → F' f) →
  triple P' F' m Q'.
Proof. intros Hm HP HQ HF s Hs. destruct (Hm s (HP s Hs)); split; eauto. Qed.

Lemma triple_sret {A} I F (a : A) : triple I F (sret a) I.
Proof. by intros s Hs. Qed.

Lemma triple_sfail {A} I F e : F (Failed e) → triple I F (sfail (A:=A) e) I.
Proof. intros HF s Hs; split; [done|]. by intros f [= <-]. Qed.

Lemma triple_slift {A} I F (o : outcome A) :
  (∀ f, failure_of o = Some f → F f) → triple I F (slift o) I.
Proof. by intros HF s Hs. Qed.

Lemma triple_sgets {A} I F (g : S → A) : triple I F (sgets g) I.
Proof. by intros s Hs. Qed.

Lemma triple_smodify P F (g : S → S) Q :
  (∀ s, P s → Q (g s)) → triple P F (smodify g) Q.
Proof. intros Hg s Hs; split; [by apply Hg|done]. Qed.

Lemma triple_supdate P F (g : S → outcome S) Q :
  (∀ s, P s → match g s with
              | Ok s' => Q s'
              | Err e => Q s ∧ F (Failed e)
              | Panic p => Q s ∧ F (Panicked p)
              end) →
  triple P F (supdate g) Q.
Proof.
  intros Hg s Hs. specialize (Hg s Hs). unfold supdate.
  destruct (g s); simpl; [done|..]; destruct Hg; (split; [done|]);
    by intros f [= <-].
Qed.

Lemma triple_sbind {A B} P F (m : stateful S A) (k : A → stateful S B) Q :
  triple P F m Q → (∀ a, triple Q F (k a) Q) → triple P F (sbind m k) Q.
Proof.
  intros Hm Hk s Hs. destruct (Hm s Hs) as [HQ HF]. unfold sbind.
  destruct (m s) as [s' [a| |]]; simpl in *; [by apply Hk|done..].
Qed.

(** Sequencing where the first part establishes more than is kept. *)
Lemma triple_seq {A B} P F (m : stateful S A) (k : A → stateful S B) Q R :
  triple P F m Q → (∀ a, triple Q F (k a) R) → (∀ s, Q s → R s) →
  triple P F (sbind m k) R.
Proof.
  intros Hm Hk HQR s Hs. destruct (Hm s Hs) as [HQ HF]. unfold sbind.
  destruct (m s) as [s' [a| |]]; simpl in *; [by apply Hk|split; auto..].
Qed.

Lemma triple_sfor {A} I F (l : list A) (f : A → stateful S unit) :
  (∀ a, a ∈ l → triple I F (f a) I) → triple I F (sfor l f) I.
Proof.
  induction l as [|a l IH]; intros Hf; [apply triple_sret|].
  cbn [sfor]. apply triple_sbind; [apply Hf; left|].
  intros _. apply IH. intros; apply Hf; by right.
Qed.

Lemma triple_scatch P F F' (m : stateful S unit) (h : string → stateful S unit) Q R :
  triple P F' m Q → (∀ e, F' (Failed e) → triple Q F (h e) R) →
  (∀ s, Q s → R s) → (∀ p, F' (Panicked p) → F (Panicked p)) →
  triple P F (scatch m h) R.
Proof.
  intros Hm Hh HQR Hp s Hs. destruct (Hm s Hs) as [HQ HF]. unfold scatch.
  destruct (m s) as [s' [[]|e|p]]; simpl in *; [by split; auto| |].
  - by apply Hh; [apply HF|].
  - split; [by auto|]. intros f [= <-]. by apply Hp, HF.
Qed.

Lemma triple_sdefer {A} P F (d : stateful S unit) (body : stateful S A) Q R :
  triple P F body Q → triple Q F d R → triple P F (sdefer d body) R.
Proof.
  intros Hb Hd s Hs. destruct (Hb s Hs) as [HQ HF]. unfold sdefer.
  destruct (body s) as [s1 r]; simpl in *.
  destruct (Hd s1 HQ) as [HR HF']. destruct (d s1) as [s2 [[]|e|p]]; simpl in *;
    (split; [done|]); auto.
Qed.

End triple_rules.

#[export] Hint Resolve triple_sret triple_sgets triple_sbind triple_sfor : rrd.
