(* ===== verification/GoStrings.v ===== *)
(** * Go's string library, as far as the connector uses it

    [Itoa] ([strconv.Itoa], and the verb [%d] of [fmt.Sprintf]),
    [Join] ([strings.Join]) and [SplitN] ([strings.SplitN] with a one-byte
    separator), with the facts the connector's correctness rests on:
    decimal printing is injective and produces digits only, and a line
    joined with a separator splits back into its fields when the leading
    fields do not contain the separator. *)

From Stdlib Require Import ZArith String Ascii List Lia.
From Stdlib Require Import DecimalString DecimalZ DecimalPos DecimalFacts.
From stdpp Require Import base tactics option list strings.
From S2P Require Import Prelude.

(** ** Definitions *)

(** [strconv.Itoa(n)], which is also what [%d] prints. *)
Definition Itoa (n : Z) : string :=
  NilEmpty.string_of_int (Z.to_int n).

(** [strings.Join(l, sep)]. *)
Fixpoint Join (l : list string) (sep : string) : string :=
  match l with
  | [] => ""
  | [a] => a
  | a :: l' => a +:+ sep +:+ Join l' sep
  end.

(** [strings.Cut(s, sep)] for a one-byte [sep]: the text before the first
    [sep] and the text after it, or [None] when [sep] does not occur. *)
Fixpoint Cut (s : string) (sep : ascii) : option (string * string) :=
  match s with
  | EmptyString => None
  | String c s' =>
      if Ascii.eqb c sep then Some (EmptyString, s')
      else match Cut s' sep with
           | Some (a, r) => Some (String c a, r)
           | None => None
           end
  end.

(** [strings.SplitN(s, sep, n)] for a one-byte [sep] and [n >= 0]: at most
    [n] fields, the last one being the unsplit remainder; no field at all
    for [n = 0]. *)
Fixpoint SplitN (s : string) (sep : ascii) (n : nat) : list string :=
  match n with
  | 0 => []
  | S n' =>
      match n' with
      | 0 => [s]
      | S _ =>
          match Cut s sep with
          | Some (a, r) => a :: SplitN r sep n'
          | None => [s]
          end
      end
  end.

(** Every byte of the string satisfies [P]. *)
Fixpoint string_forall (P : ascii → bool) (s : string) : bool :=
  match s with
  | EmptyString => true
  | String c s' => P c && string_forall P s'
  end.

Definition is_digit (c : ascii) : bool :=
  let n := nat_of_ascii c in (48 <=? n)%nat && (n <=? 57)%nat.

(** The string has no occurrence of the byte [sep]. *)
Definition free_of (sep : ascii) (s : string) : bool :=
  string_forall (λ c, negb (Ascii.eqb c sep)) s.

(** The [p] low decimal digits of [n], most significant first, padded with
    zeros on the left: what follows the decimal point in [%.pf]. *)
Definition digit_char (d : Z) : ascii := ascii_of_nat (48 + Z.to_nat d).

Fixpoint pad_digits (p : nat) (n : Z) : string :=
  match p with
  | 0 => EmptyString
  | S p' => pad_digits p' (n / 10) +:+ String (digit_char (n mod 10)) EmptyString
  end.

Arguments digit_char : simpl never.
Arguments is_digit : simpl never.

(** The number of occurrences of a byte. *)
Fixpoint count_byte (sep : ascii) (s : string) : nat :=
  match s with
  | EmptyString => 0
  | String c s' => (if Ascii.eqb c sep then 1 else 0) + count_byte sep s'
  end.

(** The string does not start with a digit. *)
Definition no_digit_head (s : string) : bool :=
  match s with
  | EmptyString => true
  | String c _ => negb (is_digit c)
  end.

(** [s[n:]]: the bytes of [s] from index [n] on. *)
Fixpoint string_drop (n : nat) (s : string) : string :=
  match n, s with
  | O, _ => s
  | S n', String _ s' => string_drop n' s'
  | S _, EmptyString => EmptyString
  end.

(** The slice expression [s[n:]] with its bounds check. *)
Definition slice_from (n : nat) (s : string) : outcome string :=
  if (n <=? String.length s)%nat then Ok (string_drop n s)
  else Panic SliceOutOfRange.

(** ** Strings: append and bytewise predicates *)

#[local] Arguments String.append !_ _ / : simpl nomatch.

Lemma string_app_nil_r (s : string) : s +:+ "" = s.
Proof. induction s; simpl; congruence. Qed.

Lemma string_app_char (c : ascii) (s : string) : String c "" +:+ s = String c s.
Proof. reflexivity. Qed.

Lemma string_app_assoc (a b c : string) : (a +:+ b) +:+ c = a +:+ b +:+ c.
Proof. induction a; simpl; congruence. Qed.

Lemma string_app_length (a b : string) :
  String.length (a +:+ b) = String.length a + String.length b.
Proof. induction a; simpl; congruence. Qed.

(** Appending the same suffix is injective. *)
Lemma string_app_inj_r (a b t : string) : a +:+ t = b +:+ t → a = b.
Proof.
  revert b; induction a as [|c a IH]; intros [|d b] H; simpl in *; try done.
  - apply (f_equal String.length) in H; simpl in H.
    rewrite string_app_length in H; lia.
  - apply (f_equal String.length) in H; simpl in H.
    rewrite string_app_length in H; lia.
  - injection H as -> H. f_equal; auto.
Qed.

Lemma string_forall_app P (a b : string) :
  string_forall P (a +:+ b) = string_forall P a && string_forall P b.
Proof. induction a; simpl; [done|]. rewrite IHa. by rewrite andb_assoc. Qed.

Lemma string_forall_impl (P Q : ascii → bool) (s : string) :
  (∀ c, P c = true → Q c = true) →
  string_forall P s = true → string_forall Q s = true.
Proof.
  intros HPQ; induction s; simpl; [done|].
  intros [? ?]%andb_true_iff. apply andb_true_iff; auto.
Qed.

Lemma free_of_app sep (a b : string) :
  free_of sep (a +:+ b) = free_of sep a && free_of sep b.
Proof. apply string_forall_app. Qed.

Lemma digits_free_of (sep : ascii) (s : string) :
  is_digit sep = false → string_forall is_digit s = true → free_of sep s = true.
Proof.
  intros Hsep. apply string_forall_impl. intros c Hc.
  destruct (Ascii.eqb_spec c sep) as [->|]; [congruence|done].
Qed.

#[export] Hint Rewrite string_app_nil_r string_app_assoc string_forall_app
  free_of_app : rrd_simpl.

(** ** Decimal printing *)

Lemma string_of_uint_digits (d : Decimal.uint) :
  string_forall is_digit (NilEmpty.string_of_uint d) = true.
Proof. induction d; cbn [NilEmpty.string_of_uint string_forall]; auto. Qed.

Lemma Itoa_digits (n : Z) :
  (0 <= n)%Z → string_forall is_digit (Itoa n) = true.
Proof.
  intros Hn. unfold Itoa. destruct n as [|p|p]; [done| |lia].
  apply string_of_uint_digits.
Qed.

Lemma Itoa_inj (a b : Z) : Itoa a = Itoa b → a = b.
Proof.
  unfold Itoa; intros H.
  apply (f_equal NilEmpty.int_of_string) in H.
  rewrite !NilEmpty.isi in H. injection H as H.
  apply (f_equal Z.of_int) in H. by rewrite !DecimalZ.of_to in H.
Qed.

Lemma Itoa_nonempty (n : Z) : Itoa n ≠ "".
Proof.
  unfold Itoa. destruct n as [|p|p]; simpl; try done.
  destruct (Pos.to_uint p) eqn:E; simpl; try done.
  by apply Unsigned.to_uint_nonnil in E.
Qed.

Lemma pad_digit_is_digit (n : Z) : is_digit (digit_char (n mod 10)) = true.
Proof.
  assert (0 <= n mod 10 < 10)%Z as H by (apply Z.mod_pos_bound; lia).
  unfold is_digit, digit_char. rewrite nat_ascii_embedding by lia.
  apply andb_true_iff; split; apply Nat.leb_le; lia.
Qed.

Lemma pad_digits_length (p : nat) (n : Z) : String.length (pad_digits p n) = p.
Proof.
  revert n; induction p as [|p IH]; intros n; simpl; [done|].
  rewrite string_app_length, IH; simpl; lia.
Qed.

Lemma pad_digits_digits (p : nat) (n : Z) :
  string_forall is_digit (pad_digits p n) = true.
Proof.
  revert n; induction p as [|p IH]; intros n; cbn [pad_digits]; [done|].
  rewrite string_forall_app, IH. cbn [string_forall andb].
  by rewrite pad_digit_is_digit.
Qed.

(** ** Cut, SplitN and Join *)

Lemma free_of_cons sep c (s : string) :
  free_of sep (String c s) = negb (Ascii.eqb c sep) && free_of sep s.
Proof. reflexivity. Qed.

Lemma Cut_None s sep : Cut s sep = None ↔ free_of sep s = true.
Proof.
  induction s as [|c s IH]; [done|].
  rewrite free_of_cons. simpl.
  destruct (Ascii.eqb c sep); simpl; [done|].
  destruct (Cut s sep) as [[a r]|]; [|tauto].
  split; [done|]. intros H. by apply IH in H.
Qed.

(** The first separator after a separator-free prefix is where [Cut] cuts. *)
Lemma Cut_app s sep r :
  free_of sep s = true →
  Cut (s +:+ String sep r) sep = Some (s, r).
Proof.
  induction s as [|c s IH]; simpl.
  - by rewrite Ascii.eqb_refl.
  - rewrite free_of_cons. intros [Hc Hs]%andb_true_iff.
    apply negb_true_iff in Hc. by rewrite Hc, IH.
Qed.

Lemma Cut_Some s sep a r :
  Cut s sep = Some (a, r) → s = a +:+ String sep r ∧ free_of sep a = true.
Proof.
  revert a; induction s as [|c s IH]; intros a; simpl; [done|].
  destruct (Ascii.eqb_spec c sep) as [->|Hne].
  - by intros [= <- <-].
  - destruct (Cut s sep) as [[a' r']|]; [|done].
    intros [= <- <-]. destruct (IH a' eq_refl) as [-> Ha]. split; [done|].
    rewrite free_of_cons, Ha. by apply Ascii.eqb_neq in Hne as ->.
Qed.

Lemma SplitN_length s sep n : length (SplitN s sep n) ≤ n.
Proof.
  revert s; induction n as [|[|n] IH]; intros s; simpl; [lia..|].
  destruct (Cut s sep) as [[a r]|]; simpl; [|lia].
  specialize (IH r). simpl in IH. lia.
Qed.

Lemma SplitN_nonempty s sep n : 0 < n → SplitN s sep n ≠ [].
Proof.
  destruct n as [|[|n]]; simpl; [lia|done|].
  by destruct (Cut s sep) as [[a r]|].
Qed.

(** Splitting loses nothing: joining the fields gives the line back. *)
Lemma Join_SplitN s sep n :
  0 < n → Join (SplitN s sep n) (String sep "") = s.
Proof.
  revert s; induction n as [|[|n] IH]; intros s Hn; [lia|done|].
  change (SplitN s sep (S (S n))) with
    (match Cut s sep with
     | Some (a, r) => a :: SplitN r sep (S n)
     | None => [s]
     end).
  destruct (Cut s sep) as [[a r]|] eqn:E; [|done].
  apply Cut_Some in E as [-> _].
  pose proof (SplitN_nonempty r sep (S n) ltac:(lia)) as Hne.
  specialize (IH r ltac:(lia)).
  destruct (SplitN r sep (S n)) as [|b l] eqn:El; [done|].
  simpl in *. by rewrite IH.
Qed.

(** A field that has no separator is split off whole. *)
Lemma SplitN_cons s sep r n :
  free_of sep s = true →
  SplitN (s +:+ String sep r) sep (S (S n)) = s :: SplitN r sep (S n).
Proof. intros Hs. simpl. by rewrite Cut_app. Qed.

Lemma SplitN_free s sep n :
  free_of sep s = true → 0 < n → SplitN s sep n = [s].
Proof.
  intros Hs Hn. destruct n as [|[|n]]; [lia|done|].
  simpl. by apply Cut_None in Hs as ->.
Qed.

(** The line [a,b,c] splits into its three fields when [a] and [b] have no
    comma; [c] may have any. *)
Lemma SplitN_3 (a b c : string) (sep : ascii) :
  free_of sep a = true → free_of sep b = true →
  SplitN (a +:+ String sep (b +:+ String sep c)) sep 3 = [a; b; c].
Proof. intros Ha Hb. by rewrite !SplitN_cons. Qed.

(** ** Slices *)

Lemma string_drop_app (a b : string) : string_drop (String.length a) (a +:+ b) = b.
Proof. induction a; simpl; auto. Qed.

Lemma slice_from_app (a b : string) : slice_from (String.length a) (a +:+ b) = Ok b.
Proof.
  unfold slice_from. rewrite string_app_length, string_drop_app.
  by destruct (Nat.leb_spec (String.length a) (String.length a + String.length b));
    [|lia].
Qed.

Lemma slice_from_short (n : nat) (s : string) :
  String.length s < n → slice_from n s = Panic SliceOutOfRange.
Proof.
  intros Hlt. unfold slice_from.
  by destruct (Nat.leb_spec n (String.length s)); [lia|].
Qed.

(** ** Numbers inside names *)

Lemma string_app_inj_l (a x y : string) : a +:+ x = a +:+ y → x = y.
Proof. induction a as [|c a IH]; simpl; [done|]. intros [= ?]. auto. Qed.

(** A run of digits that is followed by something else than a digit is
    found again: two such texts are equal only when the digits and what
    follows them are. *)
Lemma digits_prefix_inj (a b s s' : string) :
  string_forall is_digit a = true → string_forall is_digit b = true →
  no_digit_head s = true → no_digit_head s' = true →
  a +:+ s = b +:+ s' → a = b ∧ s = s'.
Proof.
  revert b; induction a as [|c a IH]; intros [|c' b]; simpl;
    intros Ha Hb Hs Hs' Heq.
  - done.
  - subst s. simpl in Hs. apply andb_prop in Hb as [Hc _].
    by rewrite Hc in Hs.
  - subst s'. simpl in Hs'. apply andb_prop in Ha as [Hc _].
    by rewrite Hc in Hs'.
  - injection Heq as -> Heq.
    apply andb_prop in Ha as [_ Ha]. apply andb_prop in Hb as [_ Hb].
    by destruct (IH b Ha Hb Hs Hs' Heq) as [-> ->].
Qed.

Lemma Itoa_app_inj (n n' : Z) (s s' : string) :
  (0 ≤ n)%Z → (0 ≤ n')%Z → no_digit_head s = true → no_digit_head s' = true →
  Itoa n +:+ s = Itoa n' +:+ s' → n = n' ∧ s = s'.
Proof.
  intros Hn Hn' Hs Hs' Heq.
  destruct (digits_prefix_inj _ _ _ _ (Itoa_digits n Hn) (Itoa_digits n' Hn') Hs Hs' Heq)
    as [?%Itoa_inj ?]. done.
Qed.

(** ** Counting separators *)

Lemma count_byte_app sep (a b : string) :
  count_byte sep (a +:+ b) = count_byte sep a + count_byte sep b.
Proof. induction a as [|c a IH]; simpl; [done|]. rewrite IH. lia. Qed.

Lemma free_of_count sep (s : string) :
  free_of sep s = true ↔ count_byte sep s = 0.
Proof.
  induction s as [|c s IH]; [done|]. rewrite free_of_cons. simpl.
  destruct (Ascii.eqb c sep); simpl; [split; [done|lia]|done].
Qed.

(** A string with a separator is cut at the first one. *)
Lemma Cut_count s sep :
  0 < count_byte sep s →
  ∃ a r, Cut s sep = Some (a, r) ∧ count_byte sep r = pred (count_byte sep s).
Proof.
  intros Hpos. destruct (Cut s sep) as [[a r]|] eqn:E.
  - exists a, r. split; [done|]. apply Cut_Some in E as [-> Ha%free_of_count].
    rewrite count_byte_app, Ha. simpl. by rewrite Ascii.eqb_refl.
  - apply Cut_None, free_of_count in E. lia.
Qed.

(** A line with two separators has three fields. *)
Lemma SplitN_3_count s sep :
  2 ≤ count_byte sep s → ∃ a b c, SplitN s sep 3 = [a; b; c].
Proof.
  intros Hs. destruct (Cut_count s sep) as (a & r & Ha & Hr); [lia|].
  destruct (Cut_count r sep) as (b & c & Hb & _); [lia|].
  exists a, b, c. simpl. by rewrite Ha, Hb.
Qed.
