(* ===== verification/Float64.v ===== *)
(** * Go's float64, as far as the connector uses it

    Values are IEEE 754 binary64 numbers in the representation of the
    Standard Library's [SpecFloat] (precision 53, maximal exponent 1024).
    The connector compares scales with zero, tests whether a percentile
    has a fractional part ([percentile - float64(int(percentile)) != 0])
    and prints floats with the verbs [%f], [%.2f] and [%.0f]; this file
    models exactly those operations.

    Printing follows [strconv.FormatFloat(x, 'f', p, 64)]: the exact
    binary value is rounded to [p] decimals, ties to even. *)

From Stdlib Require Import ZArith String Ascii List Lia.
From Stdlib Require Import Floats.SpecFloat DecimalString DecimalPos.
From stdpp Require Import base tactics option list strings.
From S2P Require Import Prelude GoStrings.

#[local] Open Scope Z_scope.

(** ** Definitions *)

Abbreviation float64 := spec_float.

#[export] Instance float64_eq_dec : EqDecision float64.
Proof. solve_decision. Defined.

(** [math.NaN()]. *)
Definition NaN : float64 := S754_nan.

Definition f64_zero : float64 := S754_zero false.

(** A value a float64 variable can hold. *)
Definition f64_valid (x : float64) : bool := valid_binary 53 1024 x.

(** The conversion [float64(n)] of an integer. *)
Definition f64_of_int (n : Z) : float64 := binary_normalize 53 1024 n 0 false.

Definition f64_sub (x y : float64) : float64 := SFsub 53 1024 x y.

(** Go's [x != y] on floats: true as soon as one side is NaN. *)
Definition f64_neqb (x y : float64) : bool := negb (SFeqb x y).

(** Arithmetic on samples: IEEE 754 binary64 operations, rounded to
    nearest, ties to even. *)
Definition f64_add (x y : float64) : float64 := SFadd 53 1024 x y.
Definition f64_mul (x y : float64) : float64 := SFmul 53 1024 x y.
Definition f64_div (x y : float64) : float64 := SFdiv 53 1024 x y.

Definition f64_is_nan (x : float64) : bool :=
  match x with S754_nan => true | _ => false end.

Definition int64_min : Z := - 2 ^ 63.
Definition int64_max : Z := 2 ^ 63 - 1.

(** The conversion [int(x)] on a 64-bit platform: truncation toward zero.
    The language leaves the result open when the truncated value does not
    fit; amd64 yields the smallest int64 then, and for NaN. *)
Definition int_of_f64 (x : float64) : Z :=
  match x with
  | S754_zero _ => 0
  | S754_finite s m e =>
      let a := if 0 <=? e then Zpos m * 2 ^ e else Zpos m / 2 ^ (- e) in
      let v := if s then - a else a in
      if (int64_min <=? v) && (v <=? int64_max) then v else int64_min
  | _ => int64_min
  end.

(** The test [x - float64(int(x)) != 0] of rrdSetGraph. *)
Definition has_fraction (x : float64) : bool :=
  f64_neqb (f64_sub x (f64_of_int (int_of_f64 x))) f64_zero.

(** [num / den] rounded to the nearest integer, ties to even;
    for [0 <= num] and [0 < den]. *)
Definition round_half_even (num den : Z) : Z :=
  let q := num / den in
  match 2 * (num mod den) ?= den with
  | Lt => q
  | Eq => if Z.even q then q else q + 1
  | Gt => q + 1
  end.

(** [m * 2^e * 10^p] rounded to an integer: the digits [%.pf] prints,
    without the decimal point. *)
Definition scaled_digits (p : nat) (m : positive) (e : Z) : Z :=
  if 0 <=? e then Zpos m * 2 ^ e * 10 ^ Z.of_nat p
  else round_half_even (Zpos m * 10 ^ Z.of_nat p) (2 ^ (- e)).

(** The non-negative integer [n], read as a number with [p] decimals. *)
Definition fixed_string (p : nat) (n : Z) : string :=
  Itoa (n / 10 ^ Z.of_nat p)
  +:+ match p with
      | O => ""
      | S _ => "." +:+ pad_digits p (n mod 10 ^ Z.of_nat p)
      end.

Definition sign_string (s : bool) : string := if s then "-" else "".

(** [fmt.Sprintf("%.pf", x)]; the verb [%f] is [p = 6]. *)
Definition format_f (p : nat) (x : float64) : string :=
  match x with
  | S754_nan => "NaN"
  | S754_infinity false => "+Inf"
  | S754_infinity true => "-Inf"
  | S754_zero s => sign_string s +:+ fixed_string p 0
  | S754_finite s m e => sign_string s +:+ fixed_string p (scaled_digits p m e)
  end.

(** The float64 nearest to [(-1)^neg * n / 10^k], ties to even. *)
Definition f64_of_decimal (neg : bool) (n : Z) (k : nat) : float64 :=
  match n with
  | Zpos p =>
      SFdiv 53 1024 (S754_finite neg p 0)
        (S754_finite false (Z.to_pos (10 ^ Z.of_nat k)) 0)
  | _ => S754_zero neg
  end.

(** The number a string of decimal digits denotes, after the digits
    [acc] read before it; [None] when a byte is not a digit. *)
Fixpoint digits_value (s : string) (acc : Z) : option Z :=
  match s with
  | EmptyString => Some acc
  | String c s' =>
      if is_digit c
      then digits_value s' (10 * acc + (Z.of_nat (nat_of_ascii c) - 48))
      else None
  end.

(** The sign of a literal, and the literal without it. *)
Definition split_sign (s : string) : bool * string :=
  match s with
  | String c r =>
      if Ascii.eqb c "-" then (true, r)
      else if Ascii.eqb c "+" then (false, r)
      else (false, s)
  | EmptyString => (false, s)
  end.

(** [strconv.ParseFloat(s, 64)] on plain decimal literals: an optional
    sign, digits, and optionally a point and more digits, with a digit on
    one side of the point at least.  The other syntaxes the Go function
    accepts (exponents, hexadecimal, infinities, NaN) are not covered: this
    function answers [None] for them. *)
Definition ParseFloat_decimal (s : string) : option float64 :=
  let '(neg, body) := split_sign s in
  let '(ip, fp) :=
    match Cut body "." with
    | Some (i, f) => (i, f)
    | None => (body, EmptyString)
    end in
  if (String.length ip + String.length fp =? 0)%nat then None
  else
    match digits_value (ip +:+ fp) 0 with
    | Some n => Some (f64_of_decimal neg n (String.length fp))
    | None => None
    end.

Definition f64_is_finite (x : float64) : bool :=
  match x with S754_zero _ | S754_finite _ _ _ => true | _ => false end.

(** The number that is read back from what [%.pf] prints for [x]: [x]
    rounded to [p] decimals, then to the nearest float64. *)
Definition f64_rounded (p : nat) (x : float64) : float64 :=
  match x with
  | S754_finite s m e => f64_of_decimal s (scaled_digits p m e) p
  | _ => x
  end.

(** Some float64 constants, by mantissa and exponent. *)
Definition f64_50 : float64 := S754_finite false 7036874417766400 (-47).
Definition f64_95 : float64 := S754_finite false 6685030696878080 (-46).
Definition f64_99_9 : float64 := S754_finite false 7029837543348634 (-46).
Definition f64_0_1 : float64 := S754_finite false 7205759403792794 (-56).
Definition f64_2_5 : float64 := S754_finite false 5629499534213120 (-51).
Definition f64_1024 : float64 := S754_finite false 4503599627370496 (-42).
Definition f64_1_5 : float64 := S754_finite false 6755399441055744 (-52).
Definition f64_1 : float64 := S754_finite false 4503599627370496 (-52).
Definition f64_2 : float64 := S754_finite false 4503599627370496 (-51).
Definition f64_3 : float64 := S754_finite false 6755399441055744 (-51).
Definition f64_1e_7 : float64 := S754_finite false 7555786372591432 (-76).
Definition f64_99_991 : float64 := S754_finite false 7036241099068801 (-46).
Definition f64_99_994 : float64 := S754_finite false 7036452205301334 (-46).

(** ** Rounding *)

Section rounding.
Context (num den : Z) (Hnum : 0 <= num) (Hden : 0 < den).

(** The rounded quotient is within half a unit of the exact one. *)
Lemma round_half_even_nearest :
  Z.abs (2 * (round_half_even num den * den - num)) <= den.
Proof using Hden.
  unfold round_half_even.
  pose proof (Z.div_mod num den ltac:(lia)) as Hdm.
  pose proof (Z.mod_pos_bound num den Hden) as Hb.
  destruct (Z.compare_spec (2 * (num mod den)) den);
    [destruct (Z.even (num / den))|..]; nia.
Qed.

(** On a tie the even neighbour is chosen. *)
Lemma round_half_even_tie :
  2 * (num mod den) = den → Z.even (round_half_even num den) = true.
Proof using Type.
  intros Htie. unfold round_half_even. rewrite Htie, Z.compare_refl.
  destruct (Z.even (num / den)) eqn:E; [done|].
  rewrite Z.even_add, E. done.
Qed.

(** An exact quotient is not changed. *)
Lemma round_half_even_exact :
  num mod den = 0 → round_half_even num den = num / den.
Proof using Hden.
  intros H0. unfold round_half_even. rewrite H0.
  by destruct (Z.compare_spec (2 * 0) den); [lia| |lia].
Qed.

(** Less than a half rounds to zero. *)
Lemma round_half_even_small :
  2 * num < den → round_half_even num den = 0.
Proof using Hnum Hden.
  intros Hlt. unfold round_half_even.
  rewrite Z.mod_small, Z.div_small by lia.
  by destruct (Z.compare_spec (2 * num) den); [lia| |lia].
Qed.

Lemma round_half_even_nonneg : 0 <= round_half_even num den.
Proof using Hnum Hden.
  unfold round_half_even.
  pose proof (Z.div_pos num den Hnum Hden).
  destruct (_ ?= _); [destruct (Z.even _)|..]; lia.
Qed.
End rounding.

Lemma scaled_digits_nonneg (p : nat) (m : positive) (e : Z) :
  0 <= scaled_digits p m e.
Proof.
  unfold scaled_digits. destruct (Z.leb_spec 0 e).
  - repeat apply Z.mul_nonneg_nonneg; try lia; apply Z.pow_nonneg; lia.
  - apply round_half_even_nonneg.
    + apply Z.mul_nonneg_nonneg; [lia|apply Z.pow_nonneg; lia].
    + apply Z.pow_pos_nonneg; lia.
Qed.

(** ** Printing *)

Lemma fixed_string_free_of (sep : ascii) (p : nat) (n : Z) :
  0 <= n → is_digit sep = false → sep ≠ "."%char →
  free_of sep (fixed_string p n) = true.
Proof.
  intros Hn Hsep Hdot. unfold fixed_string. rewrite free_of_app.
  apply andb_true_iff; split.
  - apply digits_free_of, Itoa_digits; [done|].
    apply Z.div_pos; [done|]. apply Z.pow_pos_nonneg; lia.
  - destruct p; [done|]. rewrite free_of_app.
    apply andb_true_iff; split.
    + rewrite free_of_cons. apply andb_true_iff; split; [|done].
      apply negb_true_iff, Ascii.eqb_neq; congruence.
    + apply digits_free_of, pad_digits_digits; done.
Qed.

(** The output of [%.pf] has digits and the characters of [NaN], [+Inf],
    [-Inf] and the point only. *)
Lemma format_f_free_of (sep : ascii) (p : nat) (x : float64) :
  is_digit sep = false → free_of sep "NaN+Inf-Inf." = true →
  free_of sep (format_f p x) = true.
Proof.
  intros Hd Hsep.
  assert (sep ≠ "."%char ∧ sep ≠ "-"%char) as [Hdot Hminus].
  { split; intros ->; by vm_compute in Hsep. }
  assert (∀ text, (∃ a b, "NaN+Inf-Inf." = a +:+ text +:+ b) → free_of sep text = true)
    as Hsub.
  { intros text (a & b & Heq). rewrite Heq, !free_of_app in Hsep.
    by apply andb_prop in Hsep as [_ [? _]%andb_prop]. }
  assert (∀ s, free_of sep (sign_string s) = true) as Hsign.
  { intros [|]; [|done]. simpl. rewrite free_of_cons.
    apply andb_true_iff; split; [|done].
    apply negb_true_iff, Ascii.eqb_neq; congruence. }
  destruct x as [s|[]| |s m e]; unfold format_f.
  - rewrite free_of_app, Hsign. by apply fixed_string_free_of.
  - apply Hsub. by exists "NaN+Inf", ".".
  - apply Hsub. by exists "NaN", "-Inf.".
  - apply Hsub. by exists "", "+Inf-Inf.".
  - rewrite free_of_app, Hsign.
    apply fixed_string_free_of; try done; apply scaled_digits_nonneg.
Qed.

(** No output of [%.pf] has a comma. *)
Lemma format_f_free_of_comma (p : nat) (x : float64) :
  free_of "," (format_f p x) = true.
Proof. by apply format_f_free_of. Qed.

(** With [p > 0] the output of a finite value ends in a point and exactly
    [p] digits. *)
Lemma fixed_string_fraction (p : nat) (n : Z) :
  ∃ i f, fixed_string (S p) n = i +:+ "." +:+ f ∧ String.length f = S p.
Proof.
  eexists _, _; split; [reflexivity|]. apply pad_digits_length.
Qed.

(** A positive number below half a unit of the last decimal prints as
    zero. *)
Lemma format_f_small (p : nat) (m : positive) (e : Z) :
  e < 0 → 2 * (Zpos m * 10 ^ Z.of_nat p) < 2 ^ (- e) →
  format_f p (S754_finite false m e) = fixed_string p 0.
Proof.
  intros He Hlt. unfold format_f, scaled_digits.
  destruct (Z.leb_spec 0 e); [lia|].
  rewrite round_half_even_small; [done| |apply Z.pow_pos_nonneg; lia|done].
  apply Z.mul_nonneg_nonneg; [lia|apply Z.pow_nonneg; lia].
Qed.

(** ** Reading what was printed *)

Lemma digits_value_app (a b : string) (acc : Z) :
  digits_value (a +:+ b) acc = digits_value a acc ≫= digits_value b.
Proof.
  revert acc; induction a as [|c a IH]; intros acc; simpl; [done|].
  destruct (is_digit c); [apply IH|done].
Qed.

Lemma digits_value_digit (d acc : Z) :
  0 <= d < 10 →
  digits_value (String (digit_char d) "") acc = Some (10 * acc + d).
Proof.
  intros Hd. cbn [digits_value].
  pose proof (pad_digit_is_digit d) as Hdig.
  rewrite Z.mod_small in Hdig by done. rewrite Hdig. unfold digit_char.
  rewrite nat_ascii_embedding by lia. f_equal. lia.
Qed.

Lemma digits_value_pad (p : nat) (r acc : Z) :
  0 <= r < 10 ^ Z.of_nat p →
  digits_value (pad_digits p r) acc = Some (acc * 10 ^ Z.of_nat p + r).
Proof.
  revert r; induction p as [|p IH]; intros r Hr.
  - simpl in *. f_equal. lia.
  - rewrite Nat2Z.inj_succ, Z.pow_succ_r in * by lia.
    cbn [pad_digits]. rewrite digits_value_app, IH; cbn [mbind option_bind].
    + rewrite digits_value_digit by (apply Z.mod_pos_bound; lia).
      f_equal. pose proof (Z.div_mod r 10). lia.
    + split; [apply Z.div_pos; lia|]. apply Z.div_lt_upper_bound; lia.
Qed.

Lemma digits_value_uint_acc (d : Decimal.uint) (acc : positive) :
  digits_value (NilEmpty.string_of_uint d) (Zpos acc)
  = Some (Zpos (Pos.of_uint_acc d acc)).
Proof.
  revert acc; induction d; intros acc; cbn [NilEmpty.string_of_uint digits_value Pos.of_uint_acc];
    [done|..]; (change (is_digit _) with true; cbv iota; rewrite <- IHd; f_equal; vm_compute Z.sub; lia).
Qed.

Lemma digits_value_uint (d : Decimal.uint) :
  digits_value (NilEmpty.string_of_uint d) 0 = Some (Z.of_N (Pos.of_uint d)).
Proof.
  induction d; cbn [NilEmpty.string_of_uint digits_value Pos.of_uint]; [done|..];
    change (is_digit _) with true; cbv iota; [done|..];
    apply (digits_value_uint_acc d).
Qed.

Lemma digits_value_Itoa (n : Z) : 0 <= n → digits_value (Itoa n) 0 = Some n.
Proof.
  intros Hn. destruct n as [|p|p]; [done| |lia].
  unfold Itoa. cbn [Z.to_int NilEmpty.string_of_int].
  by rewrite digits_value_uint, Unsigned.of_to.
Qed.

(** A literal that starts with a digit has no sign. *)
Lemma split_sign_digit (c : ascii) (s : string) :
  is_digit c = true → split_sign (String c s) = (false, String c s).
Proof.
  intros Hc. unfold split_sign.
  destruct (Ascii.eqb_spec c "-") as [->|_]; [done|].
  by destruct (Ascii.eqb_spec c "+") as [->|_].
Qed.

Lemma Itoa_head (n : Z) :
  0 <= n → ∃ c s, Itoa n = String c s ∧ is_digit c = true.
Proof.
  intros Hn. pose proof (Itoa_digits n Hn) as Hd. pose proof (Itoa_nonempty n) as Hne.
  destruct (Itoa n) as [|c s]; [done|]. exists c, s. split; [done|].
  cbn [string_forall] in Hd. by apply andb_prop in Hd as [? _].
Qed.

(** What is printed with [p] decimals is read back as the number printed. *)
Lemma ParseFloat_fixed_string (neg : bool) (p : nat) (n : Z) :
  0 <= n →
  ParseFloat_decimal (sign_string neg +:+ fixed_string p n)
  = Some (f64_of_decimal neg n p).
Proof.
  intros Hn. unfold ParseFloat_decimal, fixed_string.
  assert (0 <= n / 10 ^ Z.of_nat p) as Hq by (apply Z.div_pos; lia).
  destruct (Itoa_head _ Hq) as (c & s & Hc & Hdig).
  assert (split_sign (sign_string neg +:+ Itoa (n / 10 ^ Z.of_nat p)
            +:+ match p with O => "" | S _ => "." +:+ pad_digits p (n mod 10 ^ Z.of_nat p) end)
          = (neg, Itoa (n / 10 ^ Z.of_nat p)
            +:+ match p with O => "" | S _ => "." +:+ pad_digits p (n mod 10 ^ Z.of_nat p) end)) as ->.
  { destruct neg; [done|]. simpl. rewrite Hc. apply (split_sign_digit c _ Hdig). }
  pose proof (digits_free_of "." _ eq_refl (Itoa_digits _ Hq)) as Hfree.
  destruct p as [|p].
  - rewrite string_app_nil_r. apply Cut_None in Hfree as ->.
    rewrite string_app_nil_r, Z.div_1_r, digits_value_Itoa by done.
    rewrite Z.div_1_r in Hc. by rewrite Hc.
  - rewrite string_app_char, Cut_app by done.
    rewrite digits_value_app, digits_value_Itoa by done. cbn [mbind option_bind].
    rewrite digits_value_pad by (apply Z.mod_pos_bound; lia).
    rewrite pad_digits_length, Hc.
    replace (_ + _) with n; [done|]. pose proof (Z.div_mod n (10 ^ Z.of_nat (S p))). lia.
Qed.

(** A finite number printed with [p] decimals is read back as its
    rounding to [p] decimals; not-a-number and the infinities are printed
    as words that are not decimal literals. *)
Lemma ParseFloat_format_f (p : nat) (x : float64) :
  ParseFloat_decimal (format_f p x)
  = if f64_is_finite x then Some (f64_rounded p x) else None.
Proof.
  destruct x as [s|[]| |s m e]; try done.
  - apply (ParseFloat_fixed_string s p 0). lia.
  - apply ParseFloat_fixed_string, scaled_digits_nonneg.
Qed.

(** A count printed with [%d] or [Itoa] is read back as a number: the
    float64 nearest to it. *)
Lemma ParseFloat_Itoa (n : Z) :
  0 <= n → ParseFloat_decimal (Itoa n) = Some (f64_of_decimal false n 0).
Proof.
  intros Hn. rewrite <- (ParseFloat_fixed_string false 0 n Hn).
  unfold fixed_string. by rewrite Z.div_1_r, string_app_nil_r.
Qed.
