(* ===== verification/Rpn.v ===== *)
(** * Reverse-Polish expressions of the engine

    The connector writes the expressions of its programs as text: fields
    separated by commas, each an identifier, a number or an operator.  This
    file is the engine's side of that text, as far as the connector uses
    it: the fields of an expression ([rpn_fields]), their reading as
    tokens ([token_of]), the evaluation of a token list on a stack
    ([rpn_eval]) with the operators [+], [*], [/], [UN] and [IF], and the
    stack discipline ([rpn_wf]) that tells the expressions the engine
    accepts from those it rejects.

    Numbers are plain decimal literals, which is what the connector writes
    for counts and finite scales; every field that is neither a number nor
    one of the five operators is read as an identifier. *)

From Stdlib Require Import ZArith String Ascii List Lia.
From Stdlib Require Import Floats.SpecFloat.
From stdpp Require Import base tactics option list strings.
From S2P Require Import Prelude GoStrings Float64.

(** ** Tokens *)

Inductive token : Type :=
| TNum (v : float64)
| TVar (name : string)
| TAdd
| TMul
| TDiv
| TUn
| TIf.

#[export] Instance token_eq_dec : EqDecision token.
Proof. solve_decision. Defined.

(** The fields of an expression: the text between its commas. *)
Definition rpn_fields (rpn : string) : list string :=
  SplitN rpn "," (S (String.length rpn)).

(** A field read as a token: an operator, a number, or else an
    identifier. *)
Definition token_of (field : string) : token :=
  if decide (field = "+") then TAdd
  else if decide (field = "*") then TMul
  else if decide (field = "/") then TDiv
  else if decide (field = "UN") then TUn
  else if decide (field = "IF") then TIf
  else match ParseFloat_decimal field with
       | Some v => TNum v
       | None => TVar field
       end.

Definition tokens_of (rpn : string) : list token :=
  map token_of (rpn_fields rpn).

(** ** Evaluation *)

(** The value of an identifier at the row under evaluation. *)
Definition row_env : Type := string → option float64.

(** One token on the stack, whose top is the head of the list.  [UN] is
    one for an unknown value and zero otherwise; [a,b,c,IF] is [c] when
    [a] is unknown or zero, and [b] otherwise. *)
Definition rpn_step (ρ : row_env) (stack : list float64) (t : token)
  : outcome (list float64) :=
  match t, stack with
  | TNum v, _ => Ok (v :: stack)
  | TVar x, _ =>
      match ρ x with
      | Some v => Ok (v :: stack)
      | None => Err ("unknown variable `" +:+ x +:+ "'")
      end
  | TAdd, b :: a :: stack' => Ok (f64_add a b :: stack')
  | TMul, b :: a :: stack' => Ok (f64_mul a b :: stack')
  | TDiv, b :: a :: stack' => Ok (f64_div a b :: stack')
  | TUn, a :: stack' => Ok ((if f64_is_nan a then f64_1 else f64_zero) :: stack')
  | TIf, c :: b :: a :: stack' =>
      Ok ((if f64_is_nan a || negb (f64_neqb a f64_zero) then c else b) :: stack')
  | _, _ => Err "RPN stack underflow"
  end.

Definition rpn_run (ρ : row_env) (toks : list token) (stack : list float64)
  : outcome (list float64) :=
  foldM (rpn_step ρ) toks stack.

(** An expression has a value when its tokens leave exactly one value on
    the stack. *)
Definition rpn_eval (ρ : row_env) (toks : list token) : outcome float64 :=
  let! stack := rpn_run ρ toks [] in
  match stack with
  | [v] => Ok v
  | _ => Err "RPN final stack size != 1"
  end.

(** ** The stack discipline *)

(** How many values a token takes from the stack; each token leaves
    one. *)
Definition pops (t : token) : nat :=
  match t with
  | TNum _ | TVar _ => 0
  | TUn => 1
  | TAdd | TMul | TDiv => 2
  | TIf => 3
  end.

(** The depth of the stack after the tokens, from depth [d]; [None] when
    a token finds too few values. *)
Fixpoint depth_after (toks : list token) (d : nat) : option nat :=
  match toks with
  | [] => Some d
  | t :: toks' =>
      if (pops t <=? d)%nat then depth_after toks' (S (d - pops t)) else None
  end.

(** The identifiers a token list refers to. *)
Definition vars_of (toks : list token) : list string :=
  omap (λ t, match t with TVar x => Some x | _ => None end) toks.

(** A well-formed expression: its identifiers are defined and its tokens
    take the stack from empty to one value. *)
Definition rpn_wf (defined : string → bool) (toks : list token) : bool :=
  forallb defined (vars_of toks) && bool_decide (depth_after toks 0 = Some 1).

(** ** Reading what was written *)

Lemma SplitN_Join (fields : list string) (sep : ascii) (n : nat) :
  fields ≠ [] → Forall (λ f, free_of sep f = true) fields →
  length fields ≤ n →
  SplitN (Join fields (String sep "")) sep n = fields.
Proof.
  intros Hne Hfree. revert n.
  induction Hfree as [|f fields Hf Hfree IH]; intros n Hn; [done|].
  destruct fields as [|g fields].
  - apply SplitN_free; [done|simpl in Hn; lia].
  - destruct n as [|[|n]]; simpl in Hn; [lia..|].
    change (Join (f :: g :: fields) (String sep ""))
      with (f +:+ String sep "" +:+ Join (g :: fields) (String sep "")).
    rewrite string_app_char, SplitN_cons by done.
    f_equal. apply IH; [done|simpl; lia].
Qed.

Lemma Join_length (fields : list string) (sep : ascii) :
  length fields ≤ S (String.length (Join fields (String sep ""))).
Proof.
  induction fields as [|f fields IH]; [simpl; lia|].
  destruct fields as [|g fields]; [simpl; lia|].
  change (Join (f :: g :: fields) (String sep ""))
    with (f +:+ String sep "" +:+ Join (g :: fields) (String sep "")).
  rewrite !string_app_length.
  set (rest := Join (g :: fields) (String sep "")) in *. simpl in *. lia.
Qed.

(** The fields of a joined expression are the fields that were joined. *)
Lemma rpn_fields_Join (fields : list string) :
  fields ≠ [] → Forall (λ f, free_of "," f = true) fields →
  rpn_fields (Join fields ",") = fields.
Proof.
  intros Hne Hfree. unfold rpn_fields.
  apply SplitN_Join; [done..|apply Join_length].
Qed.

Lemma tokens_of_Join (fields : list string) :
  fields ≠ [] → Forall (λ f, free_of "," f = true) fields →
  tokens_of (Join fields ",") = map token_of fields.
Proof. intros Hne Hfree. unfold tokens_of. by rewrite rpn_fields_Join. Qed.

(** ** Evaluation, token by token *)

Lemma rpn_run_app ρ toks1 toks2 stack :
  rpn_run ρ (toks1 ++ toks2) stack
  = let! stack' := rpn_run ρ toks1 stack in rpn_run ρ toks2 stack'.
Proof. apply foldM_app. Qed.

Lemma rpn_run_cons ρ t toks stack :
  rpn_run ρ (t :: toks) stack
  = let! stack' := rpn_step ρ stack t in rpn_run ρ toks stack'.
Proof. reflexivity. Qed.

(** ** Well-formed expressions are the ones that have a value *)

Lemma rpn_step_Ok ρ stack t :
  (∀ x, t = TVar x → is_Some (ρ x)) → pops t ≤ length stack →
  ∃ stack', rpn_step ρ stack t = Ok stack'
            ∧ length stack' = S (length stack - pops t).
Proof.
  intros Hvar Hpops.
  destruct t; try destruct (Hvar _ eq_refl) as [v Hv];
    destruct stack as [|c [|b [|a stack]]]; simpl in *; try lia;
    rewrite ?Hv; eexists; (split; [done|simpl; lia]).
Qed.

Lemma rpn_step_inv ρ stack t stack' :
  rpn_step ρ stack t = Ok stack' →
  pops t ≤ length stack ∧ length stack' = S (length stack - pops t)
  ∧ ∀ x, t = TVar x → is_Some (ρ x).
Proof.
  destruct t; destruct stack as [|c [|b [|a stack]]]; simpl;
    try destruct (ρ name) eqn:Hρ; intros [= <-]; simpl;
    (split; [lia|split; [lia|]]); intros x [= <-]; by rewrite ?Hρ.
Qed.

Lemma vars_of_cons t toks :
  vars_of (t :: toks)
  = match t with TVar x => x :: vars_of toks | _ => vars_of toks end.
Proof. by destruct t. Qed.

(** A run that is given what its tokens need goes through. *)
Lemma rpn_run_Ok ρ toks stack d :
  Forall (λ x, is_Some (ρ x)) (vars_of toks) →
  depth_after toks (length stack) = Some d →
  ∃ stack', rpn_run ρ toks stack = Ok stack' ∧ length stack' = d.
Proof.
  revert stack; induction toks as [|t toks IH]; intros stack Hvars Hd.
  - simpl in *. simplify_eq. by eexists.
  - rewrite vars_of_cons in Hvars. cbn [depth_after] in Hd.
    destruct (Nat.leb_spec (pops t) (length stack)) as [Hp|]; [|done].
    destruct (rpn_step_Ok ρ stack t) as (stack1 & Hstep & Hlen); [|done|].
    { intros x ->. by inversion Hvars. }
    rewrite rpn_run_cons, Hstep. cbn [obind]. apply IH; [|by rewrite Hlen].
    destruct t; try done. by apply Forall_cons in Hvars as [_ ?].
Qed.

(** A run that goes through was given what its tokens need. *)
Lemma rpn_run_inv ρ toks stack stack' :
  rpn_run ρ toks stack = Ok stack' →
  Forall (λ x, is_Some (ρ x)) (vars_of toks)
  ∧ depth_after toks (length stack) = Some (length stack').
Proof.
  revert stack; induction toks as [|t toks IH]; intros stack.
  - intros [= <-]. by split.
  - rewrite rpn_run_cons. intros (stack1 & Hstep & Hrun)%obind_Ok_inv.
    apply rpn_step_inv in Hstep as (Hp & Hlen & Hvar).
    apply IH in Hrun as [Hvars Hd]. rewrite vars_of_cons. cbn [depth_after].
    destruct (Nat.leb_spec (pops t) (length stack)); [|lia].
    rewrite <- Hlen. split; [|done].
    destruct t; try done. constructor; [by apply Hvar|done].
Qed.

(** The engine never panics on an expression: it has a value or an
    error. *)
Lemma rpn_run_no_panic ρ toks stack p : rpn_run ρ toks stack ≠ Panic p.
Proof.
  revert stack; induction toks as [|t toks IH]; intros stack; [done|].
  rewrite rpn_run_cons. destruct (rpn_step ρ stack t) as [stack1| |q] eqn:E;
    [apply IH|done|].
  destruct t; destruct stack as [|c [|b [|a stack]]]; simpl in E;
    try destruct (ρ name); done.
Qed.

Lemma rpn_eval_no_panic ρ toks p : rpn_eval ρ toks ≠ Panic p.
Proof.
  unfold rpn_eval. pose proof (rpn_run_no_panic ρ toks [] p) as Hrun.
  destruct (rpn_run ρ toks []) as [[|v [|? ?]]| |q]; simpl; congruence.
Qed.

(** An evaluation on a stack is the evaluation on the empty stack, above
    what the stack held. *)
Lemma rpn_run_frame ρ toks stack stack' below :
  rpn_run ρ toks stack = Ok stack' →
  rpn_run ρ toks (stack ++ below) = Ok (stack' ++ below).
Proof.
  revert stack; induction toks as [|t toks IH]; intros stack.
  - by intros [= <-].
  - rewrite !rpn_run_cons. intros (stack1 & Hstep & Hrun)%obind_Ok_inv.
    replace (rpn_step ρ (stack ++ below) t) with (Ok (A:=list float64) (stack1 ++ below));
      [by apply IH|].
    destruct t; destruct stack as [|c [|b [|a stack]]]; simpl in *;
      try destruct (ρ name); by simplify_eq.
Qed.

(** ** Fields the connector writes *)

(** An identifier of the connector is read as an identifier: it starts
    with [serie], so it is neither an operator nor a number. *)
Lemma token_of_serie (rest : string) :
  token_of ("serie" +:+ rest) = TVar ("serie" +:+ rest).
Proof.
  change ("serie" +:+ rest) with (String "s" ("erie" +:+ rest)).
  unfold token_of. repeat (rewrite decide_False by done).
  unfold ParseFloat_decimal. simpl.
  by destruct (Cut _ ".") as [[ip fp]|].
Qed.

(** A decimal literal is read as its number. *)
Lemma token_of_number (field : string) (v : float64) :
  ParseFloat_decimal field = Some v → token_of field = TNum v.
Proof.
  intros Hv. unfold token_of.
  repeat (case_decide; [subst; vm_compute in Hv; discriminate|]).
  by rewrite Hv.
Qed.

Lemma token_of_format_f (p : nat) (x : float64) :
  f64_is_finite x = true → token_of (format_f p x) = TNum (f64_rounded p x).
Proof.
  intros Hx. apply token_of_number. by rewrite ParseFloat_format_f, Hx.
Qed.

Lemma token_of_Itoa (n : Z) :
  (0 ≤ n)%Z → token_of (Itoa n) = TNum (f64_of_decimal false n 0).
Proof. intros Hn. by apply token_of_number, ParseFloat_Itoa. Qed.

(** ** The expressions the engine accepts *)

(** A well-formed expression has a value wherever its identifiers have
    one. *)
Lemma rpn_wf_eval (defined : string → bool) (ρ : row_env) (toks : list token) :
  rpn_wf defined toks = true →
  (∀ x, defined x = true → is_Some (ρ x)) →
  ∃ v, rpn_eval ρ toks = Ok v.
Proof.
  unfold rpn_wf, rpn_eval.
  rewrite andb_true_iff, bool_decide_eq_true, <- (Is_true_true (forallb _ _)).
  rewrite forallb_True. intros [Hvars Hd] Hρ.
  destruct (rpn_run_Ok ρ toks [] 1) as (stack & -> & Hlen); [|done|].
  - eapply Forall_impl; [done|]. intros x Hx. by apply Hρ, Is_true_true.
  - destruct stack as [|v [|? ?]]; try done. by exists v.
Qed.

(** More identifiers in scope keep an expression well formed. *)
Lemma rpn_wf_mono (defined defined' : string → bool) (toks : list token) :
  (∀ x, defined x = true → defined' x = true) →
  rpn_wf defined toks = true → rpn_wf defined' toks = true.
Proof.
  unfold rpn_wf. rewrite !andb_true_iff, <- !(Is_true_true (forallb _ _)).
  rewrite !forallb_True. intros Hsub [Hvars ?]. split; [|done].
  eapply Forall_impl; [done|]. intros x Hx. by apply Is_true_true, Hsub, Is_true_true.
Qed.

(** An expression that has a value is well formed. *)
Lemma rpn_eval_Ok_wf (ρ : row_env) (toks : list token) (v : float64) :
  rpn_eval ρ toks = Ok v →
  rpn_wf (λ x, bool_decide (is_Some (ρ x))) toks = true.
Proof.
  unfold rpn_wf, rpn_eval. intros (stack & Hrun & Hv)%obind_Ok_inv.
  apply rpn_run_inv in Hrun as [Hvars Hd].
  rewrite andb_true_iff, bool_decide_eq_true, <- (Is_true_true (forallb _ _)).
  rewrite forallb_True. setoid_rewrite bool_decide_spec.
  by destruct stack as [|? [|? ?]].
Qed.

(** The engine accepts an expression exactly when it is well formed:
    the evaluation returns a value if and only if every identifier of the
    expression has a value and the tokens take the stack from empty to
    exactly one value; otherwise it returns an error, and it never
    panics. *)
Theorem rpn_eval_wf (ρ : row_env) (toks : list token) :
  (is_Ok (rpn_eval ρ toks) = true
   ↔ rpn_wf (λ x, bool_decide (is_Some (ρ x))) toks = true)
  ∧ ∀ p, rpn_eval ρ toks ≠ Panic p.
Proof.
  split; [split|].
  - intros [v Hv]%is_Ok_true. by apply (rpn_eval_Ok_wf ρ toks v).
  - intros Hwf. apply is_Ok_true, (rpn_wf_eval _ ρ toks Hwf).
    by intros x ?%bool_decide_eq_true.
  - intros p. unfold rpn_eval. pose proof (rpn_run_no_panic ρ toks [] p) as Hp.
    destruct (rpn_run ρ toks []) as [[|v [|? ?]]| |]; simpl; congruence.
Qed.

(** The expression that replaces unknown samples by zero, on a sample
    and on an unknown one. *)
Example rpn_eval_zeroed_sample :
  rpn_eval (λ x, if decide (x = "serie0") then Some f64_2 else None)
    (tokens_of "serie0,UN,0,serie0,IF") = Ok f64_2.
Proof. reflexivity. Qed.

Example rpn_eval_zeroed_unknown :
  rpn_eval (λ x, if decide (x = "serie0") then Some NaN else None)
    (tokens_of "serie0,UN,0,serie0,IF") = Ok f64_zero.
Proof. reflexivity. Qed.
