(* ===== verification/Rrd.v ===== *)
(** * The time-series engine, as the connector sees it

    The connector drives the engine through the builders of the rrd
    binding ([rrd.Grapher], [rrd.Exporter]): each builder method appends one
    operation to an ordered program, and [Graph] or [Xport] submits it.
    The binding is not part of the connector's source; this file fixes its
    interface: the operations as data, the builders as records with one
    function per method, the results ([XportResult], [GraphInfo]), and the
    engine itself as a class the connector's theorems are stated against.
    The types of a group query ([GroupQuery], [SerieQuery], [MetricQuery],
    [PlotResult]), which the connector package declares next to rrd.go, are
    here too. *)

From Stdlib Require Import ZArith String Ascii List Lia.
From stdpp Require Import base tactics option list gmap strings.
From S2P Require Import Prelude GoStrings Float64.

(** ** Programs *)

(** One operation of an engine program. *)
Inductive rrd_arg : Type :=
| DEF (vname rrdfile dsname cf : string)
| CDEF (vname rpn : string)
| VDEF (vname rpn : string)
| PRINT (vname format : string)
| XPORT (vname label : string).

#[export] Instance rrd_arg_eq_dec : EqDecision rrd_arg.
Proof. solve_decision. Defined.

(** The identifier an operation defines, if it defines one. *)
Definition defines (a : rrd_arg) : option string :=
  match a with
  | DEF v _ _ _ | CDEF v _ | VDEF v _ => Some v
  | PRINT _ _ | XPORT _ _ => None
  end.

(** ** rrd.Grapher *)

Module Grapher.
Record t : Type := mk { daemon : string; args : list rrd_arg }.

Definition push (a : rrd_arg) (g : t) : t :=
  {| daemon := daemon g; args := args g ++ [a] |}.

(** Several operations appended at once. *)
Definition extend (prog : list rrd_arg) (g : t) : t :=
{| daemon := daemon g; args := args g ++ prog |}.

Definition NewGrapher : t := {| daemon := ""; args := [] |}.
Definition SetDaemon (d : string) (g : t) : t :=
  {| daemon := d; args := args g |}.
Definition Def (vname rrdfile dsname cf : string) : t → t :=
  push (DEF vname rrdfile dsname cf).
Definition CDef (vname rpn : string) : t → t := push (CDEF vname rpn).
Definition VDef (vname rpn : string) : t → t := push (VDEF vname rpn).
Definition Print (vname format : string) : t → t := push (PRINT vname format).
End Grapher.

(** ** rrd.Exporter *)

Module Exporter.
Record t : Type := mk { daemon : string; args : list rrd_arg }.

Definition push (a : rrd_arg) (x : t) : t :=
  {| daemon := daemon x; args := args x ++ [a] |}.

(** Several operations appended at once. *)
Definition extend (prog : list rrd_arg) (x : t) : t :=
{| daemon := daemon x; args := args x ++ prog |}.

Definition NewExporter : t := {| daemon := ""; args := [] |}.
Definition SetDaemon (d : string) (x : t) : t :=
  {| daemon := d; args := args x |}.
Definition Def (vname rrdfile dsname cf : string) : t → t :=
  push (DEF vname rrdfile dsname cf).
Definition CDef (vname rpn : string) : t → t := push (CDEF vname rpn).
Definition XportDef (vname label : string) : t → t := push (XPORT vname label).
End Exporter.

#[export] Instance Grapher_eq_dec : EqDecision Grapher.t.
Proof. solve_decision. Defined.
#[export] Instance Exporter_eq_dec : EqDecision Exporter.t.
Proof. solve_decision. Defined.

(** ** Results *)

(** The table an export returns: one legend per exported column, [RowCnt]
    rows, the values row by row.  [values] is [None] for the zero value
    [XportResult{}], which holds no buffer of the engine. *)
Record XportResult : Type := {
  Legends : list string;
  RowCnt : Z;
  values : option (list float64)
}.

Definition XportResult_zero : XportResult :=
  {| Legends := []; RowCnt := 0; values := None |}.

(** [r.ValueAt(legend, row)]: the slice [values] is indexed at
    [len(Legends) * row + legend], with Go's bounds check. *)
Definition ValueAt (r : XportResult) (legend row : nat) : outcome float64 :=
  of_option IndexOutOfRange
    (default [] (values r) !! (length (Legends r) * row + legend)).

(** [r.FreeValues()], on the number of buffers the engine holds: releases
    the buffer of [r] if it has one. *)
Definition FreeValues (r : XportResult) (live : nat) : nat :=
  match values r with
  | Some _ => pred live
  | None => live
  end.

(** The table has a value for every legend and row. *)
Definition XportResult_wf (r : XportResult) : Prop :=
  (0 ≤ RowCnt r)%Z ∧
  ∃ vs, values r = Some vs ∧ length vs = length (Legends r) * Z.to_nat (RowCnt r).

(** What a graph run prints: one line per PRINT operation. *)
Record GraphInfo : Type := { Print : list string }.

(** Points in time and durations are opaque to the connector. *)
Abbreviation Time := Z (only parsing).
Abbreviation Duration := Z (only parsing).

(** The engine: it runs an export program or a graph program over a time
    window, or fails with an error. *)
Class Engine : Type := {
  Xport : Exporter.t → Time → Time → Duration → outcome XportResult;
  Graph : Grapher.t → Time → Time → outcome GraphInfo
}.

(** [strconv.ParseFloat(s, 64)]: the number, or [None] for the error. *)
Class Strconv : Type := {
  ParseFloat : string → option float64
}.

(** The instance for the plain decimal literals of [ParseFloat_decimal]. *)
Definition decimal_Strconv : Strconv := {| ParseFloat := ParseFloat_decimal |}.

(** ** Group queries *)

Record MetricQuery : Type := {
  mq_Name : string;
  mq_SourceName : string
}.

Record SerieQuery : Type := {
  sq_Name : string;
  sq_Metric : option MetricQuery;
  sq_Scale : float64
}.

(** The operator of a group: the three named constants, or any other
    integer.  The type is an integer type of package connector, declared
    outside rrd.go with the values of its constants; [OperGroupTypeOther
    n] stands for an integer [n] that is the value of none of them. *)
Inductive OperGroupType : Type :=
| OperGroupTypeNone
| OperGroupTypeAvg
| OperGroupTypeSum
| OperGroupTypeOther (n : Z).

#[export] Instance OperGroupType_eq_dec : EqDecision OperGroupType.
Proof. solve_decision. Defined.

Record GroupQuery : Type := {
  gq_Name : string;
  gq_Type : OperGroupType;
  gq_Series : list SerieQuery;
  gq_Scale : float64
}.

Definition set_Type (ty : OperGroupType) (q : GroupQuery) : GroupQuery :=
  {| gq_Name := gq_Name q; gq_Type := ty;
     gq_Series := gq_Series q; gq_Scale := gq_Scale q |}.

(** The result of a label: its samples and its statistics.  [Info] is a
    map in every result: [rrdGetData] and [rrdParseInfo] make it when
    they create a result (lines 337 and 369), and no other result
    reaches the assignment of line 372. *)
Record PlotResult : Type := {
  Plots : list float64;
  Info : gmap string float64
}.

#[export] Instance PlotResult_eq_dec : EqDecision PlotResult.
Proof. solve_decision. Defined.

(** ** Builders only append *)

Lemma Grapher_push_args a g : Grapher.args (Grapher.push a g) = Grapher.args g ++ [a].
Proof. reflexivity. Qed.

Lemma Exporter_push_args a x : Exporter.args (Exporter.push a x) = Exporter.args x ++ [a].
Proof. reflexivity. Qed.

Lemma Grapher_push_daemon a g : Grapher.daemon (Grapher.push a g) = Grapher.daemon g.
Proof. reflexivity. Qed.

Lemma Exporter_push_daemon a x : Exporter.daemon (Exporter.push a x) = Exporter.daemon x.
Proof. reflexivity. Qed.

Lemma Grapher_push_extend a g : Grapher.push a g = Grapher.extend [a] g.
Proof. reflexivity. Qed.

Lemma Grapher_extend_nil g : Grapher.extend [] g = g.
Proof. destruct g. unfold Grapher.extend; simpl. by rewrite app_nil_r. Qed.

Lemma Grapher_extend_extend p1 p2 g :
  Grapher.extend p2 (Grapher.extend p1 g) = Grapher.extend (p1 ++ p2) g.
Proof. unfold Grapher.extend; simpl. by rewrite app_assoc. Qed.

Lemma Exporter_push_extend a x : Exporter.push a x = Exporter.extend [a] x.
Proof. reflexivity. Qed.

Lemma Exporter_extend_nil x : Exporter.extend [] x = x.
Proof. destruct x. unfold Exporter.extend; simpl. by rewrite app_nil_r. Qed.

Lemma Exporter_extend_extend p1 p2 x :
  Exporter.extend p2 (Exporter.extend p1 x) = Exporter.extend (p1 ++ p2) x.
Proof. unfold Exporter.extend; simpl. by rewrite app_assoc. Qed.

Lemma FreeValues_zero live : FreeValues XportResult_zero live = live.
Proof. reflexivity. Qed.

Lemma ValueAt_wf r legend row :
  XportResult_wf r → legend < length (Legends r) → (Z.of_nat row < RowCnt r)%Z →
  ∃ v, ValueAt r legend row = Ok v.
Proof.
  intros (Hrow & vs & Hvs & Hlen) Hl Hr. unfold ValueAt. rewrite Hvs; simpl.
  destruct (lookup_lt_is_Some_2 vs (length (Legends r) * row + legend)) as [v ->];
    [|by eexists].
  rewrite Hlen. nia.
Qed.

#[export] Hint Rewrite Grapher_extend_extend Exporter_extend_extend
  Grapher_extend_nil Exporter_extend_nil : rrd_simpl.
