(* ===== verification/SetGraph.v ===== *)
(** * rrdSetGraph: the statistics block of a series

    [rrdSetGraph] appends to a graph program the requests for the minimum,
    average, maximum and last value of an identifier and, for every
    percentile asked for, a derived series with unknowns set to zero, its
    percentile and the line that prints it.  Each printed line has the
    shape [label,key,%lf]; the engine replaces [%lf] by the value and
    [rrdParseInfo] splits the line at its first two commas. *)

From Stdlib Require Import ZArith String Ascii List Lia.
From stdpp Require Import base tactics option list strings.
From S2P Require Import Prelude GoStrings Float64 Rrd.

(** ** The function *)

(** The index of a loop, as [%d] prints it. *)
Definition Itoa_nat (i : nat) : string := Itoa (Z.of_nat i).

(** The body of the loop over the percentiles. *)
Definition rrdSetGraph_percentile (serieName itemName : string)
    (graph : Grapher.t) (index : nat) (percentile : float64) : Grapher.t :=
  let graph :=
    Grapher.CDef (serieName +:+ "-cdef" +:+ Itoa_nat index)
      (serieName +:+ ",UN,0," +:+ serieName +:+ ",IF") graph in
  let graph :=
    Grapher.VDef (serieName +:+ "-vdef" +:+ Itoa_nat index)
      (serieName +:+ "-cdef" +:+ Itoa_nat index +:+ ","
         +:+ format_f 6 percentile +:+ ",PERCENT") graph in
  if has_fraction percentile then
    Grapher.Print (serieName +:+ "-vdef" +:+ Itoa_nat index)
      (itemName +:+ "," +:+ format_f 2 percentile +:+ "th,%lf") graph
  else
    Grapher.Print (serieName +:+ "-vdef" +:+ Itoa_nat index)
      (itemName +:+ "," +:+ format_f 0 percentile +:+ "th,%lf") graph.

Definition rrdSetGraph (graph : Grapher.t) (serieName itemName : string)
    (percentiles : list float64) : Grapher.t :=
  let graph := Grapher.VDef (serieName +:+ "-min") (serieName +:+ ",MINIMUM") graph in
  let graph := Grapher.Print (serieName +:+ "-min") (itemName +:+ ",min,%lf") graph in
  let graph := Grapher.VDef (serieName +:+ "-avg") (serieName +:+ ",AVERAGE") graph in
  let graph := Grapher.Print (serieName +:+ "-avg") (itemName +:+ ",avg,%lf") graph in
  let graph := Grapher.VDef (serieName +:+ "-max") (serieName +:+ ",MAXIMUM") graph in
  let graph := Grapher.Print (serieName +:+ "-max") (itemName +:+ ",max,%lf") graph in
  let graph := Grapher.VDef (serieName +:+ "-last") (serieName +:+ ",LAST") graph in
  let graph := Grapher.Print (serieName +:+ "-last") (itemName +:+ ",last,%lf") graph in
  foldi (rrdSetGraph_percentile serieName itemName) 0 percentiles graph.

(** ** Its specification: the block as a list of operations *)

(** The key under which a percentile is reported: two decimals when the
    percentile has a fractional part, none otherwise. *)
Definition percentile_key (percentile : float64) : string :=
  (if has_fraction percentile then format_f 2 percentile
   else format_f 0 percentile) +:+ "th".

(** The line a statistic prints: label, key and the value's placeholder. *)
Definition print_format (itemName key : string) : string :=
  itemName +:+ "," +:+ key +:+ ",%lf".

Definition summary_block (serieName itemName : string) : list rrd_arg :=
  concat (map (λ '(suffix, fn, key),
                [VDEF (serieName +:+ suffix) (serieName +:+ fn);
                 PRINT (serieName +:+ suffix) (print_format itemName key)])
    [("-min", ",MINIMUM", "min"); ("-avg", ",AVERAGE", "avg");
     ("-max", ",MAXIMUM", "max"); ("-last", ",LAST", "last")]).

Definition percentile_block (serieName itemName : string)
    (index : nat) (percentile : float64) : list rrd_arg :=
  [CDEF (serieName +:+ "-cdef" +:+ Itoa_nat index)
     (serieName +:+ ",UN,0," +:+ serieName +:+ ",IF");
   VDEF (serieName +:+ "-vdef" +:+ Itoa_nat index)
     (serieName +:+ "-cdef" +:+ Itoa_nat index +:+ ","
        +:+ format_f 6 percentile +:+ ",PERCENT");
   PRINT (serieName +:+ "-vdef" +:+ Itoa_nat index)
     (print_format itemName (percentile_key percentile))].

Definition stat_program (serieName itemName : string)
    (percentiles : list float64) : list rrd_arg :=
  summary_block serieName itemName
  ++ concat (imap (percentile_block serieName itemName) percentiles).

(** The keys of the statistics of one label, in the order they are asked. *)
Definition stat_keys (percentiles : list float64) : list string :=
  ["min"; "avg"; "max"; "last"] ++ map percentile_key percentiles.

(** The formats of the PRINT operations of a program. *)
Definition print_formats (prog : list rrd_arg) : list string :=
  omap (λ a, match a with PRINT _ f => Some f | _ => None end) prog.

(** ** Theorems *)

#[local] Arguments String.append !_ _ / : simpl nomatch.

Lemma rrdSetGraph_percentile_args serieName itemName graph index percentile :
  Grapher.args (rrdSetGraph_percentile serieName itemName graph index percentile)
  = Grapher.args graph ++ percentile_block serieName itemName index percentile.
Proof.
  unfold rrdSetGraph_percentile, percentile_block, percentile_key, print_format.
  destruct (has_fraction percentile); simpl;
    rewrite <- !app_assoc, ?string_app_assoc; reflexivity.
Qed.

Lemma rrdSetGraph_args graph serieName itemName percentiles :
  Grapher.args (rrdSetGraph graph serieName itemName percentiles)
  = Grapher.args graph ++ stat_program serieName itemName percentiles.
Proof.
  unfold rrdSetGraph, stat_program.
  rewrite (foldi_appends Grapher.args _ (percentile_block serieName itemName))
    by apply rrdSetGraph_percentile_args.
  simpl. rewrite <- !app_assoc. reflexivity.
Qed.

Lemma rrdSetGraph_daemon graph serieName itemName percentiles :
  Grapher.daemon (rrdSetGraph graph serieName itemName percentiles)
  = Grapher.daemon graph.
Proof.
  unfold rrdSetGraph. rewrite (foldi_preserves Grapher.daemon); [done|].
  intros g i a. unfold rrdSetGraph_percentile. by destruct (has_fraction a).
Qed.

Lemma print_formats_app (p1 p2 : list rrd_arg) :
  print_formats (p1 ++ p2) = print_formats p1 ++ print_formats p2.
Proof. apply omap_app. Qed.

Lemma print_formats_percentiles serieName itemName k percentiles :
  print_formats
    (concat (imap (λ j, percentile_block serieName itemName (k + j)) percentiles))
  = map (λ p, print_format itemName (percentile_key p)) percentiles.
Proof.
  revert k; induction percentiles as [|p ps IH]; intros k; [done|].
  rewrite imap_cons. simpl. f_equal.
  rewrite <- (IH (S k)). do 2 f_equal. apply imap_ext; intros; simpl.
  f_equal; lia.
Qed.

(** The lines a statistics program prints are those of [stat_keys], each
    under the label. *)
Theorem stat_program_prints serieName itemName percentiles :
  print_formats (stat_program serieName itemName percentiles)
  = map (print_format itemName) (stat_keys percentiles).
Proof.
  unfold stat_program, stat_keys. rewrite print_formats_app, map_app, map_map.
  f_equal. apply (print_formats_percentiles serieName itemName 0).
Qed.

Lemma stat_program_length serieName itemName percentiles :
  length (stat_program serieName itemName percentiles) = 8 + 3 * length percentiles.
Proof.
  unfold stat_program. rewrite length_app, (length_concat_imap _ 3) by done.
  simpl. lia.
Qed.

(** The call as one step: the statistics program appended at once. *)
Lemma rrdSetGraph_extend graph serieName itemName percentiles :
  rrdSetGraph graph serieName itemName percentiles
  = Grapher.extend (stat_program serieName itemName percentiles) graph.
Proof.
  pose proof (rrdSetGraph_args graph serieName itemName percentiles) as Ha.
  pose proof (rrdSetGraph_daemon graph serieName itemName percentiles) as Hd.
  destruct (rrdSetGraph _ _ _ _); unfold Grapher.extend; simpl in *; congruence.
Qed.

(** C8: rrdSetGraph appends exactly the statistics program of the label:
    what the graph program held before stays in front, in place, the
    program has eight operations more and three per percentile, and the
    daemon setting is untouched. *)
Theorem rrdSetGraph_spec graph serieName itemName percentiles :
  Grapher.args (rrdSetGraph graph serieName itemName percentiles)
  = Grapher.args graph ++ stat_program serieName itemName percentiles
  ∧ length (Grapher.args (rrdSetGraph graph serieName itemName percentiles))
    = length (Grapher.args graph) + 8 + 3 * length percentiles
  ∧ Grapher.daemon (rrdSetGraph graph serieName itemName percentiles)
    = Grapher.daemon graph.
Proof.
  rewrite rrdSetGraph_args, rrdSetGraph_daemon, length_app, stat_program_length.
  repeat split; lia.
Qed.

Lemma percentile_key_free_of_comma p : free_of "," (percentile_key p) = true.
Proof.
  unfold percentile_key. rewrite free_of_app.
  destruct (has_fraction p); by rewrite format_f_free_of_comma.
Qed.

Lemma stat_keys_free_of_comma percentiles key :
  key ∈ stat_keys percentiles → free_of "," key = true.
Proof.
  unfold stat_keys. rewrite elem_of_app, list_elem_of_fmap.
  intros [Hin|(p & -> & _)]; [|apply percentile_key_free_of_comma].
  repeat (apply elem_of_cons in Hin as [->|Hin]; [done|]).
  by apply elem_of_nil in Hin.
Qed.

(** ** Witnesses and examples *)

(** For the percentiles 50 and 99.9 and the label [cpu], the lines the
    graph program prints are those of [min], [avg], [max], [last], [50th]
    and [99.90th], in this order. *)
Example rrdSetGraph_keys_50_99_9 :
  print_formats
    (Grapher.args (rrdSetGraph Grapher.NewGrapher "serie0" "cpu" [f64_50; f64_99_9]))
  = ["cpu,min,%lf"; "cpu,avg,%lf"; "cpu,max,%lf"; "cpu,last,%lf";
     "cpu,50th,%lf"; "cpu,99.90th,%lf"].
Proof. by vm_compute. Qed.

(** The whole block of one percentile: the derived series with
    unknowns set to zero, the percentile over it, and the line printed. *)
Example rrdSetGraph_percentile_95 :
  Grapher.args
    (rrdSetGraph_percentile "serie0" "cpu" Grapher.NewGrapher 3 f64_95)
  = [ CDEF "serie0-cdef3" "serie0,UN,0,serie0,IF";
      VDEF "serie0-vdef3" "serie0-cdef3,95.000000,PERCENT";
      PRINT "serie0-vdef3" "cpu,95th,%lf" ].
Proof. by vm_compute. Qed.
