(* ===== verification/Connector.v ===== *)
(** * The connector: its state and its catalog of metrics

    [RRDConnector] holds the settings of the connector, the channel on
    which discovery reports what it finds, and the catalog: for every
    source, for every metric of that source, the archive file and the
    dataset that hold it.  A query looks a series up with
    [connector.metrics[source][metric]] and dereferences the result. *)

From Stdlib Require Import ZArith String Ascii List Lia.
From stdpp Require Import base tactics option list gmap strings.
From S2P Require Import Prelude GoStrings Float64 Rrd.

(** ** Definitions *)

Record rrdMetric : Type := {
  Dataset : string;
  FilePath : string
}.

#[export] Instance rrdMetric_eq_dec : EqDecision rrdMetric.
Proof. solve_decision. Defined.

Record RRDConnector : Type := {
  Path : string;
  Pattern : string;
  Daemon : string;
  outputChan : chan (string * string);
  metrics : gmap string (gmap string rrdMetric)
}.

(** Assignments to the fields that change after construction. *)
Definition set_metrics (m : gmap string (gmap string rrdMetric))
    (connector : RRDConnector) : RRDConnector :=
  {| Path := Path connector; Pattern := Pattern connector;
     Daemon := Daemon connector; outputChan := outputChan connector;
     metrics := m |}.

Definition set_outputChan (ch : chan (string * string))
    (connector : RRDConnector) : RRDConnector :=
  {| Path := Path connector; Pattern := Pattern connector;
     Daemon := Daemon connector; outputChan := ch;
     metrics := metrics connector |}.

(** [connector.metrics[source][name]]: indexing a map that lacks the key
    yields the zero value, here a nil map and then a nil pointer. *)
Definition metrics_lookup (connector : RRDConnector) (source name : string)
  : option rrdMetric :=
  metrics connector !! source ≫= (.!! name).

(** The metric a series refers to, dereferenced: a nil pointer panics. *)
Definition metric_of (connector : RRDConnector) (m : MetricQuery)
  : outcome rrdMetric :=
  of_option NilDereference
    (metrics_lookup connector (mq_SourceName m) (mq_Name m)).

(** The number of metrics of the catalog. *)
Definition catalog_size (connector : RRDConnector) : nat :=
  map_fold (λ _ ms n, size ms + n) 0 (metrics connector).

(** ** Lemmas *)

Lemma metric_of_Ok connector m r :
  metric_of connector m = Ok r ↔
  ∃ ms, metrics connector !! mq_SourceName m = Some ms ∧ ms !! mq_Name m = Some r.
Proof.
  unfold metric_of, metrics_lookup.
  destruct (metrics connector !! mq_SourceName m) as [ms|]; simpl.
  - destruct (ms !! mq_Name m) eqn:E; simpl; split.
    + intros [= ->]; eauto.
    + by intros (? & [= <-] & ?); simplify_eq.
    + done.
    + by intros (? & [= <-] & ?); simplify_eq.
  - split; [done|]. by intros (? & ? & _).
Qed.

Lemma metric_of_panics connector m :
  metrics_lookup connector (mq_SourceName m) (mq_Name m) = None →
  metric_of connector m = Panic NilDereference.
Proof. unfold metric_of. by intros ->. Qed.
