(* ===== verification/Registry.v ===== *)
(** * Registration: the factory of the connector

    [init] stores under the name [rrd], in the table of connector
    factories, a function that reads the settings [path], [pattern] and
    [daemon] from a configuration map and returns a connector with an
    empty catalog, or the error of the first setting that is missing or is
    not a string. *)

From Stdlib Require Import ZArith String Ascii List Lia.
From stdpp Require Import base tactics option list gmap strings.
From S2P Require Import Prelude GoStrings Float64 Rrd Connector.

(** ** The function *)

(** A value of a configuration map ([interface{}]): a string, or a value
    of another type. *)
Inductive config_value : Type :=
| ConfigString (s : string)
| ConfigOther.

(** [config[key].(string)] with the comma-ok form: the string, or [None]
    when the key is absent or its value is not a string. *)
Definition as_string (v : option config_value) : option string :=
  match v with
  | Some (ConfigString s) => Some s
  | _ => None
  end.

(** A factory: from the output channel and the configuration to the
    connector. *)
Definition factory : Type :=
  chan (string * string) → gmap string config_value → outcome RRDConnector.

(** The function [init] registers. *)
Definition rrd_factory : factory := λ outputChan config,
  if decide (config !! "path" = None) then
    Err "missing `path' mandatory connector setting"
  else if decide (config !! "pattern" = None) then
    Err "missing `pattern' mandatory connector setting"
  else
    match as_string (config !! "path") with
    | None => Err "connector setting `path' should be a string"
    | Some configPath =>
        match as_string (config !! "pattern") with
        | None => Err "connector setting `pattern' should be a string"
        | Some configPattern =>
            match as_string (config !! "daemon") with
            | None => Err "connector setting `daemon' should be a string"
            | Some configDaemon =>
                Ok {| Path := configPath; Pattern := configPattern;
                      Daemon := configDaemon; outputChan := outputChan;
                      metrics := ∅ |}
            end
        end
    end.

(** [init]: the factory stored under [rrd] in the table [Connectors]. *)
Definition init (Connectors : gmap string factory) : gmap string factory :=
  <["rrd" := rrd_factory]> Connectors.

(** ** Its specification *)

(** The settings are there and are strings. *)
Definition config_ok (config : gmap string config_value)
    (path pattern daemon : string) : Prop :=
  config !! "path" = Some (ConfigString path) ∧
  config !! "pattern" = Some (ConfigString pattern) ∧
  config !! "daemon" = Some (ConfigString daemon).

(** A configuration for the examples. *)
Definition ex_config : gmap string config_value :=
  {[ "path" := ConfigString "/var/lib/rrd";
     "pattern" := ConfigString "(?P<source>[^/]+)/(?P<metric>.+)\.rrd" ]}.

(** ** Theorems *)

(** The factory returns a connector exactly when [path], [pattern] and
    [daemon] are all there and are strings; the connector then has these
    settings, the channel it was given and an empty catalog. *)
Theorem rrd_factory_Ok outputChan config connector :
  rrd_factory outputChan config = Ok connector ↔
  config_ok config (Path connector) (Pattern connector) (Daemon connector) ∧
  outputChan = Connector.outputChan connector ∧ metrics connector = ∅.
Proof.
  unfold rrd_factory, config_ok, as_string. split.
  - repeat case_decide; [done..|].
    destruct (config !! "path") as [[]|], (config !! "pattern") as [[]|],
      (config !! "daemon") as [[]|]; try done.
    by intros [= <-].
  - intros [(-> & -> & ->) [-> Hm]]. rewrite !decide_False by done.
    destruct connector; simpl in *. by subst.
Qed.

(** A configuration without [daemon] is refused with the error of a
    setting of the wrong type, although the setting is an optional one. *)
Theorem rrd_factory_daemon_mandatory outputChan config path pattern :
  config !! "path" = Some (ConfigString path) →
  config !! "pattern" = Some (ConfigString pattern) →
  config !! "daemon" = None →
  rrd_factory outputChan config
  = Err "connector setting `daemon' should be a string".
Proof.
  intros Hpath Hpattern Hdaemon. unfold rrd_factory.
  by rewrite Hpath, Hpattern, Hdaemon.
Qed.

(** C38: the factory never panics, and its errors are checked in a fixed
    order: a missing [path], a missing [pattern], then the type of [path],
    of [pattern] and of [daemon]. *)
Theorem rrd_factory_errors outputChan config :
  rrd_factory outputChan config
  = match config !! "path", config !! "pattern" with
    | None, _ => Err "missing `path' mandatory connector setting"
    | Some _, None => Err "missing `pattern' mandatory connector setting"
    | Some ConfigOther, Some _ => Err "connector setting `path' should be a string"
    | Some (ConfigString _), Some ConfigOther =>
        Err "connector setting `pattern' should be a string"
    | Some (ConfigString path), Some (ConfigString pattern) =>
        match config !! "daemon" with
        | Some (ConfigString daemon) =>
            Ok {| Path := path; Pattern := pattern; Daemon := daemon;
                  outputChan := outputChan; metrics := ∅ |}
        | _ => Err "connector setting `daemon' should be a string"
        end
    end.
Proof.
  unfold rrd_factory, as_string.
  destruct (config !! "path") as [[]|], (config !! "pattern") as [[]|],
    (config !! "daemon") as [[]|]; done.
Qed.

(** After [init] the table has the factory under [rrd] and its other
    entries are as before. *)
Theorem init_registers Connectors name :
  init Connectors !! name
  = if decide (name = "rrd") then Some rrd_factory else Connectors !! name.
Proof.
  unfold init. case_decide as Hn; [subst; by rewrite lookup_insert_eq|].
  by rewrite lookup_insert_ne.
Qed.

(** ** Witnesses *)

Lemma rrd_factory_daemon_mandatory_witness :
  rrd_factory chan_make ex_config
  = Err "connector setting `daemon' should be a string".
Proof. by eapply rrd_factory_daemon_mandatory. Defined.
