(* ===== verification/Discovery.v ===== *)
(** * Refresh: discovery of the archives

    [Refresh] compiles the connector's pattern, checks that its named
    groups are [source] and [metric], walks the tree under the connector's
    path and, for every regular file whose relative path matches the
    pattern, reads the names of the datasets of the archive, sends one
    pair (source, metric/dataset) per dataset on the output channel and
    records it in the catalog.  Errors go to the error channel; both
    channels are closed by deferred calls when the function is left.

    The regular expression, the walk and the archive metadata are outside
    the source; they are the classes [Regexp], [Walker] and [Archives].

    A channel is what has been sent on it and whether it is closed, and
    an operation on a channel is modelled where it completes: a send on
    an open channel adds its value, a send on or a close of a closed
    channel panics.  The state keeps the history of the operations that
    have completed, in their order ([rs_events]); what [Refresh] does
    next never depends on the reader of a channel, so the history of a
    call is the order of its operations also when a send has to wait,
    which is what [Stream] builds on.  The connector is one the factory
    has built: its catalog is a map and its output channel exists; a nil
    map, a nil channel or a nil pointer to the channel is not a value of
    the model. *)

From Stdlib Require Import ZArith NArith String Ascii List Lia.
From stdpp Require Import base tactics option list gmap strings.
From S2P Require Import Prelude Stateful GoStrings Float64 Rrd Connector.

(** ** Collaborators *)

(** Go's [regexp], as far as [Refresh] uses it.  [Compile] is [None] where
    [regexp.MustCompile] panics.  [SubexpNames] has the empty name of the
    whole match first; a match has one string per group, the whole match
    first, and no match is the empty slice. *)
Class Regexp : Type := {
  regexp : Type;
  Compile : string → option regexp;
  SubexpNames : regexp → list string;
  FindStringSubmatch : regexp → string → list string;
  SubexpNames_first : ∀ re, head (SubexpNames re) = Some "";
  FindStringSubmatch_length : ∀ re s,
    FindStringSubmatch re s ≠ [] →
    length (FindStringSubmatch re s) = length (SubexpNames re)
}.

(** [os.ModeType]: the bits of a file mode that say the file is not a
    regular one (directory, symbolic link, device, named pipe, socket). *)
Definition ModeType : N := (2 ^ 31 + 2 ^ 27 + 2 ^ 26 + 2 ^ 25 + 2 ^ 24)%N.

(** One call the walker makes to the function it is given: the path, the
    mode of the file, and the error the walker met there, if any. *)
Record visit : Type := {
  v_path : string;
  v_mode : N;
  v_err : option string
}.

(** The walker: the calls it makes for a root, in its order. *)
Class Walker : Type := { walk : string → list visit }.

(** What [rrd.Info] returns, as far as [Refresh] reads it: the names of the
    datasets under the key [ds.index], in the order the loop over that map
    yields them in this run; [None] when the key is absent.  Go fixes no
    order for the loop over a map: [register_order] shows that the
    catalog does not depend on it.  A value under [ds.index] that is not
    a map makes the type assertion of the loop panic; the binding always
    stores a map there, and the panic is one of those [rrd_Info] stands
    for. *)
Record rrd_info : Type := { ds_index : option (list string) }.

Class Archives : Type := { rrd_Info : string → outcome rrd_info }.

(** ** The state [Refresh] works on *)

(** What a call does to the two channels: a send on the output channel,
    a send on the error channel, and the two closes. *)
Inductive event : Type :=
| Output (x : string * string)
| Error (err : string)
| CloseErr
| CloseOut.

#[export] Instance event_eq_dec : EqDecision event.
Proof. solve_decision. Defined.

(** The connector, the error channel and the log as the code has them,
    and the history of the call: the operations on the two channels that
    have completed, in their order.  The history is a variable of the
    model; no operation reads it. *)
Record refresh_state : Type := {
  rs_connector : RRDConnector;
  rs_errChan : chan string;
  rs_log : list string;
  rs_events : list event
}.

Definition set_connector (c : RRDConnector) (st : refresh_state) : refresh_state :=
  {| rs_connector := c; rs_errChan := rs_errChan st; rs_log := rs_log st;
     rs_events := rs_events st |}.

Definition set_errChan (ch : chan string) (st : refresh_state) : refresh_state :=
  {| rs_connector := rs_connector st; rs_errChan := ch; rs_log := rs_log st;
     rs_events := rs_events st |}.

(** An operation on a channel has completed. *)
Definition emit (e : event) (st : refresh_state) : refresh_state :=
  {| rs_connector := rs_connector st; rs_errChan := rs_errChan st;
     rs_log := rs_log st; rs_events := rs_events st ++ [e] |}.

(** [errChan <- err]. *)
Definition send_err (err : string) : stateful refresh_state unit :=
  supdate (λ st,
    let! ch := chan_send err (rs_errChan st) in
    Ok (emit (Error err) (set_errChan ch st))).

(** A send on the channel [connector.outputChan] points to. *)
Definition send_output (pair : string * string) : stateful refresh_state unit :=
  supdate (λ st,
    let! ch := chan_send pair (outputChan (rs_connector st)) in
    Ok (emit (Output pair) (set_connector (set_outputChan ch (rs_connector st)) st))).

(** [close(errChan)]. *)
Definition close_errChan : stateful refresh_state unit :=
  supdate (λ st,
    let! ch := chan_close (rs_errChan st) in Ok (emit CloseErr (set_errChan ch st))).

(** [close] of the channel [connector.outputChan] points to. *)
Definition close_outputChan : stateful refresh_state unit :=
  supdate (λ st,
    let! ch := chan_close (outputChan (rs_connector st)) in
    Ok (emit CloseOut (set_connector (set_outputChan ch (rs_connector st)) st))).

(** [log.Printf]: the message, without the time stamp. *)
Definition log_print (msg : string) : stateful refresh_state unit :=
  smodify (λ st,
    {| rs_connector := rs_connector st; rs_errChan := rs_errChan st;
       rs_log := rs_log st ++ [msg]; rs_events := rs_events st |}).

(** ** Validation of the pattern *)

(** The loop over the names of the groups: unnamed groups are passed over,
    [source] and [metric] are recorded, any other name is an error. *)
Definition validate_keys (names : list string) : outcome (gmap string bool) :=
  foldM (λ groups key,
           if decide (key = "") then Ok groups
           else if decide (key = "source" ∨ key = "metric")
                then Ok (<[key := true]> groups)
                else Err ("invalid pattern keyword `" +:+ key +:+ "'"))
    names ∅.

(** The two tests after the loop. *)
Definition validate_groups (groups : gmap string bool) : outcome unit :=
  if negb (default false (groups !! "source"))
  then Err "missing pattern keyword `source'"
  else if negb (default false (groups !! "metric"))
       then Err "missing pattern keyword `metric'"
       else Ok tt.

(** The error [Refresh] sends for a pattern, if it sends one. *)
Definition validate_pattern (names : list string) : outcome unit :=
  let! groups := validate_keys names in
  validate_groups groups.

(** ** The function the walker calls *)

(** [if _, ok := connector.metrics[sourceName]; !ok { ... = make(...) }]. *)
Definition ensure_source (sourceName : string)
    (ms : gmap string (gmap string rrdMetric)) : gmap string (gmap string rrdMetric) :=
  match ms !! sourceName with
  | Some _ => ms
  | None => <[sourceName := ∅]> ms
  end.

(** [connector.metrics[sourceName][metricFullName] = &rrdMetric{...}]:
    an assignment into the map of a source that has none panics. *)
Definition assign_metric (sourceName metricFullName : string) (m : rrdMetric)
    (ms : gmap string (gmap string rrdMetric))
  : outcome (gmap string (gmap string rrdMetric)) :=
  match ms !! sourceName with
  | Some entries => Ok (<[sourceName := <[metricFullName := m]> entries]> ms)
  | None => Panic AssignToNilMap
  end.

(** The body of the loop over the datasets of an archive. *)
Definition register (sourceName metricName filePath dsName : string)
  : stateful refresh_state unit :=
  let metricFullName := metricName +:+ "/" +:+ dsName in
  do! _ := send_output (sourceName, metricFullName) in
  supdate (λ st,
    let! ms :=
      assign_metric sourceName metricFullName
        {| Dataset := dsName; FilePath := filePath |}
        (metrics (rs_connector st)) in
    Ok (set_connector (set_metrics ms (rs_connector st)) st)).

(** Which groups of a match are the source and the metric. *)
Definition source_and_metric (names submatch : list string)
  : outcome (string * string) :=
  let! name1 := of_option IndexOutOfRange (names !! 1) in
  if decide (name1 = "source") then
    let! sourceName := of_option IndexOutOfRange (submatch !! 1) in
    let! metricName := of_option IndexOutOfRange (submatch !! 2) in
    Ok (sourceName, metricName)
  else
    let! sourceName := of_option IndexOutOfRange (submatch !! 2) in
    let! metricName := of_option IndexOutOfRange (submatch !! 1) in
    Ok (sourceName, metricName).

Section refresh.
Context `{Regexp} `{Walker} `{Archives}.

Definition walkFunc (re : regexp) (v : visit) : stateful refresh_state unit :=
  match v_err v with
  | Some err => sfail err
  | None =>
      if negb (N.land (v_mode v) ModeType =? 0)%N then sret tt
      else
        do! path := sgets (λ st, Path (rs_connector st)) in
        do! rel := slift (slice_from (String.length path + 1) (v_path v)) in
        let submatch := FindStringSubmatch re rel in
        if (length submatch =? 0)%nat then
          log_print ("WARNING: file `" +:+ v_path v +:+ "' does not match pattern")
        else
          do! '(sourceName, metricName) :=
            slift (source_and_metric (SubexpNames re) submatch) in
          do! _ := smodify (λ st,
            set_connector
              (set_metrics (ensure_source sourceName (metrics (rs_connector st)))
                 (rs_connector st)) st) in
          match rrd_Info (v_path v) with
          | Err err => log_print ("WARNING: " +:+ err)
          | Panic p => slift (Panic p)
          | Ok info =>
              match ds_index info with
              | Some dsNames =>
                  sfor dsNames (register sourceName metricName (v_path v))
              | None => sret tt
              end
          end
  end.

(** [utils.WalkDir]: the function is called for every visit, in order, and
    the first error it returns ends the walk and is returned. *)
Definition WalkDir (root : string) (f : visit → stateful refresh_state unit)
  : stateful refresh_state unit :=
  sfor (walk root) f.

(** [Refresh] without its deferred calls. *)
Definition Refresh_body : stateful refresh_state unit :=
  do! pattern := sgets (λ st, Pattern (rs_connector st)) in
  do! re := slift (of_option MustCompilePanic (Compile pattern)) in
  match validate_pattern (SubexpNames re) with
  | Err err => send_err err
  | Panic p => slift (Panic p)
  | Ok _ =>
      do! path := sgets (λ st, Path (rs_connector st)) in
      scatch (WalkDir path (walkFunc re)) send_err
  end.

(** [Refresh]: the deferred calls run last deferred first, so the error
    channel is closed before the output channel. *)
Definition Refresh : stateful refresh_state unit :=
  sdefer close_outputChan (sdefer close_errChan Refresh_body).

End refresh.
