(* ===== verification/DiscoverySpec.v ===== *)
(** * Refresh: what discovery guarantees

    The validation of the pattern as a function of the names of its
    groups; the discipline of the two channels on every path through
    [Refresh], from open channels and from closed ones; one call of
    [walkFunc] branch by branch ([visit_result]: what it does to the
    state and what it returns) and the loop of the walker over its calls
    ([walk_calls]), proved equal to the code on every path
    ([walkFunc_total], [WalkDir_total]); the state and the result of a
    whole call from open channels ([body_result], [Refresh_total]), its
    history on the two channels ([Refresh_history]) and its log; the
    catalog and the pairs sent after a walk, stated over the entries each
    visited file contributes. *)

From Stdlib Require Import ZArith NArith String Ascii List Lia.
From stdpp Require Import base tactics option list gmap strings.
From S2P Require Import Prelude Stateful GoStrings Float64 Rrd Connector Discovery.

(** ** Definitions of the specification *)

(** The names a group may have: none, [source] or [metric]. *)
Definition valid_key (key : string) : bool :=
  bool_decide (key = "" ∨ key = "source" ∨ key = "metric").

(** The error of a pattern, from the names of its groups: the first name
    that is not allowed, else the first of [source] and [metric] that no
    group has. *)
Definition pattern_error (names : list string) : option string :=
  match filter (λ key, valid_key key = false) names with
  | key :: _ => Some ("invalid pattern keyword `" +:+ key +:+ "'")
  | [] =>
      if bool_decide ("source" ∈ names) then
        if bool_decide ("metric" ∈ names) then None
        else Some "missing pattern keyword `metric'"
      else Some "missing pattern keyword `source'"
  end.

(** The groups the loop has recorded after the names [names]. *)
Definition mark (names : list string) (groups : gmap string bool)
  : gmap string bool :=
  fold_left (λ groups key, if decide (key = "") then groups
                           else <[key := true]> groups) names groups.

Definition out_chan (st : refresh_state) : chan (string * string) :=
  outputChan (rs_connector st).

Definition catalog (st : refresh_state) : gmap string (gmap string rrdMetric) :=
  metrics (rs_connector st).

(** Both channels are open, as when [Refresh] is called. *)
Definition chans_open (st : refresh_state) : Prop :=
  closed (rs_errChan st) = false ∧ closed (out_chan st) = false.

(** Both channels are closed. *)
Definition chans_closed (st : refresh_state) : Prop :=
  closed (rs_errChan st) = true ∧ closed (out_chan st) = true.

(** The panics a call of [Refresh] with open channels can end with: a
    pattern that does not compile, a visited path that is not longer than
    the root, and what [rrd.Info] panics with. *)
Definition refresh_panic `{Archives} (p : go_panic) : Prop :=
  p = MustCompilePanic ∨ p = SliceOutOfRange ∨ ∃ path, rrd_Info path = Panic p.

(** The failures of a walk: the error of a visit, or one of those panics. *)
Definition walk_failure `{Archives} (f : failure) : Prop :=
  match f with Failed _ => True | Panicked p => refresh_panic p end.

(** Open channels and a catalog that has the source. *)
Definition ready (sourceName : string) (st : refresh_state) : Prop :=
  chans_open st ∧ is_Some (catalog st !! sourceName).

(** *** What a walk does, as data *)

(** An entry of the catalog: source and metric, and the descriptor. *)
Definition entry : Type := (string * string) * rrdMetric.

(** The descriptor stored under the metric of a source that is there. *)
Definition add_entry (ms : gmap string (gmap string rrdMetric)) (e : entry)
  : gmap string (gmap string rrdMetric) :=
  alter (<[e.1.2 := e.2]>) e.1.1 ms.

(** What visits do to the state: the sources they make sure are there, the
    entries they send and store, the warnings they log. *)
Record effect : Type := {
  e_sources : list string;
  e_entries : list entry;
  e_log : list string
}.

Definition effect_nil : effect :=
  {| e_sources := []; e_entries := []; e_log := [] |}.

Definition effect_app (a b : effect) : effect :=
  {| e_sources := e_sources a ++ e_sources b;
     e_entries := e_entries a ++ e_entries b;
     e_log := e_log a ++ e_log b |}.

(** Every entry is of a source the effect makes sure is there. *)
Definition effect_wf (eff : effect) : Prop :=
  ∀ e, e ∈ e_entries eff → e.1.1 ∈ e_sources eff.

Definition ensure_sources (sources : list string)
    (ms : gmap string (gmap string rrdMetric)) : gmap string (gmap string rrdMetric) :=
  fold_left (λ ms s, ensure_source s ms) sources ms.

Definition apply_effect (eff : effect) (st : refresh_state) : refresh_state :=
  {| rs_connector :=
       {| Path := Path (rs_connector st);
          Pattern := Pattern (rs_connector st);
          Daemon := Daemon (rs_connector st);
          outputChan :=
            {| sent := sent (out_chan st) ++ (e_entries eff).*1;
               closed := closed (out_chan st) |};
          metrics :=
            fold_left add_entry (e_entries eff)
              (ensure_sources (e_sources eff) (catalog st)) |};
     rs_errChan := rs_errChan st;
     rs_log := rs_log st ++ e_log eff;
     rs_events := rs_events st ++ (Output <$> (e_entries eff).*1) |}.

(** The file is a regular one. *)
Definition is_regular (v : visit) : bool := (N.land (v_mode v) ModeType =? 0)%N.

(** The entry of a dataset of an archive. *)
Definition dataset_entry (sourceName metricName filePath dsName : string) : entry :=
  ((sourceName, metricName +:+ "/" +:+ dsName),
   {| Dataset := dsName; FilePath := filePath |}).

(** One call of [walkFunc], branch by branch: what it does to the state
    and what it returns.  A visit with an error of the walker returns
    that error; a file that is not a regular one, a file that does not
    match and an archive whose metadata cannot be read return nil; the
    slice of a path that is too short, a group that is not there and
    [rrd.Info] panic, the last after the map of the source has been
    made. *)
Definition visit_result `{Regexp} `{Archives} (re : regexp) (root : string)
    (v : visit) : effect * outcome unit :=
  match v_err v with
  | Some err => (effect_nil, Err err)
  | None =>
      if is_regular v then
        match slice_from (String.length root + 1) (v_path v) with
        | Ok rel =>
            let submatch := FindStringSubmatch re rel in
            if (length submatch =? 0)%nat then
              ({| e_sources := []; e_entries := [];
                  e_log := ["WARNING: file `" +:+ v_path v
                            +:+ "' does not match pattern"] |},
               Ok tt)
            else
              match source_and_metric (SubexpNames re) submatch with
              | Ok (sourceName, metricName) =>
                  match rrd_Info (v_path v) with
                  | Ok info =>
                      ({| e_sources := [sourceName];
                          e_entries :=
                            dataset_entry sourceName metricName (v_path v)
                              <$> default [] (ds_index info);
                          e_log := [] |},
                       Ok tt)
                  | Err err =>
                      ({| e_sources := [sourceName]; e_entries := [];
                          e_log := ["WARNING: " +:+ err] |},
                       Ok tt)
                  | Panic p =>
                      ({| e_sources := [sourceName]; e_entries := []; e_log := [] |},
                       Panic p)
                  end
              | Err err => (effect_nil, Err err)
              | Panic p => (effect_nil, Panic p)
              end
        | Err err => (effect_nil, Err err)
        | Panic p => (effect_nil, Panic p)
        end
      else (effect_nil, Ok tt)
  end.

(** What the visit of a file does. *)
Definition visit_effect `{Regexp} `{Archives} (re : regexp) (root : string)
    (v : visit) : effect :=
  (visit_result re root v).1.

(** What the call for a visit returns. *)
Definition visit_outcome `{Regexp} `{Archives} (re : regexp) (root : string)
    (v : visit) : outcome unit :=
  (visit_result re root v).2.

(** What a walk does: the effects of its visits, in order. *)
Definition walk_effect `{Regexp} `{Archives} (re : regexp) (root : string)
    (visits : list visit) : effect :=
  foldr (λ v eff, effect_app (visit_effect re root v) eff) effect_nil visits.

(** The calls of a walk: the walker calls the function for its visits in
    their order, up to the first call that does not return nil, and
    returns what that call returned. *)
Fixpoint walk_calls `{Regexp} `{Archives} (re : regexp) (root : string)
    (visits : list visit) : list visit * outcome unit :=
  match visits with
  | [] => ([], Ok tt)
  | v :: visits =>
      match visit_outcome re root v with
      | Ok _ => (v :: (walk_calls re root visits).1, (walk_calls re root visits).2)
      | r => ([v], r)
      end
  end.

(** The walker reports no error for the file, and if the file is a regular
    one, its path is longer than the root and [rrd.Info] does not panic on
    it. *)
Definition visit_ok `{Archives} (root : string) (v : visit) : Prop :=
  v_err v = None ∧
  (is_regular v = true →
   String.length root < String.length (v_path v) ∧
   ∀ p, rrd_Info (v_path v) ≠ Panic p).

(** Both deferred calls, on open channels. *)
Definition close_chans (st : refresh_state) : refresh_state :=
  {| rs_connector :=
       set_outputChan {| sent := sent (out_chan st); closed := true |}
         (rs_connector st);
     rs_errChan := {| sent := sent (rs_errChan st); closed := true |};
     rs_log := rs_log st;
     rs_events := rs_events st ++ [CloseErr; CloseOut] |}.

(** A send on the open error channel. *)
Definition err_sent (err : string) (st : refresh_state) : refresh_state :=
  emit (Error err)
    (set_errChan {| sent := sent (rs_errChan st) ++ [err]; closed := false |} st).

(** The visits of a walk before its first error, and that error: the
    walker makes no call after the function has returned an error. *)
Fixpoint until_error (visits : list visit) : list visit * option string :=
  match visits with
  | [] => ([], None)
  | v :: visits =>
      match v_err v with
      | Some err => ([], Some err)
      | None => (v :: (until_error visits).1, (until_error visits).2)
      end
  end.

(** What stands in the way of a panic at a visit: a regular file has a
    path longer than the root, and [rrd.Info] does not panic on it. *)
Definition visit_safe `{Archives} (root : string) (v : visit) : Prop :=
  is_regular v = true →
  String.length root < String.length (v_path v) ∧ ∀ p, rrd_Info (v_path v) ≠ Panic p.

(** The state after the walk of a valid pattern: what the visits before
    the first error have done, and that error on the error channel. *)
Definition walked `{Regexp} `{Archives} (re : regexp) (visits : list visit)
    (st : refresh_state) : refresh_state :=
  let st' :=
    apply_effect (walk_effect re (Path (rs_connector st)) (until_error visits).1) st in
  match (until_error visits).2 with
  | None => st'
  | Some err => err_sent err st'
  end.

(** The state after the body of [Refresh] on a pattern that compiles: the
    error of the pattern on the error channel, or the state after the
    walk. *)
Definition refreshed `{Regexp} `{Walker} `{Archives} (re : regexp)
    (st : refresh_state) : refresh_state :=
  match pattern_error (SubexpNames re) with
  | Some err => err_sent err st
  | None => walked re (walk (Path (rs_connector st))) st
  end.

(** The descriptor of a metric of a source, in a catalog. *)
Definition lookup2 (ms : gmap string (gmap string rrdMetric)) (key : string * string)
  : option rrdMetric :=
  ms !! key.1 ≫= (.!! key.2).

(** The entries a walk finds, in its order. *)
Definition discovered `{Regexp} `{Archives} (re : regexp) (root : string)
    (visits : list visit) : list entry :=
  visits ≫= (λ v, e_entries (visit_effect re root v)).

(** The walk of a valid pattern, on every path: the state after the calls
    the walker has made, with the error of the walk on the error channel
    if the last call returned one, and what the walk is left with: a
    panic of the last call, or nothing. *)
Definition walk_result `{Regexp} `{Archives} (re : regexp) (visits : list visit)
    (st : refresh_state) : refresh_state * outcome unit :=
  let calls := walk_calls re (Path (rs_connector st)) visits in
  let st' := apply_effect (walk_effect re (Path (rs_connector st)) calls.1) st in
  match calls.2 with
  | Ok _ => (st', Ok tt)
  | Err err => (err_sent err st', Ok tt)
  | Panic p => (st', Panic p)
  end.

(** The body of [Refresh] on every path: the panic of a pattern that
    does not compile, the error of a pattern that is not valid, or the
    walk. *)
Definition body_result `{Regexp} `{Walker} `{Archives} (st : refresh_state)
  : refresh_state * outcome unit :=
  match Compile (Pattern (rs_connector st)) with
  | None => (st, Panic MustCompilePanic)
  | Some re =>
      match pattern_error (SubexpNames re) with
      | Some err => (err_sent err st, Ok tt)
      | None => walk_result re (walk (Path (rs_connector st))) st
      end
  end.

(** The pairs a call of [Refresh] sends: those of the entries the calls
    of the walk find, in their order; none when the pattern does not
    compile or is not valid. *)
Definition refresh_pairs `{Regexp} `{Walker} `{Archives} (st : refresh_state)
  : list (string * string) :=
  match Compile (Pattern (rs_connector st)) with
  | None => []
  | Some re =>
      match pattern_error (SubexpNames re) with
      | Some _ => []
      | None =>
          (discovered re (Path (rs_connector st))
             (walk_calls re (Path (rs_connector st))
                (walk (Path (rs_connector st)))).1).*1
      end
  end.

(** The errors a call of [Refresh] sends: the error of the pattern, or
    the error the walk ends with; one at most. *)
Definition refresh_errors `{Regexp} `{Walker} `{Archives} (st : refresh_state)
  : list string :=
  match Compile (Pattern (rs_connector st)) with
  | None => []
  | Some re =>
      match pattern_error (SubexpNames re) with
      | Some err => [err]
      | None =>
          match (walk_calls re (Path (rs_connector st))
                   (walk (Path (rs_connector st)))).2 with
          | Err err => [err]
          | _ => []
          end
      end
  end.

(** The operations of a call of [Refresh] on the two channels, in their
    order: the pairs, the error, the close of the error channel and the
    close of the output channel. *)
Definition refresh_events `{Regexp} `{Walker} `{Archives} (st : refresh_state)
  : list event :=
  (Output <$> refresh_pairs st) ++ (Error <$> refresh_errors st)
  ++ [CloseErr; CloseOut].

(** The catalogs agree on every metric of every source. *)
Definition catalog_equiv (ms ms' : gmap string (gmap string rrdMetric)) : Prop :=
  ∀ key, lookup2 ms key = lookup2 ms' key.

(** The text of the first group with a given name, in a match. *)
Definition group (names submatch : list string) (key : string) : option string :=
  '(i, _) ← list_find (λ name, name = key) names; submatch !! i.

(** A property of the state that the steps of a walk keep: logging, a
    new event of the history, a send on the output channel that
    completes, making sure a source is there, and storing a descriptor. *)
Record walk_invariant (I : refresh_state → Prop) : Prop := {
  wi_log : ∀ st msg, I st →
    I {| rs_connector := rs_connector st; rs_errChan := rs_errChan st;
         rs_log := rs_log st ++ [msg]; rs_events := rs_events st |};
  wi_emit : ∀ st e, I st → I (emit e st);
  wi_output : ∀ st x ch, I st → chan_send x (out_chan st) = Ok ch →
    I (set_connector (set_outputChan ch (rs_connector st)) st);
  wi_ensure : ∀ st s, I st →
    I (set_connector
         (set_metrics (ensure_source s (catalog st)) (rs_connector st)) st);
  wi_assign : ∀ st e, I st → is_Some (catalog st !! e.1.1) →
    I (set_connector
         (set_metrics (add_entry (catalog st) e) (rs_connector st)) st)
}.

(** ** Validation of the pattern *)

Lemma mark_lookup names groups key :
  key ≠ "" →
  default false (mark names groups !! key)
  = bool_decide (key ∈ names) || default false (groups !! key).
Proof.
  intros Hkey. revert groups; induction names as [|k names IH]; intros groups.
  - cbn [mark fold_left].
    by rewrite (bool_decide_eq_false_2 (key ∈ [])) by apply not_elem_of_nil.
  - cbn [mark fold_left]. fold (mark names). rewrite IH.
    destruct (decide (key = k)) as [<-|Hne].
    + rewrite (bool_decide_eq_true_2 (key ∈ key :: names)) by left.
      rewrite decide_False by done. rewrite lookup_insert_eq. simpl.
      by rewrite orb_true_r.
    + rewrite (bool_decide_ext (key ∈ k :: names) (key ∈ names))
        by (rewrite elem_of_cons; intuition congruence).
      destruct (decide (k = "")); [done|]. by rewrite lookup_insert_ne.
Qed.

(** The loop over the names fails at the first name that is not
    allowed, and records the others. *)
Lemma validate_keys_from names groups :
  foldM (λ groups key,
           if decide (key = "") then Ok groups
           else if decide (key = "source" ∨ key = "metric")
                then Ok (<[key := true]> groups)
                else Err ("invalid pattern keyword `" +:+ key +:+ "'"))
    names groups
  = match filter (λ key, valid_key key = false) names with
    | key :: _ => Err ("invalid pattern keyword `" +:+ key +:+ "'")
    | [] => Ok (mark names groups)
    end.
Proof.
  revert groups; induction names as [|k names IH]; intros groups; [done|].
  cbn [foldM]. rewrite filter_cons.
  destruct (decide (valid_key k = false)) as [Hv|Hv]; unfold valid_key in Hv.
  - apply bool_decide_eq_false in Hv. by rewrite !decide_False by tauto.
  - apply not_false_iff_true, bool_decide_eq_true in Hv.
    cbn [mark fold_left]. fold (mark names).
    destruct (decide (k = "")) as [->|Hne]; cbn [obind]; [apply IH|].
    rewrite decide_True by tauto. apply IH.
Qed.

Lemma validate_pattern_spec names :
  validate_pattern names
  = match pattern_error names with Some err => Err err | None => Ok tt end.
Proof.
  unfold validate_pattern, validate_keys, pattern_error.
  rewrite validate_keys_from.
  destruct (filter _ names); [|done]. cbn [obind]. unfold validate_groups.
  rewrite !mark_lookup by done. rewrite lookup_empty. simpl. rewrite !orb_false_r.
  by repeat case_bool_decide.
Qed.

(** A pattern that passes has the two named groups behind the whole
    match: at least three names. *)
Lemma pattern_error_None names :
  pattern_error names = None → "source" ∈ names ∧ "metric" ∈ names.
Proof.
  unfold pattern_error. destruct (filter _ names); [|done].
  by repeat case_bool_decide.
Qed.

Lemma valid_names_length names :
  head names = Some "" → pattern_error names = None → 3 ≤ length names.
Proof.
  intros Hhd [Hs Hm]%pattern_error_None.
  destruct names as [|n0 [|n1 [|n2 names]]]; simplify_eq/=; try lia;
    rewrite ?elem_of_cons, ?elem_of_nil in Hs, Hm; intuition congruence.
Qed.

(** ** The channels *)

Section channels.
Context `{Regexp} `{Walker} `{Archives}.
Implicit Types (st : refresh_state) (F : failure → Prop).

Lemma triple_send_err F err : triple chans_open F (send_err err) chans_open.
Proof.
  apply triple_supdate. intros st [He Ho]. unfold chan_send. by rewrite He.
Qed.

Lemma triple_log_print F msg : triple chans_open F (log_print msg) chans_open.
Proof. by apply triple_smodify. Qed.

Lemma triple_register F sourceName metricName filePath dsName :
  triple (ready sourceName) F (register sourceName metricName filePath dsName)
    (ready sourceName).
Proof.
  unfold register. apply triple_sbind; [|intros _]; apply triple_supdate.
  - intros st [[He Ho] Hs]. unfold chan_send. fold (out_chan st). by rewrite Ho.
  - intros st [[He Ho] [entries Hs]]. unfold assign_metric. fold (catalog st).
    rewrite Hs. cbn [obind]. split; [done|].
    unfold catalog; simpl. by rewrite lookup_insert_eq.
Qed.

Lemma ensure_source_present sourceName ms :
  is_Some (ensure_source sourceName ms !! sourceName).
Proof.
  unfold ensure_source. destruct (ms !! sourceName) eqn:E; [by rewrite E|].
  by rewrite lookup_insert_eq.
Qed.

(** With three names and three strings in the match, no index is out of
    range. *)
Lemma source_and_metric_total names submatch :
  3 ≤ length names → 3 ≤ length submatch →
  is_Ok (source_and_metric names submatch) = true.
Proof.
  destruct names as [|n0 [|n1 [|n2 names]]]; simpl; try lia.
  destruct submatch as [|s0 [|s1 [|s2 submatch]]]; simpl; try lia.
  intros _ _. unfold source_and_metric. simpl. by case_decide.
Qed.

Lemma source_and_metric_valid re rel :
  pattern_error (SubexpNames re) = None → FindStringSubmatch re rel ≠ [] →
  ∃ pair, source_and_metric (SubexpNames re) (FindStringSubmatch re rel) = Ok pair.
Proof.
  intros Hvalid Hm.
  pose proof (valid_names_length _ (SubexpNames_first re) Hvalid) as Hn.
  pose proof (source_and_metric_total (SubexpNames re)
                (FindStringSubmatch re rel) Hn) as Hok.
  rewrite FindStringSubmatch_length in Hok by done. specialize (Hok Hn).
  destruct (source_and_metric _ _); [by eexists|done..].
Qed.

Lemma triple_walkFunc re v :
  pattern_error (SubexpNames re) = None →
  triple chans_open walk_failure (walkFunc re v) chans_open.
Proof.
  intros Hvalid. unfold walkFunc.
  destruct (v_err v) as [err|]; [by apply triple_sfail|].
  destruct (negb _); [apply triple_sret|].
  apply triple_sbind; [apply triple_sgets|intros path].
  apply triple_sbind; [apply triple_slift|intros rel].
  { unfold slice_from. case_match; [done|]. intros f [= <-]. right; by left. }
  destruct (Nat.eqb_spec (length (FindStringSubmatch re rel)) 0) as [|Hlen];
    [apply triple_log_print|].
  apply triple_sbind; [apply triple_slift|intros [sourceName metricName]].
  { destruct (source_and_metric_valid re rel Hvalid) as [pair ->]; [|done].
    by destruct (FindStringSubmatch re rel). }
  apply (triple_seq _ _ _ _ (ready sourceName)).
  - apply triple_smodify. intros st Hst. split; [done|].
    apply ensure_source_present.
  - intros _. destruct (rrd_Info (v_path v)) as [[[dsNames|]]|err|p] eqn:Hinfo.
    + eapply triple_weaken; [apply triple_sfor; intros; apply triple_register|..];
        [done|by intros ? []|done].
    + eapply triple_weaken; [apply triple_sret|..]; [done|by intros ? []|done].
    + eapply triple_weaken; [apply triple_log_print|..]; [by intros ? []|done..].
    + eapply triple_weaken; [apply (triple_slift (ready sourceName))|..]; try done.
      * intros f [= <-]. right; right. by exists (v_path v).
      * by intros ? [].
  - by intros ? [].
Qed.

Lemma triple_Refresh_body :
  triple chans_open (panics_in refresh_panic) Refresh_body chans_open.
Proof.
  unfold Refresh_body.
  apply triple_sbind; [apply triple_sgets|intros pattern].
  apply triple_sbind; [apply triple_slift|intros re].
  { destruct (Compile pattern); [done|]. intros f [= <-]. by left. }
  rewrite validate_pattern_spec.
  destruct (pattern_error (SubexpNames re)) as [err|] eqn:Hvalid;
    [apply triple_send_err|].
  apply triple_sbind; [apply triple_sgets|intros path].
  apply (triple_scatch _ _ walk_failure _ _ chans_open);
    [|intros; apply triple_send_err|done..].
  apply triple_sfor. intros v _. by apply triple_walkFunc.
Qed.

Lemma triple_close_errChan F :
  triple chans_open F close_errChan
    (λ st, closed (rs_errChan st) = true ∧ closed (out_chan st) = false).
Proof.
  apply triple_supdate. intros st [He Ho]. unfold chan_close. by rewrite He.
Qed.

Lemma triple_close_outputChan F :
  triple (λ st, closed (rs_errChan st) = true ∧ closed (out_chan st) = false) F
    close_outputChan chans_closed.
Proof.
  apply triple_supdate. intros st [He Ho]. unfold chan_close.
  fold (out_chan st). by rewrite Ho.
Qed.

(** Both channels are closed after [Refresh], on every path. *)
Lemma Refresh_chans_closed st : chans_open st → chans_closed (Refresh st).1.
Proof.
  intros Hopen.
  assert (triple chans_open (panics_in refresh_panic) Refresh chans_closed) as Ht.
  { eapply triple_sdefer; [|apply triple_close_outputChan].
    eapply triple_sdefer; [apply triple_Refresh_body|apply triple_close_errChan]. }
  by apply Ht.
Qed.

(** C10: called with both channels open, [Refresh] leaves both channels
    closed on every path, the panicking ones included; it never sends on or
    closes a closed channel, never assigns into a missing map and never
    reads a group that is not there: it returns, or panics because the
    pattern does not compile, a visited path is not below the root, or
    [rrd.Info] panics. *)
Theorem Refresh_closes_channels :
  triple chans_open (panics_in refresh_panic) Refresh chans_closed.
Proof.
  unfold Refresh.
  eapply triple_sdefer; [|apply triple_close_outputChan].
  eapply triple_sdefer; [apply triple_Refresh_body|apply triple_close_errChan].
Qed.

End channels.

(** ** The catalog under added entries *)

Lemma refresh_state_ext (st st' : refresh_state) :
  Path (rs_connector st) = Path (rs_connector st') →
  Pattern (rs_connector st) = Pattern (rs_connector st') →
  Daemon (rs_connector st) = Daemon (rs_connector st') →
  sent (out_chan st) = sent (out_chan st') →
  closed (out_chan st) = closed (out_chan st') →
  catalog st = catalog st' →
  rs_errChan st = rs_errChan st' → rs_log st = rs_log st' →
  rs_events st = rs_events st' →
  st = st'.
Proof.
  destruct st as [[? ? ? [] ?] ? ? ?], st' as [[? ? ? [] ?] ? ? ?].
  unfold out_chan, catalog; simpl. congruence.
Qed.

Lemma ensure_sources_app ss1 ss2 ms :
  ensure_sources (ss1 ++ ss2) ms = ensure_sources ss2 (ensure_sources ss1 ms).
Proof. apply fold_left_app. Qed.

Lemma ensure_source_is_Some s s' ms :
  is_Some (ms !! s') → is_Some (ensure_source s ms !! s').
Proof.
  intros Hs'. unfold ensure_source. destruct (ms !! s) eqn:E; [done|].
  destruct (decide (s = s')) as [->|]; [by rewrite lookup_insert_eq|].
  by rewrite lookup_insert_ne.
Qed.

Lemma ensure_sources_is_Some ss s ms :
  s ∈ ss ∨ is_Some (ms !! s) → is_Some (ensure_sources ss ms !! s).
Proof.
  revert ms; induction ss as [|s0 ss IH]; intros ms.
  - intros [Hin|]; [by apply elem_of_nil in Hin|done].
  - cbn [ensure_sources fold_left]. fold (ensure_sources ss).
    intros [[->|Hin]%elem_of_cons|Hs]; apply IH; auto.
    + right. apply ensure_source_present.
    + right. by apply ensure_source_is_Some.
Qed.

Lemma add_entry_is_Some e s ms :
  is_Some (add_entry ms e !! s) ↔ is_Some (ms !! s).
Proof.
  unfold add_entry. destruct (decide (e.1.1 = s)) as [<-|].
  - by rewrite lookup_alter_eq, fmap_is_Some.
  - by rewrite lookup_alter_ne.
Qed.

(** Making sure that a source is there commutes with adding an entry of a
    source that is there. *)
Lemma ensure_source_add_entry s e ms :
  is_Some (ms !! e.1.1) →
  ensure_source s (add_entry ms e) = add_entry (ensure_source s ms) e.
Proof.
  intros [entries He]. unfold ensure_source, add_entry.
  destruct (decide (e.1.1 = s)) as [<-|Hne].
  - by rewrite lookup_alter_eq, He.
  - rewrite lookup_alter_ne by done.
    destruct (ms !! s); [done|]. by rewrite alter_insert_ne.
Qed.

Lemma ensure_source_add_entries s es ms :
  (∀ e, e ∈ es → is_Some (ms !! e.1.1)) →
  ensure_source s (fold_left add_entry es ms)
  = fold_left add_entry es (ensure_source s ms).
Proof.
  revert ms; induction es as [|e es IH]; intros ms Hes; [done|].
  cbn [fold_left]. rewrite IH.
  - rewrite ensure_source_add_entry; [done|]. apply Hes; left.
  - intros e' He'. apply add_entry_is_Some, Hes. by right.
Qed.

Lemma ensure_sources_add_entries ss es ms :
  (∀ e, e ∈ es → is_Some (ms !! e.1.1)) →
  ensure_sources ss (fold_left add_entry es ms)
  = fold_left add_entry es (ensure_sources ss ms).
Proof.
  revert ms; induction ss as [|s ss IH]; intros ms Hes; [done|].
  cbn [ensure_sources fold_left]. fold (ensure_sources ss).
  rewrite ensure_source_add_entries by done. apply IH.
  intros e He. by apply ensure_source_is_Some, Hes.
Qed.

(** ** Effects compose *)

Lemma apply_effect_nil st : apply_effect effect_nil st = st.
Proof. apply refresh_state_ext; simpl; by rewrite ?app_nil_r. Qed.

Lemma catalog_apply_effect eff st :
  catalog (apply_effect eff st)
  = fold_left add_entry (e_entries eff) (ensure_sources (e_sources eff) (catalog st)).
Proof. done. Qed.

Lemma apply_effect_app a b st :
  (∀ e, e ∈ e_entries a → e.1.1 ∈ e_sources a ∨ is_Some (catalog st !! e.1.1)) →
  apply_effect (effect_app a b) st = apply_effect b (apply_effect a st).
Proof.
  intros Ha. apply refresh_state_ext; try done.
  - simpl. by rewrite fmap_app, app_assoc.
  - rewrite !catalog_apply_effect. unfold effect_app; cbn [e_sources e_entries].
    rewrite ensure_sources_app, fold_left_app.
    f_equal. rewrite ensure_sources_add_entries; [done|].
    intros e He. by apply ensure_sources_is_Some, Ha.
  - simpl. by rewrite app_assoc.
  - simpl. by rewrite !fmap_app, app_assoc.
Qed.

Lemma effect_wf_app a b : effect_wf a → effect_wf b → effect_wf (effect_app a b).
Proof.
  intros Ha Hb e. unfold effect_app; simpl. rewrite !elem_of_app.
  intros [?|?]; [left; by apply Ha|right; by apply Hb].
Qed.

Lemma apply_effect_open eff st : chans_open st → chans_open (apply_effect eff st).
Proof. done. Qed.

(** ** The walk as an effect *)

Section walk.
Context `{Regexp} `{Walker} `{Archives}.
Implicit Types (st : refresh_state) (re : regexp).

Lemma assign_metric_add_entry sourceName name m ms :
  is_Some (ms !! sourceName) →
  assign_metric sourceName name m ms = Ok (add_entry ms ((sourceName, name), m)).
Proof.
  intros [entries Hs]. unfold assign_metric, add_entry. rewrite Hs. simpl.
  by rewrite (alter_alt_Some _ _ _ _ Hs).
Qed.

Lemma register_effect sourceName metricName filePath dsName st :
  closed (out_chan st) = false → is_Some (catalog st !! sourceName) →
  register sourceName metricName filePath dsName st
  = (apply_effect
       {| e_sources := [];
          e_entries := [dataset_entry sourceName metricName filePath dsName];
          e_log := [] |} st, Ok tt).
Proof.
  intros Ho Hs. unfold register, sbind, send_output, supdate, chan_send.
  fold (out_chan st). rewrite Ho. cbn [obind].
  cbn [set_connector set_outputChan rs_connector metrics]. fold (catalog st).
  rewrite assign_metric_add_entry by done. cbn [obind]. f_equal.
  apply refresh_state_ext; simpl; by rewrite ?app_nil_r.
Qed.

(** The loop over the datasets of an archive. *)
Lemma register_all_effect sourceName metricName filePath dsNames st :
  closed (out_chan st) = false → is_Some (catalog st !! sourceName) →
  sfor dsNames (register sourceName metricName filePath) st
  = (apply_effect
       {| e_sources := [];
          e_entries := dataset_entry sourceName metricName filePath <$> dsNames;
          e_log := [] |} st, Ok tt).
Proof.
  revert st; induction dsNames as [|d ds IH]; intros st Ho Hs.
  { cbn [sfor fmap list_fmap]. unfold sret. f_equal. symmetry.
    apply apply_effect_nil. }
  cbn [sfor]. unfold sbind. rewrite register_effect by done.
  rewrite IH; [|done|by apply add_entry_is_Some]. f_equal.
  rewrite <- apply_effect_app; [done|].
  intros e ->%list_elem_of_singleton. by right.
Qed.

Lemma visit_effect_wf re root v : effect_wf (visit_effect re root v).
Proof.
  unfold visit_effect, visit_result. intros e.
  repeat case_match; simpl; try (by intros ?%elem_of_nil).
  intros (d & -> & _)%list_elem_of_fmap. by left.
Qed.

Lemma walk_effect_wf re root visits : effect_wf (walk_effect re root visits).
Proof.
  induction visits as [|v visits IH]; simpl; [by intros e ?%elem_of_nil|].
  apply effect_wf_app; [apply visit_effect_wf|done].
Qed.

(** The loop over the datasets, or no loop when the key is absent. *)
Lemma datasets_effect sourceName metricName filePath info st :
  closed (out_chan st) = false → is_Some (catalog st !! sourceName) →
  match ds_index info with
  | Some dsNames => sfor dsNames (register sourceName metricName filePath)
  | None => sret tt
  end st
  = (apply_effect
       {| e_sources := [];
          e_entries := dataset_entry sourceName metricName filePath
                         <$> default [] (ds_index info);
          e_log := [] |} st, Ok tt).
Proof.
  intros Ho Hs. destruct (ds_index info) as [dsNames|];
    [by apply register_all_effect|].
  unfold sret. by rewrite apply_effect_nil.
Qed.

(** A call of [walkFunc] on a state whose output channel is open does
    what [visit_effect] says and returns what [visit_outcome] says, on
    every branch. *)
Theorem walkFunc_total re v st :
  closed (out_chan st) = false →
  walkFunc re v st
  = (apply_effect (visit_effect re (Path (rs_connector st)) v) st,
     visit_outcome re (Path (rs_connector st)) v).
Proof.
  intros Ho. unfold walkFunc, visit_effect, visit_outcome, visit_result.
  destruct (v_err v) as [err|]; [unfold sfail; by rewrite apply_effect_nil|].
  fold (is_regular v). destruct (is_regular v); cbn [negb];
    [|unfold sret; by rewrite apply_effect_nil].
  unfold sbind at 1, sgets at 1. unfold sbind at 1, slift at 1.
  destruct (slice_from _ _) as [rel|err|p]; cbn [fst snd];
    [|by rewrite apply_effect_nil..].
  destruct (Nat.eqb_spec (length (FindStringSubmatch re rel)) 0) as [|Hm].
  { unfold log_print, smodify. f_equal. by apply refresh_state_ext; simpl;
      rewrite ?app_nil_r. }
  unfold sbind at 1, slift at 1.
  destruct (source_and_metric _ _) as [[sourceName metricName]|err|p];
    cbn [fst snd]; [|by rewrite apply_effect_nil..].
  unfold sbind, smodify.
  destruct (rrd_Info (v_path v)) as [info|err|p]; cbn [fst snd].
  - by rewrite datasets_effect; [|done|apply ensure_source_present].
  - unfold log_print, smodify. f_equal.
    by apply refresh_state_ext; simpl; rewrite ?app_nil_r.
  - unfold slift. f_equal. by apply refresh_state_ext; simpl; rewrite ?app_nil_r.
Qed.

(** A visit that cannot panic returns nil or the error of the walker. *)
Lemma visit_outcome_safe re root v :
  pattern_error (SubexpNames re) = None → visit_safe root v →
  visit_outcome re root v
  = match v_err v with Some err => Err err | None => Ok tt end.
Proof.
  intros Hvalid Hsafe. unfold visit_outcome, visit_result.
  destruct (v_err v); [done|]. destruct (is_regular v) eqn:Hreg; [|done].
  destruct (Hsafe Hreg) as [Hlen Hinfo]. unfold slice_from.
  destruct (Nat.leb_spec (String.length root + 1) (String.length (v_path v)))
    as [_|]; [|lia].
  set (rel := string_drop _ _).
  destruct (Nat.eqb_spec (length (FindStringSubmatch re rel)) 0) as [|Hm]; [done|].
  destruct (source_and_metric_valid re rel Hvalid)
    as [[sourceName metricName] ->]; [by destruct (FindStringSubmatch re rel)|].
  destruct (rrd_Info (v_path v)) as [info|err|p] eqn:Hi; [done..|].
  by destruct (Hinfo p).
Qed.

(** A visit without failure does what [visit_effect] says. *)
Lemma walkFunc_effect re v st :
  pattern_error (SubexpNames re) = None →
  visit_ok (Path (rs_connector st)) v → closed (out_chan st) = false →
  walkFunc re v st
  = (apply_effect (visit_effect re (Path (rs_connector st)) v) st, Ok tt).
Proof.
  intros Hvalid [Herr Hreg] Ho.
  by rewrite walkFunc_total, visit_outcome_safe, Herr.
Qed.

Lemma walk_effect_one re root v st :
  apply_effect (walk_effect re root [v]) st = apply_effect (visit_effect re root v) st.
Proof.
  cbn [walk_effect foldr]. rewrite apply_effect_app, apply_effect_nil; [done|].
  intros e He. left. by apply visit_effect_wf.
Qed.

(** The loop of the walker over its visits: the effects of the calls it
    makes, and what the last of them returned. *)
Theorem WalkDir_total re visits st :
  closed (out_chan st) = false →
  sfor visits (walkFunc re) st
  = (apply_effect
       (walk_effect re (Path (rs_connector st))
          (walk_calls re (Path (rs_connector st)) visits).1) st,
     (walk_calls re (Path (rs_connector st)) visits).2).
Proof.
  revert st; induction visits as [|v visits IH]; intros st Ho.
  { cbn [sfor walk_calls walk_effect foldr fst snd]. unfold sret.
    by rewrite apply_effect_nil. }
  cbn [sfor walk_calls]. unfold sbind. rewrite walkFunc_total by done.
  destruct (visit_outcome re (Path (rs_connector st)) v) as [[]|err|p];
    cbn [fst snd]; [|by rewrite walk_effect_one..].
  rewrite IH by done. cbn [walk_effect foldr]. f_equal.
  rewrite <- apply_effect_app; [done|].
  intros e He. left. by apply visit_effect_wf.
Qed.

(** A walk whose last call returned nil has made the calls for all its
    visits. *)
Lemma walk_calls_all re root visits :
  (walk_calls re root visits).2 = Ok tt → (walk_calls re root visits).1 = visits.
Proof.
  induction visits as [|v visits IH]; [done|]. cbn [walk_calls].
  destruct (visit_outcome re root v) as [[]|err|p]; cbn [fst snd]; [|done..].
  intros Hok. by rewrite IH.
Qed.

(** The calls of a walk whose visits are without failure. *)
Lemma walk_calls_ok re root visits :
  pattern_error (SubexpNames re) = None → Forall (visit_ok root) visits →
  walk_calls re root visits = (visits, Ok tt).
Proof.
  intros Hvalid. induction 1 as [|v visits [Herr Hsafe] _ IH]; [done|].
  cbn [walk_calls]. by rewrite visit_outcome_safe, Herr, IH.
Qed.

(** A walk without failure does what [walk_effect] says. *)
Lemma WalkDir_effect re visits st :
  pattern_error (SubexpNames re) = None →
  Forall (visit_ok (Path (rs_connector st))) visits →
  closed (out_chan st) = false →
  sfor visits (walkFunc re) st
  = (apply_effect (walk_effect re (Path (rs_connector st)) visits) st, Ok tt).
Proof.
  intros Hvalid Hok Ho. by rewrite WalkDir_total, walk_calls_ok.
Qed.

End walk.

(** ** A walk and its first error *)

Lemma until_error_None visits :
  Forall (λ v, v_err v = None) visits → until_error visits = (visits, None).
Proof.
  induction 1 as [|v visits Hv _ IH]; [done|]. cbn [until_error]. by rewrite Hv, IH.
Qed.

Lemma until_error_Some before v err after :
  Forall (λ v, v_err v = None) before → v_err v = Some err →
  until_error (before ++ v :: after) = (before, Some err).
Proof.
  intros Hb Hv. induction Hb as [|w before Hw _ IH]; cbn [until_error app].
  - by rewrite Hv.
  - by rewrite Hw, IH.
Qed.

(** A walk is the visits before its first error and, if there is one, the
    visit with the error and what the walker would have visited then. *)
Lemma until_error_split visits :
  Forall (λ v, v_err v = None) (until_error visits).1
  ∧ match (until_error visits).2 with
    | None => visits = (until_error visits).1
    | Some err =>
        ∃ v after, visits = (until_error visits).1 ++ v :: after ∧ v_err v = Some err
    end.
Proof.
  induction visits as [|v visits [IH1 IH2]]; [by split|]. cbn [until_error].
  destruct (v_err v) as [err|] eqn:Hv; cbn [fst snd].
  - split; [done|]. by exists v, visits.
  - split; [by constructor|]. destruct (until_error visits).2 as [err|].
    + destruct IH2 as (w & after & Heq & Hw). exists w, after. by rewrite Heq at 1.
    + by rewrite IH2 at 1.
Qed.

(** The visits before the first error are visits of the walk. *)
Lemma until_error_Forall (P : visit → Prop) visits :
  Forall P visits → Forall P (until_error visits).1.
Proof.
  induction 1 as [|v visits Hv _ IH]; [done|]. cbn [until_error].
  destruct (v_err v); [done|by constructor].
Qed.


(** ** What a call of Refresh does *)

Section refresh_spec.
Context `{Regexp} `{Walker} `{Archives}.
Implicit Types (st : refresh_state) (re : regexp).

(** The deferred calls after a body that is left with open channels,
    however it is left. *)
Lemma Refresh_of_body st st' r :
  Refresh_body st = (st', r) → chans_open st' →
  Refresh st = (close_chans st', r).
Proof.
  intros Hbody [He Ho]. unfold Refresh, sdefer. rewrite Hbody.
  unfold close_errChan, close_outputChan, supdate, chan_close. rewrite He.
  cbn [obind set_errChan rs_connector emit]. fold (out_chan st'). rewrite Ho.
  cbn [obind]. f_equal. apply refresh_state_ext; try done.
  simpl. by rewrite <- app_assoc.
Qed.

Lemma send_err_open err st :
  closed (rs_errChan st) = false →
  send_err err st
  = (emit (Error err)
       (set_errChan {| sent := sent (rs_errChan st) ++ [err]; closed := false |} st),
     Ok tt).
Proof. intros He. unfold send_err, supdate, chan_send. by rewrite He. Qed.

(** The body up to the walk. *)
Lemma Refresh_body_compiled st re :
  Compile (Pattern (rs_connector st)) = Some re →
  Refresh_body st
  = match pattern_error (SubexpNames re) with
    | Some err => send_err err st
    | None =>
        scatch (sfor (walk (Path (rs_connector st))) (walkFunc re)) send_err st
    end.
Proof.
  intros Hre. unfold Refresh_body, sbind, sgets, slift. rewrite Hre.
  cbn [of_option]. rewrite validate_pattern_spec.
  by destruct (pattern_error _).
Qed.

Lemma Forall_visit_ok root visits :
  Forall (visit_ok root) visits
  ↔ Forall (λ v, v_err v = None) visits ∧ Forall (visit_safe root) visits.
Proof. apply Forall_and. Qed.

(** The walk up to its first error: the visits the walker would make
    after it are not made. *)
Lemma WalkDir_until_error re visits st :
  pattern_error (SubexpNames re) = None →
  Forall (visit_safe (Path (rs_connector st))) (until_error visits).1 →
  chans_open st →
  scatch (sfor visits (walkFunc re)) send_err st = (walked re visits st, Ok tt).
Proof.
  intros Hvalid Hsafe [He Ho]. unfold walked, scatch.
  destruct (until_error_split visits) as [Hnone Hsplit].
  assert (Forall (visit_ok (Path (rs_connector st))) (until_error visits).1) as Hok
    by (by apply Forall_visit_ok).
  destruct (until_error visits).2 as [err|].
  - destruct Hsplit as (v & after & Heq & Hv). rewrite Heq at 1.
    rewrite sfor_app. unfold sbind at 1. rewrite WalkDir_effect by done.
    cbn [sfor]. unfold sbind, walkFunc. rewrite Hv. unfold sfail.
    by rewrite send_err_open.
  - rewrite Hsplit at 1. by rewrite WalkDir_effect.
Qed.

Lemma walked_open re visits st : chans_open st → chans_open (walked re visits st).
Proof.
  intros Hopen. unfold walked.
  destruct (apply_effect_open (walk_effect re (Path (rs_connector st))
                                 (until_error visits).1) st Hopen) as [He Ho].
  by destruct (until_error visits).2.
Qed.

(** [Refresh] on a valid pattern, as long as no visit before the first
    error of the walk can panic. *)
Theorem Refresh_walk st re :
  chans_open st → Compile (Pattern (rs_connector st)) = Some re →
  pattern_error (SubexpNames re) = None →
  Forall (visit_safe (Path (rs_connector st)))
    (until_error (walk (Path (rs_connector st)))).1 →
  Refresh st = (close_chans (walked re (walk (Path (rs_connector st))) st), Ok tt).
Proof.
  intros Hopen Hre Hvalid Hsafe. apply Refresh_of_body.
  - rewrite (Refresh_body_compiled st re), Hvalid by done.
    by apply WalkDir_until_error.
  - by apply walked_open.
Qed.

(** [Refresh] on a pattern that compiles, valid or not: it returns. *)
Theorem Refresh_compiled st re :
  chans_open st → Compile (Pattern (rs_connector st)) = Some re →
  (pattern_error (SubexpNames re) = None →
   Forall (visit_safe (Path (rs_connector st)))
     (until_error (walk (Path (rs_connector st)))).1) →
  Refresh st = (close_chans (refreshed re st), Ok tt).
Proof.
  intros Hopen Hre Hsafe. unfold refreshed.
  destruct (pattern_error (SubexpNames re)) as [err|] eqn:Herr;
    [|by apply Refresh_walk; auto].
  destruct Hopen as [He Ho]. apply Refresh_of_body; [|done].
  by rewrite (Refresh_body_compiled st re), Herr, send_err_open.
Qed.

(** C23: a pattern whose groups have a name other than [source] and
    [metric], or lack one of the two, makes [Refresh] send that error on
    the error channel and close both channels: no file is visited, nothing
    is sent on the output channel and the catalog is as before. *)
Theorem Refresh_invalid_pattern st re err :
  chans_open st → Compile (Pattern (rs_connector st)) = Some re →
  pattern_error (SubexpNames re) = Some err →
  Refresh st
  = (close_chans
       (emit (Error err)
          (set_errChan {| sent := sent (rs_errChan st) ++ [err]; closed := false |} st)),
     Ok tt).
Proof.
  intros Hopen Hre Herr. rewrite (Refresh_compiled st re) by (done || congruence).
  unfold refreshed. by rewrite Herr.
Qed.

(** C9: when the pattern is valid and the walk meets no error, [Refresh]
    returns with both channels closed, no error sent, the entries of every
    matching archive sent on the output channel in the order of the walk
    and stored in the catalog, and a warning logged for every file that
    does not match or whose metadata cannot be read. *)
Theorem Refresh_success st re :
  chans_open st → Compile (Pattern (rs_connector st)) = Some re →
  pattern_error (SubexpNames re) = None →
  Forall (visit_ok (Path (rs_connector st))) (walk (Path (rs_connector st))) →
  Refresh st
  = (close_chans
       (apply_effect
          (walk_effect re (Path (rs_connector st)) (walk (Path (rs_connector st))))
          st),
     Ok tt).
Proof.
  intros Hopen Hre Hvalid [Hnone Hsafe]%Forall_visit_ok.
  rewrite (Refresh_walk st re) by (done || by apply until_error_Forall).
  unfold walked. by rewrite until_error_None.
Qed.

(** C37: an error of the walk ends the discovery: the error is sent on the
    error channel, both channels are closed, and the catalog and the output
    channel have what the visits before the error contributed, nothing of
    the visits after it. *)
Theorem Refresh_walk_error st re before v err after :
  chans_open st → Compile (Pattern (rs_connector st)) = Some re →
  pattern_error (SubexpNames re) = None →
  walk (Path (rs_connector st)) = before ++ v :: after →
  Forall (visit_ok (Path (rs_connector st))) before → v_err v = Some err →
  Refresh st
  = (close_chans
       (emit (Error err)
          (set_errChan {| sent := sent (rs_errChan st) ++ [err]; closed := false |}
             (apply_effect (walk_effect re (Path (rs_connector st)) before) st))),
     Ok tt).
Proof.
  intros Hopen Hre Hvalid Hwalk [Hnone Hsafe]%Forall_visit_ok Herr.
  assert (until_error (walk (Path (rs_connector st))) = (before, Some err)) as Hu
    by (by rewrite Hwalk, (until_error_Some before v err after)).
  rewrite (Refresh_walk st re) by (done || by rewrite Hu).
  unfold walked. by rewrite Hu.
Qed.

(** *** Every path *)

Lemma err_sent_open err st : chans_open st → chans_open (err_sent err st).
Proof. by intros []. Qed.

Lemma send_err_sent err st :
  closed (rs_errChan st) = false → send_err err st = (err_sent err st, Ok tt).
Proof. apply send_err_open. Qed.

(** The walk and the send of its error, whatever the walk meets. *)
Lemma WalkDir_result re visits st :
  chans_open st →
  scatch (sfor visits (walkFunc re)) send_err st = walk_result re visits st.
Proof.
  intros [He Ho]. unfold scatch, walk_result. rewrite WalkDir_total by done.
  destruct (walk_calls _ _ _).2 as [[]|err|p]; [done| |done].
  by rewrite send_err_sent.
Qed.

Lemma walk_result_open re visits st :
  chans_open st → chans_open (walk_result re visits st).1.
Proof.
  intros Hopen. unfold walk_result.
  destruct (walk_calls _ _ _).2 as [[]|err|p]; cbn [fst];
    [|apply err_sent_open|]; by apply apply_effect_open.
Qed.

(** The body of [Refresh] called with open channels, on every path. *)
Theorem Refresh_body_total st : chans_open st → Refresh_body st = body_result st.
Proof.
  intros Hopen. unfold body_result.
  destruct (Compile (Pattern (rs_connector st))) as [re|] eqn:Hre.
  - rewrite (Refresh_body_compiled st re Hre).
    destruct (pattern_error _); [apply send_err_sent, Hopen|by apply WalkDir_result].
  - unfold Refresh_body, sbind, sgets, slift. by rewrite Hre.
Qed.

Lemma body_result_open st : chans_open st → chans_open (body_result st).1.
Proof.
  intros Hopen. unfold body_result.
  destruct (Compile _) as [re|]; [|done].
  destruct (pattern_error _); [by apply err_sent_open|by apply walk_result_open].
Qed.

(** [Refresh] called with open channels, on every path: the deferred
    closes after the body, and what the body returned. *)
Theorem Refresh_total st :
  chans_open st → Refresh st = (close_chans (body_result st).1, (body_result st).2).
Proof.
  intros Hopen. apply Refresh_of_body; [|by apply body_result_open].
  rewrite Refresh_body_total by done. by destruct (body_result st).
Qed.

(** When no visit before the first error of the walk can panic, the walk
    ends in the state [walked]. *)
Lemma walk_result_walked re visits st :
  pattern_error (SubexpNames re) = None →
  Forall (visit_safe (Path (rs_connector st))) (until_error visits).1 →
  chans_open st →
  walk_result re visits st = (walked re visits st, Ok tt).
Proof.
  intros Hvalid Hsafe Hopen. by rewrite <- WalkDir_result, WalkDir_until_error.
Qed.

End refresh_spec.

(** ** The catalog after a walk *)

#[export] Instance catalog_equiv_equivalence : Equivalence catalog_equiv.
Proof.
  split; [by intros ms key|by intros ms ms' Heq key|].
  intros ms1 ms2 ms3 H12 H23 key. by rewrite H12.
Qed.

#[export] Instance lookup2_proper : Proper (catalog_equiv ==> eq ==> eq) lookup2.
Proof. by intros ms ms' Heq key ? <-. Qed.

Lemma lookup2_ensure_source s ms key :
  lookup2 (ensure_source s ms) key = lookup2 ms key.
Proof.
  unfold lookup2, ensure_source. destruct (ms !! s) eqn:Hs; [done|].
  destruct (decide (s = key.1)) as [->|Hne].
  - by rewrite lookup_insert_eq, Hs.
  - by rewrite lookup_insert_ne.
Qed.

Lemma lookup2_ensure_sources ss ms key :
  lookup2 (ensure_sources ss ms) key = lookup2 ms key.
Proof.
  revert ms; induction ss as [|s ss IH]; intros ms; [done|].
  cbn [ensure_sources fold_left]. fold (ensure_sources ss).
  by rewrite IH, lookup2_ensure_source.
Qed.

Lemma lookup2_add_entry e ms key :
  is_Some (ms !! e.1.1) →
  lookup2 (add_entry ms e) key
  = if decide (e.1 = key) then Some e.2 else lookup2 ms key.
Proof.
  intros [entries He]. destruct e as [[s k] m], key as [s' k'].
  unfold lookup2, add_entry in *; simpl in *.
  destruct (decide (s = s')) as [<-|Hs].
  - rewrite lookup_alter_eq, He. simpl.
    destruct (decide (k = k')) as [<-|Hk].
    + by rewrite lookup_insert_eq, decide_True.
    + rewrite lookup_insert_ne by done. by rewrite decide_False by congruence.
  - rewrite lookup_alter_ne by done. by rewrite decide_False by congruence.
Qed.

(** A metric has the descriptor of the last entry about it, or the one it
    had. *)
Lemma lookup2_add_entries es ms key :
  (∀ e, e ∈ es → is_Some (ms !! e.1.1)) →
  lookup2 (fold_left add_entry es ms) key
  = match last_assoc es key with
    | Some m => Some m
    | None => lookup2 ms key
    end.
Proof.
  revert ms; induction es as [|e es IH]; intros ms Hes; [done|].
  cbn [fold_left last_assoc]. rewrite IH.
  - destruct (last_assoc es key); [done|].
    rewrite lookup2_add_entry by (apply Hes; by left). by case_decide.
  - intros e' He'. apply add_entry_is_Some, Hes. by right.
Qed.

Lemma lookup2_apply_effect eff st key :
  effect_wf eff →
  lookup2 (catalog (apply_effect eff st)) key
  = match last_assoc (e_entries eff) key with
    | Some m => Some m
    | None => lookup2 (catalog st) key
    end.
Proof.
  intros Hwf. rewrite catalog_apply_effect, lookup2_add_entries.
  - by rewrite lookup2_ensure_sources.
  - intros e He. apply ensure_sources_is_Some. left. by apply Hwf.
Qed.

Section catalog.
Context `{Regexp} `{Archives}.
Implicit Types (st : refresh_state) (re : regexp).

Lemma walk_effect_entries re root visits :
  e_entries (walk_effect re root visits) = discovered re root visits.
Proof.
  unfold discovered. induction visits as [|v visits IH]; [done|].
  cbn [walk_effect foldr]. fold (walk_effect re root visits).
  by rewrite bind_cons, <- IH.
Qed.

(** C31: after a walk, a metric has the descriptor of the last archive
    found for it, and a metric for which no archive was found has the
    descriptor it had before: [Refresh] adds to the catalog and never
    removes from it. *)
Theorem walk_catalog_lookup re root visits st key :
  lookup2 (catalog (apply_effect (walk_effect re root visits) st)) key
  = match last_assoc (discovered re root visits) key with
    | Some m => Some m
    | None => lookup2 (catalog st) key
    end.
Proof.
  rewrite lookup2_apply_effect by apply walk_effect_wf.
  by rewrite walk_effect_entries.
Qed.

(** The catalog does not depend on the order of the walk, as long as
    no two entries found are of the same metric of the same source. *)
Theorem walk_catalog_order re root visits visits' st :
  visits ≡ₚ visits' → NoDup (discovered re root visits).*1 →
  catalog_equiv
    (catalog (apply_effect (walk_effect re root visits) st))
    (catalog (apply_effect (walk_effect re root visits') st)).
Proof.
  intros Hp Hnd key.
  rewrite !lookup2_apply_effect, !walk_effect_entries by apply walk_effect_wf.
  rewrite (last_assoc_Permutation _ (discovered re root visits')); [done..|].
  unfold discovered. by rewrite Hp.
Qed.

(** The pairs a walk sends are those of the entries it finds, one per
    dataset of every matching archive, in the order of the walk. *)
Theorem walk_output re root visits st :
  sent (out_chan (apply_effect (walk_effect re root visits) st))
  = sent (out_chan st) ++ (discovered re root visits).*1.
Proof. simpl. by rewrite walk_effect_entries. Qed.

(** The loop over the datasets of an archive runs over a Go map, which
    yields its keys in no fixed order: the catalog does not depend on
    that order, since the names of the datasets of an archive are
    distinct; the order of the pairs on the output channel does. *)
Theorem register_order sourceName metricName filePath dsNames dsNames' st :
  dsNames ≡ₚ dsNames' → NoDup dsNames →
  closed (out_chan st) = false → is_Some (catalog st !! sourceName) →
  catalog_equiv
    (catalog (sfor dsNames (register sourceName metricName filePath) st).1)
    (catalog (sfor dsNames' (register sourceName metricName filePath) st).1).
Proof.
  intros Hp Hnd Ho Hs key. rewrite !register_all_effect by done. cbn [fst].
  rewrite !catalog_apply_effect. cbn [e_entries e_sources ensure_sources fold_left].
  rewrite !lookup2_add_entries by (by intros e (d & -> & _)%list_elem_of_fmap).
  rewrite (last_assoc_Permutation _
             (dataset_entry sourceName metricName filePath <$> dsNames'));
    [done| |by rewrite Hp].
  rewrite <- list_fmap_compose. apply NoDup_fmap_2; [|done].
  intros d d' [= Heq]. by apply string_app_inj_l, string_app_inj_l in Heq.
Qed.

End catalog.

(** ** The history of a refresh *)

Section history.
Context `{Regexp} `{Walker} `{Archives}.
Implicit Types (st : refresh_state).

(** What the body has done to the channels, and its history. *)
Lemma body_result_channels st :
  sent (out_chan (body_result st).1) = sent (out_chan st) ++ refresh_pairs st
  ∧ sent (rs_errChan (body_result st).1) = sent (rs_errChan st) ++ refresh_errors st
  ∧ rs_events (body_result st).1
    = rs_events st ++ (Output <$> refresh_pairs st) ++ (Error <$> refresh_errors st).
Proof.
  unfold body_result, refresh_pairs, refresh_errors, walk_result.
  destruct (Compile _) as [re|]; [|by rewrite !app_nil_r].
  destruct (pattern_error _); [by rewrite app_nil_r|]. cbn zeta.
  destruct (walk_calls _ _ _).2 as [[]|err|p]; simpl;
    by rewrite walk_effect_entries, ?app_nil_r, <- ?app_assoc.
Qed.

(** The pairs and the errors a call has sent. *)
Theorem Refresh_sent st :
  chans_open st →
  sent (out_chan (Refresh st).1) = sent (out_chan st) ++ refresh_pairs st
  ∧ sent (rs_errChan (Refresh st).1) = sent (rs_errChan st) ++ refresh_errors st.
Proof.
  intros Hopen. rewrite Refresh_total by done.
  by destruct (body_result_channels st) as (Ho & He & _).
Qed.

(** The history of a call: the pairs in the order of the walk, then the
    error if there is one, then the close of the error channel, then the
    close of the output channel, on every path. *)
Theorem Refresh_history st :
  chans_open st → rs_events (Refresh st).1 = rs_events st ++ refresh_events st.
Proof.
  intros Hopen. rewrite Refresh_total by done.
  destruct (body_result_channels st) as (_ & _ & Hev). cbn [fst close_chans rs_events].
  by rewrite Hev, <- !app_assoc.
Qed.

(** The catalog after a call with a valid pattern, on every path: a
    metric has the descriptor of the last archive the calls of the walk
    found for it, or the descriptor it had. *)
Theorem Refresh_catalog st re key :
  chans_open st → Compile (Pattern (rs_connector st)) = Some re →
  pattern_error (SubexpNames re) = None →
  lookup2 (catalog (Refresh st).1) key
  = match last_assoc
            (discovered re (Path (rs_connector st))
               (walk_calls re (Path (rs_connector st))
                  (walk (Path (rs_connector st)))).1) key with
    | Some m => Some m
    | None => lookup2 (catalog st) key
    end.
Proof.
  intros Hopen Hre Hvalid. rewrite Refresh_total by done.
  unfold body_result, walk_result. rewrite Hre, Hvalid. cbn zeta.
  rewrite <- walk_effect_entries, <- lookup2_apply_effect by apply walk_effect_wf.
  by destruct (walk_calls _ _ _).2.
Qed.

(** A call sends one error at most. *)
Lemma refresh_errors_length st : length (refresh_errors st) ≤ 1.
Proof. unfold refresh_errors. repeat case_match; simpl; lia. Qed.

End history.

(** ** The log of a refresh *)

Section log.
Context `{Regexp} `{Walker} `{Archives}.
Implicit Types (st : refresh_state) (re : regexp).

(** A visit logs one warning at most, and only for a regular file; a
    file it warns about adds no metric. *)
Lemma visit_effect_log re root v :
  length (e_log (visit_effect re root v)) ≤ (if is_regular v then 1 else 0)
  ∧ (e_log (visit_effect re root v) ≠ [] → e_entries (visit_effect re root v) = []).
Proof.
  unfold visit_effect, visit_result.
  repeat case_match; simpl; split; (lia || done).
Qed.

(** A walk logs one warning at most per regular file it visits. *)
Theorem walk_log_length re root visits :
  length (e_log (walk_effect re root visits))
  ≤ length (filter (λ v, is_regular v = true) visits).
Proof.
  induction visits as [|v visits IH]; [done|].
  cbn [walk_effect foldr]. fold (walk_effect re root visits).
  cbn [effect_app e_log]. rewrite length_app, filter_cons.
  destruct (visit_effect_log re root v) as [Hv _].
  destruct (is_regular v); [rewrite decide_True by done|rewrite decide_False by done];
    simpl; lia.
Qed.

(** What a refresh logs on a pattern that compiles: nothing when the
    pattern is invalid, and else the warnings of the visits before the
    first error of the walk, in their order.  The errors it sends are
    not logged. *)
Theorem Refresh_log st re :
  chans_open st → Compile (Pattern (rs_connector st)) = Some re →
  (pattern_error (SubexpNames re) = None →
   Forall (visit_safe (Path (rs_connector st)))
     (until_error (walk (Path (rs_connector st)))).1) →
  rs_log (Refresh st).1
  = rs_log st
    ++ match pattern_error (SubexpNames re) with
       | Some _ => []
       | None => e_log (walk_effect re (Path (rs_connector st))
                          (until_error (walk (Path (rs_connector st)))).1)
       end.
Proof.
  intros Hopen Hre Hsafe. rewrite (Refresh_compiled st re) by done.
  unfold refreshed, walked.
  destruct (pattern_error _); [by rewrite app_nil_r|].
  by destruct (until_error _).2.
Qed.

End log.

(** ** Invariants of a walk *)

Section invariants.
Context `{Regexp} `{Walker} `{Archives}.
Implicit Types (st : refresh_state) (re : regexp) (I : refresh_state → Prop).

Lemma triple_register_inv I sourceName metricName filePath dsName :
  walk_invariant I →
  triple I any_failure (register sourceName metricName filePath dsName) I.
Proof.
  intros HI. unfold register. apply triple_sbind; [|intros _]; apply triple_supdate.
  - intros st Hst. fold (out_chan st).
    destruct (chan_send _ (out_chan st)) eqn:Hsend; simpl; [|done..].
    by apply (wi_emit I HI), (wi_output I HI st _ _ Hst Hsend).
  - intros st Hst. fold (catalog st).
    destruct (catalog st !! sourceName) as [entries|] eqn:Hs.
    + rewrite assign_metric_add_entry by (by rewrite Hs). simpl.
      apply (wi_assign I HI st (sourceName, _, _)); [done|by eexists].
    + unfold assign_metric. by rewrite Hs.
Qed.

Lemma triple_walkFunc_inv I re v :
  walk_invariant I → triple I any_failure (walkFunc re v) I.
Proof.
  intros HI. unfold walkFunc.
  destruct (v_err v); [by apply triple_sfail|].
  destruct (negb _); [apply triple_sret|].
  apply triple_sbind; [apply triple_sgets|intros path].
  apply triple_sbind; [by apply triple_slift|intros rel].
  destruct (_ =? _)%nat;
    [apply triple_smodify; intros; by apply (wi_log I HI)|].
  apply triple_sbind; [by apply triple_slift|intros [sourceName metricName]].
  apply triple_sbind; [apply triple_smodify; intros; by apply (wi_ensure I HI)|].
  intros _. destruct (rrd_Info (v_path v)) as [[[dsNames|]]|err|p].
  - apply triple_sfor. intros; by apply triple_register_inv.
  - apply triple_sret.
  - apply triple_smodify; intros; by apply (wi_log I HI).
  - by apply triple_slift.
Qed.

Lemma triple_walk_inv I re visits :
  walk_invariant I → triple I any_failure (sfor visits (walkFunc re)) I.
Proof. intros HI. apply triple_sfor. intros; by apply triple_walkFunc_inv. Qed.

(** Such a property holds after the body of [Refresh] if a send of an
    error that completes keeps it too. *)
Lemma triple_Refresh_body_inv I :
  walk_invariant I →
  (∀ st err ch, I st → chan_send err (rs_errChan st) = Ok ch → I (set_errChan ch st)) →
  triple I any_failure Refresh_body I.
Proof.
  intros HI Herr. unfold Refresh_body.
  apply triple_sbind; [apply triple_sgets|intros pattern].
  apply triple_sbind; [by apply triple_slift|intros re].
  assert (∀ err, triple I any_failure (send_err err) I) as Hsend.
  { intros err. apply triple_supdate. intros st Hst.
    destruct (chan_send _ _) eqn:E; simpl; [|done..].
    by eapply (wi_emit I HI), Herr. }
  destruct (validate_pattern _); [|apply Hsend|by apply triple_slift].
  apply triple_sbind; [apply triple_sgets|intros path].
  eapply triple_scatch; [by apply triple_walk_inv|by intros; apply Hsend|done..].
Qed.

(** And after [Refresh] if the closes keep it as well. *)
Lemma triple_Refresh_inv I :
  walk_invariant I →
  (∀ st ch, I st → I (set_errChan ch st)) →
  (∀ st ch, I st → I (set_connector (set_outputChan ch (rs_connector st)) st)) →
  triple I any_failure Refresh I.
Proof.
  intros HI Herr Hout. unfold Refresh.
  eapply triple_sdefer; [eapply triple_sdefer|].
  - apply triple_Refresh_body_inv; [done|]. intros; by apply Herr.
  - apply triple_supdate. intros st Hst. destruct (chan_close _); simpl; [|done..].
    by apply (wi_emit I HI), Herr.
  - apply triple_supdate. intros st Hst. destruct (chan_close _); simpl; [|done..].
    by apply (wi_emit I HI), Hout.
Qed.

Lemma lookup2_add_entry_is_Some e ms key :
  is_Some (ms !! e.1.1) → is_Some (lookup2 ms key) →
  is_Some (lookup2 (add_entry ms e) key).
Proof. intros He Hkey. rewrite lookup2_add_entry by done. by case_decide. Qed.

(** C40: [Refresh] never removes a metric from the catalog, on any path: a
    metric that has a descriptor before the call has one after it, also
    when its archive is gone from the tree. *)
Theorem Refresh_keeps_metrics key :
  triple (λ st, is_Some (lookup2 (catalog st) key)) any_failure Refresh
    (λ st, is_Some (lookup2 (catalog st) key)).
Proof.
  apply triple_Refresh_inv; [split|..]; try done.
  - intros st s Hst. unfold catalog in *; simpl. by rewrite lookup2_ensure_source.
  - intros st e Hst He. unfold catalog in *; simpl.
    by apply lookup2_add_entry_is_Some.
Qed.

(** [Refresh] changes neither the path, the pattern nor the daemon
    setting of the connector, on any path. *)
Theorem Refresh_keeps_settings path pattern daemon :
  triple (λ st, (Path (rs_connector st), Pattern (rs_connector st),
                 Daemon (rs_connector st)) = (path, pattern, daemon))
    any_failure Refresh
    (λ st, (Path (rs_connector st), Pattern (rs_connector st),
            Daemon (rs_connector st)) = (path, pattern, daemon)).
Proof. by apply triple_Refresh_inv; [split|..]. Qed.

(** The body of [Refresh] neither closes nor reopens a channel. *)
Lemma Refresh_body_closed (e o : bool) :
  triple (λ st, closed (rs_errChan st) = e ∧ closed (out_chan st) = o) any_failure
    Refresh_body (λ st, closed (rs_errChan st) = e ∧ closed (out_chan st) = o).
Proof.
  apply triple_Refresh_body_inv; [split|]; try done.
  - intros st x ch [He Ho]. unfold chan_send.
    destruct (closed (out_chan st)) eqn:Hc; [done|]. intros [= <-]. by subst.
  - intros st err ch [He Ho]. unfold chan_send.
    destruct (closed (rs_errChan st)) eqn:Hc; [done|]. intros [= <-]. by subst.
Qed.

(** [Refresh] needs both channels open: called with a channel that is
    closed it ends in the panic of a close of a closed channel, whatever
    the pattern and the tree; the deferred closes run on channels the body
    has left as they were. *)
Theorem Refresh_closed_panics st :
  closed (rs_errChan st) = true ∨ closed (out_chan st) = true →
  (Refresh st).2 = Panic CloseOfClosedChannel.
Proof.
  intros Hclosed.
  destruct (Refresh_body_closed (closed (rs_errChan st)) (closed (out_chan st)) st)
    as [[He Ho] _]; [done|].
  unfold Refresh, sdefer. destruct (Refresh_body st) as [st1 r]. simpl in He, Ho.
  unfold close_errChan, close_outputChan, supdate, chan_close. rewrite He.
  destruct (closed (rs_errChan st)); cbn [obind].
  - fold (out_chan st1). rewrite Ho. by destruct (closed (out_chan st)).
  - destruct Hclosed as [|Hout]; [done|]. cbn [set_errChan rs_connector emit].
    fold (out_chan st1). by rewrite Ho, Hout.
Qed.

(** C25: a second [Refresh] on the channels of the first panics with a
    close of a closed channel, whatever the pattern and the tree: the
    first call has closed both channels, the body of the second leaves
    them as they are, and its deferred closes run on them.  A connector
    keeps its output channel for its lifetime, so it can be refreshed
    once unless the owner of the channel replaces it. *)
Theorem Refresh_again_panics st :
  chans_open st → (Refresh (Refresh st).1).2 = Panic CloseOfClosedChannel.
Proof.
  intros Hopen. apply Refresh_closed_panics. left.
  by destruct (Refresh_chans_closed st Hopen).
Qed.

End invariants.

(** ** Which groups are the source and the metric *)

Lemma source_and_metric_two_groups names submatch :
  head names = Some "" → length names = 3 → pattern_error names = None →
  length submatch = 3 →
  ∃ sourceName metricName,
    source_and_metric names submatch = Ok (sourceName, metricName) ∧
    group names submatch "source" = Some sourceName ∧
    group names submatch "metric" = Some metricName.
Proof.
  intros Hhd Hlen Hvalid Hm.
  destruct names as [|n0 [|n1 [|n2 [|]]]]; simplify_eq/=.
  destruct submatch as [|s0 [|s1 [|s2 [|]]]]; simplify_eq/=.
  apply pattern_error_None in Hvalid as [Hs Hmet].
  rewrite !elem_of_cons, elem_of_nil in Hs, Hmet.
  unfold source_and_metric, group; simpl.
  destruct Hs as [Hs|[Hs|[Hs|[]]]], Hmet as [Hmet|[Hmet|[Hmet|[]]]];
    simplify_eq; eexists _, _; repeat split; reflexivity.
Qed.
