(* ===== verification/WalkTree.v ===== *)
(** * Refresh on a file tree

    [Refresh] gets its files from [utils.WalkDir], which is outside the
    connector.  This file gives the walker a tree to walk, in the manner
    of Go's [filepath.Walk]: a directory is visited before its entries,
    the path of an entry is the path of its directory, a separator and
    the name, and a directory that cannot be listed is visited a second
    time with the error.  The root is passed as it is configured; the
    paths below it are built on what the walker makes of the root
    ([clean]: Go's [filepath.Join] cleans what it joins).

    On such a walker the assumptions of the theorems about [Refresh] can
    be discharged: when the root is a directory and the cleaned root is
    not shorter than the configured one, no slice of a path panics and
    [Refresh] returns on every tree; the catalog does not depend on the
    order in which the directories list their entries; a root that is a
    regular file makes [Refresh] panic.  Symbolic links are not
    followed. *)

From Stdlib Require Import ZArith NArith String Ascii List Lia.
From stdpp Require Import base tactics option list gmap strings relations.
From S2P Require Import Prelude Stateful GoStrings Rrd Connector Discovery.
From S2P Require Import DiscoverySpec.

(** ** Definitions *)

(** A node of a file tree: a file that is not a directory, with its mode
    (a regular file has none of the bits of [ModeType]), a directory with
    its entries in the order the walker lists them, or a directory that
    cannot be listed. *)
#[warnings="-register-all"] Inductive node : Type :=
| File (mode : N)
| Dir (entries : list (string * node))
| Unreadable (err : string).

(** [os.ModeDir]. *)
Definition ModeDir : N := (2 ^ 31)%N.

(** The visit of a directory. *)
Definition dir_visit (path : string) (err : option string) : visit :=
  {| v_path := path; v_mode := ModeDir; v_err := err |}.

(** The calls of the walker for the node at [path], in order: the node
    itself, then the entries of a directory, each under the path of the
    directory, a separator and its name; a directory that cannot be listed
    is visited once without error and once with the error of the
    listing. *)
Fixpoint walk_node (path : string) (n : node) : list visit :=
  match n with
  | File mode => [{| v_path := path; v_mode := mode; v_err := None |}]
  | Dir entries =>
      dir_visit path None :: (entries ≫= λ e, walk_node (path +:+ "/" +:+ e.1) e.2)
  | Unreadable err => [dir_visit path None; dir_visit path (Some err)]
  end.

(** The calls of the walker for the tree at [root]: the root is visited
    under the path it was given, and the entries of a root directory under
    the cleaned path. *)
Definition walk_tree (clean : string → string) (root : string) (t : node)
  : list visit :=
  match t with
  | Dir entries =>
      dir_visit root None
      :: (entries ≫= λ e, walk_node (clean root +:+ "/" +:+ e.1) e.2)
  | _ => walk_node root t
  end.

(** The walker of a tree: whatever the root is called, the tree is what
    is found there. *)
Definition tree_Walker (clean : string → string) (t : node) : Walker :=
  {| walk root := walk_tree clean root t |}.

(** The node is a directory. *)
Definition is_dir (n : node) : bool :=
  match n with File _ => false | _ => true end.

(** Every directory of the tree can be listed. *)
Fixpoint listable (n : node) : bool :=
  match n with
  | File _ => true
  | Dir entries => forallb (λ e, listable e.2) entries
  | Unreadable _ => false
  end.

(** Induction on a tree, with the property for every entry of a
    directory. *)
Section node_induction.
Variable P : node → Prop.
Hypothesis HFile : ∀ mode, P (File mode).
Hypothesis HDir : ∀ entries, Forall (λ e, P e.2) entries → P (Dir entries).
Hypothesis HUnreadable : ∀ err, P (Unreadable err).

Fixpoint node_ind' (n : node) : P n :=
  match n with
  | File mode => HFile mode
  | Dir entries =>
      HDir entries
        ((fix go (es : list (string * node)) : Forall (λ e, P e.2) es :=
            match es with
            | [] => List.Forall_nil _
            | e :: es => @List.Forall_cons _ _ e es (node_ind' e.2) (go es)
            end) entries)
  | Unreadable err => HUnreadable err
  end.
End node_induction.

(** Two trees that differ in the order in which their directories list
    their entries. *)
#[warnings="-register-all"] Inductive node_perm : node → node → Prop :=
| node_perm_File mode : node_perm (File mode) (File mode)
| node_perm_Unreadable err : node_perm (Unreadable err) (Unreadable err)
| node_perm_Dir entries entries' entries'' :
    Forall2 (λ e e', e.1 = e'.1 ∧ node_perm e.2 e'.2) entries entries' →
    entries' ≡ₚ entries'' →
    node_perm (Dir entries) (Dir entries'').

(** What [filepath.Clean] makes of a path that ends with a separator and
    is otherwise clean: the path without it. *)
Fixpoint trim_slash (s : string) : string :=
  match s with
  | EmptyString => EmptyString
  | String c EmptyString => if Ascii.eqb c "/" then EmptyString else s
  | String c s' => String c (trim_slash s')
  end.

(** ** The paths of a walk *)

(** The paths of the visits of a node are not shorter than its path. *)
Lemma walk_node_length path n v :
  v ∈ walk_node path n → String.length path ≤ String.length (v_path v).
Proof.
  revert path. induction n as [mode|entries IH|err] using node_ind'; intros path Hin.
  - by apply list_elem_of_singleton in Hin as ->.
  - cbn [walk_node] in Hin. apply elem_of_cons in Hin as [->|Hin]; [done|].
    apply list_elem_of_bind in Hin as (e & Hin & He).
    apply (proj1 (Forall_forall _ _) IH e He) in Hin.
    rewrite !string_app_length in Hin. lia.
  - cbn [walk_node] in Hin. by repeat (apply elem_of_cons in Hin as [->|Hin]);
      [..|apply elem_of_nil in Hin].
Qed.

(** The paths of the visits below a directory are longer than the path
    of the directory. *)
Lemma walk_entries_longer prefix (entries : list (string * node)) v :
  v ∈ entries ≫= (λ e, walk_node (prefix +:+ "/" +:+ e.1) e.2) →
  String.length prefix < String.length (v_path v).
Proof.
  intros (e & Hin%walk_node_length & He)%list_elem_of_bind.
  rewrite !string_app_length in Hin. simpl in Hin. lia.
Qed.

Section walk_tree.
Context `{Regexp} `{Archives}.
Variable clean : string → string.
Implicit Types (t : node) (st : refresh_state) (re : regexp).

(** No visit of a tree whose root is a directory can make [walkFunc]
    panic, when the cleaned root is not shorter than the root. *)
Lemma walk_tree_safe root t :
  is_dir t = true → String.length root ≤ String.length (clean root) →
  (∀ path p, rrd_Info path ≠ Panic p) →
  Forall (visit_safe root) (walk_tree clean root t).
Proof.
  intros Hdir Hclean Hinfo. apply Forall_forall. intros v Hin Hreg.
  split; [|done]. destruct t as [mode|entries|err]; [done| |].
  - cbn [walk_tree] in Hin. apply elem_of_cons in Hin as [->|Hin]; [done|].
    apply walk_entries_longer in Hin. lia.
  - cbn [walk_tree walk_node] in Hin.
    by repeat (apply elem_of_cons in Hin as [->|Hin]); [..|apply elem_of_nil in Hin].
Qed.

(** C11: on a file tree whose root is a directory [Refresh] returns,
    whatever the tree holds: with a pattern that compiles, a walker that
    builds its paths on a root not shorter than the configured one, and
    an [rrd.Info] that does not panic, no slice of a path is out of range;
    both channels are closed, and the state is the one after the error of
    the pattern or after the visits before the first directory that
    cannot be listed. *)
Theorem Refresh_tree t st re :
  is_dir t = true →
  String.length (Path (rs_connector st)) ≤ String.length (clean (Path (rs_connector st))) →
  (∀ path p, rrd_Info path ≠ Panic p) →
  chans_open st → Compile (Pattern (rs_connector st)) = Some re →
  @Refresh _ (tree_Walker clean t) _ st
  = (close_chans (@refreshed _ (tree_Walker clean t) _ re st), Ok tt).
Proof.
  intros Hdir Hclean Hinfo Hopen Hre.
  apply (@Refresh_compiled _ (tree_Walker clean t)); [done..|].
  intros _. by apply until_error_Forall, walk_tree_safe.
Qed.

(** C24: A root that is a regular file makes [Refresh] panic: its path is the
    root, and the slice starts one byte after the end of the root. *)
Theorem Refresh_root_file mode st re :
  (N.land mode ModeType =? 0)%N = true →
  chans_open st → Compile (Pattern (rs_connector st)) = Some re →
  pattern_error (SubexpNames re) = None →
  @Refresh _ (tree_Walker clean (File mode)) _ st
  = (close_chans st, Panic SliceOutOfRange).
Proof.
  intros Hreg Hopen Hre Hvalid. apply Refresh_of_body; [|done].
  rewrite (@Refresh_body_compiled _ (tree_Walker clean (File mode)) _ st re), Hvalid
    by done.
  unfold scatch. cbn [walk tree_Walker walk_tree walk_node sfor].
  unfold sbind, walkFunc, sgets, slift. cbn [v_err v_mode v_path]. rewrite Hreg.
  cbn [negb]. unfold sbind. by rewrite slice_from_short by lia.
Qed.

End walk_tree.

(** ** The order of the entries *)

Lemma node_perm_refl n : node_perm n n.
Proof.
  induction n as [mode|entries IH|err] using node_ind'; [constructor| |constructor].
  apply (node_perm_Dir entries entries); [|done].
  induction IH; constructor; auto.
Qed.

(** The walks of two trees that differ in the order of their entries
    have the same visits. *)
Lemma walk_node_perm n n' path :
  node_perm n n' → walk_node path n ≡ₚ walk_node path n'.
Proof.
  revert n' path. induction n as [mode|entries IH|err] using node_ind';
    intros n' path Hperm; inversion Hperm as [| |? entries' entries'' Hall Hp]; subst;
    [done| |done].
  cbn [walk_node]. f_equiv. rewrite <- Hp. clear Hp Hperm.
  induction Hall as [|e e' entries entries' [Hname Hchild] _ IHall]; [done|].
  apply Forall_cons in IH as [IHe IH]. rewrite !bind_cons, Hname.
  by rewrite (IHe e'.2), IHall.
Qed.

Lemma walk_tree_perm clean root t t' :
  node_perm t t' → walk_tree clean root t ≡ₚ walk_tree clean root t'.
Proof.
  intros Hperm. destruct Hperm as [mode|err|entries entries' entries'' Hall Hp];
    [done..|].
  change (walk_tree clean root (Dir entries))
    with (dir_visit root None :: drop 1 (walk_node (clean root) (Dir entries))).
  change (walk_tree clean root (Dir entries''))
    with (dir_visit root None :: drop 1 (walk_node (clean root) (Dir entries''))).
  f_equiv.
  pose proof (walk_node_perm _ _ (clean root) (node_perm_Dir _ _ _ Hall Hp)) as Hw.
  cbn [walk_node] in Hw. by apply (inj (cons _)) in Hw.
Qed.

(** A tree whose directories can all be listed is walked without
    error. *)
Lemma walk_node_listable n path :
  listable n = true → Forall (λ v, v_err v = None) (walk_node path n).
Proof.
  revert path. induction n as [mode|entries IH|err] using node_ind';
    intros path Hl; [by repeat constructor| |done].
  cbn [walk_node listable] in *. constructor; [done|].
  apply Forall_bind, Forall_forall. intros e He.
  apply (proj1 (Forall_forall _ _) IH e He).
  by apply (proj1 (forallb_forall _ _) Hl), list_elem_of_In.
Qed.

Lemma walk_tree_listable clean root t :
  listable t = true → Forall (λ v, v_err v = None) (walk_tree clean root t).
Proof.
  intros Hl. destruct t as [mode|entries|err]; [by apply walk_node_listable| |done].
  apply (walk_node_listable (Dir entries) (clean root)) in Hl.
  cbn [walk_node] in Hl. apply Forall_cons in Hl as [_ Hl]. by constructor.
Qed.

Lemma node_perm_is_dir t t' : node_perm t t' → is_dir t' = is_dir t.
Proof. by intros []. Qed.

Section order.
Context `{Regexp} `{Archives}.
Variable clean : string → string.
Implicit Types (t : node) (st : refresh_state) (re : regexp).

(** [Refresh] on a tree that is walked without error. *)
Lemma Refresh_tree_walked t st re :
  is_dir t = true →
  Forall (λ v, v_err v = None) (walk_tree clean (Path (rs_connector st)) t) →
  String.length (Path (rs_connector st)) ≤ String.length (clean (Path (rs_connector st))) →
  (∀ path p, rrd_Info path ≠ Panic p) →
  chans_open st → Compile (Pattern (rs_connector st)) = Some re →
  pattern_error (SubexpNames re) = None →
  (@Refresh _ (tree_Walker clean t) _ st).1
  = close_chans
      (apply_effect
         (walk_effect re (Path (rs_connector st))
            (walk_tree clean (Path (rs_connector st)) t)) st).
Proof.
  intros Hdir Hnone Hclean Hinfo Hopen Hre Hvalid.
  rewrite (@Refresh_walk _ (tree_Walker clean t) _ st re);
    [|done..|by apply until_error_Forall, walk_tree_safe].
  unfold walked. cbn [walk tree_Walker fst]. by rewrite until_error_None.
Qed.

(** C29: the catalog does not depend on the order in which the
    directories list their entries: on two trees that differ in that
    order only, whose directories can all be listed, [Refresh] leaves
    catalogs with the same metrics, as long as no two archives of the
    tree are of the same metric of the same source. *)
Theorem Refresh_tree_order t t' st re :
  node_perm t t' → is_dir t = true → listable t = true →
  String.length (Path (rs_connector st)) ≤ String.length (clean (Path (rs_connector st))) →
  (∀ path p, rrd_Info path ≠ Panic p) →
  chans_open st → Compile (Pattern (rs_connector st)) = Some re →
  pattern_error (SubexpNames re) = None →
  NoDup (discovered re (Path (rs_connector st))
           (walk_tree clean (Path (rs_connector st)) t)).*1 →
  catalog_equiv
    (catalog (@Refresh _ (tree_Walker clean t) _ st).1)
    (catalog (@Refresh _ (tree_Walker clean t') _ st).1).
Proof.
  intros Hperm Hdir Hl Hclean Hinfo Hopen Hre Hvalid Hnd.
  pose proof (walk_tree_perm clean (Path (rs_connector st)) t t' Hperm) as Hp.
  pose proof (walk_tree_listable clean (Path (rs_connector st)) t Hl) as Hnone.
  rewrite (Refresh_tree_walked t st re), (Refresh_tree_walked t' st re) by
    (done || by rewrite <- ?Hp, ?(node_perm_is_dir t t')).
  by apply walk_catalog_order.
Qed.

End order.
