(* ===== verification/CatalogSize.v ===== *)
(** * The size of the catalog

    The catalog grows by one metric for every entry a walk finds that it
    did not have: after a walk over archives with [D] datasets in all, of
    distinct metrics of their sources, a catalog that had none of them has
    [D] metrics more, and [D] pairs have been sent.  Making sure that a
    source is there adds no metric. *)

From Stdlib Require Import ZArith String Ascii List Lia.
From stdpp Require Import base tactics option list gmap strings.
From S2P Require Import Prelude Stateful GoStrings Rrd Connector Discovery DiscoverySpec.

(** The number of metrics of a map of sources. *)
Definition metrics_size (ms : gmap string (gmap string rrdMetric)) : nat :=
  map_fold (λ _ m n, size m + n) 0 ms.

(** ** Theorems *)

Lemma catalog_size_metrics connector :
  catalog_size connector = metrics_size (metrics connector).
Proof. reflexivity. Qed.

Lemma metrics_size_insert s m ms :
  ms !! s = None → metrics_size (<[s := m]> ms) = size m + metrics_size ms.
Proof.
  intros Hs. unfold metrics_size. rewrite map_fold_insert_L; [done| |done].
  intros. lia.
Qed.

(** The metrics of a source count once. *)
Lemma metrics_size_lookup s m ms :
  ms !! s = Some m → metrics_size ms = size m + metrics_size (delete s ms).
Proof.
  intros Hs. rewrite <- (insert_delete_id ms s m) at 1 by done.
  apply metrics_size_insert, lookup_delete_eq.
Qed.

Lemma metrics_size_ensure_source s ms :
  metrics_size (ensure_source s ms) = metrics_size ms.
Proof.
  unfold ensure_source. destruct (ms !! s) eqn:Hs; [done|].
  by rewrite metrics_size_insert.
Qed.

Lemma metrics_size_ensure_sources ss ms :
  metrics_size (ensure_sources ss ms) = metrics_size ms.
Proof.
  revert ms; induction ss as [|s ss IH]; intros ms; [done|].
  cbn [ensure_sources fold_left]. fold (ensure_sources ss).
  by rewrite IH, metrics_size_ensure_source.
Qed.

(** An entry of a metric the catalog lacks adds one; an entry of a metric
    it has replaces the descriptor. *)
Lemma metrics_size_add_entry e ms :
  is_Some (ms !! e.1.1) →
  metrics_size (add_entry ms e)
  = (if lookup2 ms e.1 is Some _ then 0 else 1) + metrics_size ms.
Proof.
  intros [m Hm]. unfold add_entry, lookup2. rewrite Hm. simpl.
  rewrite (metrics_size_lookup e.1.1 (<[e.1.2 := e.2]> m) (alter _ _ ms))
    by (by rewrite lookup_alter_eq, Hm).
  rewrite (metrics_size_lookup e.1.1 m ms) by done.
  rewrite delete_alter_eq, map_size_insert. by destruct (m !! e.1.2).
Qed.

Lemma metrics_size_add_entries es ms :
  (∀ e, e ∈ es → is_Some (ms !! e.1.1)) →
  NoDup es.*1 → (∀ e, e ∈ es → lookup2 ms e.1 = None) →
  metrics_size (fold_left add_entry es ms) = length es + metrics_size ms.
Proof.
  revert ms; induction es as [|e es IH]; intros ms Hsrc Hnd Hnew; [done|].
  rewrite fmap_cons in Hnd. apply NoDup_cons in Hnd as [He Hnd].
  cbn [fold_left length]. rewrite IH; [| |done|].
  - rewrite metrics_size_add_entry by (apply Hsrc; by left).
    rewrite (Hnew e) by by left. lia.
  - intros e' He'. apply add_entry_is_Some, Hsrc. by right.
  - intros e' He'. rewrite lookup2_add_entry by (apply Hsrc; by left).
    rewrite decide_False; [apply Hnew; by right|].
    intros Heq. apply He. rewrite Heq. by apply list_elem_of_fmap_2.
Qed.

Section catalog_size.
Context `{Regexp} `{Archives}.

(** C32: the catalog after a walk: when the entries the walk finds are
    of distinct metrics of their sources and the catalog has none of them,
    the catalog has one metric more for each entry, that is, for each
    dataset of each matching archive, and as many pairs have been sent;
    the number does not depend on the order of the walk. *)
Theorem walk_catalog_size re root visits st :
  NoDup (discovered re root visits).*1 →
  (∀ e, e ∈ discovered re root visits → lookup2 (catalog st) e.1 = None) →
  let st' := apply_effect (walk_effect re root visits) st in
  catalog_size (rs_connector st')
  = length (discovered re root visits) + catalog_size (rs_connector st)
  ∧ length (sent (out_chan st'))
    = length (sent (out_chan st)) + length (discovered re root visits)
  ∧ ∀ visits', visits ≡ₚ visits' →
      length (discovered re root visits') = length (discovered re root visits).
Proof.
  intros Hnd Hnew st'. pose proof (walk_effect_wf re root visits) as Hwf.
  rewrite !catalog_size_metrics. unfold st'. split; [|split].
  - cbn [apply_effect rs_connector metrics]. rewrite walk_effect_entries.
    rewrite metrics_size_add_entries, metrics_size_ensure_sources; [done| |done|].
    + intros e He. apply ensure_sources_is_Some. left.
      apply Hwf. by rewrite walk_effect_entries.
    + intros e He. rewrite lookup2_ensure_sources. by apply Hnew.
  - by rewrite walk_output, length_app, length_fmap.
  - intros visits' Hp. unfold discovered. by rewrite Hp.
Qed.

End catalog_size.
