(* ===== verification/Stream.v ===== *)
(** * The stream of a discovery and its consumer

    [Refresh] sends the pairs it finds on the output channel and an error
    on the error channel, and closes both channels when it is left.  The
    model of [Refresh] keeps the history of these operations, in the
    order in which the call performs them; what the call does next never
    depends on the reader of a channel, so a call that has to wait at a
    send has done a prefix of that history and goes on with the rest when
    the send completes.  The consumer is not part of the connector; this
    file gives the two sides a common semantics, as a step relation on
    the operations the producer has still to perform, the two channels
    and what the consumer has received, in which a send waits for room in
    the channel or for a reader.  It states what the closes are for: a
    consumer that reads both channels until each is closed always comes
    to its end, with every pair and every error of the call, whatever the
    capacities of the channels; a consumer that reads the output channel
    to its end before it looks at the error channel can wait for ever; a
    consumer that stops reading leaves the producer waiting on a send,
    with neither channel closed. *)

From Stdlib Require Import ZArith String Ascii List Lia.
From stdpp Require Import base tactics option list gmap strings relations.
From S2P Require Import Prelude Stateful GoStrings Rrd Connector Discovery DiscoverySpec.

(** ** The producer's side *)

(** The operations of a run of [Refresh] that turns the state [st0]
    into [st], in the order of the run: what the run has added to the
    history. *)
Definition events_of (st0 st : refresh_state) : list event :=
  drop (length (rs_events st0)) (rs_events st).

Definition outputs (events : list event) : list (string * string) :=
  omap (λ e, match e with Output x => Some x | _ => None end) events.

Definition errors (events : list event) : list string :=
  omap (λ e, match e with Error err => Some err | _ => None end) events.

(** The events respect the channels: nothing is sent on a closed channel,
    no channel is closed twice, and both are closed in the end. *)
Fixpoint events_ok (out_closed err_closed : bool) (events : list event) : bool :=
  match events with
  | [] => out_closed && err_closed
  | Output _ :: rest => negb out_closed && events_ok out_closed err_closed rest
  | Error _ :: rest => negb err_closed && events_ok out_closed err_closed rest
  | CloseErr :: rest => negb err_closed && events_ok out_closed true rest
  | CloseOut :: rest => negb out_closed && events_ok true err_closed rest
  end.

(** ** A channel and its reader *)

(** One channel, with the reader's end: the values in the channel, whether
    it is closed, what the reader has received from it, and whether the
    reader has seen it closed. *)
Record port (A : Type) : Type := {
  buf : list A;
  is_closed : bool;
  got : list A;
  seen : bool
}.

Arguments buf {A} p.
Arguments is_closed {A} p.
Arguments got {A} p.
Arguments seen {A} p.

Definition port_new {A : Type} : port A :=
  {| buf := []; is_closed := false; got := []; seen := false |}.

(** A send on a channel of capacity [cap]: the value goes to a reader
    that waits on the empty channel, or into the channel when there is
    room; otherwise the sender waits. *)
Definition port_send {A : Type} (cap : nat) (listening : bool) (x : A) (p : port A)
  : option (port A) :=
  if is_closed p then None
  else if listening && bool_decide (buf p = []) then
    Some {| buf := []; is_closed := false; got := got p ++ [x]; seen := seen p |}
  else if (length (buf p) <? cap)%nat then
    Some {| buf := buf p ++ [x]; is_closed := false; got := got p; seen := seen p |}
  else None.

Definition port_close {A : Type} (p : port A) : option (port A) :=
  if is_closed p then None
  else Some {| buf := buf p; is_closed := true; got := got p; seen := seen p |}.

(** The reader takes the first value of the channel, or sees that the
    channel is closed and empty. *)
Definition port_read {A : Type} (listening : bool) (p : port A) : option (port A) :=
  if listening then
    match buf p with
    | x :: rest =>
        Some {| buf := rest; is_closed := is_closed p; got := got p ++ [x];
                seen := seen p |}
    | [] =>
        if is_closed p && negb (seen p) then
          Some {| buf := []; is_closed := true; got := got p; seen := true |}
        else None
    end
  else None.

(** What is left to do at a channel. *)
Definition port_weight {A : Type} (p : port A) : nat :=
  length (buf p) + (if seen p then 0 else 1).

(** A reader that has seen the channel closed has seen it empty. *)
Definition port_ok {A : Type} (p : port A) : Prop :=
  seen p = true → is_closed p = true ∧ buf p = [].

(** ** The two sides together *)

Record sys : Type := {
  producer : list event;
  p_out : port (string * string);
  p_err : port string
}.

Definition sys_init (events : list event) : sys :=
  {| producer := events; p_out := port_new; p_err := port_new |}.

(** The channels the consumer waits on, given the number of pairs it has
    received and which channels it has seen closed. *)
Definition policy : Type := nat → bool → bool → bool * bool.

(** A consumer that waits on both channels until it has seen each
    closed. *)
Definition draining : policy := λ _ seen_out seen_err, (negb seen_out, negb seen_err).

(** A consumer that reads the output channel to its end and the error
    channel after that. *)
Definition sequential : policy :=
  λ _ seen_out seen_err, (negb seen_out, seen_out && negb seen_err).

(** A consumer that leaves its read loop after [k] pairs: until then it
    waits on both channels, from then on on none. *)
Definition stops_after (k : nat) : policy :=
  λ received seen_out seen_err,
    if (k <=? received)%nat then (false, false) else draining received seen_out seen_err.

Definition sys_measure (s : sys) : nat :=
  2 * length (producer s) + port_weight (p_out s) + port_weight (p_err s).

(** The pairs and the errors of a run: received, in a channel, or still
    to be sent. *)
Definition all_out (s : sys) : list (string * string) :=
  got (p_out s) ++ buf (p_out s) ++ outputs (producer s).

Definition all_err (s : sys) : list string :=
  got (p_err s) ++ buf (p_err s) ++ errors (producer s).

Record sys_inv (s : sys) : Prop := {
  inv_events :
    events_ok (is_closed (p_out s)) (is_closed (p_err s)) (producer s) = true;
  inv_out : port_ok (p_out s);
  inv_err : port_ok (p_err s)
}.

(** The consumer has come to its end. *)
Definition finished (s : sys) : Prop :=
  producer s = [] ∧ seen (p_out s) = true ∧ seen (p_err s) = true.

(** The consumer has come to its end with everything the run sent. *)
Definition delivered (events : list event) (s : sys) : Prop :=
  finished s ∧ got (p_out s) = outputs events ∧ got (p_err s) = errors events.

#[export] Instance finished_dec s : Decision (finished s).
Proof. unfold finished. apply _. Defined.

(** The states of a run whose producer sends the pairs [xs] first, with
    a consumer that stops after [k] pairs: the pairs sent so far are with
    the consumer, at most [k] of them, or in the channel; both channels
    are open and nothing has been sent on the error channel. *)
Definition stopping_inv (k cap_out : nat) (xs : list (string * string))
    (rest : list event) (s : sys) : Prop :=
  ∃ j, length (got (p_out s)) + length (buf (p_out s)) = j
  ∧ producer s = (Output <$> drop j xs) ++ rest
  ∧ got (p_out s) ++ buf (p_out s) = take j xs
  ∧ length (got (p_out s)) ≤ k ∧ length (buf (p_out s)) ≤ cap_out
  ∧ is_closed (p_out s) = false ∧ seen (p_out s) = false
  ∧ p_err s = port_new.

Section steps.
Variables (cap_out cap_err : nat) (listens : policy).

Definition listens_out (s : sys) : bool :=
  (listens (length (got (p_out s))) (seen (p_out s)) (seen (p_err s))).1.
Definition listens_err (s : sys) : bool :=
  (listens (length (got (p_out s))) (seen (p_out s)) (seen (p_err s))).2.

(** The next event of the producer, if it does not have to wait. *)
Definition produce (s : sys) : option sys :=
  match producer s with
  | [] => None
  | Output x :: rest =>
      p ← port_send cap_out (listens_out s) x (p_out s);
      Some {| producer := rest; p_out := p; p_err := p_err s |}
  | Error err :: rest =>
      p ← port_send cap_err (listens_err s) err (p_err s);
      Some {| producer := rest; p_out := p_out s; p_err := p |}
  | CloseErr :: rest =>
      p ← port_close (p_err s);
      Some {| producer := rest; p_out := p_out s; p_err := p |}
  | CloseOut :: rest =>
      p ← port_close (p_out s);
      Some {| producer := rest; p_out := p; p_err := p_err s |}
  end.

Definition consume_out (s : sys) : option sys :=
  p ← port_read (listens_out s) (p_out s);
  Some {| producer := producer s; p_out := p; p_err := p_err s |}.

Definition consume_err (s : sys) : option sys :=
  p ← port_read (listens_err s) (p_err s);
  Some {| producer := producer s; p_out := p_out s; p_err := p |}.

(** One step of the system: of the producer, or of the consumer at one of
    the channels. *)
Inductive step (s : sys) : sys → Prop :=
| step_produce s' : produce s = Some s' → step s s'
| step_consume_out s' : consume_out s = Some s' → step s s'
| step_consume_err s' : consume_err s = Some s' → step s s'.

(** The states the system can go to, for evaluation. *)
Definition successors (s : sys) : list sys :=
  omap (λ f, f s) [produce; consume_out; consume_err].

(** The run that takes the first step it can, [fuel] times at most: the
    number of its steps and the state it reaches. *)
Fixpoint run (fuel : nat) (s : sys) : nat * sys :=
  match fuel with
  | 0 => (0, s)
  | S fuel =>
      match successors s with
      | [] => (0, s)
      | s' :: _ => (S (run fuel s').1, (run fuel s').2)
      end
  end.

(** On every run, [P] comes to hold. *)
Inductive eventually (P : sys → Prop) (s : sys) : Prop :=
| eventually_now : P s → eventually P s
| eventually_step :
    (∃ s', step s s') → (∀ s', step s s' → eventually P s') → eventually P s.

(** The producer waits at a send on the output channel, with both
    channels open, and nothing in the system can move: the call of
    [Refresh] does not return and its deferred closes do not run. *)
Definition blocked (s : sys) : Prop :=
  successors s = []
  ∧ (∃ x rest, producer s = Output x :: rest)
  ∧ is_closed (p_out s) = false ∧ is_closed (p_err s) = false.

End steps.

(** ** Theorems *)

(** *** One channel *)

Section port.
Context {A : Type}.
Implicit Types (p : port A) (x : A).

Lemma port_send_spec cap listening x p p' :
  port_send cap listening x p = Some p' →
  is_closed p = false ∧ is_closed p' = false ∧ seen p' = seen p
  ∧ got p' ++ buf p' = got p ++ buf p ++ [x]
  ∧ length (buf p') ≤ S (length (buf p)).
Proof.
  unfold port_send. destruct (is_closed p); [done|].
  destruct (listening && bool_decide (buf p = [])) eqn:Hl.
  - apply andb_prop in Hl as [_ Hb%bool_decide_eq_true]. intros [= <-]; simpl.
    rewrite Hb, app_nil_r. repeat split; simpl; lia.
  - case_match; [|done]. intros [= <-]; simpl.
    rewrite length_app; simpl. repeat split; lia.
Qed.

Lemma port_close_spec p p' :
  port_close p = Some p' →
  is_closed p = false ∧ is_closed p' = true ∧ seen p' = seen p
  ∧ got p' = got p ∧ buf p' = buf p.
Proof. unfold port_close. destruct (is_closed p); [done|]. by intros [= <-]. Qed.

Lemma port_read_spec listening p p' :
  port_read listening p = Some p' →
  is_closed p' = is_closed p ∧ got p' ++ buf p' = got p ++ buf p
  ∧ port_weight p' < port_weight p ∧ (port_ok p → port_ok p').
Proof.
  unfold port_read, port_weight, port_ok. destruct listening; [|done].
  destruct (buf p) as [|x rest] eqn:Hb.
  - destruct (is_closed p) eqn:Hc, (seen p) eqn:Hs; try done.
    intros [= <-]; simpl. repeat split; lia.
  - intros [= <-]; simpl. rewrite <- app_assoc.
    split; [done|]. split; [done|]. split; [lia|]. by intros Hok [_ ?]%Hok.
Qed.

(** The two ways of a send: to the reader that waits, or into the
    channel. *)
Lemma port_send_cases cap listening x p p' :
  port_send cap listening x p = Some p' →
  is_closed p = false
  ∧ ((listening = true ∧ buf p = []
      ∧ p' = {| buf := []; is_closed := false; got := got p ++ [x]; seen := seen p |})
     ∨ (length (buf p) < cap
        ∧ p' = {| buf := buf p ++ [x]; is_closed := false; got := got p;
                  seen := seen p |})).
Proof.
  unfold port_send. destruct (is_closed p); [done|]. split; [done|].
  destruct (listening && bool_decide (buf p = [])) eqn:Hl.
  - apply andb_prop in Hl as [-> Hb%bool_decide_eq_true]. left. by simplify_eq.
  - destruct (Nat.ltb_spec (length (buf p)) cap); [|done]. right. by simplify_eq.
Qed.

(** The two ways of a read: the first value of the channel, or the
    close of an empty channel. *)
Lemma port_read_cases listening p p' :
  port_read listening p = Some p' →
  listening = true
  ∧ ((∃ x r, buf p = x :: r
             ∧ p' = {| buf := r; is_closed := is_closed p; got := got p ++ [x];
                       seen := seen p |})
     ∨ (buf p = [] ∧ is_closed p = true ∧ seen p = false)).
Proof.
  unfold port_read. destruct listening; [|done]. split; [done|].
  destruct (buf p) as [|x r]; [|left; exists x, r; by simplify_eq].
  destruct (is_closed p), (seen p); try done. by right.
Qed.

Lemma port_send_ok cap listening x p p' :
  port_send cap listening x p = Some p' → port_ok p → port_ok p'.
Proof.
  intros (Hc & _ & Hs & _)%port_send_spec Hok. unfold port_ok. rewrite Hs.
  intros [? _]%Hok. congruence.
Qed.

Lemma port_close_ok p p' : port_close p = Some p' → port_ok p → port_ok p'.
Proof.
  intros (Hc & _ & Hs & _)%port_close_spec Hok. unfold port_ok. rewrite Hs.
  intros [? _]%Hok. congruence.
Qed.

Lemma port_send_weight cap listening x p p' :
  port_send cap listening x p = Some p' → port_weight p' ≤ S (port_weight p).
Proof.
  intros (_ & _ & Hs & _ & Hlen)%port_send_spec. unfold port_weight.
  rewrite Hs. lia.
Qed.

Lemma port_close_weight p p' :
  port_close p = Some p' → port_weight p' = port_weight p.
Proof.
  intros (_ & _ & Hs & _ & Hb)%port_close_spec. unfold port_weight.
  by rewrite Hs, Hb.
Qed.

(** A send to a reader that waits never waits itself. *)
Lemma port_send_listening cap x p :
  is_closed p = false → seen p = false →
  (buf p = [] ∨ length (buf p) < cap) →
  is_Some (port_send cap (negb (seen p)) x p).
Proof.
  intros Hc Hs Hroom. unfold port_send. rewrite Hc, Hs. simpl.
  case_bool_decide; [done|]. destruct Hroom as [?|Hlt]; [done|].
  by apply Nat.ltb_lt in Hlt as ->.
Qed.

(** A reader that waits gets the next value, or sees the close. *)
Lemma port_read_listening p :
  seen p = false → (buf p ≠ [] ∨ is_closed p = true) →
  is_Some (port_read (negb (seen p)) p).
Proof.
  intros Hs Hready. unfold port_read. rewrite Hs. simpl.
  destruct (buf p); [|done]. by destruct Hready as [?| ->].
Qed.

Lemma port_ok_seen p :
  port_ok p → (buf p ≠ [] ∨ is_closed p = false) → seen p = false.
Proof.
  intros Hok Hp. destruct (seen p) eqn:Hs; [|done].
  destruct (Hok Hs) as [Hc Hb]. destruct Hp; congruence.
Qed.

End port.

(** *** The events *)

Lemma outputs_app es1 es2 : outputs (es1 ++ es2) = outputs es1 ++ outputs es2.
Proof. apply omap_app. Qed.

Lemma errors_app es1 es2 : errors (es1 ++ es2) = errors es1 ++ errors es2.
Proof. apply omap_app. Qed.

Lemma outputs_Output xs : outputs (Output <$> xs) = xs.
Proof. induction xs as [|x xs IH]; [done|]. cbn. by f_equal. Qed.

Lemma errors_Error errs : errors (Error <$> errs) = errs.
Proof. induction errs as [|x xs IH]; [done|]. cbn. by f_equal. Qed.

Lemma outputs_Error errs : outputs (Error <$> errs) = [].
Proof. by induction errs. Qed.

Lemma errors_Output xs : errors (Output <$> xs) = [].
Proof. by induction xs. Qed.

(** Sends on open channels and the two closes respect the channels. *)
Lemma events_ok_run xs errs :
  events_ok false false ((Output <$> xs) ++ (Error <$> errs) ++ [CloseErr; CloseOut])
  = true.
Proof.
  induction xs as [|x xs IH]; [|done]. simpl. by induction errs.
Qed.

(** *** Steps *)

Section step_lemmas.
Variables (cap_out cap_err : nat) (listens : policy).
Implicit Types (s : sys).

(** What a step of the producer does, by its event. *)
Lemma produce_inv s s' :
  produce cap_out cap_err listens s = Some s' →
  ∃ e rest, producer s = e :: rest ∧ producer s' = rest ∧
    match e with
    | Output x =>
        port_send cap_out (listens_out listens s) x (p_out s) = Some (p_out s')
        ∧ p_err s' = p_err s
    | Error err =>
        port_send cap_err (listens_err listens s) err (p_err s) = Some (p_err s')
        ∧ p_out s' = p_out s
    | CloseErr => port_close (p_err s) = Some (p_err s') ∧ p_out s' = p_out s
    | CloseOut => port_close (p_out s) = Some (p_out s') ∧ p_err s' = p_err s
    end.
Proof.
  unfold produce. destruct (producer s) as [|e rest]; [done|].
  intros Hs'. exists e, rest. split; [done|].
  destruct e; simplify_option_eq; done.
Qed.

Lemma consume_out_inv s s' :
  consume_out listens s = Some s' →
  port_read (listens_out listens s) (p_out s) = Some (p_out s')
  ∧ p_err s' = p_err s ∧ producer s' = producer s.
Proof. unfold consume_out. intros. by simplify_option_eq. Qed.

Lemma consume_err_inv s s' :
  consume_err listens s = Some s' →
  port_read (listens_err listens s) (p_err s) = Some (p_err s')
  ∧ p_out s' = p_out s ∧ producer s' = producer s.
Proof. unfold consume_err. intros. by simplify_option_eq. Qed.

(** The relation and the function agree. *)
Lemma step_successors s s' :
  step cap_out cap_err listens s s' ↔ s' ∈ successors cap_out cap_err listens s.
Proof.
  unfold successors. rewrite list_elem_of_omap. split.
  - intros [s1 Hs|s1 Hs|s1 Hs]; eexists; (split; [|exact Hs]); set_solver.
  - intros (f & Hf & Hs). repeat (apply elem_of_cons in Hf as [->|Hf]);
      [by apply step_produce|by apply step_consume_out|by apply step_consume_err|].
    by apply elem_of_nil in Hf.
Qed.

(** A state without successor: nobody can move. *)
Lemma successors_nil s :
  successors cap_out cap_err listens s = [] →
  produce cap_out cap_err listens s = None
  ∧ consume_out listens s = None ∧ consume_err listens s = None.
Proof.
  unfold successors. simpl.
  by destruct (produce _ _ _ s), (consume_out _ s), (consume_err _ s).
Qed.

(** Every step leaves less to do. *)
Lemma step_measure s s' :
  step cap_out cap_err listens s s' → sys_measure s' < sys_measure s.
Proof.
  unfold sys_measure.
  intros [s1 (e & rest & -> & -> & He)%produce_inv
         |s1 (Hr%port_read_spec & -> & ->)%consume_out_inv
         |s1 (Hr%port_read_spec & -> & ->)%consume_err_inv]; [|lia..].
  destruct e; destruct He as [Hp ->]; simpl;
    first [apply port_send_weight in Hp|apply port_close_weight in Hp]; lia.
Qed.

(** The invariant of the system. *)
Lemma step_inv s s' : step cap_out cap_err listens s s' → sys_inv s → sys_inv s'.
Proof.
  intros Hstep [Hev Hout Herr]. destruct Hstep as
    [s1 (e & rest & He & Hrest & Hp)%produce_inv
    |s1 ((Hc & _ & _ & Hok)%port_read_spec & He & Hp)%consume_out_inv
    |s1 ((Hc & _ & _ & Hok)%port_read_spec & Ho & Hp)%consume_err_inv].
  - rewrite He in Hev.
    destruct e; destruct Hp as [Hp Hsame]; cbn [events_ok] in Hev;
      apply andb_prop in Hev as [_ Hev]; split; rewrite ?Hrest, ?Hsame;
      try done;
      first [pose proof (port_send_spec _ _ _ _ _ Hp) as (Hc & Hc' & _)
            |pose proof (port_close_spec _ _ Hp) as (Hc & Hc' & _)];
      rewrite ?Hc'; try (by rewrite Hc in Hev);
      eauto using port_send_ok, port_close_ok.
  - split; rewrite ?Hc, ?He, ?Hp; auto.
  - split; rewrite ?Hc, ?Ho, ?Hp; auto.
Qed.

(** Nothing is lost and nothing is made up. *)
Lemma step_all_out s s' :
  step cap_out cap_err listens s s' → all_out s' = all_out s.
Proof.
  unfold all_out.
  intros [s1 (e & rest & -> & -> & He)%produce_inv
         |s1 ((_ & Hg & _)%port_read_spec & _ & ->)%consume_out_inv
         |s1 (_ & -> & ->)%consume_err_inv]; [|by rewrite !app_assoc, Hg|done].
  destruct e; destruct He as [Hp Hsame]; rewrite ?Hsame; cbn; try done.
  - apply port_send_spec in Hp as (_ & _ & _ & Hg & _).
    by rewrite !app_assoc, Hg, <- !app_assoc.
  - by apply port_close_spec in Hp as (_ & _ & _ & -> & ->).
Qed.

Lemma step_all_err s s' :
  step cap_out cap_err listens s s' → all_err s' = all_err s.
Proof.
  unfold all_err.
  intros [s1 (e & rest & -> & -> & He)%produce_inv
         |s1 (_ & -> & ->)%consume_out_inv
         |s1 ((_ & Hg & _)%port_read_spec & _ & ->)%consume_err_inv];
    [|done|by rewrite !app_assoc, Hg].
  destruct e; destruct He as [Hp Hsame]; rewrite ?Hsame; cbn; try done.
  - apply port_send_spec in Hp as (_ & _ & _ & Hg & _).
    by rewrite !app_assoc, Hg, <- !app_assoc.
  - by apply port_close_spec in Hp as (_ & _ & _ & -> & ->).
Qed.

(** The two sides together always come to a stop: no run of the
    producer and the consumer is infinite, whatever the events, the
    capacities of the channels and the channels the consumer waits on. *)
Theorem step_terminates :
  well_founded (λ s' s, step cap_out cap_err listens s s').
Proof.
  apply (wf_projected lt sys_measure); [|apply lt_wf].
  intros s' s. apply step_measure.
Qed.

(** A run is no longer than what is left to do at its start. *)
Lemma nsteps_measure n s s' :
  nsteps (step cap_out cap_err listens) n s s' → n + sys_measure s' ≤ sys_measure s.
Proof.
  induction 1 as [s|n s s1 s' Hstep%step_measure _ IH]; [done|]. lia.
Qed.

(** [run] is a run. *)
Lemma run_nsteps fuel s :
  nsteps (step cap_out cap_err listens) (run cap_out cap_err listens fuel s).1 s
    (run cap_out cap_err listens fuel s).2.
Proof.
  revert s; induction fuel as [|fuel IH]; intros s; [apply nsteps_O|].
  cbn [run]. destruct (successors _ _ _ s) as [|s' l] eqn:Hs; [apply nsteps_O|].
  apply (nsteps_l _ _ _ s'); [|apply IH].
  apply step_successors. rewrite Hs. by left.
Qed.

End step_lemmas.

(** *** A consumer that reads both channels *)

Section draining.
Variables (cap_out cap_err : nat).
Implicit Types (s : sys).

Lemma eventually_mono (P Q : sys → Prop) s :
  (∀ s', P s' → Q s') →
  eventually cap_out cap_err draining P s → eventually cap_out cap_err draining Q s.
Proof.
  intros HPQ Hev. induction Hev as [s HP|s Hstep _ IH].
  - by apply eventually_now, HPQ.
  - by apply eventually_step.
Qed.

Lemma listens_out_draining s : listens_out draining s = negb (seen (p_out s)).
Proof. done. Qed.

Lemma listens_err_draining s : listens_err draining s = negb (seen (p_err s)).
Proof. done. Qed.

(** The consumer takes what is in a channel. *)
Lemma draining_reads s :
  sys_inv s → buf (p_out s) ≠ [] ∨ buf (p_err s) ≠ [] →
  ∃ s', step cap_out cap_err draining s s'.
Proof.
  intros [_ Hout Herr] [Hb|Hb].
  - pose proof (port_ok_seen _ Hout (or_introl Hb)) as Hs.
    destruct (port_read_listening (p_out s)) as [p Hp]; [done|by left|].
    eexists. apply step_consume_out. unfold consume_out.
    by rewrite listens_out_draining, Hp.
  - pose proof (port_ok_seen _ Herr (or_introl Hb)) as Hs.
    destruct (port_read_listening (p_err s)) as [p Hp]; [done|by left|].
    eexists. apply step_consume_err. unfold consume_err.
    by rewrite listens_err_draining, Hp.
Qed.

(** The producer never waits on an empty channel. *)
Lemma draining_produces s e rest :
  sys_inv s → producer s = e :: rest → buf (p_out s) = [] → buf (p_err s) = [] →
  ∃ s', step cap_out cap_err draining s s'.
Proof.
  intros [Hev Hout Herr] He Hbo Hbe. rewrite He in Hev.
  assert (∃ s', produce cap_out cap_err draining s = Some s') as [s' Hs'];
    [|by exists s'; apply step_produce].
  unfold produce. rewrite listens_out_draining, listens_err_draining, He.
  destruct e; cbn [events_ok] in *;
    apply andb_prop in Hev as [Hc%negb_true_iff _].
  - destruct (port_send_listening cap_out x (p_out s)) as [p ->];
      eauto using port_ok_seen.
  - destruct (port_send_listening cap_err err (p_err s)) as [p ->];
      eauto using port_ok_seen.
  - unfold port_close. rewrite Hc. by eexists.
  - unfold port_close. rewrite Hc. by eexists.
Qed.

(** The consumer sees the closes. *)
Lemma draining_sees s :
  sys_inv s → producer s = [] → ¬ finished s →
  ∃ s', step cap_out cap_err draining s s'.
Proof.
  intros [Hev Hout Herr] He Hnot. rewrite He in Hev.
  apply andb_prop in Hev as [Hco Hce].
  destruct (seen (p_out s)) eqn:Hso.
  - destruct (seen (p_err s)) eqn:Hse; [by destruct Hnot|].
    destruct (port_read_listening (p_err s)) as [p Hp]; [done|by right|].
    eexists. apply step_consume_err. unfold consume_err.
    by rewrite listens_err_draining, Hp.
  - destruct (port_read_listening (p_out s)) as [p Hp]; [done|by right|].
    eexists. apply step_consume_out. unfold consume_out.
    by rewrite listens_out_draining, Hp.
Qed.

(** No run gets stuck before the consumer's end. *)
Lemma draining_progress s :
  sys_inv s → ¬ finished s → ∃ s', step cap_out cap_err draining s s'.
Proof.
  intros Hinv Hnot.
  destruct (buf (p_out s)) eqn:Hbo; [|apply draining_reads; [done|left; congruence]].
  destruct (buf (p_err s)) eqn:Hbe; [|apply draining_reads; [done|right; congruence]].
  destruct (producer s) as [|e rest] eqn:He.
  - by apply draining_sees.
  - by apply (draining_produces s e rest).
Qed.

(** At its end, the consumer has everything. *)
Lemma finished_got s :
  sys_inv s → finished s →
  got (p_out s) = all_out s ∧ got (p_err s) = all_err s.
Proof.
  intros [_ Hout Herr] (He & [_ Hbo]%Hout & [_ Hbe]%Herr).
  unfold all_out, all_err. by rewrite He, Hbo, Hbe, !app_nil_r.
Qed.

Lemma eventually_finished s :
  sys_inv s →
  eventually cap_out cap_err draining
    (λ s', finished s' ∧ got (p_out s') = all_out s ∧ got (p_err s') = all_err s) s.
Proof.
  induction (step_terminates cap_out cap_err draining s) as [s _ IH]. intros Hinv.
  destruct (decide (finished s)) as [Hfin|Hnot].
  - apply eventually_now. split; [done|]. by apply finished_got.
  - apply eventually_step; [by apply draining_progress|]. intros s' Hstep.
    rewrite <- (step_all_out _ _ _ _ _ Hstep), <- (step_all_err _ _ _ _ _ Hstep).
    apply IH; [done|]. by apply (step_inv _ _ _ _ _ Hstep).
Qed.

(** Events that respect the channels are all delivered. *)
Lemma events_delivered events :
  events_ok false false events = true →
  eventually cap_out cap_err draining (delivered events) (sys_init events).
Proof.
  intros Hok. eapply eventually_mono; [|apply eventually_finished].
  - by intros s' (Hfin & Ho & He).
  - by split.
Qed.

End draining.

(** *** A consumer that stops reading *)

Section stopping.
Variables (cap_out cap_err k : nat) (xs : list (string * string)) (rest : list event).
Hypothesis Hmore : k + cap_out < length xs.
Implicit Types (s : sys).

Lemma listens_out_stops_after s :
  seen (p_out s) = false →
  listens_out (stops_after k) s = negb (k <=? length (got (p_out s)))%nat.
Proof.
  intros Hs. unfold listens_out, stops_after, draining. rewrite Hs.
  by destruct (k <=? _)%nat.
Qed.

Lemma stopping_inv_init :
  stopping_inv k cap_out xs rest (sys_init ((Output <$> xs) ++ rest)).
Proof. exists 0. simpl. repeat split; lia. Qed.

(** The producer's next event is the send of the next pair. *)
Lemma stopping_next s j :
  length (got (p_out s)) + length (buf (p_out s)) = j →
  length (got (p_out s)) ≤ k → length (buf (p_out s)) ≤ cap_out →
  ∃ x, xs !! j = Some x ∧ drop j xs = x :: drop (S j) xs.
Proof.
  intros Hj Hg Hb. destruct (lookup_lt_is_Some_2 xs j) as [x Hx]; [lia|].
  exists x. split; [done|]. by apply drop_S.
Qed.

Lemma stopping_step s s' :
  stopping_inv k cap_out xs rest s →
  step cap_out cap_err (stops_after k) s s' → stopping_inv k cap_out xs rest s'.
Proof.
  intros (j & Hj & Hp & Hall & Hg & Hb & Hc & Hs & He) Hstep.
  destruct (stopping_next s j) as (x & Hx & Hdrop); [done..|].
  pose proof (listens_out_stops_after s Hs) as Hl.
  destruct Hstep as
    [s1 (e & rest' & He' & Hrest & Hsend)%produce_inv
    |s1 ((Hlis & Hr)%port_read_cases & He' & Hp')%consume_out_inv
    |s1 ((_ & Hr)%port_read_cases & _)%consume_err_inv].
  - rewrite Hp, Hdrop in He'. injection He' as <- <-.
    destruct Hsend as [(_ & Hcase)%port_send_cases Herr].
    exists (S j). rewrite Herr, Hrest, (take_S_r _ _ _ Hx), <- Hall.
    destruct Hcase as [(Hlis & Hbuf & ->)|(Hroom & ->)]; cbn [got buf is_closed seen].
    + rewrite Hlis in Hl. symmetry in Hl. apply negb_true_iff, Nat.leb_gt in Hl.
      rewrite Hbuf in *. rewrite !app_nil_r, length_app. simpl in *.
      repeat split; try done; lia.
    + rewrite length_app, app_assoc. simpl. repeat split; try done; lia.
  - rewrite Hl in Hlis. apply negb_true_iff, Nat.leb_gt in Hlis.
    destruct Hr as [(y & r & Hbuf & Hp1)|(_ & Hclosed & _)]; [|congruence].
    exists j. rewrite He', Hp', Hp1. cbn [got buf is_closed seen].
    rewrite Hbuf in *. rewrite length_app, <- app_assoc. simpl in *.
    repeat split; try done; lia.
  - rewrite He in Hr. destruct Hr as [(y & r & Hbuf & _)|(_ & Hclosed & _)]; done.
Qed.

(** A run that cannot go on has stopped at a send, with the consumer
    gone. *)
Lemma stopping_stuck s :
  stopping_inv k cap_out xs rest s →
  successors cap_out cap_err (stops_after k) s = [] →
  blocked cap_out cap_err (stops_after k) s ∧ got (p_out s) = take k xs.
Proof.
  intros (j & Hj & Hp & Hall & Hg & Hb & Hc & Hs & He) Hstuck.
  destruct (stopping_next s j) as (x & Hx & Hdrop); [done..|].
  pose proof (listens_out_stops_after s Hs) as Hl. rewrite Hdrop in Hp.
  destruct (successors_nil _ _ _ s Hstuck) as (Hprod & Hcons & _).
  assert (k ≤ length (got (p_out s))) as Hk.
  { apply Nat.leb_le. destruct (k <=? _)%nat eqn:Hle; [done|]. exfalso.
    unfold consume_out in Hcons. unfold produce in Hprod.
    rewrite Hp, Hl in *. unfold port_read, port_send in *. rewrite Hc in *.
    simpl in *.
    destruct (buf (p_out s)); [rewrite bool_decide_eq_true_2 in Hprod by done|]; done. }
  split.
  - split; [done|]. split; [rewrite Hp; cbn; by eexists _, _|].
    split; [done|]. by rewrite He.
  - assert (length (got (p_out s)) = k) as Hlen by lia.
    rewrite <- (take_app_length (got (p_out s)) (buf (p_out s))), Hall, Hlen.
    rewrite take_take. f_equal. lia.
Qed.

(** On every run the producer ends up waiting at a send, for ever: the
    consumer has received [k] pairs, the channel is full, and the closes
    are still to come. *)
Lemma stopping_blocks s :
  stopping_inv k cap_out xs rest s →
  eventually cap_out cap_err (stops_after k)
    (λ s', blocked cap_out cap_err (stops_after k) s' ∧ got (p_out s') = take k xs) s.
Proof.
  induction (step_terminates cap_out cap_err (stops_after k) s) as [s _ IH].
  intros Hinv.
  destruct (successors cap_out cap_err (stops_after k) s) as [|s1 l] eqn:Hsucc.
  - apply eventually_now. by apply stopping_stuck.
  - apply eventually_step.
    + exists s1. apply step_successors. rewrite Hsucc. by left.
    + intros s' Hstep. apply IH; [done|]. by eapply stopping_step.
Qed.

End stopping.

(** *** The stream of a discovery *)

Section refresh_stream.
Context `{Regexp} `{Walker} `{Archives}.

(** The operations of a call with open channels are those the pattern
    and the walk determine. *)
Lemma events_of_Refresh st :
  chans_open st → events_of st (Refresh st).1 = refresh_events st.
Proof.
  intros Hopen. unfold events_of.
  by rewrite Refresh_history, drop_app_length.
Qed.

Lemma outputs_refresh_events st : outputs (refresh_events st) = refresh_pairs st.
Proof.
  unfold refresh_events.
  by rewrite !outputs_app, outputs_Output, outputs_Error, app_nil_r.
Qed.

Lemma errors_refresh_events st : errors (refresh_events st) = refresh_errors st.
Proof.
  unfold refresh_events. by rewrite !errors_app, errors_Output, errors_Error, app_nil_r.
Qed.

(** What a call has sent, read from the channels. *)
Lemma Refresh_sent_drop st :
  chans_open st →
  drop (length (sent (out_chan st))) (sent (out_chan (Refresh st).1)) = refresh_pairs st
  ∧ drop (length (sent (rs_errChan st))) (sent (rs_errChan (Refresh st).1))
    = refresh_errors st.
Proof.
  intros [-> ->]%Refresh_sent. by rewrite !drop_app_length.
Qed.

(** C16: the consumer's read loop always ends: after a call of
    [Refresh] with both channels open, whether it returns or panics, a
    consumer that reads both channels until it has seen each closed comes
    to its end on every run, whatever the capacities of the channels, and
    has then received the pairs and the errors the call sent, in their
    order. *)
Theorem Refresh_stream_delivered (cap_out cap_err : nat) st :
  chans_open st →
  let st' := (Refresh st).1 in
  eventually cap_out cap_err draining
    (λ s, finished s
          ∧ got (p_out s) = drop (length (sent (out_chan st))) (sent (out_chan st'))
          ∧ got (p_err s) = drop (length (sent (rs_errChan st))) (sent (rs_errChan st')))
    (sys_init (events_of st st')).
Proof.
  intros Hopen st'. subst st'. destruct (Refresh_sent_drop st Hopen) as [-> ->].
  rewrite events_of_Refresh by done.
  rewrite <- outputs_refresh_events, <- errors_refresh_events.
  apply events_delivered, events_ok_run.
Qed.

(** C34: the stream of a discovery is finite, with a bound in what the
    walk finds: after a call of [Refresh] with both channels open, every
    run of the producer and a consumer, whatever the channels the
    consumer waits on and whatever the capacities, has at most two steps
    for each pair of the entries the calls of the walk find, and eight
    for the error and the two closes.  The call sends a pair once and
    one error at most. *)
Theorem Refresh_stream_bound (cap_out cap_err : nat) (listens : policy) st n s :
  chans_open st →
  nsteps (step cap_out cap_err listens) n (sys_init (events_of st (Refresh st).1)) s →
  n ≤ 2 * length (refresh_pairs st) + 8.
Proof.
  intros Hopen Hrun%nsteps_measure. revert Hrun.
  rewrite events_of_Refresh by done.
  pose proof (refresh_errors_length st) as Herr.
  unfold sys_measure, port_weight, refresh_events.
  cbn [producer sys_init p_out p_err port_new buf seen].
  rewrite !length_app, !length_fmap. simpl. lia.
Qed.

(** C17: the consumer that leaves its read loop: when the calls of the
    walk find more entries than the consumer takes and the output channel
    holds, a call of [Refresh] with both channels open and a consumer
    that stops reading after [k] pairs end, on every run, with the
    producer waiting at a send: the consumer has the first [k] pairs the
    walk finds, nothing in the system can move, the call has not returned
    and neither channel has been closed.  The deferred closes do not
    help: they run when the function is left, and the function is not
    left. *)
Theorem Refresh_stream_abandoned (cap_out cap_err k : nat) st :
  chans_open st →
  k + cap_out < length (refresh_pairs st) →
  eventually cap_out cap_err (stops_after k)
    (λ s, blocked cap_out cap_err (stops_after k) s
          ∧ got (p_out s) = take k (refresh_pairs st))
    (sys_init (events_of st (Refresh st).1)).
Proof.
  intros Hopen Hmore. rewrite events_of_Refresh by done.
  by eapply stopping_blocks; [|apply stopping_inv_init].
Qed.

End refresh_stream.

(** *** A consumer that reads one channel after the other *)

(** The hazard of the two channels: when a run sends an error
    before anything else, as [Refresh] does for an invalid pattern, and
    the error channel has no buffer, a consumer that reads the output
    channel to its end before the error channel never comes to its end:
    the producer waits for a reader of the error, the consumer for the
    close of the output channel. *)
Theorem sequential_consumer_waits (cap_out : nat) err rest s' :
  ¬ finished (sys_init (Error err :: rest))
  ∧ ¬ step cap_out 0 sequential (sys_init (Error err :: rest)) s'.
Proof.
  split; [by intros [[=] _]|]. rewrite step_successors. apply not_elem_of_nil.
Qed.
