(* ===== verification/DiscoveryExamples.v ===== *)
(** * Refresh on a small tree

    A few patterns with a matcher for paths of the shape
    [source/metric.rrd], a tree with two hosts and a catalog of archives:
    concrete collaborators on which the theorems about [Refresh] are
    instantiated, and on which its behaviour is evaluated where the code
    and its specification differ. *)

From Stdlib Require Import ZArith NArith String Ascii List Lia.
From stdpp Require Import base tactics option list gmap strings relations.
From S2P Require Import Prelude Stateful GoStrings Float64 Rrd Connector Discovery.
From S2P Require Import DiscoverySpec CatalogSize Stream.

(** ** Patterns *)

(** The patterns of the examples. *)
Inductive toy_pattern : Type :=
| SourceMetric          (* (?P<source>[^/]+)/(?P<metric>.+)\.rrd *)
| MetricSource          (* (?P<metric>[^/]+)/(?P<source>.+)\.rrd *)
| UnnamedSourceMetric   (* (.)(?P<source>[^/]+)/(?P<metric>.+)\.rrd *)
| SourceOnly            (* (?P<source>[^/]+)/.+\.rrd *)
| SourceHost.           (* (?P<source>[^/]+)/(?P<host>.+)\.rrd *)

Definition toy_compile (pattern : string) : option toy_pattern :=
  if decide (pattern = "(?P<source>[^/]+)/(?P<metric>.+)\.rrd") then Some SourceMetric
  else if decide (pattern = "(?P<metric>[^/]+)/(?P<source>.+)\.rrd")
  then Some MetricSource
  else if decide (pattern = "(.)(?P<source>[^/]+)/(?P<metric>.+)\.rrd")
  then Some UnnamedSourceMetric
  else if decide (pattern = "(?P<source>[^/]+)/.+\.rrd") then Some SourceOnly
  else if decide (pattern = "(?P<source>[^/]+)/(?P<host>.+)\.rrd")
  then Some SourceHost
  else None.

Definition toy_names (re : toy_pattern) : list string :=
  match re with
  | SourceMetric => [""; "source"; "metric"]
  | MetricSource => [""; "metric"; "source"]
  | UnnamedSourceMetric => [""; ""; "source"; "metric"]
  | SourceOnly => [""; "source"]
  | SourceHost => [""; "source"; "host"]
  end.

(** The text before a final [.rrd], when there is some. *)
Fixpoint strip_rrd (s : string) : option string :=
  match s with
  | EmptyString => None
  | String c s' =>
      if decide (s' = ".rrd") then Some (String c EmptyString)
      else String c <$> strip_rrd s'
  end.

(** The groups of a path [a/b.rrd] with [a] and [b] not empty. *)
Definition toy_match (re : toy_pattern) (s : string) : list string :=
  match Cut s "/" with
  | Some (String c a', b) =>
      match strip_rrd b with
      | Some b' =>
          match re with
          | SourceMetric | MetricSource | SourceHost => [s; String c a'; b']
          | SourceOnly => [s; String c a']
          | UnnamedSourceMetric =>
              if decide (a' = "") then []
              else [s; String c EmptyString; a'; b']
          end
      | None => []
      end
  | _ => []
  end.

#[export] Program Instance toy_Regexp : Regexp := {|
  regexp := toy_pattern;
  Compile := toy_compile;
  SubexpNames := toy_names;
  FindStringSubmatch := toy_match
|}.
Next Obligation. by intros []. Qed.
Next Obligation.
  intros re s. unfold toy_match. by repeat case_match.
Qed.

(** ** A tree and its archives *)

Definition mode_dir : N := (2 ^ 31 + 493)%N.
Definition mode_file : N := 420%N.

Definition ex_visit (path : string) (mode : N) : visit :=
  {| v_path := path; v_mode := mode; v_err := None |}.

Definition ex_visits : list visit :=
  [ ex_visit "/var/lib/rrd/host1" mode_dir;
    ex_visit "/var/lib/rrd/host1/cpu.rrd" mode_file;
    ex_visit "/var/lib/rrd/host1/load.rrd" mode_file;
    ex_visit "/var/lib/rrd/README" mode_file;
    ex_visit "/var/lib/rrd/host2" mode_dir;
    ex_visit "/var/lib/rrd/host2/broken.rrd" mode_file ].

(** A walker that visits the given files whatever the root. *)
Definition walker_of (visits : list visit) : Walker := {| walk := λ _, visits |}.

(** The walk of the tree, and the same walk stopped by an error at the
    second host. *)
Definition ex_Walker : Walker := walker_of ex_visits.

Definition ex_failing_Walker : Walker :=
  walker_of
    (take 4 ex_visits
     ++ [{| v_path := "/var/lib/rrd/host2"; v_mode := 0%N;
            v_err := Some "open /var/lib/rrd/host2: permission denied" |}]
     ++ drop 5 ex_visits).

(** A walk that visits the root itself, as a regular file. *)
Definition ex_root_file_Walker : Walker :=
  walker_of [ex_visit "/var/lib/rrd" mode_file].

#[export] Instance ex_Archives : Archives := {|
  rrd_Info := λ path,
    if decide (path = "/var/lib/rrd/host1/cpu.rrd")
    then Ok {| ds_index := Some ["value"] |}
    else if decide (path = "/var/lib/rrd/host1/load.rrd")
    then Ok {| ds_index := Some ["shortterm"; "midterm"; "longterm"] |}
    else Err ("opening '" +:+ path +:+ "': not an rrd file")
|}.

(** A connector before its first refresh, with a given pattern. *)
Definition ex_refresh (pattern : string) : refresh_state :=
  {| rs_connector :=
       {| Path := "/var/lib/rrd"; Pattern := pattern; Daemon := "";
          outputChan := chan_make; metrics := ∅ |};
     rs_errChan := chan_make;
     rs_log := [];
     rs_events := [] |}.

Definition ex_pattern : string := "(?P<source>[^/]+)/(?P<metric>.+)\.rrd".

(** The same connector with a metric whose archive is not in the tree. *)
Definition ex_refresh_stale : refresh_state :=
  set_connector
    (set_metrics
       {[ "host1" := {[ "swap/value" :=
                          {| Dataset := "value";
                             FilePath := "/var/lib/rrd/host1/swap.rrd" |} ]} ]}
       (rs_connector (ex_refresh ex_pattern)))
    (ex_refresh ex_pattern).

(** ** Witnesses *)

Lemma Refresh_closes_channels_witness :
  chans_closed (@Refresh toy_Regexp ex_Walker ex_Archives (ex_refresh ex_pattern)).1.
Proof. by apply (Refresh_closes_channels (ex_refresh ex_pattern)). Defined.

Lemma Refresh_invalid_pattern_witness :
  @Refresh toy_Regexp ex_Walker ex_Archives
    (ex_refresh "(?P<source>[^/]+)/(?P<host>.+)\.rrd")
  = (close_chans
       (emit (Error "invalid pattern keyword `host'")
          (set_errChan
             {| sent := ["invalid pattern keyword `host'"]; closed := false |}
             (ex_refresh "(?P<source>[^/]+)/(?P<host>.+)\.rrd"))),
     Ok tt).
Proof.
  exact (@Refresh_invalid_pattern toy_Regexp ex_Walker ex_Archives
           (ex_refresh "(?P<source>[^/]+)/(?P<host>.+)\.rrd") SourceHost
           "invalid pattern keyword `host'" (conj eq_refl eq_refl) eq_refl eq_refl).
Defined.

Lemma ex_visits_ok : Forall (visit_ok "/var/lib/rrd") ex_visits.
Proof.
  repeat constructor; try (by intros [=]); simpl; try lia;
    by intros p; vm_compute.
Qed.

Lemma Refresh_success_witness :
  @Refresh toy_Regexp ex_Walker ex_Archives (ex_refresh ex_pattern)
  = (close_chans
       (apply_effect (walk_effect SourceMetric "/var/lib/rrd" ex_visits)
          (ex_refresh ex_pattern)),
     Ok tt).
Proof.
  by apply (@Refresh_success toy_Regexp ex_Walker ex_Archives
              (ex_refresh ex_pattern) SourceMetric); [..|apply ex_visits_ok].
Defined.

Lemma Refresh_walk_error_witness :
  @Refresh toy_Regexp ex_failing_Walker ex_Archives (ex_refresh ex_pattern)
  = (close_chans
       (emit (Error "open /var/lib/rrd/host2: permission denied")
          (set_errChan
             {| sent := ["open /var/lib/rrd/host2: permission denied"];
                closed := false |}
             (apply_effect (walk_effect SourceMetric "/var/lib/rrd" (take 4 ex_visits))
                (ex_refresh ex_pattern)))),
     Ok tt).
Proof.
  refine (@Refresh_walk_error toy_Regexp ex_failing_Walker ex_Archives
            (ex_refresh ex_pattern) SourceMetric (take 4 ex_visits) _
            "open /var/lib/rrd/host2: permission denied" (drop 5 ex_visits)
            (conj eq_refl eq_refl) eq_refl eq_refl eq_refl _ eq_refl).
  apply Forall_take, ex_visits_ok.
Defined.

Lemma Refresh_again_panics_witness :
  (@Refresh toy_Regexp ex_Walker ex_Archives
     (@Refresh toy_Regexp ex_Walker ex_Archives (ex_refresh ex_pattern)).1).2
  = Panic CloseOfClosedChannel.
Proof.
  by apply (@Refresh_again_panics toy_Regexp ex_Walker ex_Archives
              (ex_refresh ex_pattern)).
Defined.

Lemma Refresh_keeps_metrics_witness :
  is_Some
    (lookup2
       (catalog (@Refresh toy_Regexp ex_Walker ex_Archives ex_refresh_stale).1)
       ("host1", "swap/value")).
Proof. by apply (Refresh_keeps_metrics ("host1", "swap/value") ex_refresh_stale). Defined.

Lemma Refresh_keeps_settings_witness :
  (let c := rs_connector
              (@Refresh toy_Regexp ex_Walker ex_Archives (ex_refresh ex_pattern)).1 in
   (Path c, Pattern c, Daemon c)) = ("/var/lib/rrd", ex_pattern, "").
Proof.
  by apply (Refresh_keeps_settings "/var/lib/rrd" ex_pattern ""
              (ex_refresh ex_pattern)).
Defined.

Lemma walk_catalog_size_witness :
  let st' := apply_effect
               (@walk_effect toy_Regexp ex_Archives SourceMetric "/var/lib/rrd" ex_visits)
               (ex_refresh ex_pattern) in
  catalog_size (rs_connector st')
  = length (@discovered toy_Regexp ex_Archives SourceMetric "/var/lib/rrd" ex_visits)
    + catalog_size (rs_connector (ex_refresh ex_pattern))
  ∧ length (sent (out_chan st'))
    = length (sent (out_chan (ex_refresh ex_pattern)))
      + length (@discovered toy_Regexp ex_Archives SourceMetric "/var/lib/rrd" ex_visits)
  ∧ ∀ visits', ex_visits ≡ₚ visits' →
      length (@discovered toy_Regexp ex_Archives SourceMetric "/var/lib/rrd" visits')
      = length (@discovered toy_Regexp ex_Archives SourceMetric "/var/lib/rrd" ex_visits).
Proof.
  apply (@walk_catalog_size toy_Regexp ex_Archives SourceMetric "/var/lib/rrd"
           ex_visits (ex_refresh ex_pattern)); [compute_decide|by intros e _].
Defined.

Lemma Refresh_stream_delivered_witness :
  let st' := (@Refresh toy_Regexp ex_Walker ex_Archives (ex_refresh ex_pattern)).1 in
  eventually 0 0 draining
    (λ s, finished s
          ∧ got (p_out s) = drop 0 (sent (out_chan st'))
          ∧ got (p_err s) = drop 0 (sent (rs_errChan st')))
    (sys_init (events_of (ex_refresh ex_pattern) st')).
Proof.
  by apply (@Refresh_stream_delivered toy_Regexp ex_Walker ex_Archives 0 0
              (ex_refresh ex_pattern)).
Defined.

Lemma Refresh_stream_abandoned_witness :
  let st := ex_refresh ex_pattern in
  eventually 2 0 (stops_after 1)
    (λ s, blocked 2 0 (stops_after 1) s
          ∧ got (p_out s)
            = take 1 (@refresh_pairs toy_Regexp ex_Walker ex_Archives st))
    (sys_init (events_of st (@Refresh toy_Regexp ex_Walker ex_Archives st).1)).
Proof.
  apply (@Refresh_stream_abandoned toy_Regexp ex_Walker ex_Archives 2 0 1
           (ex_refresh ex_pattern)); [done|vm_compute; lia].
Defined.

Lemma Refresh_stream_bound_witness :
  let st := ex_refresh ex_pattern in
  let r := run 1 0 draining 20
             (sys_init (events_of st (@Refresh toy_Regexp ex_Walker ex_Archives st).1)) in
  r.1 = 8 ∧ finished r.2
  ∧ r.1 ≤ 2 * length (@refresh_pairs toy_Regexp ex_Walker ex_Archives st) + 8.
Proof.
  split; [by vm_compute|]. split; [by vm_compute|].
  eapply (@Refresh_stream_bound toy_Regexp ex_Walker ex_Archives 1 0 draining
            (ex_refresh ex_pattern)); [done|apply run_nsteps].
Defined.

Lemma walk_catalog_order_witness :
  catalog_equiv
    (catalog (apply_effect (walk_effect SourceMetric "/var/lib/rrd" ex_visits)
                (ex_refresh ex_pattern)))
    (catalog (apply_effect
                (walk_effect SourceMetric "/var/lib/rrd" (reverse ex_visits))
                (ex_refresh ex_pattern))).
Proof.
  apply walk_catalog_order; [by rewrite reverse_Permutation|].
  compute_decide.
Defined.

Lemma source_and_metric_two_groups_witness :
  ∃ sourceName metricName,
    source_and_metric [""; "metric"; "source"] ["cpu/host1"; "cpu"; "host1"]
    = Ok (sourceName, metricName) ∧
    group [""; "metric"; "source"] ["cpu/host1"; "cpu"; "host1"] "source"
    = Some sourceName ∧
    group [""; "metric"; "source"] ["cpu/host1"; "cpu"; "host1"] "metric"
    = Some metricName.
Proof. by apply source_and_metric_two_groups. Defined.

(** ** Examples *)

(** The refresh of the tree: the four datasets of the two archives of
    the first host are sent in the order of the walk and stored; the file
    that does not match and the archive that cannot be read are logged; the
    second host is in the catalog without a metric. *)
Example Refresh_example :
  let st := (@Refresh toy_Regexp ex_Walker ex_Archives (ex_refresh ex_pattern)).1 in
  sent (out_chan st)
  = [("host1", "cpu/value"); ("host1", "load/shortterm");
     ("host1", "load/midterm"); ("host1", "load/longterm")]
  ∧ catalog st
    = {[ "host1" :=
           {[ "cpu/value" :=
                {| Dataset := "value"; FilePath := "/var/lib/rrd/host1/cpu.rrd" |};
              "load/shortterm" :=
                {| Dataset := "shortterm";
                   FilePath := "/var/lib/rrd/host1/load.rrd" |};
              "load/midterm" :=
                {| Dataset := "midterm";
                   FilePath := "/var/lib/rrd/host1/load.rrd" |};
              "load/longterm" :=
                {| Dataset := "longterm";
                   FilePath := "/var/lib/rrd/host1/load.rrd" |} ]};
         "host2" := ∅ ]}
  ∧ rs_log st
    = ["WARNING: file `/var/lib/rrd/README' does not match pattern";
       "WARNING: opening '/var/lib/rrd/host2/broken.rrd': not an rrd file"]
  ∧ sent (rs_errChan st) = [].
Proof. compute_decide. Qed.

(** With a group without name in front of the named ones, the metric
    is taken from the wrong group: the archive [host1/cpu.rrd] is
    registered as the metric [h/value] of the source [ost1]. *)
Example Refresh_unnamed_group :
  sent (out_chan
          (@Refresh toy_Regexp (walker_of [ex_visit "/var/lib/rrd/host1/cpu.rrd" mode_file])
             ex_Archives
             (ex_refresh "(.)(?P<source>[^/]+)/(?P<metric>.+)\.rrd")).1)
  = [("ost1", "h/value")].
Proof. compute_decide. Qed.

(** A walk that visits the root itself as a regular file makes
    [Refresh] panic in the slice of the path; the channels are closed by
    the deferred calls all the same. *)
Example Refresh_root_file_panics :
  let r := @Refresh toy_Regexp ex_root_file_Walker ex_Archives (ex_refresh ex_pattern) in
  r.2 = Panic SliceOutOfRange ∧ chans_closed r.1.
Proof. compute_decide. Qed.

(** The events of a run on the small tree: the four pairs and the two
    closes. *)
Example Refresh_events :
  events_of (ex_refresh ex_pattern)
    (@Refresh toy_Regexp ex_Walker ex_Archives (ex_refresh ex_pattern)).1
  = [Output ("host1", "cpu/value"); Output ("host1", "load/shortterm");
     Output ("host1", "load/midterm"); Output ("host1", "load/longterm");
     CloseErr; CloseOut].
Proof. by vm_compute. Qed.

(** With an invalid pattern and channels without buffer, a consumer that
    reads the output channel first and [Refresh] wait for each other from
    the start: the system has no step. *)
Example Refresh_invalid_pattern_deadlock :
  let st := ex_refresh "(?P<source>[^/]+)/(?P<host>.+)\.rrd" in
  let events := events_of st (@Refresh toy_Regexp ex_Walker ex_Archives st).1 in
  events = [Error "invalid pattern keyword `host'"; CloseErr; CloseOut]
  ∧ successors 0 0 sequential (sys_init events) = []
  ∧ length (successors 0 0 draining (sys_init events)) = 1.
Proof. by vm_compute. Qed.

(** The catalog of the small tree has the four datasets of its two
    readable archives. *)
Example Refresh_catalog_size :
  catalog_size
    (rs_connector (@Refresh toy_Regexp ex_Walker ex_Archives (ex_refresh ex_pattern)).1)
  = 4.
Proof. by vm_compute. Qed.
