(* ===== verification/TreeExamples.v ===== *)
(** * Refresh on the tree of the examples

    The tree of [DiscoveryExamples] as a [node], walked by the walker of
    [WalkTree]: the theorems about trees at that tree, the same tree with
    its entries in another order, and a configured path that ends with a
    separator. *)

From Stdlib Require Import ZArith NArith String Ascii List Lia.
From stdpp Require Import base tactics option list gmap strings relations.
From S2P Require Import Prelude Stateful GoStrings Rrd Connector Discovery.
From S2P Require Import DiscoverySpec WalkTree DiscoveryExamples.

(** ** The tree *)

Definition ex_host1 : node :=
  Dir [("cpu.rrd", File mode_file); ("load.rrd", File mode_file)].

Definition ex_host2 : node := Dir [("broken.rrd", File mode_file)].

Definition ex_tree : node :=
  Dir [("host1", ex_host1); ("README", File mode_file); ("host2", ex_host2)].

(** The same tree, listed in another order. *)
Definition ex_tree_reordered : node :=
  Dir [("host2", ex_host2); ("README", File mode_file); ("host1", ex_host1)].

(** The same tree with a second host that cannot be listed. *)
Definition ex_tree_unreadable : node :=
  Dir [("host1", ex_host1); ("README", File mode_file);
       ("host2", Unreadable "open /var/lib/rrd/host2: permission denied")].

(** A walker that passes the root on as it is. *)
Definition as_given (root : string) : string := root.

(** The connector of the examples with a path that ends with a
    separator. *)
Definition ex_refresh_slash : refresh_state :=
  set_connector
    {| Path := "/var/lib/rrd/"; Pattern := ex_pattern; Daemon := "";
       outputChan := chan_make; metrics := ∅ |}
    (ex_refresh ex_pattern).

(** ** Witnesses *)

Lemma ex_Archives_no_panic path p : @rrd_Info ex_Archives path ≠ Panic p.
Proof. unfold rrd_Info, ex_Archives. by repeat case_decide. Qed.

Lemma Refresh_tree_witness :
  @Refresh toy_Regexp (tree_Walker as_given ex_tree_unreadable) ex_Archives
    (ex_refresh ex_pattern)
  = (close_chans
       (@refreshed toy_Regexp (tree_Walker as_given ex_tree_unreadable) ex_Archives
          SourceMetric (ex_refresh ex_pattern)),
     Ok tt).
Proof.
  by apply (@Refresh_tree toy_Regexp ex_Archives as_given ex_tree_unreadable
              (ex_refresh ex_pattern) SourceMetric);
    [..|apply ex_Archives_no_panic| |].
Defined.

Lemma ex_tree_perm : node_perm ex_tree ex_tree_reordered.
Proof.
  apply (node_perm_Dir _ [("host1", ex_host1); ("README", File mode_file);
                          ("host2", ex_host2)]).
  - repeat constructor; apply node_perm_refl.
  - symmetry.
    exact (reverse_Permutation [("host1", ex_host1); ("README", File mode_file);
                                ("host2", ex_host2)]).
Qed.

Lemma Refresh_tree_order_witness :
  catalog_equiv
    (catalog (@Refresh toy_Regexp (tree_Walker as_given ex_tree) ex_Archives
                (ex_refresh ex_pattern)).1)
    (catalog (@Refresh toy_Regexp (tree_Walker as_given ex_tree_reordered) ex_Archives
                (ex_refresh ex_pattern)).1).
Proof.
  apply (@Refresh_tree_order toy_Regexp ex_Archives as_given ex_tree ex_tree_reordered
           (ex_refresh ex_pattern) SourceMetric);
    [apply ex_tree_perm|done|done|done|apply ex_Archives_no_panic|done|done|done|].
  apply (bool_decide_unpack _). by vm_compute.
Defined.

Lemma Refresh_root_file_witness :
  @Refresh toy_Regexp (tree_Walker as_given (File mode_file)) ex_Archives
    (ex_refresh ex_pattern)
  = (close_chans (ex_refresh ex_pattern), Panic SliceOutOfRange).
Proof.
  by apply (@Refresh_root_file toy_Regexp ex_Archives as_given mode_file
              (ex_refresh ex_pattern) SourceMetric).
Defined.

(** ** Evaluations *)

(** The walk of the tree: the root, then the visits of
    [DiscoveryExamples], the directories with the bit of a directory
    only. *)
Example walk_ex_tree :
  v_path <$> walk_tree as_given "/var/lib/rrd" ex_tree
  = "/var/lib/rrd" :: (v_path <$> ex_visits).
Proof. reflexivity. Qed.

(** What is sent for the tree, and the error of the host that cannot be
    listed. *)
Example Refresh_ex_tree_unreadable :
  let st := (@Refresh toy_Regexp (tree_Walker as_given ex_tree_unreadable) ex_Archives
               (ex_refresh ex_pattern)).1 in
  (sent (out_chan st), sent (rs_errChan st))
  = ([("host1", "cpu/value"); ("host1", "load/shortterm");
      ("host1", "load/midterm"); ("host1", "load/longterm")],
     ["open /var/lib/rrd/host2: permission denied"]).
Proof. by vm_compute. Qed.

(** A configured path that ends with a separator, walked by a walker
    that joins the names to the cleaned path: the first byte of every
    relative path is lost, and the sources are named without it. *)
Example trailing_slash_loses_byte :
  sent (out_chan (@Refresh toy_Regexp (tree_Walker trim_slash ex_tree) ex_Archives
                    ex_refresh_slash).1)
  = [("ost1", "cpu/value"); ("ost1", "load/shortterm");
     ("ost1", "load/midterm"); ("ost1", "load/longterm")].
Proof. by vm_compute. Qed.
