(* ===== verification/Examples.v ===== *)
(** * Example data

    A small catalog, a few series and queries over it, and engines that
    answer with fixed tables and lines: the concrete inputs on which the
    theorems of the development are instantiated. *)

From Stdlib Require Import ZArith String Ascii List Lia.
From stdpp Require Import base tactics option list gmap strings.
From S2P Require Import Prelude GoStrings Float64 Rrd Connector.

Definition ex_metric (file : string) : rrdMetric :=
  {| Dataset := "value"; FilePath := "/var/lib/rrd/" +:+ file |}.

Definition ex_connector : RRDConnector :=
  {| Path := "/var/lib/rrd"; Pattern := "(?P<source>[^/]+)/(?P<metric>.+).rrd";
     Daemon := ""; outputChan := chan_make;
     metrics := {[ "host1" := {[ "cpu/value" := ex_metric "host1/cpu.rrd";
                                 "mem/value" := ex_metric "host1/mem.rrd" ]} ]} |}.

Definition ex_serie (name metric : string) (scale : float64) : SerieQuery :=
  {| sq_Name := name;
     sq_Metric := Some {| mq_Name := metric; mq_SourceName := "host1" |};
     sq_Scale := scale |}.

Definition ex_cpu : SerieQuery := ex_serie "cpu" "cpu/value" f64_zero.
Definition ex_mem : SerieQuery := ex_serie "mem" "mem/value" f64_2_5.
Definition ex_lost : SerieQuery := ex_serie "lost" "disk/value" f64_zero.
Definition ex_unset : SerieQuery :=
  {| sq_Name := "unset"; sq_Metric := None; sq_Scale := f64_zero |}.

Definition ex_query (ty : OperGroupType) (series : list SerieQuery) : GroupQuery :=
  {| gq_Name := "grp"; gq_Type := ty; gq_Series := series; gq_Scale := f64_zero |}.

(** An engine that fails every run with the given messages. *)
Definition failing_Engine (xport_msg graph_msg : string) : Engine :=
  {| Xport := λ _ _ _ _, Err xport_msg; Graph := λ _ _ _, Err graph_msg |}.

(** An engine that returns a fixed table and fixed lines. *)
Definition fixed_Engine (data : XportResult) (lines : list string) : Engine :=
  {| Xport := λ _ _ _ _, Ok data; Graph := λ _ _ _, Ok {| Print := lines |} |}.

(** A table of two columns and two rows. *)
Definition ex_table : XportResult :=
  {| Legends := ["serie0"; "serie1"]; RowCnt := 2;
     values := Some [f64_1; f64_2; f64_3; f64_50] |}.

(** An engine whose export succeeds and whose graph run fails. *)
Definition graph_failing_Engine (data : XportResult) (msg : string) : Engine :=
  {| Xport := λ _ _ _ _, Ok data; Graph := λ _ _ _, Err msg |}.

(** A table whose two columns stand for the same label. *)
Definition ex_series_same : gmap string string :=
  {[ "serie0" := "cpu"; "serie1" := "cpu" ]}.

Definition ex_series : gmap string string :=
  {[ "serie0" := "cpu"; "serie1" := "mem" ]}.

Lemma ex_table_wf : XportResult_wf ex_table.
Proof. split; [done|]. by exists [f64_1; f64_2; f64_3; f64_50]. Qed.
