(* ===== verification/ParseInfo.v ===== *)
(** * rrdParseInfo: statistics lines into results

    A graph run prints one line [label,key,value] per statistic.
    [rrdParseInfo] splits each line at its first two commas, parses the
    value (not-a-number when it does not parse), creates the result of the
    label when there is none yet, and stores the value under the key. *)

From Stdlib Require Import ZArith String Ascii List Lia.
From stdpp Require Import base tactics option list gmap strings.
From S2P Require Import Prelude GoStrings Float64 Rrd.

(** ** The function *)

(** [&PlotResult{Info: make(map[string]types.PlotValue)}]. *)
Definition PlotResult_new : PlotResult := {| Plots := []; Info := ∅ |}.

(** [r.Info[key] = v]. *)
Definition set_Info (key : string) (v : float64) (r : PlotResult) : PlotResult :=
  {| Plots := Plots r; Info := <[key := v]> (Info r) |}.

Section parse.
Context `{Strconv}.

(** The body of the loop over the printed lines. *)
Definition rrdParseInfo_line (data : gmap string PlotResult) (value : string)
  : outcome (gmap string PlotResult) :=
  let chunks := SplitN value "," 3 in
  let! chunk2 := of_option IndexOutOfRange (chunks !! 2) in
  let chunkFloat := default NaN (ParseFloat chunk2) in
  let! chunk0 := of_option IndexOutOfRange (chunks !! 0) in
  let data :=
    match data !! chunk0 with
    | None => <[chunk0 := PlotResult_new]> data
    | Some _ => data
    end in
  let! chunk1 := of_option IndexOutOfRange (chunks !! 1) in
  Ok (alter (set_Info chunk1 chunkFloat) chunk0 data).

Definition rrdParseInfo (info : GraphInfo) (data : gmap string PlotResult)
  : outcome (gmap string PlotResult) :=
  foldM rrdParseInfo_line (Print info) data.

(** ** Its specification: a line is a triple, storing it is an upsert *)

(** The three fields of a line, the value parsed. *)
Definition parse_line (value : string) : outcome (string * string * float64) :=
  match SplitN value "," 3 with
  | [label; key; v] => Ok (label, key, default NaN (ParseFloat v))
  | _ => Panic IndexOutOfRange
  end.

(** Store a statistic: the result of the label, a new one when the label
    has none, with the key set to the value. *)
Definition upsert (t : string * string * float64) (data : gmap string PlotResult)
  : gmap string PlotResult :=
  let '(label, key, v) := t in
  <[label := set_Info key v (default PlotResult_new (data !! label))]> data.

(** The statistic a triple is about. *)
Definition stat_of (t : string * string * float64) : string * string := t.1.

(** The line the engine prints for a format of rrdSetGraph, when it prints
    the text [v] for the value. *)
Definition stat_line (label key v : string) : string :=
  label +:+ "," +:+ key +:+ "," +:+ v.

(** All the lines of a run, parsed; a line with fewer than two commas
    makes the call panic. *)
Definition parse_lines (lines : list string)
  : outcome (list (string * string * float64)) :=
  mapM parse_line lines.

(** The statistics stored one after the other. *)
Definition store (ts : list (string * string * float64))
    (data : gmap string PlotResult) : gmap string PlotResult :=
  fold_left (λ data t, upsert t data) ts data.

(** The samples of a label, none when the label has no result. *)
Definition plots_of (data : gmap string PlotResult) (label : string)
  : list float64 :=
  Plots (default PlotResult_new (data !! label)).

(** The value of a statistic, if it has one. *)
Definition info_of (data : gmap string PlotResult) (s : string * string)
  : option float64 :=
  data !! s.1 ≫= λ r, Info r !! s.2.

(** The value the last triple about a statistic carries. *)
Fixpoint last_value (ts : list (string * string * float64)) (s : string * string)
  : option float64 :=
  match ts with
  | [] => None
  | t :: ts' =>
      match last_value ts' s with
      | Some v => Some v
      | None => if decide (stat_of t = s) then Some t.2 else None
      end
  end.

(** ** Lemmas on single lines *)

Lemma rrdParseInfo_line_spec data value :
  rrdParseInfo_line data value
  = let! t := parse_line value in Ok (upsert t data).
Proof.
  unfold rrdParseInfo_line, parse_line.
  pose proof (SplitN_length value "," 3) as Hlen.
  destruct (SplitN value "," 3) as [|c0 [|c1 [|c2 [|? ?]]]]; simpl in *;
    [done..| |lia].
  f_equal. destruct (data !! c0) as [r|] eqn:E; simpl.
  - apply map_eq; intros l. destruct (decide (c0 = l)) as [<-|].
    + by rewrite lookup_alter_eq, lookup_insert_eq, E.
    + by rewrite lookup_alter_ne, lookup_insert_ne.
  - by rewrite alter_insert_eq.
Qed.

Lemma parse_line_stat_line label key v :
  free_of "," label = true → free_of "," key = true →
  parse_line (stat_line label key v) = Ok (label, key, default NaN (ParseFloat v)).
Proof.
  intros Hl Hk. unfold parse_line, stat_line.
  by rewrite !string_app_char, SplitN_3.
Qed.

Lemma parse_line_few_commas value :
  length (SplitN value "," 3) < 3 → parse_line value = Panic IndexOutOfRange.
Proof.
  unfold parse_line.
  destruct (SplitN value "," 3) as [|c0 [|c1 [|c2 [|? ?]]]]; simpl; try done; lia.
Qed.

(** ** Lemmas on upserts *)

Lemma upsert_lookup_eq label key v data :
  upsert (label, key, v) data !! label
  = Some (set_Info key v (default PlotResult_new (data !! label))).
Proof. apply lookup_insert_eq. Qed.

Lemma upsert_lookup_ne label label' key v data :
  label ≠ label' → upsert (label, key, v) data !! label' = data !! label'.
Proof. intros. by apply lookup_insert_ne. Qed.

(** A later value for the same statistic replaces the earlier one. *)
Lemma upsert_overwrite t t' data :
  stat_of t = stat_of t' → upsert t (upsert t' data) = upsert t data.
Proof.
  destruct t as [[l k] v], t' as [[l' k'] v']. intros [= <- <-]. unfold upsert.
  rewrite lookup_insert_eq, insert_insert_eq. simpl.
  unfold set_Info; simpl. by rewrite insert_insert_eq.
Qed.

(** Values for different statistics are stored independently. *)
Lemma upsert_commute t t' data :
  stat_of t ≠ stat_of t' → upsert t (upsert t' data) = upsert t' (upsert t data).
Proof.
  destruct t as [[l k] v], t' as [[l' k'] v']. unfold stat_of; simpl.
  intros Hne. unfold upsert.
  destruct (decide (l = l')) as [<-|Hl].
  - rewrite !lookup_insert_eq, !insert_insert_eq. simpl. f_equal.
    unfold set_Info; simpl. f_equal. apply insert_insert_ne. congruence.
  - rewrite !lookup_insert_ne by done. by apply insert_insert_ne.
Qed.

(** ** The whole function *)

(** rrdParseInfo stores the triples of the lines, or panics at the first
    line that has fewer than two commas. *)
Lemma rrdParseInfo_spec info data :
  rrdParseInfo info data
  = let! ts := parse_lines (Print info) in Ok (store ts data).
Proof.
  unfold rrdParseInfo. generalize (Print info) as lines.
  intros lines; revert data; induction lines as [|v lines IH]; intros data; [done|].
  unfold parse_lines in *. cbn [foldM mapM]. rewrite rrdParseInfo_line_spec.
  destruct (parse_line v) as [t| |]; cbn [obind]; [|done..].
  rewrite IH. by destruct (mapM parse_line lines).
Qed.

(** A statistic that the triples restate is absorbed by them. *)
Lemma store_absorb ts t data :
  stat_of t ∈ map stat_of ts → store ts (upsert t data) = store ts data.
Proof.
  revert data; induction ts as [|t' ts IH]; intros data Hin.
  - by apply elem_of_nil in Hin.
  - cbn [store fold_left]. fold (store ts (upsert t' (upsert t data))).
    fold (store ts (upsert t' data)).
    destruct (decide (stat_of t' = stat_of t)) as [Heq|Hne].
    + by rewrite upsert_overwrite.
    + rewrite upsert_commute by done. apply IH.
      apply elem_of_cons in Hin as [Heq|Hin]; [congruence|done].
Qed.

Lemma store_absorb_all ts ts' data :
  (∀ t, t ∈ ts' → stat_of t ∈ map stat_of ts) →
  store ts (store ts' data) = store ts data.
Proof.
  revert data; induction ts' as [|t ts' IH]; intros data Hin; [done|].
  cbn [store fold_left]. fold (store ts' (upsert t data)).
  rewrite IH by (intros; apply Hin; by right).
  apply store_absorb, Hin. by left.
Qed.

Lemma store_idempotent ts data : store ts (store ts data) = store ts data.
Proof. apply store_absorb_all. intros t Ht. by apply list_elem_of_fmap_2. Qed.

Lemma upsert_plots_of t data label :
  plots_of (upsert t data) label = plots_of data label.
Proof.
  destruct t as [[l k] v]. unfold plots_of, upsert.
  destruct (decide (l = label)) as [->|Hne].
  - by rewrite lookup_insert_eq.
  - by rewrite lookup_insert_ne.
Qed.

Lemma store_plots_of ts data label :
  plots_of (store ts data) label = plots_of data label.
Proof.
  revert data; induction ts as [|t ts IH]; intros data; [done|].
  cbn [store fold_left]. fold (store ts (upsert t data)).
  by rewrite IH, upsert_plots_of.
Qed.

Lemma upsert_info_of t data s :
  info_of (upsert t data) s
  = if decide (stat_of t = s) then Some t.2 else info_of data s.
Proof.
  destruct t as [[l k] v], s as [l' k']. unfold info_of, upsert, stat_of; simpl.
  destruct (decide (l = l')) as [->|Hl].
  - rewrite lookup_insert_eq; simpl. destruct (decide (k = k')) as [->|Hk].
    + rewrite lookup_insert_eq. by rewrite decide_True.
    + rewrite lookup_insert_ne by done. rewrite decide_False by congruence.
      by destruct (data !! l').
  - rewrite lookup_insert_ne by done. by rewrite decide_False by congruence.
Qed.

(** After the triples are stored, a statistic has the value of the last
    triple about it, or the value it had. *)
Lemma store_info_of ts data s :
  info_of (store ts data) s
  = from_option Some (info_of data s) (last_value ts s).
Proof.
  revert data; induction ts as [|t ts IH]; intros data; [done|].
  cbn [store fold_left last_value]. fold (store ts (upsert t data)).
  rewrite IH, upsert_info_of.
  destruct (last_value ts s); [done|]. by case_decide.
Qed.

Lemma last_value_app ts1 ts2 s :
  last_value (ts1 ++ ts2) s
  = from_option Some (last_value ts1 s) (last_value ts2 s).
Proof.
  induction ts1 as [|t ts1 IH]; simpl.
  - by destruct (last_value ts2 s).
  - rewrite IH. by destruct (last_value ts2 s).
Qed.

Lemma last_value_notin ts s : s ∉ map stat_of ts → last_value ts s = None.
Proof.
  induction ts as [|t ts IH]; [done|]. rewrite fmap_cons, not_elem_of_cons.
  intros [Hne Hnot]. simpl. rewrite IH by done. by rewrite decide_False.
Qed.

Lemma parse_lines_app lines1 lines2 :
  parse_lines (lines1 ++ lines2)
  = let! ts1 := parse_lines lines1 in
    let! ts2 := parse_lines lines2 in Ok (ts1 ++ ts2).
Proof. apply mapM_app. Qed.

Lemma parse_lines_cons value lines :
  parse_lines (value :: lines)
  = let! t := parse_line value in
    let! ts := parse_lines lines in Ok (t :: ts).
Proof. reflexivity. Qed.

(** A line with two commas or more has its three fields. *)
Lemma parse_line_two_commas value :
  2 ≤ count_byte "," value → ∃ t, parse_line value = Ok t.
Proof.
  intros (a & b & c & Hsplit)%SplitN_3_count. unfold parse_line.
  rewrite Hsplit. by eexists.
Qed.

Lemma parse_lines_two_commas lines :
  Forall (λ line, 2 ≤ count_byte "," line) lines →
  ∃ ts, parse_lines lines = Ok ts.
Proof.
  induction 1 as [|line lines Hline _ [ts IH]]; [by eexists|].
  destruct (parse_line_two_commas line Hline) as [t Ht].
  exists (t :: ts). by rewrite parse_lines_cons, Ht, IH.
Qed.


Lemma store_lookup_is_Some ts data label :
  is_Some (store ts data !! label)
  ↔ is_Some (data !! label) ∨ label ∈ map (λ t, t.1.1) ts.
Proof.
  revert data; induction ts as [|[[l k] v] ts IH]; intros data.
  - split; [by left|]. intros [?|Hin]; [done|]. by apply elem_of_nil in Hin.
  - cbn [store fold_left]. fold (store ts (upsert (l, k, v) data)).
    rewrite IH, fmap_cons, elem_of_cons. unfold upsert; simpl.
    destruct (decide (l = label)) as [->|Hne].
    + rewrite lookup_insert_eq. split; [intros _; right; by left|eauto].
    + rewrite lookup_insert_ne by done. intuition congruence.
Qed.

(** C28: running rrdParseInfo again on its own result, with the same lines,
    changes nothing. *)
Theorem rrdParseInfo_idempotent info data data' :
  rrdParseInfo info data = Ok data' → rrdParseInfo info data' = Ok data'.
Proof.
  rewrite !rrdParseInfo_spec.
  destruct (parse_lines (Print info)) as [ts| |]; simpl; [|done..].
  intros [= <-]. by rewrite store_idempotent.
Qed.

(** C18: the statistics never touch the samples: every label has after
    rrdParseInfo the samples it had before, none if it is new. *)
Theorem rrdParseInfo_keeps_plots info data data' label :
  rrdParseInfo info data = Ok data' → plots_of data' label = plots_of data label.
Proof.
  rewrite rrdParseInfo_spec.
  destruct (parse_lines (Print info)) as [ts| |]; simpl; [|done..].
  intros [= <-]. apply store_plots_of.
Qed.

(** A label that occurs in the statistics only gets a result with no
    samples. *)
Theorem rrdParseInfo_label_without_samples info data data' label key v :
  rrdParseInfo info data = Ok data' → data !! label = None →
  stat_line label key v ∈ Print info →
  free_of "," label = true → free_of "," key = true →
  ∃ r, data' !! label = Some r ∧ Plots r = [].
Proof.
  intros Hrun Hnew Hin Hl Hk. rewrite rrdParseInfo_spec in Hrun.
  destruct (parse_lines (Print info)) as [ts| |] eqn:Hts; simplify_eq/=.
  pose proof (store_plots_of ts data label) as Hplots.
  assert (is_Some (store ts data !! label)) as [r Hr].
  { apply store_lookup_is_Some. right.
    apply list_elem_of_split in Hin as (l1 & l2 & Hsplit).
    rewrite Hsplit, parse_lines_app, parse_lines_cons in Hts.
    rewrite parse_line_stat_line in Hts by done.
    destruct (parse_lines l1) as [ts1| |]; simplify_eq/=.
    destruct (parse_lines l2) as [ts2| |]; simplify_eq/=.
    rewrite fmap_app, fmap_cons. apply elem_of_app. right. by left. }
  exists r. split; [done|]. unfold plots_of in Hplots.
  by rewrite Hr, Hnew in Hplots.
Qed.

(** C26: a line whose value does not parse is stored as not-a-number, and
    the call succeeds; every other statistic has the value it has without
    that line, and the samples are untouched. *)
Theorem rrdParseInfo_malformed_value before after ts1 ts2 label key v data :
  free_of "," label = true → free_of "," key = true →
  ParseFloat v = None →
  parse_lines before = Ok ts1 → parse_lines after = Ok ts2 →
  (label, key) ∉ map stat_of ts2 →
  ∃ data',
    rrdParseInfo {| Print := before ++ stat_line label key v :: after |} data
      = Ok data'
    ∧ info_of data' (label, key) = Some NaN
    ∧ (∀ s, s ≠ (label, key) →
         info_of data' s = info_of (store (ts1 ++ ts2) data) s)
    ∧ ∀ l, plots_of data' l = plots_of data l.
Proof.
  intros Hl Hk Hv H1 H2 Hlast. eexists. rewrite rrdParseInfo_spec. simpl.
  rewrite parse_lines_app, H1, parse_lines_cons. cbn [obind].
  rewrite parse_line_stat_line, H2, Hv by done. simpl.
  split_and!; [done| | |intros; apply store_plots_of].
  - rewrite store_info_of, last_value_app. simpl.
    rewrite (last_value_notin ts2) by done. by rewrite decide_True.
  - intros s Hs. rewrite !store_info_of, !last_value_app. simpl.
    unfold stat_of; simpl. rewrite decide_False by congruence.
    by destruct (last_value ts2 s).
Qed.

(** C39: a line with fewer than two commas makes rrdParseInfo panic with an
    index out of range, whatever the other lines are. *)
Theorem rrdParseInfo_short_line_panics before after ts1 value data :
  parse_lines before = Ok ts1 → length (SplitN value "," 3) < 3 →
  rrdParseInfo {| Print := before ++ value :: after |} data
  = Panic IndexOutOfRange.
Proof.
  intros H1 Hshort. rewrite rrdParseInfo_spec. simpl.
  rewrite parse_lines_app, H1, parse_lines_cons. cbn [obind].
  by rewrite parse_line_few_commas.
Qed.

End parse.


(** ** Witnesses *)

Lemma rrdParseInfo_idempotent_witness :
  @rrdParseInfo decimal_Strconv {| Print := ["cpu,min,1.5"; "cpu,max,oops"] |}
    (store [("cpu", "min", f64_1_5); ("cpu", "max", NaN)] ∅)
  = Ok (store [("cpu", "min", f64_1_5); ("cpu", "max", NaN)] ∅).
Proof.
  apply (@rrdParseInfo_idempotent decimal_Strconv _
           {[ "cpu" := {| Plots := []; Info := {[ "min" := f64_2_5 ]} |} ]}).
  vm_compute. reflexivity.
Defined.

Lemma rrdParseInfo_keeps_plots_witness :
  plots_of (store [("cpu", "min", f64_1_5)]
              {[ "cpu" := {| Plots := [f64_50; f64_95]; Info := ∅ |} ]}) "cpu"
  = plots_of {[ "cpu" := {| Plots := [f64_50; f64_95]; Info := ∅ |} ]} "cpu".
Proof.
  apply (@rrdParseInfo_keeps_plots decimal_Strconv {| Print := ["cpu,min,1.5"] |}).
  vm_compute. reflexivity.
Defined.

Lemma rrdParseInfo_label_without_samples_witness :
  ∃ r, store [("grp", "avg", f64_1_5)] (∅ : gmap string PlotResult) !! "grp" = Some r
       ∧ Plots r = [].
Proof.
  apply (@rrdParseInfo_label_without_samples decimal_Strconv
           {| Print := ["grp,avg,1.5"] |} ∅ _ "grp" "avg" "1.5");
    [vm_compute; reflexivity | reflexivity | by left | reflexivity | reflexivity].
Defined.

Lemma rrdParseInfo_malformed_value_witness :
  ∃ data',
    @rrdParseInfo decimal_Strconv
      {| Print := ["cpu,min,1.5"] ++ stat_line "cpu" "max" "oops" :: ["cpu,last,2.5"] |}
      {[ "cpu" := {| Plots := [f64_50]; Info := ∅ |} ]} = Ok data'
    ∧ info_of data' ("cpu", "max") = Some NaN
    ∧ (∀ s, s ≠ ("cpu", "max") →
         info_of data' s
         = info_of (store ([("cpu", "min", f64_1_5)] ++ [("cpu", "last", f64_2_5)])
                      {[ "cpu" := {| Plots := [f64_50]; Info := ∅ |} ]}) s)
    ∧ ∀ l, plots_of data' l
           = plots_of {[ "cpu" := {| Plots := [f64_50]; Info := ∅ |} ]} l.
Proof.
  apply (@rrdParseInfo_malformed_value decimal_Strconv);
    try (vm_compute; reflexivity).
  intros Hin. apply list_elem_of_singleton in Hin. discriminate Hin.
Defined.

Lemma rrdParseInfo_short_line_panics_witness :
  @rrdParseInfo decimal_Strconv
    {| Print := ["cpu,min,1.5"] ++ "cpu-max" :: ["cpu,last,2.5"] |} ∅
  = Panic IndexOutOfRange.
Proof.
  apply (@rrdParseInfo_short_line_panics decimal_Strconv _ _ [("cpu", "min", f64_1_5)]).
  - vm_compute. reflexivity.
  - vm_compute. lia.
Defined.
