(* ===== verification/StatRoundTrip.v ===== *)
(** * The statistics, from the request to the result

    [rrdSetGraph] asks for a statistic with a PRINT operation whose format
    is [label,key,%lf]; the engine prints the format with the value in
    place of [%lf]; [rrdParseInfo] splits the line at its first two commas
    and stores the value under the key of the label.  This file follows a
    statistic along that way: every statistic requested for a label comes
    back under its key, provided the label has no comma and no percent
    sign and no two percentiles have the same key. *)

From Stdlib Require Import ZArith String Ascii List Lia.
From stdpp Require Import base tactics option list gmap strings.
From S2P Require Import Prelude GoStrings Float64 Rrd SetGraph ParseInfo.

(** ** The engine's side *)

(** What follows [lf] at the head of a text, if the text starts so. *)
Definition after_lf (s : string) : option string :=
  match s with
  | String c1 (String c2 rest) =>
      if Ascii.eqb c1 "l" && Ascii.eqb c2 "f" then Some rest else None
  | _ => None
  end.

(** The line printed for a format: the text of the value in place of the
    first [%lf]. *)
Fixpoint fill_lf (format v : string) : string :=
  match format with
  | EmptyString => EmptyString
  | String c rest =>
      match (if Ascii.eqb c "%" then after_lf rest else None) with
      | Some rest' => v +:+ rest'
      | None => String c (fill_lf rest v)
      end
  end.

(** The lines printed for the formats of a program, given the texts of the
    values in the order of the PRINT operations. *)
Definition printed (formats values : list string) : list string :=
  zip_with fill_lf formats values.

(** ** Theorems *)

#[local] Arguments String.append !_ _ / : simpl nomatch.

Lemma fill_lf_app (a b v : string) :
  free_of "%" a = true → fill_lf (a +:+ b) v = a +:+ fill_lf b v.
Proof.
  induction a as [|c a IH]; [done|]. rewrite free_of_cons.
  intros [Hc%negb_true_iff Ha]%andb_prop. cbn [String.append fill_lf].
  by rewrite Hc, IH.
Qed.

(** A format of [rrdSetGraph], filled, is the line [label,key,value]. *)
Lemma fill_lf_print_format (label key v : string) :
  free_of "%" label = true → free_of "%" key = true →
  fill_lf (print_format label key) v = stat_line label key v.
Proof.
  intros Hl Hk. unfold print_format, stat_line.
  rewrite fill_lf_app by done. f_equal.
  change ("," +:+ key +:+ ",%lf") with (String "," (key +:+ ",%lf")).
  cbn [fill_lf]. rewrite fill_lf_app by done.
  change (fill_lf ",%lf" v) with (String "," (v +:+ "")).
  by rewrite string_app_nil_r.
Qed.

(** Filling a format loses no comma. *)
Lemma after_lf_Some s rest :
  after_lf s = Some rest → s = String "l" (String "f" rest).
Proof.
  destruct s as [|c1 [|c2 s]]; simpl; try done.
  destruct (Ascii.eqb_spec c1 "l") as [->|]; [|done].
  destruct (Ascii.eqb_spec c2 "f") as [->|]; [|done]. by intros [= ->].
Qed.

Lemma fill_lf_count (format v : string) :
  count_byte "," format ≤ count_byte "," (fill_lf format v).
Proof.
  induction format as [|c format IH]; [done|]. cbn [fill_lf].
  destruct (if Ascii.eqb c "%" then after_lf format else None) as [rest|] eqn:E.
  - destruct (Ascii.eqb_spec c "%") as [->|]; [|done].
    apply after_lf_Some in E as ->. rewrite count_byte_app. simpl. lia.
  - simpl. lia.
Qed.

Lemma print_format_count label key : 2 ≤ count_byte "," (print_format label key).
Proof.
  unfold print_format. rewrite !count_byte_app. simpl. lia.
Qed.

(** The line printed for a format of [rrdSetGraph] has its three
    fields, whatever the label, the key and the value are. *)
Lemma printed_line_count label key v :
  2 ≤ count_byte "," (fill_lf (print_format label key) v).
Proof.
  etrans; [apply (print_format_count label key)|apply fill_lf_count].
Qed.

Lemma percentile_key_free_of_percent p : free_of "%" (percentile_key p) = true.
Proof.
  unfold percentile_key. rewrite free_of_app.
  by destruct (has_fraction p); rewrite format_f_free_of.
Qed.

Lemma stat_keys_free_of_percent percentiles key :
  key ∈ stat_keys percentiles → free_of "%" key = true.
Proof.
  unfold stat_keys. rewrite elem_of_app, list_elem_of_fmap.
  intros [Hin|(p & -> & _)]; [|apply percentile_key_free_of_percent].
  repeat (apply elem_of_cons in Hin as [->|Hin]; [done|]).
  by apply elem_of_nil in Hin.
Qed.

Section round_trip.
Context `{Strconv}.

(** The statistics of the lines printed for the keys of a label. *)
Lemma parse_lines_printed label keys values :
  free_of "," label = true → free_of "%" label = true →
  Forall (λ key, free_of "," key = true ∧ free_of "%" key = true) keys →
  parse_lines (printed (map (print_format label) keys) values)
  = Ok (zip_with (λ key v, (label, key, default NaN (ParseFloat v))) keys values).
Proof.
  intros Hc Hp Hkeys. revert values.
  induction Hkeys as [|key keys [Hkc Hkp] _ IH]; intros [|v values]; try done.
  cbn [map printed zip_with]. rewrite parse_lines_cons.
  rewrite fill_lf_print_format, parse_line_stat_line by done. cbn [obind].
  unfold printed in IH. by rewrite IH.
Qed.

Lemma last_value_zip label keys values i key v :
  NoDup keys → keys !! i = Some key → values !! i = Some v →
  last_value (zip_with (λ key v, (label, key, default NaN (ParseFloat v))) keys values)
    (label, key)
  = Some (default NaN (ParseFloat v)).
Proof.
  intros Hnd. revert i values.
  induction Hnd as [|k keys Hk Hnd IH]; intros i [|v0 values] Hi Hv;
    try done; try (by destruct i).
  cbn [zip_with last_value]. destruct i as [|i]; simplify_eq/=.
  - rewrite last_value_notin, decide_True; [done..|].
    intros ([[l k'] w] & Heq & Hin)%list_elem_of_fmap.
    apply elem_of_lookup_zip_with in Hin as (j & key' & v' & Ht & Hj & _).
    apply Hk, list_elem_of_lookup. exists j. unfold stat_of in Heq. by simplify_eq/=.
  - by rewrite (IH i values).
Qed.

(** C19: every statistic [rrdSetGraph] requests for a label comes back
    under its key: when the engine prints the lines of the statistics
    block with the given values, [rrdParseInfo] succeeds and the label has,
    under each key, the value printed for it (not-a-number if the value
    does not parse), as long as the label has neither a comma nor a
    percent sign and the keys of the percentiles are distinct. *)
Theorem statistics_round_trip serieName label percentiles values data :
  free_of "," label = true → free_of "%" label = true →
  NoDup (stat_keys percentiles) →
  ∃ data',
    rrdParseInfo
      {| Print := printed (print_formats (stat_program serieName label percentiles))
                    values |} data
    = Ok data' ∧
    ∀ i key v, stat_keys percentiles !! i = Some key → values !! i = Some v →
      info_of data' (label, key) = Some (default NaN (ParseFloat v)).
Proof.
  intros Hc Hp Hnd. rewrite rrdParseInfo_spec, stat_program_prints. cbn [Print].
  rewrite parse_lines_printed; [|done..|].
  - eexists; split; [done|]. intros i key v Hkey Hv.
    by rewrite store_info_of, (last_value_zip _ _ _ i key v).
  - apply Forall_forall. intros key Hkey. split.
    + by apply (stat_keys_free_of_comma percentiles).
    + by apply (stat_keys_free_of_percent percentiles).
Qed.

End round_trip.

(** ** Witnesses and examples *)

Lemma statistics_round_trip_witness :
  ∃ data',
    @rrdParseInfo decimal_Strconv
      {| Print := printed (print_formats (stat_program "serie0" "cpu" [f64_95]))
                    ["1.5"; "2.5"; "3"; "2"; "nan"] |} ∅
    = Ok data' ∧
    ∀ i key v, stat_keys [f64_95] !! i = Some key →
      ["1.5"; "2.5"; "3"; "2"; "nan"] !! i = Some v →
      info_of data' ("cpu", key) = Some (default NaN (ParseFloat_decimal v)).
Proof.
  apply (@statistics_round_trip decimal_Strconv "serie0" "cpu" [f64_95]);
    [done..|].
  compute_decide.
Defined.

(** Two percentiles that agree in their first two decimals have the
    same key: 99.991 and 99.994 are both reported as [99.99th], and the
    result has one value for the two. *)
Example percentile_keys_collide :
  print_formats
    (Grapher.args
       (rrdSetGraph Grapher.NewGrapher "serie0" "cpu" [f64_99_991; f64_99_994]))
  = ["cpu,min,%lf"; "cpu,avg,%lf"; "cpu,max,%lf"; "cpu,last,%lf";
     "cpu,99.99th,%lf"; "cpu,99.99th,%lf"].
Proof. by vm_compute. Qed.

(** The value of the percentile printed last is the one the result keeps. *)
Example percentile_collision_last_wins :
  (let! data :=
     @rrdParseInfo decimal_Strconv
       {| Print := printed
            (print_formats
               (Grapher.args
                  (rrdSetGraph Grapher.NewGrapher "serie0" "cpu"
                     [f64_99_991; f64_99_994])))
            ["1"; "2"; "3"; "4"; "5"; "6"] |} ∅ in
   Ok (info_of data ("cpu", "99.99th")))
  = Ok (ParseFloat_decimal "6").
Proof. compute_decide. Qed.

(** A label with a percent sign changes the format: the engine reads
    the label's [%l] as the start of the conversion. *)
Example label_with_percent :
  fill_lf (print_format "load%lf" "min") "1.5" = "load1.5,min,%lf".
Proof. by vm_compute. Qed.
