(* ===== verification/PercentileKeys.v ===== *)
(** * The keys of the percentiles

    [rrdSetGraph] names the statistic of a percentile by the percentile
    itself: [%.0fth] when the percentile is a whole number, [%.2fth]
    otherwise.  The key is the only thing that tells two percentiles of a
    label apart in the result, so two percentiles must not share one.
    This file reads a key back ([key_percentile]) and shows that, for the
    percentiles from 0 to 100 in steps of a tenth, the key is the decimal
    text of the percentile and names it and no other: the keys of distinct
    percentiles are distinct, and none is the key of a summary.  The range
    is checked by evaluation, one percentile after the other; it holds
    the percentiles a configuration is likely to ask for (50, 90, 95,
    99.9), and two percentiles that agree in their first two decimals
    share a key whatever the range ([percentile_keys_collide]). *)

From Stdlib Require Import ZArith String Ascii List Lia.
From stdpp Require Import base tactics option list gmap strings.
From S2P Require Import Prelude GoStrings Float64 Rrd SetGraph.

(** ** Definitions *)

(** The float64 nearest to [n / 10]. *)
Definition tenth (n : Z) : float64 := f64_of_decimal false n 1.

(** A percentile from 0 to 100 in steps of a tenth. *)
Definition one_decimal (p : float64) : Prop :=
  ∃ n : Z, (0 ≤ n ≤ 1000)%Z ∧ p = tenth n.

(** The percentile a key names: the number before [th]. *)
Definition key_percentile (key : string) : option float64 :=
  ParseFloat_decimal (String.substring 0 (String.length key - 2) key).

(** The key of [n / 10] as a decimal text: the whole part, and the tenths
    followed by a zero when there are any. *)
Definition tenth_key (n : Z) : string :=
  Itoa (n / 10)
  +:+ (if (n mod 10 =? 0)%Z then "" else "." +:+ Itoa (n mod 10) +:+ "0")
  +:+ "th".

(** The check of one percentile: its key is the decimal text and reads
    back as the percentile. *)
Definition key_checked (i : nat) : bool :=
  let p := tenth (Z.of_nat i) in
  let key := percentile_key p in
  String.eqb key (tenth_key (Z.of_nat i))
  && bool_decide (key_percentile key = Some p).

(** The keys of the four summaries. *)
Definition summary_keys : list string := ["min"; "avg"; "max"; "last"].

(** ** Theorems *)

(** The check succeeds on the whole range. *)
Lemma keys_checked : forallb key_checked (seq 0 1001) = true.
Proof. by vm_compute. Qed.

Lemma key_checked_tenth n :
  (0 ≤ n ≤ 1000)%Z → key_checked (Z.to_nat n) = true.
Proof.
  intros Hn. apply (proj1 (forallb_forall _ _) keys_checked).
  apply list_elem_of_In, elem_of_seq. lia.
Qed.

(** The key of a percentile of the range is its decimal text: no
    decimals for a whole number, two otherwise. *)
Theorem percentile_key_tenth n :
  (0 ≤ n ≤ 1000)%Z → percentile_key (tenth n) = tenth_key n.
Proof.
  intros Hn. pose proof (key_checked_tenth n Hn) as Hc. unfold key_checked in Hc.
  rewrite Z2Nat.id in Hc by lia. apply andb_prop in Hc as [Hc _].
  by apply String.eqb_eq.
Qed.

(** The key names its percentile. *)
Theorem key_percentile_key p :
  one_decimal p → key_percentile (percentile_key p) = Some p.
Proof.
  intros (n & Hn & ->). pose proof (key_checked_tenth n Hn) as Hc.
  unfold key_checked in Hc. rewrite Z2Nat.id in Hc by lia.
  apply andb_prop in Hc as [_ Hc]. by apply bool_decide_eq_true in Hc.
Qed.

(** Distinct percentiles have distinct keys. *)
Theorem percentile_key_inj p q :
  one_decimal p → one_decimal q → percentile_key p = percentile_key q → p = q.
Proof.
  intros Hp Hq Heq. apply (inj Some).
  by rewrite <- (key_percentile_key p), <- (key_percentile_key q), Heq.
Qed.

(** The key of a percentile is not the key of a summary. *)
Lemma percentile_key_not_summary p :
  one_decimal p → percentile_key p ∉ summary_keys.
Proof.
  intros Hp Hin. pose proof (key_percentile_key p Hp) as Hk.
  unfold summary_keys in Hin.
  repeat (apply elem_of_cons in Hin as [Heq|Hin]; [by rewrite Heq in Hk|]).
  by apply elem_of_nil in Hin.
Qed.

(** The keys of a statistics block are distinct when the percentiles are
    distinct and each is a number from 0 to 100 with one decimal at
    most. *)
Theorem stat_keys_NoDup percentiles :
  NoDup percentiles → Forall one_decimal percentiles →
  NoDup (stat_keys percentiles).
Proof.
  intros Hnd Hall. unfold stat_keys. fold summary_keys.
  apply NoDup_app. split; [|split].
  - by apply (bool_decide_unpack (NoDup summary_keys)).
  - intros key Hkey (p & -> & Hp)%list_elem_of_fmap.
    apply (percentile_key_not_summary p); [|done].
    by apply (proj1 (Forall_forall _ _) Hall).
  - induction Hnd as [|p ps Hp _ IH]; [constructor|].
    apply Forall_cons in Hall as [Hone Hall]. cbn [map]. constructor; [|by apply IH].
    intros (q & Heq & Hq)%list_elem_of_fmap.
    apply percentile_key_inj in Heq; [by subst|done|].
    by apply (proj1 (Forall_forall _ _) Hall).
Qed.

(** A line names its key. *)
Lemma print_format_inj itemName key key' :
  print_format itemName key = print_format itemName key' → key = key'.
Proof.
  unfold print_format. intros Heq.
  by apply string_app_inj_l, string_app_inj_l, string_app_inj_r in Heq.
Qed.

(** C33: [rrdSetGraph] asks for no line twice when the percentiles are
    distinct and each is a number from 0 to 100 with one decimal at most:
    the lines of the four summaries and of the percentiles are pairwise
    distinct, so every statistic of a label has a key of its own in the
    result. *)
Theorem rrdSetGraph_prints_NoDup serieName itemName percentiles :
  NoDup percentiles → Forall one_decimal percentiles →
  NoDup (print_formats
           (Grapher.args
              (rrdSetGraph Grapher.NewGrapher serieName itemName percentiles))).
Proof.
  intros Hnd Hall. rewrite rrdSetGraph_args, print_formats_app, stat_program_prints.
  change (print_formats (Grapher.args Grapher.NewGrapher)) with (@nil string).
  rewrite app_nil_l.
  apply (NoDup_fmap_2_strong (print_format itemName)); [|by apply stat_keys_NoDup].
  intros key key' _ _. apply print_format_inj.
Qed.

(** ** Witnesses *)

Lemma rrdSetGraph_prints_NoDup_witness :
  NoDup (print_formats
           (Grapher.args
              (rrdSetGraph Grapher.NewGrapher "serie0" "cpu"
                 [tenth 500; tenth 950; tenth 999]))).
Proof.
  apply (rrdSetGraph_prints_NoDup "serie0" "cpu" [tenth 500; tenth 950; tenth 999]).
  - by apply (bool_decide_unpack (NoDup [tenth 500; tenth 950; tenth 999])).
  - repeat constructor; eexists; (split; [|reflexivity]); lia.
Defined.

(** The keys of 50, 95 and 99.9. *)
Example percentile_keys_50_95_99_9 :
  percentile_key <$> [tenth 500; tenth 950; tenth 999] = ["50th"; "95th"; "99.90th"].
Proof. by vm_compute. Qed.
