(* ===== verification/EngineSem.v ===== *)
(** * The engine, as a reference for what the connector's programs mean

    The engine is outside the connector's source.  This file gives the
    programs the connector builds a meaning, following the engine's
    interface: an operation defines a series from an archive ([DEF]),
    derives one from a reverse-Polish expression, row by row ([CDEF]),
    computes a statistic of a series ([VDEF]), prints one ([PRINT]) or
    marks a series as a column of the export ([XPORT]).

    The archives and the statistics are parameters: the class [Samples]
    gives the samples of a dataset for a window, the class [Statistics]
    the value of a statistic over a series and its printed form.  With
    them, [rpn_Engine] is an instance of the class [Engine] the connector
    is stated against, so that a call of [rrdGetData] can be followed from
    the query to the samples of the result.  The daemon of a builder is
    not looked at: connectivity is not modelled. *)

From Stdlib Require Import ZArith String Ascii List Lia.
From stdpp Require Import base tactics option list gmap strings.
From S2P Require Import Prelude GoStrings Float64 Rpn Rrd SetGraph ParseInfo.
From S2P Require Import StatRoundTrip.

(** ** The parameters *)

(** The window of a run: its bounds, and the step of an export. *)
Record window : Type := {
  w_start : Time;
  w_end : Time;
  w_step : option Duration
}.

(** The archives: the number of rows of a window, and the samples of a
    dataset of a file under a consolidation function, by row; [None] when
    the file or the dataset does not exist. *)
Class Samples : Type := {
  rows : window → nat;
  fetch : string → string → string → window → option (nat → float64)
}.

(** The statistics of the engine: the value of the function [fn] with its
    parameters over a series, and the text [%lf] prints for a value.  The
    four summaries and the percentile have a value on every series. *)
Class Statistics : Type := {
  statistic : string → list string → list float64 → option float64;
  print_lf : float64 → string;
  statistic_summary : ∀ fn col,
    fn ∈ ["MINIMUM"; "AVERAGE"; "MAXIMUM"; "LAST"] →
    is_Some (statistic fn [] col);
  statistic_percent : ∀ p col, is_Some (statistic "PERCENT" [p] col)
}.

(** ** The state of a run *)

Record engine_state : Type := {
  es_series : gmap string (list float64);
  es_values : gmap string float64;
  es_columns : list (string * list float64);
  es_lines : list string
}.

Definition engine_init : engine_state :=
  {| es_series := ∅; es_values := ∅; es_columns := []; es_lines := [] |}.

(** The identifier names a series or a statistic. *)
Definition defined (st : engine_state) (v : string) : bool :=
  bool_decide (is_Some (es_series st !! v)) || bool_decide (is_Some (es_values st !! v)).

Definition add_series (v : string) (col : list float64) (st : engine_state)
  : engine_state :=
  {| es_series := <[v := col]> (es_series st); es_values := es_values st;
     es_columns := es_columns st; es_lines := es_lines st |}.

Definition add_value (v : string) (x : float64) (st : engine_state)
  : engine_state :=
  {| es_series := es_series st; es_values := <[v := x]> (es_values st);
     es_columns := es_columns st; es_lines := es_lines st |}.

Definition add_column (legend : string) (col : list float64) (st : engine_state)
  : engine_state :=
  {| es_series := es_series st; es_values := es_values st;
     es_columns := es_columns st ++ [(legend, col)]; es_lines := es_lines st |}.

Definition add_line (line : string) (st : engine_state) : engine_state :=
  {| es_series := es_series st; es_values := es_values st;
     es_columns := es_columns st; es_lines := es_lines st ++ [line] |}.

(** The values of the series at a row. *)
Definition row_of (series : gmap string (list float64)) (r : nat) : row_env :=
  λ x, series !! x ≫= (.!! r).

(** A derived series: the expression evaluated at every row. *)
Definition derive (n : nat) (series : gmap string (list float64))
    (toks : list token) : outcome (list float64) :=
  mapM (λ r, rpn_eval (row_of series r) toks) (seq 0 n).

(** The expression of a statistic: the series, the parameters and the
    function. *)
Definition vdef_fields (rpn : string) : option (string * list string * string) :=
  match rpn_fields rpn with
  | [x; fn] => Some (x, [], fn)
  | [x; p; fn] => Some (x, [p], fn)
  | _ => None
  end.

Section run.
Context `{Samples} `{Statistics}.

(** One operation.  An identifier is defined once. *)
Definition run_arg (w : window) (st : engine_state) (a : rrd_arg)
  : outcome engine_state :=
  match a with
  | DEF v file ds cf =>
      if defined st v then Err ("duplicate variable `" +:+ v +:+ "'")
      else
        match fetch file ds cf w with
        | Some f => Ok (add_series v (map f (seq 0 (rows w))) st)
        | None => Err ("opening `" +:+ file +:+ "': No such file or directory")
        end
  | CDEF v rpn =>
      if defined st v then Err ("duplicate variable `" +:+ v +:+ "'")
      else
        let! col := derive (rows w) (es_series st) (tokens_of rpn) in
        Ok (add_series v col st)
  | VDEF v rpn =>
      if defined st v then Err ("duplicate variable `" +:+ v +:+ "'")
      else
        match vdef_fields rpn with
        | Some (x, params, fn) =>
            match es_series st !! x with
            | Some col =>
                match statistic fn params col with
                | Some val => Ok (add_value v val st)
                | None => Err ("invalid statistic `" +:+ rpn +:+ "'")
                end
            | None => Err ("unknown variable `" +:+ x +:+ "'")
            end
        | None => Err ("invalid statistic `" +:+ rpn +:+ "'")
        end
  | PRINT v format =>
      match es_values st !! v with
      | Some val => Ok (add_line (fill_lf format (print_lf val)) st)
      | None => Err ("unknown variable `" +:+ v +:+ "'")
      end
  | XPORT v legend =>
      match es_series st !! v with
      | Some col => Ok (add_column legend col st)
      | None => Err ("unknown variable `" +:+ v +:+ "'")
      end
  end.

Definition run_program (w : window) (prog : list rrd_arg) (st : engine_state)
  : outcome engine_state :=
  foldM (run_arg w) prog st.

(** The table of an export: the legends of the columns, and the values
    row by row. *)
Definition table_of (n : nat) (columns : list (string * list float64))
  : XportResult :=
  {| Legends := columns.*1;
     RowCnt := Z.of_nat n;
     values :=
       Some (concat (map (λ r, map (λ c, default NaN (c.2 !! r)) columns)
                       (seq 0 n))) |}.

(** The window of an export, which has a step, and of a graph run, which
    has none. *)
Definition xport_window (startTime endTime : Time) (step : Duration) : window :=
  {| w_start := startTime; w_end := endTime; w_step := Some step |}.

Definition graph_window (startTime endTime : Time) : window :=
  {| w_start := startTime; w_end := endTime; w_step := None |}.

Definition rpn_Xport (xport : Exporter.t) (startTime endTime : Time)
    (step : Duration) : outcome XportResult :=
  let w := xport_window startTime endTime step in
  let! st := run_program w (Exporter.args xport) engine_init in
  Ok (table_of (rows w) (es_columns st)).

Definition rpn_Graph (graph : Grapher.t) (startTime endTime : Time)
  : outcome GraphInfo :=
  let w := graph_window startTime endTime in
  let! st := run_program w (Grapher.args graph) engine_init in
  Ok {| Print := es_lines st |}.

(** The engine of these archives and statistics. *)
Definition rpn_Engine : Engine := {| Xport := rpn_Xport; Graph := rpn_Graph |}.

End run.

(** Every series and every column of a run has one value per row. *)
Record engine_inv (n : nat) (st : engine_state) : Prop := {
  inv_series : map_Forall (λ _ col, length col = n) (es_series st);
  inv_columns : Forall (λ c, length c.2 = n) (es_columns st)
}.

(** ** Rows *)

Lemma derive_length n series toks col :
  derive n series toks = Ok col → length col = n.
Proof. intros Hd. apply mapM_length in Hd. by rewrite Hd, length_seq. Qed.

(** A derived series, row by row. *)
Lemma derive_rows n series toks (f : nat → float64) :
  (∀ r, r < n → rpn_eval (row_of series r) toks = Ok (f r)) →
  derive n series toks = Ok (map f (seq 0 n)).
Proof.
  intros Hrow. unfold derive. apply mapM_total.
  intros r Hr%elem_of_seq. apply Hrow. lia.
Qed.

Lemma engine_inv_init n : engine_inv n engine_init.
Proof. split; [apply map_Forall_empty|constructor]. Qed.

Lemma engine_inv_add_series n v col st :
  engine_inv n st → length col = n → engine_inv n (add_series v col st).
Proof. intros [Hs Hc] Hlen. split; [by apply map_Forall_insert_2|done]. Qed.

Lemma engine_inv_add_column n legend col st :
  engine_inv n st → length col = n → engine_inv n (add_column legend col st).
Proof.
  intros [Hs Hc] Hlen. split; [done|].
  apply Forall_app; split; [done|]. by constructor.
Qed.

Section run_lemmas.
Context `{Samples} `{Statistics}.

Lemma run_program_app w prog1 prog2 st :
  run_program w (prog1 ++ prog2) st
  = let! st' := run_program w prog1 st in run_program w prog2 st'.
Proof. apply foldM_app. Qed.

Lemma run_program_cons w a prog st :
  run_program w (a :: prog) st
  = let! st' := run_arg w st a in run_program w prog st'.
Proof. reflexivity. Qed.

Lemma run_arg_inv w st a st' :
  engine_inv (rows w) st → run_arg w st a = Ok st' → engine_inv (rows w) st'.
Proof.
  intros Hinv. destruct a; simpl; repeat case_match; try done;
    try (intros [= <-]); try (by destruct Hinv).
  - apply engine_inv_add_series; [done|]. by rewrite length_map, length_seq.
  - intros (col & Hcol & [= <-])%obind_Ok_inv.
    apply engine_inv_add_series; [done|]. by apply derive_length in Hcol.
  - apply engine_inv_add_column; [done|]. by eapply (inv_series _ _ Hinv).
Qed.

Lemma run_program_inv w prog st st' :
  engine_inv (rows w) st → run_program w prog st = Ok st' →
  engine_inv (rows w) st'.
Proof.
  intros Hinv Hrun.
  eapply (foldM_invariant (engine_inv (rows w))); [done| |done].
  intros s a s' _ Hs. by apply run_arg_inv.
Qed.

(** The engine never panics: an operation, and so a run, ends in a state
    or in an error. *)
Lemma derive_no_panic n series toks p : derive n series toks ≠ Panic p.
Proof. apply mapM_no_panic. intros r _. apply rpn_eval_no_panic. Qed.

Lemma run_arg_no_panic w st a p : run_arg w st a ≠ Panic p.
Proof.
  destruct a; simpl; repeat case_match; try done.
  pose proof (derive_no_panic (rows w) (es_series st) (tokens_of rpn) p) as Hd.
  destruct (derive _ _ _); simpl; congruence.
Qed.

Lemma run_program_no_panic w prog st p : run_program w prog st ≠ Panic p.
Proof. apply foldM_no_panic. intros; apply run_arg_no_panic. Qed.

(** An export ends in the table of the columns of its run, or in the
    error of the run; a graph run in the lines of its run, or in the
    error. *)
Lemma rpn_Xport_cases xport startTime endTime step :
  let w := xport_window startTime endTime step in
  match run_program w (Exporter.args xport) engine_init with
  | Ok st => rpn_Xport xport startTime endTime step
             = Ok (table_of (rows w) (es_columns st))
  | Err e => rpn_Xport xport startTime endTime step = Err e
  | Panic _ => False
  end.
Proof.
  intros w. unfold rpn_Xport. fold w.
  pose proof (run_program_no_panic w (Exporter.args xport) engine_init) as Hp.
  destruct (run_program _ _ _); [done..|by eapply Hp].
Qed.

Lemma rpn_Graph_cases graph startTime endTime :
  let w := graph_window startTime endTime in
  match run_program w (Grapher.args graph) engine_init with
  | Ok st => rpn_Graph graph startTime endTime = Ok {| Print := es_lines st |}
  | Err e => rpn_Graph graph startTime endTime = Err e
  | Panic _ => False
  end.
Proof.
  intros w. unfold rpn_Graph. fold w.
  pose proof (run_program_no_panic w (Grapher.args graph) engine_init) as Hp.
  destruct (run_program _ _ _); [done..|by eapply Hp].
Qed.

End run_lemmas.

(** ** The table of an export *)

Lemma length_concat_rows {A B C : Type} (h : A → B → C) (l : list A) (cs : list B) :
  length (concat (map (λ r, map (h r) cs) l)) = length cs * length l.
Proof.
  induction l as [|r l IH]; simpl; [lia|].
  rewrite length_app, length_map, IH. lia.
Qed.

(** The table has a value for every legend and row. *)
Lemma table_of_wf n columns : XportResult_wf (table_of n columns).
Proof.
  split; [simpl; lia|]. eexists; split; [done|].
  simpl. by rewrite Nat2Z.id, length_fmap, length_concat_rows, length_seq.
Qed.

Lemma lookup_concat_rows {A B C : Type} (h : A → B → C) (l : list A)
    (cs : list B) (j i : nat) (a : A) (b : B) :
  l !! j = Some a → cs !! i = Some b →
  concat (map (λ r, map (h r) cs) l) !! (length cs * j + i) = Some (h a b).
Proof.
  intros Hj Hi. revert j Hj; induction l as [|a' l IH]; intros j Hj; [done|].
  pose proof (lookup_lt_Some _ _ _ Hi) as Hlt.
  destruct j as [|j]; simpl in *.
  - simplify_eq. rewrite Nat.mul_0_r, Nat.add_0_l.
    rewrite lookup_app_l by (by rewrite length_map).
    by rewrite list_lookup_fmap, Hi.
  - rewrite lookup_app_r by (rewrite length_map; lia).
    rewrite length_map. rewrite <- (IH j Hj). f_equal. lia.
Qed.

(** The value of the table at a legend and a row is the value of the
    column at the row. *)
Lemma table_of_lookup n columns i legend col r :
  columns !! i = Some (legend, col) → r < n →
  default [] (values (table_of n columns))
    !! (length (Legends (table_of n columns)) * r + i)
  = Some (default NaN (col !! r)).
Proof.
  intros Hi Hr. simpl. rewrite length_fmap.
  apply (lookup_concat_rows (λ r c, default NaN (c.2 !! r)) _ _ r i r (legend, col));
    [by apply lookup_seq_lt|done].
Qed.
