(* ===== verification/ProgramWf.v ===== *)
(** * Well-formed programs

    The engine refuses a program that defines an identifier twice, that
    uses an identifier before its definition, whose expressions do not
    leave exactly one value, or that names a file it cannot open.  This
    file states those conditions as a check that runs without the engine
    ([wf_program]) and proves that a program that passes the check runs to
    its end on the engine of [EngineSem]. *)

From Stdlib Require Import ZArith String Ascii List Lia.
From stdpp Require Import base tactics option list gmap strings.
From S2P Require Import Prelude GoStrings Float64 Rpn Rrd SetGraph ParseInfo.
From S2P Require Import StatRoundTrip EngineSem.

(** ** Scopes *)

(** The identifiers in scope: those of series and those of statistics. *)
Record scope : Type := {
  sc_series : gset string;
  sc_values : gset string
}.

Definition scope_empty : scope := {| sc_series := ∅; sc_values := ∅ |}.

Definition scope_of (st : engine_state) : scope :=
  {| sc_series := dom (es_series st); sc_values := dom (es_values st) |}.

Definition in_scope (sc : scope) (v : string) : bool :=
  bool_decide (v ∈ sc_series sc) || bool_decide (v ∈ sc_values sc).

Definition bind_series (v : string) (sc : scope) : scope :=
  {| sc_series := {[v]} ∪ sc_series sc; sc_values := sc_values sc |}.

Definition bind_value (v : string) (sc : scope) : scope :=
  {| sc_series := sc_series sc; sc_values := {[v]} ∪ sc_values sc |}.

(** The statistics every engine has: the four summaries, without
    parameter, and the percentile, with one. *)
Definition known_statistic (fn : string) (params : list string) : bool :=
  match params with
  | [] => bool_decide (fn ∈ ["MINIMUM"; "AVERAGE"; "MAXIMUM"; "LAST"])
  | [_] => bool_decide (fn = "PERCENT")
  | _ => false
  end.

Section check.
Context `{Samples} (w : window).

(** What an operation uses is in scope; the scope after it. *)
Definition check_arg (sc : scope) (a : rrd_arg) : option scope :=
  match a with
  | DEF v file ds cf =>
      if bool_decide (is_Some (fetch file ds cf w)) then Some (bind_series v sc)
      else None
  | CDEF v rpn =>
      if rpn_wf (λ x, bool_decide (x ∈ sc_series sc)) (tokens_of rpn)
      then Some (bind_series v sc) else None
  | VDEF v rpn =>
      match vdef_fields rpn with
      | Some (x, params, fn) =>
          if bool_decide (x ∈ sc_series sc) && known_statistic fn params
          then Some (bind_value v sc) else None
      | None => None
      end
  | PRINT v _ => if bool_decide (v ∈ sc_values sc) then Some sc else None
  | XPORT v _ => if bool_decide (v ∈ sc_series sc) then Some sc else None
  end.

Fixpoint check_uses (sc : scope) (prog : list rrd_arg) : option scope :=
  match prog with
  | [] => Some sc
  | a :: prog' => check_arg sc a ≫= λ sc', check_uses sc' prog'
  end.

(** A well-formed program: no identifier is defined twice or is in scope
    already, and every operation uses what was defined before it. *)
Definition wf_program (sc : scope) (prog : list rrd_arg) : bool :=
  bool_decide (NoDup (omap defines prog))
  && forallb (λ v, negb (in_scope sc v)) (omap defines prog)
  && bool_decide (is_Some (check_uses sc prog)).

End check.

(** One scope has every identifier of another. *)
Definition scope_le (sc sc' : scope) : Prop :=
  sc_series sc ⊆ sc_series sc' ∧ sc_values sc ⊆ sc_values sc'.

(** ** Scopes of states *)

Lemma scope_eq (sc sc' : scope) :
  sc_series sc = sc_series sc' → sc_values sc = sc_values sc' → sc = sc'.
Proof. destruct sc, sc'; simpl; by intros -> ->. Qed.

Lemma defined_in_scope st v : defined st v = in_scope (scope_of st) v.
Proof.
  unfold defined, in_scope, scope_of; simpl.
  f_equal; apply bool_decide_ext; by rewrite elem_of_dom.
Qed.

Lemma scope_of_add_series v col st :
  scope_of (add_series v col st) = bind_series v (scope_of st).
Proof. apply scope_eq; simpl; [apply dom_insert_L|done]. Qed.

Lemma scope_of_add_value v x st :
  scope_of (add_value v x st) = bind_value v (scope_of st).
Proof. apply scope_eq; simpl; [done|apply dom_insert_L]. Qed.

Lemma in_scope_bind_series sc v v' :
  in_scope (bind_series v sc) v' = bool_decide (v' = v) || in_scope sc v'.
Proof.
  unfold in_scope, bind_series; simpl. rewrite orb_assoc. f_equal.
  apply eq_true_iff_eq.
  rewrite orb_true_iff, !bool_decide_eq_true, elem_of_union, elem_of_singleton.
  tauto.
Qed.

Lemma in_scope_bind_value sc v v' :
  in_scope (bind_value v sc) v' = bool_decide (v' = v) || in_scope sc v'.
Proof.
  unfold in_scope, bind_value; simpl.
  apply eq_true_iff_eq.
  rewrite !orb_true_iff, !bool_decide_eq_true, elem_of_union, elem_of_singleton.
  tauto.
Qed.

(** ** The check, operation by operation *)

#[export] Instance scope_le_preorder : PreOrder scope_le.
Proof.
  split; [by intros sc; split|].
  intros sc1 sc2 sc3 [? ?] [? ?]. split; by etrans.
Qed.

Lemma scope_le_bind_series v sc sc' :
  scope_le sc sc' → scope_le (bind_series v sc) (bind_series v sc').
Proof. intros [Hs Hv]. split; simpl; [by apply union_mono_l|done]. Qed.

Lemma scope_le_bind_value v sc sc' :
  scope_le sc sc' → scope_le (bind_value v sc) (bind_value v sc').
Proof. intros [Hs Hv]. split; simpl; [done|by apply union_mono_l]. Qed.

Section check_lemmas.
Context `{Samples} (w : window).

Lemma check_uses_app sc prog1 prog2 :
  check_uses w sc (prog1 ++ prog2)
  = check_uses w sc prog1 ≫= λ sc1, check_uses w sc1 prog2.
Proof.
  revert sc; induction prog1 as [|a prog1 IH]; intros sc; [done|].
  simpl. destruct (check_arg w sc a) as [sc1|]; [apply IH|done].
Qed.

(** An operation only adds to the scope. *)
Lemma check_arg_le sc a sc' : check_arg w sc a = Some sc' → scope_le sc sc'.
Proof.
  destruct a; simpl; repeat case_match; intros; simplify_eq; try done;
    split; simpl; try done; apply union_subseteq_r.
Qed.

Lemma check_uses_le sc prog sc' : check_uses w sc prog = Some sc' → scope_le sc sc'.
Proof.
  revert sc; induction prog as [|a prog IH]; intros sc; simpl; [by intros [= <-]|].
  destruct (check_arg w sc a) as [sc1|] eqn:Ha; [|done]. simpl. intros Hp.
  etrans; [by eapply check_arg_le|by apply IH].
Qed.

(** What is accepted in a scope is accepted in a larger one. *)
Lemma check_arg_mono sc1 sc2 a sc1' :
  scope_le sc1 sc2 → check_arg w sc1 a = Some sc1' →
  ∃ sc2', check_arg w sc2 a = Some sc2' ∧ scope_le sc1' sc2'.
Proof.
  intros Hle. pose proof Hle as [Hs Hv].
  destruct a as [v f ds cf|v rpn|v rpn|v fmt|v l]; simpl.
  - case_bool_decide; [|done]. intros [= <-].
    eexists; split; [done|]. by apply scope_le_bind_series.
  - destruct (rpn_wf _ _) eqn:Hwf; [|done]. intros [= <-].
    erewrite rpn_wf_mono; [| |exact Hwf].
    + eexists; split; [done|]. by apply scope_le_bind_series.
    + intros x Hx%bool_decide_eq_true. apply bool_decide_eq_true. by apply Hs.
  - destruct (vdef_fields rpn) as [[[x params] fn]|]; [|done].
    destruct (bool_decide (x ∈ sc_series sc1)) eqn:Hx; [|done].
    apply bool_decide_eq_true, Hs in Hx. rewrite (bool_decide_eq_true_2 _ Hx).
    simpl. destruct (known_statistic fn params); [|done]. intros [= <-].
    eexists; split; [done|]. by apply scope_le_bind_value.
  - case_bool_decide as Hin; [|done]. intros [= <-].
    rewrite bool_decide_eq_true_2 by (by apply Hv). by eexists.
  - case_bool_decide as Hin; [|done]. intros [= <-].
    rewrite bool_decide_eq_true_2 by (by apply Hs). by eexists.
Qed.

Lemma check_uses_mono sc1 sc2 prog sc1' :
  scope_le sc1 sc2 → check_uses w sc1 prog = Some sc1' →
  ∃ sc2', check_uses w sc2 prog = Some sc2' ∧ scope_le sc1' sc2'.
Proof.
  revert sc1 sc2; induction prog as [|a prog IH]; intros sc1 sc2 Hle; simpl.
  - intros [= <-]. by eexists.
  - destruct (check_arg w sc1 a) as [sc|] eqn:Ha; [|done]. simpl. intros Hp.
    destruct (check_arg_mono sc1 sc2 a sc Hle Ha) as (sc' & -> & Hle').
    simpl. by eapply IH.
Qed.

(** The series a program defines are in scope after it. *)
Lemma check_uses_series sc prog sc' a v :
  check_uses w sc prog = Some sc' → a ∈ prog → defines a = Some v →
  (∀ rpn, a ≠ VDEF v rpn) → v ∈ sc_series sc'.
Proof.
  revert sc; induction prog as [|b prog IH]; intros sc Hcheck Hin Hdef Hser.
  - by apply elem_of_nil in Hin.
  - simpl in Hcheck. destruct (check_arg w sc b) as [sc1|] eqn:Hb; [|done].
    apply elem_of_cons in Hin as [<-|Hin]; [|by eapply IH].
    apply check_uses_le in Hcheck as [Hs _]. apply Hs.
    destruct a; simpl in *; repeat case_match; simplify_eq;
      try (by destruct (Hser rpn)); simpl; apply elem_of_union_l;
      by apply elem_of_singleton.
Qed.

(** Blocks that are each accepted in every scope with a property that
    larger scopes keep are accepted one after the other. *)
Lemma check_uses_blocks (P : scope → Prop) (blocks : list (list rrd_arg)) sc :
  (∀ sc1 sc2, P sc1 → scope_le sc1 sc2 → P sc2) →
  Forall (λ b, ∀ sc1, P sc1 → is_Some (check_uses w sc1 b)) blocks →
  P sc → is_Some (check_uses w sc (concat blocks)).
Proof.
  intros Hmono Hblocks. revert sc.
  induction Hblocks as [|b blocks Hb _ IH]; intros sc HP; [by eexists|].
  cbn [concat]. rewrite check_uses_app.
  destruct (Hb sc HP) as [sc1 Hsc1]. rewrite Hsc1. simpl.
  apply IH, (Hmono sc); [done|]. by eapply check_uses_le.
Qed.

End check_lemmas.

(** ** A well-formed program runs *)

Section soundness.
Context `{Samples} `{Statistics} (w : window).

(** Every series in scope has a value at every row. *)
Lemma row_of_is_Some st r x :
  engine_inv (rows w) st → r < rows w → x ∈ dom (es_series st) →
  is_Some (row_of (es_series st) r x).
Proof.
  intros Hinv Hr [col Hcol]%elem_of_dom. unfold row_of. rewrite Hcol. simpl.
  apply lookup_lt_is_Some. by rewrite (inv_series _ _ Hinv _ _ Hcol).
Qed.

Lemma derive_wf st toks :
  engine_inv (rows w) st →
  rpn_wf (λ x, bool_decide (x ∈ dom (es_series st))) toks = true →
  ∃ col, derive (rows w) (es_series st) toks = Ok col.
Proof.
  intros Hinv Hwf. unfold derive.
  assert (∀ r, r ∈ seq 0 (rows w) →
            ∃ v, rpn_eval (row_of (es_series st) r) toks = Ok v) as Hrows.
  { intros r Hr%elem_of_seq. apply (rpn_wf_eval _ _ _ Hwf).
    intros x Hx%bool_decide_eq_true. apply row_of_is_Some; [done|lia|done]. }
  induction (seq 0 (rows w)) as [|r rs IH]; [by eexists|].
  destruct (Hrows r) as [v Hv]; [by left|].
  destruct IH as [col Hcol]; [intros; apply Hrows; by right|].
  exists (v :: col). simpl. by rewrite Hv, Hcol.
Qed.

Lemma known_statistic_is_Some fn params col :
  known_statistic fn params = true → is_Some (statistic fn params col).
Proof.
  destruct params as [|p [|? ?]]; simpl; [| |done].
  - intros Hfn%bool_decide_eq_true. by apply statistic_summary.
  - intros ->%bool_decide_eq_true. apply statistic_percent.
Qed.

(** One operation: what the check accepts, the engine runs, and the scope
    of its state is the scope the check computes. *)
Lemma run_arg_checked st a sc' :
  engine_inv (rows w) st →
  check_arg w (scope_of st) a = Some sc' →
  (∀ v, defines a = Some v → in_scope (scope_of st) v = false) →
  ∃ st', run_arg w st a = Ok st' ∧ scope_of st' = sc'.
Proof.
  intros Hinv Hcheck Hfresh. destruct a as [v f ds cf|v rpn|v rpn|v fmt|v l];
    simpl in *; rewrite ?defined_in_scope, ?(Hfresh _ eq_refl).
  - case_bool_decide as Hf; [|done]. destruct Hf as [g ->]. simplify_eq.
    eexists; split; [done|]. apply scope_of_add_series.
  - destruct (rpn_wf _ _) eqn:Hwf; [|done]. simplify_eq.
    destruct (derive_wf st (tokens_of rpn) Hinv Hwf) as [col ->].
    eexists; split; [done|]. apply scope_of_add_series.
  - destruct (vdef_fields rpn) as [[[x params] fn]|]; [|done].
    destruct (bool_decide _ && _) eqn:Hok; [|done]. simplify_eq.
    apply andb_prop in Hok as [[col ->]%bool_decide_eq_true%elem_of_dom Hfn].
    destruct (known_statistic_is_Some fn params col Hfn) as [val ->].
    eexists; split; [done|]. apply scope_of_add_value.
  - case_bool_decide as Hv; [|done]. simplify_eq.
    apply elem_of_dom in Hv as [val ->]. by eexists.
  - case_bool_decide as Hv; [|done]. simplify_eq.
    apply elem_of_dom in Hv as [col ->]. by eexists.
Qed.

(** The scope after an operation: the identifier it defines joins it. *)
Lemma check_arg_scope sc a sc' v' :
  check_arg w sc a = Some sc' →
  in_scope sc' v' = bool_decide (defines a = Some v') || in_scope sc v'.
Proof.
  destruct a as [v f ds cf|v rpn|v rpn|v fmt|v l]; simpl;
    repeat case_match; intros; simplify_eq;
    rewrite ?in_scope_bind_series, ?in_scope_bind_value; try done;
    f_equal; apply bool_decide_ext; naive_solver.
Qed.

Lemma check_uses_runs prog st sc' :
  engine_inv (rows w) st →
  NoDup (omap defines prog) →
  Forall (λ v, in_scope (scope_of st) v = false) (omap defines prog) →
  check_uses w (scope_of st) prog = Some sc' →
  ∃ st', run_program w prog st = Ok st' ∧ scope_of st' = sc'.
Proof.
  revert st; induction prog as [|a prog IH]; intros st Hinv Hnd Hfresh Hcheck.
  - simpl in *. simplify_eq. by eexists.
  - cbn [check_uses] in Hcheck.
    destruct (check_arg w (scope_of st) a) as [sc1|] eqn:Ha; [|done].
    destruct (run_arg_checked st a sc1 Hinv Ha) as (st1 & Hrun & Hsc1).
    { intros v Hv. cbn [omap list_omap] in Hfresh. rewrite Hv in Hfresh.
      by apply Forall_cons in Hfresh as [? _]. }
    rewrite run_program_cons, Hrun. cbn [obind]. subst sc1.
    apply IH; [by eapply run_arg_inv| | |done];
      cbn [omap list_omap] in Hnd, Hfresh;
      destruct (defines a) as [v|] eqn:Hdef.
    + by apply NoDup_cons in Hnd as [_ ?].
    + done.
    + apply NoDup_cons in Hnd as [Hv _]. apply Forall_cons in Hfresh as [_ Hfresh].
      apply Forall_forall. intros v' Hv'.
      rewrite (check_arg_scope _ _ _ _ Ha), Hdef, (proj1 (Forall_forall _ _) Hfresh _ Hv').
      rewrite bool_decide_eq_false_2; [done|]. by intros [= ->].
    + apply Forall_forall. intros v' Hv'.
      rewrite (check_arg_scope _ _ _ _ Ha), Hdef, (proj1 (Forall_forall _ _) Hfresh _ Hv').
      by rewrite bool_decide_eq_false_2.
Qed.

Lemma wf_program_runs_from prog st :
  engine_inv (rows w) st →
  wf_program w (scope_of st) prog = true →
  ∃ st', run_program w prog st = Ok st'.
Proof.
  unfold wf_program. rewrite !andb_true_iff, !bool_decide_eq_true.
  rewrite <- (Is_true_true (forallb _ _)), forallb_True.
  intros Hinv [[Hnd Hfresh] [sc' Hcheck]].
  destruct (check_uses_runs prog st sc' Hinv Hnd) as (st' & Hrun & _);
    [|done|by eexists].
  eapply Forall_impl; [done|]. intros v Hv. simpl in Hv.
  by apply Is_true_true, negb_true_iff in Hv.
Qed.

End soundness.

Section engine.
Context `{Samples} `{Statistics}.

Lemma scope_of_init : scope_of engine_init = scope_empty.
Proof. apply scope_eq; simpl; by rewrite dom_empty_L. Qed.

(** A well-formed program runs from the initial state. *)
Lemma run_wf_program (w : window) (prog : list rrd_arg) :
  wf_program w scope_empty prog = true →
  ∃ st, run_program w prog engine_init = Ok st.
Proof.
  intros Hwf. apply wf_program_runs_from; [apply engine_inv_init|].
  by rewrite scope_of_init.
Qed.

(** A well-formed program runs: when no identifier is defined twice,
    every operation uses only identifiers defined before it, every
    expression leaves exactly one value and every file can be opened, the
    engine runs the program to its end without error: an export returns a
    table that has a value for every legend and row, and a graph run
    returns its lines. *)
Theorem wf_program_runs (xport : Exporter.t) (graph : Grapher.t)
    (startTime endTime : Time) (step : Duration) :
  (wf_program (xport_window startTime endTime step) scope_empty
     (Exporter.args xport) = true →
   ∃ data, rpn_Xport xport startTime endTime step = Ok data ∧ XportResult_wf data)
  ∧ (wf_program (graph_window startTime endTime) scope_empty
       (Grapher.args graph) = true →
     ∃ info, rpn_Graph graph startTime endTime = Ok info).
Proof.
  split; intros [st Hst]%run_wf_program.
  - unfold rpn_Xport. rewrite Hst. eexists; split; [done|apply table_of_wf].
  - unfold rpn_Graph. rewrite Hst. by eexists.
Qed.

End engine.
