(* ===== verification/GetData.v ===== *)
(** * rrdGetData: a group query compiled, run and merged

    [rrdGetData] turns a group query into two engine programs that are
    built side by side: a graph program, which carries the statistics
    requests of [rrdSetGraph], and an export program, which marks each final
    identifier as an output column and is built only when samples are
    asked for.  It then runs the export, copies each column into the result
    of the label the column's identifier stands for, runs the graph
    program and hands the printed lines to [rrdParseInfo]. *)

From Stdlib Require Import ZArith String Ascii List Lia.
From stdpp Require Import base tactics option list gmap strings.
From S2P Require Import Prelude GoStrings Float64 Rrd SetGraph Connector.
From S2P Require Import ParseInfo.

(** ** Compilation *)

(** The variables the compilation loops update. [cs_xport] is [None] for
    the nil exporter of a statistics-only call. *)
Record compile_state : Type := {
  cs_graph : Grapher.t;
  cs_xport : option Exporter.t;
  cs_series : gmap string string;
  cs_stack : list string;
  cs_count : nat
}.

(** The expression of a scaling step: [src,scale,*] for a scale that is
    not zero, [src] itself otherwise. *)
Definition scaled (src : string) (scale : float64) : string :=
  if f64_neqb scale f64_zero then src +:+ "," +:+ format_f 6 scale +:+ ",*"
  else src.

(** A block that is guarded by [if !infoOnly]. *)
Definition on_xport (infoOnly : bool) (f : Exporter.t → Exporter.t)
    (xport : option Exporter.t) : option Exporter.t :=
  if infoOnly then xport else f <$> xport.

(** The body of the loop of a group without operator. *)
Definition none_body (connector : RRDConnector) (query : GroupQuery)
    (percentiles : list float64) (infoOnly : bool)
    (st : compile_state) (serie : SerieQuery) : outcome compile_state :=
  match sq_Metric serie with
  | None => Ok st
  | Some m =>
      let serieTemp := "serie" +:+ Itoa_nat (cs_count st) in
      let serieName := sq_Name serie in
      let count := S (cs_count st) in
      let! metric := metric_of connector m in
      let graph :=
        Grapher.Def (serieTemp +:+ "-orig0") (FilePath metric) (Dataset metric)
          "AVERAGE" (cs_graph st) in
      let graph :=
        Grapher.CDef (serieTemp +:+ "-orig1")
          (scaled (serieTemp +:+ "-orig0") (sq_Scale serie)) graph in
      let graph :=
        Grapher.CDef serieTemp
          (scaled (serieTemp +:+ "-orig1") (gq_Scale query)) graph in
      let graph := rrdSetGraph graph serieTemp serieName percentiles in
      let xport :=
        on_xport infoOnly (λ xport,
          let xport :=
            Exporter.Def (serieTemp +:+ "-orig0") (FilePath metric)
              (Dataset metric) "AVERAGE" xport in
          let xport :=
            Exporter.CDef (serieTemp +:+ "-orig1")
              (scaled (serieTemp +:+ "-orig0") (sq_Scale serie)) xport in
          let xport :=
            Exporter.CDef serieTemp
              (scaled (serieTemp +:+ "-orig1") (gq_Scale query)) xport in
          Exporter.XportDef serieTemp serieTemp xport) (cs_xport st) in
      Ok {| cs_graph := graph; cs_xport := xport;
            cs_series := <[serieTemp := serieName]> (cs_series st);
            cs_stack := cs_stack st; cs_count := count |}
  end.

(** The body of the loop of a sum or an average. *)
Definition agg_body (connector : RRDConnector) (infoOnly : bool)
    (serieName : string) (st : compile_state) (index : nat) (serie : SerieQuery)
  : outcome compile_state :=
  match sq_Metric serie with
  | None => Ok st
  | Some m =>
      let serieTemp := serieName +:+ "-tmp" +:+ Itoa_nat index in
      let! metric := metric_of connector m in
      let graph :=
        Grapher.Def (serieTemp +:+ "-ori") (FilePath metric) (Dataset metric)
          "AVERAGE" (cs_graph st) in
      let graph :=
        Grapher.CDef serieTemp
          (serieTemp +:+ "-ori,UN,0," +:+ serieTemp +:+ "-ori,IF") graph in
      let xport :=
        on_xport infoOnly (λ xport,
          let xport :=
            Exporter.Def (serieTemp +:+ "-ori") (FilePath metric)
              (Dataset metric) "AVERAGE" xport in
          Exporter.CDef serieTemp
            (serieTemp +:+ "-ori,UN,0," +:+ serieTemp +:+ "-ori,IF") xport)
          (cs_xport st) in
      let stack :=
        if (length (cs_stack st) =? 0)%nat then cs_stack st ++ [serieTemp]
        else cs_stack st ++ [serieTemp; "+"] in
      Ok {| cs_graph := graph; cs_xport := xport;
            cs_series := cs_series st;
            cs_stack := stack; cs_count := cs_count st |}
  end.

(** The state before the switch: fresh builders, with the daemon set when
    the connector has one. *)
Definition compile_init (connector : RRDConnector) (infoOnly : bool)
  : compile_state :=
  let graph := Grapher.NewGrapher in
  let graph :=
    if decide (Daemon connector ≠ "") then Grapher.SetDaemon (Daemon connector) graph
    else graph in
  let xport :=
    if infoOnly then None
    else
      let xport := Exporter.NewExporter in
      Some (if decide (Daemon connector ≠ "")
            then Exporter.SetDaemon (Daemon connector) xport else xport) in
  {| cs_graph := graph; cs_xport := xport; cs_series := ∅;
     cs_stack := []; cs_count := 0 |}.

(** What follows the loop of a sum or an average. *)
Definition agg_finish (query : GroupQuery) (percentiles : list float64)
    (infoOnly : bool) (serieName : string) (st : compile_state) : compile_state :=
  let stack :=
    match gq_Type query with
    | OperGroupTypeAvg =>
        cs_stack st ++ [Itoa_nat (length (gq_Series query)); "/"]
    | _ => cs_stack st
    end in
  let graph :=
    Grapher.CDef (serieName +:+ "-orig") (Join stack ",") (cs_graph st) in
  let graph :=
    Grapher.CDef serieName (scaled (serieName +:+ "-orig") (gq_Scale query)) graph in
  let graph := rrdSetGraph graph serieName (gq_Name query) percentiles in
  let xport :=
    on_xport infoOnly (λ xport,
      let xport := Exporter.CDef (serieName +:+ "-orig") (Join stack ",") xport in
      let xport :=
        Exporter.CDef serieName
          (scaled (serieName +:+ "-orig") (gq_Scale query)) xport in
      Exporter.XportDef serieName serieName xport) (cs_xport st) in
  {| cs_graph := graph; cs_xport := xport;
     cs_series := <[serieName := gq_Name query]> (cs_series st);
     cs_stack := stack; cs_count := cs_count st |}.

(** The case of a sum or an average. *)
Definition compile_agg (connector : RRDConnector) (query : GroupQuery)
    (percentiles : list float64) (infoOnly : bool) (st : compile_state)
  : outcome compile_state :=
  let serieName := "serie" +:+ Itoa_nat (cs_count st) in
  let st :=
    {| cs_graph := cs_graph st; cs_xport := cs_xport st;
       cs_series := cs_series st; cs_stack := cs_stack st;
       cs_count := S (cs_count st) |} in
  let! st := foldMi (agg_body connector infoOnly serieName) 0 (gq_Series query) st in
  Ok (agg_finish query percentiles infoOnly serieName st).

(** The error of the default case of the switch. *)
Definition unknown_operator (n : Z) : string :=
  "unknown `" +:+ Itoa n +:+ "' operator type".

(** The switch on the operator of the group. *)
Definition compile (connector : RRDConnector) (query : GroupQuery)
    (percentiles : list float64) (infoOnly : bool) : outcome compile_state :=
  let st := compile_init connector infoOnly in
  match gq_Type query with
  | OperGroupTypeNone =>
      foldM (none_body connector query percentiles infoOnly) (gq_Series query) st
  | OperGroupTypeAvg | OperGroupTypeSum =>
      compile_agg connector query percentiles infoOnly st
  | OperGroupTypeOther n => Err (unknown_operator n)
  end.

(** The first statement: a group of one series has no operator. *)
Definition collapse (query : GroupQuery) : GroupQuery :=
  if negb (bool_decide (gq_Type query = OperGroupTypeNone))
     && (length (gq_Series query) =? 1)%nat
  then set_Type OperGroupTypeNone query
  else query.

(** ** Execution and merge *)

(** [r.Plots = append(r.Plots, v)]. *)
Definition append_Plots (v : float64) (r : PlotResult) : PlotResult :=
  {| Plots := Plots r ++ [v]; Info := Info r |}.

(** The body of the loop over the legends of an export: a fresh result
    for the label of the column, then the column's values row by row. *)
Definition collect_legend (data : XportResult) (series : gmap string string)
    (result : gmap string PlotResult) (index : nat) (serieName : string)
  : outcome (gmap string PlotResult) :=
  let label := default "" (series !! serieName) in
  let result := <[label := PlotResult_new]> result in
  foldM (λ result i,
           let! v := ValueAt data index i in
           Ok (alter (append_Plots v) label result))
    (seq 0 (Z.to_nat (RowCnt data))) result.

(** What a call leaves behind: the query, whose operator it may have
    changed, the number of buffers the engine holds, and what it returns. *)
Record call_result : Type := {
  cr_query : GroupQuery;
  cr_live : nat;
  cr_ret : outcome (gmap string PlotResult)
}.

Section getdata.
Context `{Engine} `{Strconv}.

(** The export and its copy into the result; [live] counts the buffers
    the engine holds. *)
Definition run_export (st : compile_state) (startTime endTime : Time)
    (step : Duration) (infoOnly : bool) (live : nat)
  : nat * outcome (gmap string PlotResult) :=
  if infoOnly then (live, Ok ∅)
  else
    match cs_xport st with
    | None => (live, Panic NilDereference)
    | Some xport =>
        match Xport xport startTime endTime step with
        | Ok data =>
            (match values data with Some _ => S live | None => live end,
             foldMi (collect_legend data (cs_series st)) 0 (Legends data) ∅)
        | Err e => (live, Err e)
        | Panic p => (live, Panic p)
        end
    end.

(** The graph run, the statistics, and the release of the buffer of the
    variable [data] of the function's outer scope, which is the zero
    [XportResult]: the export's result lives in a variable of the same name
    declared in the inner block. *)
Definition run_graph (st : compile_state) (startTime endTime : Time)
    (live : nat) (result : gmap string PlotResult)
  : nat * outcome (gmap string PlotResult) :=
  match Graph (cs_graph st) startTime endTime with
  | Ok graphInfo =>
      match rrdParseInfo graphInfo result with
      | Ok result => (FreeValues XportResult_zero live, Ok result)
      | Err e => (live, Err e)
      | Panic p => (live, Panic p)
      end
  | Err e => (live, Err e)
  | Panic p => (live, Panic p)
  end.

(** The second half of the function: the two runs, one after the other. *)
Definition execute (st : compile_state) (startTime endTime : Time)
    (step : Duration) (infoOnly : bool) (live : nat)
  : nat * outcome (gmap string PlotResult) :=
  match run_export st startTime endTime step infoOnly live with
  | (live, Ok result) => run_graph st startTime endTime live result
  | (live, ret) => (live, ret)
  end.

Definition rrdGetData (connector : RRDConnector) (query : GroupQuery)
    (startTime endTime : Time) (step : Duration)
    (percentiles : list float64) (infoOnly : bool) (live : nat) : call_result :=
  if (length (gq_Series query) =? 0)%nat then
    {| cr_query := query; cr_live := live; cr_ret := Err "group has no series" |}
  else
    let query := collapse query in
    match compile connector query percentiles infoOnly with
    | Ok st =>
        let '(live, ret) := execute st startTime endTime step infoOnly live in
        {| cr_query := query; cr_live := live; cr_ret := ret |}
    | Err e => {| cr_query := query; cr_live := live; cr_ret := Err e |}
    | Panic p => {| cr_query := query; cr_live := live; cr_ret := Panic p |}
    end.

(** [GetPlots]: the data of a query, samples included. *)
Definition GetPlots (connector : RRDConnector) (query : GroupQuery)
    (startTime endTime : Time) (step : Duration)
    (percentiles : list float64) (live : nat) : call_result :=
  rrdGetData connector query startTime endTime step percentiles false live.

End getdata.
