(* ===== verification/CompileSpec.v ===== *)
(** * What rrdGetData compiles: the programs of a group, declaratively

    The loops of [rrdGetData] build the graph program and the export
    program one builder call at a time, and fail when a series refers to a
    metric the catalog lacks.  This file states what they build as lists:
    the series that contribute ([resolve]), the block of operations each of
    them adds, the labels recorded, the operands pushed; and proves that
    [compile] computes exactly that, failures included. *)

From Stdlib Require Import ZArith String Ascii List Lia.
From stdpp Require Import base tactics option list gmap strings.
From S2P Require Import Prelude GoStrings Float64 Rrd SetGraph Connector.
From S2P Require Import Examples ParseInfo GetData.

(** ** The specification *)

(** A series that contributes to the programs: its position in the
    query, the series and the metric it resolves to. *)
Record contrib : Type := {
  c_index : nat;
  c_serie : SerieQuery;
  c_metric : rrdMetric
}.

(** The contributing series of a list of series whose first element has
    position [index]: a series without metric is skipped; a series whose
    metric the catalog lacks makes the call panic. *)
Fixpoint resolve (connector : RRDConnector) (index : nat)
    (series : list SerieQuery) : outcome (list contrib) :=
  match series with
  | [] => Ok []
  | serie :: series' =>
      match sq_Metric serie with
      | None => resolve connector (S index) series'
      | Some m =>
          let! metric := metric_of connector m in
          let! cs := resolve connector (S index) series' in
          Ok ({| c_index := index; c_serie := serie; c_metric := metric |} :: cs)
      end
  end.

(** The identifier of the [k]-th allocation of a compilation. *)
Definition temp_name (k : nat) : string := "serie" +:+ Itoa_nat k.

(** *** A group without operator *)

(** The definition of the identifier [temp]: the raw samples, the series'
    scale, the group's scale. *)
Definition none_defs (query : GroupQuery) (temp : string) (c : contrib)
  : list rrd_arg :=
  [DEF (temp +:+ "-orig0") (FilePath (c_metric c)) (Dataset (c_metric c)) "AVERAGE";
   CDEF (temp +:+ "-orig1") (scaled (temp +:+ "-orig0") (sq_Scale (c_serie c)));
   CDEF temp (scaled (temp +:+ "-orig1") (gq_Scale query))].

Definition none_graph_block (query : GroupQuery) (percentiles : list float64)
    (k : nat) (c : contrib) : list rrd_arg :=
  none_defs query (temp_name k) c
  ++ stat_program (temp_name k) (sq_Name (c_serie c)) percentiles.

Definition none_xport_block (query : GroupQuery) (k : nat) (c : contrib)
  : list rrd_arg :=
  none_defs query (temp_name k) c ++ [XPORT (temp_name k) (temp_name k)].

(** The labels recorded: identifier and name of the series, in order. *)
Definition none_labels (k0 : nat) (cs : list contrib) : list (string * string) :=
  imap (λ j c, (temp_name (k0 + j), sq_Name (c_serie c))) cs.

(** The state after the loop over the series. *)
Definition none_state (query : GroupQuery) (percentiles : list float64)
    (infoOnly : bool) (cs : list contrib) (st : compile_state) : compile_state :=
  {| cs_graph :=
       Grapher.extend
         (concat (imap (λ j, none_graph_block query percentiles (cs_count st + j)) cs))
         (cs_graph st);
     cs_xport :=
       on_xport infoOnly
         (Exporter.extend
            (concat (imap (λ j, none_xport_block query (cs_count st + j)) cs)))
         (cs_xport st);
     cs_series := insert_all (none_labels (cs_count st) cs) (cs_series st);
     cs_stack := cs_stack st;
     cs_count := cs_count st + length cs |}.

(** *** A sum or an average *)

(** The identifier of a contributing series under the group's identifier. *)
Definition agg_temp (serieName : string) (c : contrib) : string :=
  serieName +:+ "-tmp" +:+ Itoa_nat (c_index c).

(** The definition of the operand of a series: the raw samples, with
    unknown samples replaced by zero. *)
Definition agg_block (serieName : string) (c : contrib) : list rrd_arg :=
  let temp := agg_temp serieName c in
  [DEF (temp +:+ "-ori") (FilePath (c_metric c)) (Dataset (c_metric c)) "AVERAGE";
   CDEF temp (temp +:+ "-ori,UN,0," +:+ temp +:+ "-ori,IF")].

(** One more operand on the stack: alone when it is the first, followed by
    the addition otherwise. *)
Definition push_operand (stack : list string) (temp : string) : list string :=
  if (length stack =? 0)%nat then stack ++ [temp] else stack ++ [temp; "+"].

(** The sum of the operands in reverse Polish notation. *)
Definition rpn_sum (temps : list string) : list string :=
  match temps with
  | [] => []
  | t :: ts => t :: concat (map (λ t', [t'; "+"]) ts)
  end.

Definition agg_state (infoOnly : bool) (serieName : string)
    (cs : list contrib) (st : compile_state) : compile_state :=
  {| cs_graph :=
       Grapher.extend (concat (map (agg_block serieName) cs)) (cs_graph st);
     cs_xport :=
       on_xport infoOnly
         (Exporter.extend (concat (map (agg_block serieName) cs))) (cs_xport st);
     cs_series := cs_series st;
     cs_stack := fold_left push_operand (map (agg_temp serieName) cs) (cs_stack st);
     cs_count := cs_count st |}.

(** What an average appends to the sum: the division by the number of
    series of the query. *)
Definition avg_divisor (query : GroupQuery) : list string :=
  match gq_Type query with
  | OperGroupTypeAvg => [Itoa_nat (length (gq_Series query)); "/"]
  | _ => []
  end.

(** The expression of the group: the sum of the operands, divided by the
    number of series of the query for an average. *)
Definition agg_expression (query : GroupQuery) (serieName : string)
    (cs : list contrib) : string :=
  Join (rpn_sum (map (agg_temp serieName) cs) ++ avg_divisor query) ",".

(** The definition of the group's identifier from its operands. *)
Definition agg_defs (query : GroupQuery) (serieName : string)
    (cs : list contrib) : list rrd_arg :=
  [CDEF (serieName +:+ "-orig") (agg_expression query serieName cs);
   CDEF serieName (scaled (serieName +:+ "-orig") (gq_Scale query))].

(** The graph program of a sum or an average. *)
Definition agg_graph_program (query : GroupQuery) (percentiles : list float64)
    (cs : list contrib) : list rrd_arg :=
  concat (map (agg_block (temp_name 0)) cs)
  ++ agg_defs query (temp_name 0) cs
  ++ stat_program (temp_name 0) (gq_Name query) percentiles.

(** Its export program. *)
Definition agg_xport_program (query : GroupQuery) (cs : list contrib)
  : list rrd_arg :=
  concat (map (agg_block (temp_name 0)) cs)
  ++ agg_defs query (temp_name 0) cs
  ++ [XPORT (temp_name 0) (temp_name 0)].

(** The state after a sum or an average of the contributing series. *)
Definition agg_compiled (connector : RRDConnector) (query : GroupQuery)
    (percentiles : list float64) (infoOnly : bool) (cs : list contrib)
  : compile_state :=
  {| cs_graph :=
       {| Grapher.daemon := Daemon connector;
          Grapher.args := agg_graph_program query percentiles cs |};
     cs_xport :=
       if infoOnly then None
       else Some {| Exporter.daemon := Daemon connector;
                    Exporter.args := agg_xport_program query cs |};
     cs_series := {[ temp_name 0 := gq_Name query ]};
     cs_stack := rpn_sum (map (agg_temp (temp_name 0)) cs) ++ avg_divisor query;
     cs_count := 1 |}.

(** ** Builders and guards *)

Lemma on_xport_compose infoOnly f g xport :
  on_xport infoOnly f (on_xport infoOnly g xport) = on_xport infoOnly (f ∘ g) xport.
Proof. unfold on_xport. destruct infoOnly; [done|]. by destruct xport. Qed.

Lemma on_xport_ext infoOnly f g xport :
  (∀ x, f x = g x) → on_xport infoOnly f xport = on_xport infoOnly g xport.
Proof.
  intros Hfg. unfold on_xport. destruct infoOnly, xport; simpl; congruence.
Qed.

Lemma on_xport_id infoOnly xport : on_xport infoOnly (Exporter.extend []) xport = xport.
Proof.
  unfold on_xport. destruct infoOnly, xport; simpl; try done.
  by rewrite Exporter_extend_nil.
Qed.

Lemma on_xport_extend infoOnly p1 p2 xport :
  on_xport infoOnly (Exporter.extend p2) (on_xport infoOnly (Exporter.extend p1) xport)
  = on_xport infoOnly (Exporter.extend (p1 ++ p2)) xport.
Proof.
  rewrite on_xport_compose. apply on_xport_ext; intros x; simpl.
  apply Exporter_extend_extend.
Qed.

Lemma compile_state_eq (s1 s2 : compile_state) :
  cs_graph s1 = cs_graph s2 → cs_xport s1 = cs_xport s2 →
  cs_series s1 = cs_series s2 → cs_stack s1 = cs_stack s2 →
  cs_count s1 = cs_count s2 → s1 = s2.
Proof. destruct s1, s2; simpl; by intros -> -> -> -> ->. Qed.

(** ** A group without operator *)

(** Two states are equal field by field, after the builders' extensions
    have been merged. *)
Ltac state_eq :=
  apply compile_state_eq;
  cbn [cs_graph cs_xport cs_series cs_stack cs_count none_state agg_state
       none_labels concat imap map length fold_left insert_all fst snd];
  rewrite ?Grapher_extend_nil, ?Grapher_extend_extend, ?on_xport_id,
    ?on_xport_extend, ?app_nil_r, ?Nat.add_0_r;
  try done; try lia.

Lemma none_state_nil query percentiles infoOnly st :
  none_state query percentiles infoOnly [] st = st.
Proof. state_eq. Qed.

Lemma imap_shift {A B : Type} (f : nat → A → B) (k : nat) (l : list A) :
  imap ((λ j, f (k + j)) ∘ S) l = imap (λ j, f (k + 1 + j)) l.
Proof. apply imap_ext; intros; simpl. f_equal; lia. Qed.

Lemma none_state_cons query percentiles infoOnly c cs st :
  none_state query percentiles infoOnly (c :: cs) st
  = none_state query percentiles infoOnly cs
      (none_state query percentiles infoOnly [c] st).
Proof.
  state_eq; rewrite ?imap_shift; try done.
  unfold insert_all, none_labels. f_equal. apply imap_ext; intros; simpl.
  do 2 f_equal; lia.
Qed.

(** One iteration, for a series that has a metric in the catalog. *)
Lemma none_body_resolved connector query percentiles infoOnly st serie m metric i :
  sq_Metric serie = Some m → metric_of connector m = Ok metric →
  none_body connector query percentiles infoOnly st serie
  = Ok (none_state query percentiles infoOnly
          [{| c_index := i; c_serie := serie; c_metric := metric |}] st).
Proof.
  intros Hm Hmetric. unfold none_body. rewrite Hm, Hmetric. simpl. f_equal.
  rewrite rrdSetGraph_extend.
  unfold Grapher.CDef, Grapher.Def, Exporter.XportDef, Exporter.CDef, Exporter.Def.
  rewrite !Grapher_push_extend. state_eq.
  apply on_xport_ext; intros x.
  by rewrite !Exporter_push_extend, !Exporter_extend_extend.
Qed.

(** The loop of a group without operator computes [none_state] of the
    contributing series, or panics with them. *)
Lemma foldM_none_body connector query percentiles infoOnly series st i :
  foldM (none_body connector query percentiles infoOnly) series st
  = let! cs := resolve connector i series in
    Ok (none_state query percentiles infoOnly cs st).
Proof.
  revert st i; induction series as [|serie series IH]; intros st i; simpl.
  - by rewrite none_state_nil.
  - destruct (sq_Metric serie) as [m|] eqn:Hm.
    + destruct (metric_of connector m) as [metric|e|p] eqn:Hmetric.
      * rewrite (none_body_resolved _ _ _ _ _ _ m metric i) by done. simpl.
        rewrite (IH _ (S i)).
        destruct (resolve connector (S i) series) as [cs| |]; simpl; try done.
        f_equal. symmetry. apply none_state_cons.
      * unfold none_body. by rewrite Hm, Hmetric.
      * unfold none_body. by rewrite Hm, Hmetric.
    + unfold none_body at 1. rewrite Hm. simpl. apply IH.
Qed.

(** ** A sum or an average *)

Lemma agg_state_nil infoOnly serieName st : agg_state infoOnly serieName [] st = st.
Proof. state_eq. Qed.

Lemma agg_state_cons infoOnly serieName c cs st :
  agg_state infoOnly serieName (c :: cs) st
  = agg_state infoOnly serieName cs (agg_state infoOnly serieName [c] st).
Proof.
  state_eq.
Qed.

Lemma agg_body_resolved connector infoOnly serieName st i serie m metric :
  sq_Metric serie = Some m → metric_of connector m = Ok metric →
  agg_body connector infoOnly serieName st i serie
  = Ok (agg_state infoOnly serieName
          [{| c_index := i; c_serie := serie; c_metric := metric |}] st).
Proof.
  intros Hm Hmetric. unfold agg_body. rewrite Hm, Hmetric. simpl. f_equal.
  unfold Grapher.CDef, Grapher.Def, Exporter.CDef, Exporter.Def.
  rewrite !Grapher_push_extend. state_eq.
  apply on_xport_ext; intros x.
  by rewrite !Exporter_push_extend, !Exporter_extend_extend.
Qed.

Lemma foldMi_agg_body connector infoOnly serieName series st i :
  foldMi (agg_body connector infoOnly serieName) i series st
  = let! cs := resolve connector i series in
    Ok (agg_state infoOnly serieName cs st).
Proof.
  revert st i; induction series as [|serie series IH]; intros st i; simpl.
  - by rewrite agg_state_nil.
  - destruct (sq_Metric serie) as [m|] eqn:Hm.
    + destruct (metric_of connector m) as [metric|e|p] eqn:Hmetric.
      * rewrite (agg_body_resolved _ _ _ _ _ _ m metric) by done. simpl.
        rewrite IH.
        destruct (resolve connector (S i) series) as [cs| |]; simpl; try done.
        f_equal. symmetry. apply agg_state_cons.
      * unfold agg_body. by rewrite Hm, Hmetric.
      * unfold agg_body. by rewrite Hm, Hmetric.
    + unfold agg_body at 1. rewrite Hm. simpl. apply IH.
Qed.

(** Pushing the operands one by one on an empty stack gives their sum in
    reverse Polish notation. *)
Lemma fold_push_operand temps :
  fold_left push_operand temps [] = rpn_sum temps.
Proof.
  destruct temps as [|t ts]; [done|]. simpl.
  change (push_operand [] t) with [t].
  enough (∀ stack, stack ≠ [] →
    fold_left push_operand ts stack = stack ++ concat (map (λ t', [t'; "+"]) ts))
    as Hgen by (by rewrite Hgen).
  induction ts as [|t' ts IH]; intros stack Hne; simpl.
  - by rewrite app_nil_r.
  - unfold push_operand at 2. destruct stack as [|s stack]; [done|].
    cbn [length Nat.eqb]. rewrite IH by (by destruct stack).
    by rewrite <- app_assoc.
Qed.

(** ** The label map *)

Lemma temp_name_inj k k' : temp_name k = temp_name k' → k = k'.
Proof.
  unfold temp_name, Itoa_nat. intros Heq%(inj (String.app "serie")).
  apply Itoa_inj in Heq. lia.
Qed.

Lemma none_labels_keys k0 (cs : list contrib) :
  (none_labels k0 cs).*1 = (λ j, temp_name (k0 + j)) <$> seq 0 (length cs).
Proof.
  unfold none_labels. rewrite fmap_imap.
  apply (imap_seq_0 cs (λ j, temp_name (k0 + j))).
Qed.

Lemma none_labels_NoDup k0 (cs : list contrib) : NoDup (none_labels k0 cs).*1.
Proof.
  rewrite none_labels_keys. apply NoDup_fmap_2_strong; [|apply NoDup_seq].
  intros j j' _ _ Heq%temp_name_inj. lia.
Qed.

(** The identifier of the [k]-th contributing series stands for the name
    of that series. *)
Lemma none_labels_lookup (cs : list contrib) k c :
  cs !! k = Some c →
  insert_all (none_labels 0 cs) ∅ !! temp_name k = Some (sq_Name (c_serie c)).
Proof.
  intros Hk. apply insert_all_lookup_in; [apply none_labels_NoDup|].
  unfold none_labels. apply list_elem_of_lookup. exists k.
  by rewrite list_lookup_imap, Hk.
Qed.

(** No other identifier has a label. *)
Lemma none_labels_lookup_None (cs : list contrib) key :
  (∀ k, k < length cs → key ≠ temp_name k) →
  insert_all (none_labels 0 cs) ∅ !! key = None.
Proof.
  intros Hkey. rewrite insert_all_lookup_notin; [done|].
  rewrite none_labels_keys. intros (j & -> & Hj%elem_of_seq)%list_elem_of_fmap.
  apply (Hkey j); [lia|done].
Qed.

(** ** The compiled programs *)

Lemma compile_init_graph connector infoOnly :
  cs_graph (compile_init connector infoOnly)
  = {| Grapher.daemon := Daemon connector; Grapher.args := [] |}.
Proof.
  unfold compile_init; simpl. case_decide as Hd; [done|]. by rewrite Hd.
Qed.

Lemma compile_init_xport connector infoOnly :
  cs_xport (compile_init connector infoOnly)
  = if infoOnly then None
    else Some {| Exporter.daemon := Daemon connector; Exporter.args := [] |}.
Proof.
  unfold compile_init; simpl. destruct infoOnly; [done|].
  case_decide as Hd; [done|]. by rewrite Hd.
Qed.

Lemma avg_divisor_app query (stack : list string) :
  match gq_Type query with
  | OperGroupTypeAvg => stack ++ [Itoa_nat (length (gq_Series query)); "/"]
  | _ => stack
  end = stack ++ avg_divisor query.
Proof. unfold avg_divisor. destruct (gq_Type query); by rewrite ?app_nil_r. Qed.

(** What follows the loop of a sum or an average turns the operands into
    the programs of [agg_compiled]. *)
Lemma agg_finish_compiled connector query percentiles infoOnly cs :
  agg_finish query percentiles infoOnly (temp_name 0)
    (agg_state infoOnly (temp_name 0) cs
       {| cs_graph := cs_graph (compile_init connector infoOnly);
          cs_xport := cs_xport (compile_init connector infoOnly);
          cs_series := ∅; cs_stack := []; cs_count := 1 |})
  = agg_compiled connector query percentiles infoOnly cs.
Proof.
  unfold agg_finish, agg_compiled.
  cbn [cs_graph cs_xport cs_series cs_stack cs_count agg_state].
  rewrite fold_push_operand, rrdSetGraph_extend, compile_init_graph,
    compile_init_xport, avg_divisor_app.
  unfold Grapher.CDef, Exporter.CDef, Exporter.XportDef.
  rewrite !Grapher_push_extend, !Grapher_extend_extend.
  apply compile_state_eq; cbn [cs_graph cs_xport cs_series cs_stack cs_count];
    try done.
  destruct infoOnly; [done|]. unfold on_xport; simpl.
  by rewrite !Exporter_push_extend, !Exporter_extend_extend.
Qed.

(** What [compile] computes, operator by operator. *)
Lemma compile_cases connector query percentiles infoOnly :
  compile connector query percentiles infoOnly
  = match gq_Type query with
    | OperGroupTypeNone =>
        let! cs := resolve connector 0 (gq_Series query) in
        Ok (none_state query percentiles infoOnly cs (compile_init connector infoOnly))
    | OperGroupTypeAvg | OperGroupTypeSum =>
        let! cs := resolve connector 0 (gq_Series query) in
        Ok (agg_compiled connector query percentiles infoOnly cs)
    | OperGroupTypeOther n => Err ("unknown `" +:+ Itoa n +:+ "' operator type")
    end.
Proof.
  unfold compile.
  destruct (gq_Type query) eqn:Hty; [apply foldM_none_body| | |done];
    unfold compile_agg; rewrite foldMi_agg_body;
    (destruct (resolve _ _ _) as [cs| |]; cbn [obind]; [|done..]);
    f_equal; apply agg_finish_compiled.
Qed.

(** C2: a group without operator compiles to one block per contributing
    series, in the order of the query, or panics when a series refers to a
    metric the catalog lacks. *)
Theorem compile_None_spec connector query percentiles infoOnly :
  gq_Type query = OperGroupTypeNone →
  compile connector query percentiles infoOnly
  = let! cs := resolve connector 0 (gq_Series query) in
    Ok (none_state query percentiles infoOnly cs (compile_init connector infoOnly)).
Proof. intros Hty. by rewrite compile_cases, Hty. Qed.

(** C3: a sum or an average compiles to the operands of the contributing
    series, the group's expression over them, its scaling and one
    statistics block under the group's name. *)
Theorem compile_agg_spec connector query percentiles infoOnly :
  gq_Type query = OperGroupTypeSum ∨ gq_Type query = OperGroupTypeAvg →
  compile connector query percentiles infoOnly
  = let! cs := resolve connector 0 (gq_Series query) in
    Ok (agg_compiled connector query percentiles infoOnly cs).
Proof. intros [Hty|Hty]; by rewrite compile_cases, Hty. Qed.

(** ** Witnesses and examples *)

Lemma compile_None_spec_witness :
  compile ex_connector (ex_query OperGroupTypeNone [ex_cpu; ex_unset; ex_mem])
    [f64_95] false
  = let! cs := resolve ex_connector 0 [ex_cpu; ex_unset; ex_mem] in
    Ok (none_state (ex_query OperGroupTypeNone [ex_cpu; ex_unset; ex_mem])
          [f64_95] false cs (compile_init ex_connector false)).
Proof. by apply compile_None_spec. Defined.

Lemma compile_agg_spec_witness :
  compile ex_connector (ex_query OperGroupTypeAvg [ex_cpu; ex_unset; ex_mem])
    [f64_95] false
  = let! cs := resolve ex_connector 0 [ex_cpu; ex_unset; ex_mem] in
    Ok (agg_compiled ex_connector
          (ex_query OperGroupTypeAvg [ex_cpu; ex_unset; ex_mem]) [f64_95] false cs).
Proof. apply compile_agg_spec. by right. Defined.

(** The average divides by the number of series of the query, those
    without a metric included: three series of which two have a metric give
    the expression [serie0-tmp0,serie0-tmp2,+,3,/]. *)
Example avg_divides_by_all_series :
  outcome_map (λ st, Exporter.args <$> cs_xport st)
    (compile ex_connector (ex_query OperGroupTypeAvg [ex_cpu; ex_unset; ex_mem])
       [] false)
  = Ok (Some
      [ DEF "serie0-tmp0-ori" "/var/lib/rrd/host1/cpu.rrd" "value" "AVERAGE";
        CDEF "serie0-tmp0" "serie0-tmp0-ori,UN,0,serie0-tmp0-ori,IF";
        DEF "serie0-tmp2-ori" "/var/lib/rrd/host1/mem.rrd" "value" "AVERAGE";
        CDEF "serie0-tmp2" "serie0-tmp2-ori,UN,0,serie0-tmp2-ori,IF";
        CDEF "serie0-orig" "serie0-tmp0,serie0-tmp2,+,3,/";
        CDEF "serie0" "serie0-orig";
        XPORT "serie0" "serie0" ]).
Proof. by vm_compute. Qed.

(** A sum over series none of which has a metric compiles to a
    program whose expression is empty. *)
Example sum_of_nothing :
  outcome_map (λ st, Exporter.args <$> cs_xport st)
    (compile ex_connector (ex_query OperGroupTypeSum [ex_unset; ex_unset]) [] false)
  = Ok (Some [ CDEF "serie0-orig" ""; CDEF "serie0" "serie0-orig";
               XPORT "serie0" "serie0" ]).
Proof. by vm_compute. Qed.
