(* ===== verification/Names.v ===== *)
(** * The identifiers of a compilation

    Every identifier [rrdGetData] and [rrdSetGraph] write is the
    identifier of an allocation, [serie<k>], followed by a suffix that
    says what it stands for ([-orig0], [-tmp<i>-ori], [-cdef<i>], ...).
    This file lists the suffixes of each block and proves that no
    identifier is written twice: a number can be read back from the text
    that follows it, and the suffixes of a block differ. *)

From Stdlib Require Import ZArith String Ascii List Lia.
From stdpp Require Import base tactics option list gmap strings.
From S2P Require Import Prelude GoStrings Float64 Rrd SetGraph Connector.
From S2P Require Import Examples ParseInfo GetData CompileSpec.

(** ** The suffixes *)

(** The identifiers of a statistics block for [n] percentiles. *)
Definition percentile_suffixes (i : nat) : list string :=
  ["-cdef" +:+ Itoa_nat i; "-vdef" +:+ Itoa_nat i].

Definition stat_suffixes (n : nat) : list string :=
  ["-min"; "-avg"; "-max"; "-last"] ++ (seq 0 n ≫= percentile_suffixes).

(** The identifiers of a series of a group without operator. *)
Definition none_suffixes (n : nat) : list string :=
  ["-orig0"; "-orig1"; ""] ++ stat_suffixes n.

(** The identifiers of the operand of a sum or an average. *)
Definition operand_suffixes (i : nat) : list string :=
  ["-tmp" +:+ Itoa_nat i +:+ "-ori"; "-tmp" +:+ Itoa_nat i].

(** The identifiers of a sum or an average over the series at the given
    positions. *)
Definition agg_suffixes (indices : list nat) (n : nat) : list string :=
  (indices ≫= operand_suffixes) ++ ["-orig"; ""] ++ stat_suffixes n.

(** An identifier under its allocation. *)
Definition under (temp : string) (suffixes : list string) : list string :=
  (λ s, temp +:+ s) <$> suffixes.

(** ** Suffixes differ *)

#[local] Arguments String.append !_ _ / : simpl nomatch.

#[export] Instance string_app_inj (a : string) : Inj (=) (=) (String.append a).
Proof. intros x y. apply string_app_inj_l. Qed.

Lemma Itoa_nat_inj (i j : nat) : Itoa_nat i = Itoa_nat j → i = j.
Proof. intros H%Itoa_inj. lia. Qed.

Lemma Itoa_nat_app_inj (i j : nat) (s s' : string) :
  no_digit_head s = true → no_digit_head s' = true →
  Itoa_nat i +:+ s = Itoa_nat j +:+ s' → i = j ∧ s = s'.
Proof.
  intros Hs Hs' Heq.
  destruct (Itoa_app_inj (Z.of_nat i) (Z.of_nat j) s s') as [? ?];
    [lia..|done|done|done|]. split; [lia|done].
Qed.

(** Membership in a list of suffixes, case by case. *)
Ltac suffix_cases H :=
  repeat first
    [ apply elem_of_nil in H; destruct H
    | let E := fresh "E" in apply elem_of_cons in H as [E|H]
    | apply elem_of_app in H as [H|H]
    | let i := fresh "i" in apply list_elem_of_bind in H as (i & H & _) ].

Lemma Itoa_nat_suffix (i j : nat) (s : string) :
  no_digit_head s = true → Itoa_nat i +:+ s = Itoa_nat j → s = "".
Proof.
  intros Hs Heq.
  assert (Itoa_nat i +:+ s = Itoa_nat j +:+ "") as Heq'
    by (by rewrite string_app_nil_r).
  by apply Itoa_nat_app_inj in Heq' as [_ ?].
Qed.

(** An equation between two numbers, each followed by a suffix or by
    nothing. *)
Ltac number_suffix :=
  match goal with
  | H : Itoa_nat _ +:+ _ = Itoa_nat _ +:+ _ |- _ =>
      apply Itoa_nat_app_inj in H as [? ?]; [|done..]
  | H : Itoa_nat _ +:+ _ = Itoa_nat _ |- _ => apply Itoa_nat_suffix in H; [|done]
  | H : Itoa_nat _ = Itoa_nat _ +:+ _ |- _ =>
      symmetry in H; apply Itoa_nat_suffix in H; [|done]
  | H : Itoa_nat _ = Itoa_nat _ |- _ => apply Itoa_nat_inj in H
  end.

Lemma percentile_suffixes_NoDup n : NoDup (seq 0 n ≫= percentile_suffixes).
Proof.
  apply NoDup_bind; [| |apply NoDup_seq].
  - intros i j s _ _ Hi Hj. unfold percentile_suffixes in *.
    suffix_cases Hi; suffix_cases Hj; simplify_eq/=; by number_suffix.
  - intros i _. apply NoDup_cons; split; [|apply NoDup_singleton].
    intros Hin. suffix_cases Hin. simplify_eq/=.
Qed.

Lemma stat_suffixes_NoDup n : NoDup (stat_suffixes n).
Proof.
  apply NoDup_app; split; [compute_decide|split; [|apply percentile_suffixes_NoDup]].
  intros s Hs Hin. unfold percentile_suffixes in Hin.
  suffix_cases Hs; suffix_cases Hin; simplify_eq/=.
Qed.

Lemma none_suffixes_NoDup n : NoDup (none_suffixes n).
Proof.
  apply NoDup_app; split; [compute_decide|split; [|apply stat_suffixes_NoDup]].
  intros s Hs Hin. unfold stat_suffixes, percentile_suffixes in Hin.
  suffix_cases Hs; suffix_cases Hin; simplify_eq/=.
Qed.

Lemma operand_suffixes_NoDup indices :
  NoDup indices → NoDup (indices ≫= operand_suffixes).
Proof.
  intros Hnd. apply NoDup_bind; [| |done].
  - intros i j s _ _ Hi Hj. unfold operand_suffixes in *.
    suffix_cases Hi; suffix_cases Hj; simplify_eq/=; by number_suffix.
  - intros i _. apply NoDup_cons; split; [|apply NoDup_singleton].
    intros Hin. suffix_cases Hin. simplify_eq/=. by number_suffix.
Qed.

Lemma agg_suffixes_NoDup indices n :
  NoDup indices → NoDup (agg_suffixes indices n).
Proof.
  intros Hnd. apply NoDup_app; split; [by apply operand_suffixes_NoDup|].
  split.
  - intros s Hs Hin. unfold operand_suffixes, stat_suffixes, percentile_suffixes in *.
    suffix_cases Hs; suffix_cases Hin; simplify_eq/=.
  - apply NoDup_app; split; [compute_decide|split; [|apply stat_suffixes_NoDup]].
    intros s Hs Hin. unfold stat_suffixes, percentile_suffixes in Hin.
    suffix_cases Hs; suffix_cases Hin; simplify_eq/=.
Qed.

(** No suffix starts with a digit. *)
Lemma stat_suffixes_head n : Forall (λ s, no_digit_head s = true) (stat_suffixes n).
Proof.
  apply Forall_forall. intros s Hs. unfold stat_suffixes, percentile_suffixes in Hs.
  suffix_cases Hs; by simplify_eq/=.
Qed.

Lemma none_suffixes_head n : Forall (λ s, no_digit_head s = true) (none_suffixes n).
Proof.
  apply Forall_app; split; [by repeat constructor|apply stat_suffixes_head].
Qed.

Lemma agg_suffixes_head indices n :
  Forall (λ s, no_digit_head s = true) (agg_suffixes indices n).
Proof.
  apply Forall_app; split.
  - apply Forall_forall. intros s Hs. unfold operand_suffixes in Hs.
    suffix_cases Hs; by simplify_eq/=.
  - apply Forall_app; split; [by repeat constructor|apply stat_suffixes_head].
Qed.

(** ** Identifiers differ *)

(** The allocation and the suffix of an identifier can be read back. *)
Lemma under_inj (k k' : nat) (s s' : string) :
  no_digit_head s = true → no_digit_head s' = true →
  temp_name k +:+ s = temp_name k' +:+ s' → k = k' ∧ s = s'.
Proof.
  intros Hs Hs'. unfold temp_name. rewrite !string_app_assoc.
  intros Heq%string_app_inj_l. by apply Itoa_nat_app_inj.
Qed.

Lemma under_NoDup (temp : string) (suffixes : list string) :
  NoDup suffixes → NoDup (under temp suffixes).
Proof. apply NoDup_fmap_2, _. Qed.

(** The identifiers of several allocations, each with suffixes that do
    not start with a digit, are distinct. *)
Lemma under_blocks_NoDup (ks : list nat) (suffixes : nat → list string) :
  NoDup ks → (∀ k, NoDup (suffixes k)) →
  (∀ k, Forall (λ s, no_digit_head s = true) (suffixes k)) →
  NoDup (ks ≫= λ k, under (temp_name k) (suffixes k)).
Proof.
  intros Hks Hnd Hhead. apply NoDup_bind; [| |done].
  - intros k k' v _ _ (s & -> & Hs)%list_elem_of_fmap (s' & Heq & Hs')%list_elem_of_fmap.
    apply under_inj in Heq as [? _]; [done|..].
    + by apply (proj1 (Forall_forall _ _) (Hhead k)).
    + by apply (proj1 (Forall_forall _ _) (Hhead k')).
  - intros k _. by apply under_NoDup.
Qed.

(** ** The identifiers a program defines *)

Lemma omap_concat_imap {A B C : Type} (g : B → option C) (f : nat → A → list B)
    (h : nat → list C) (k0 : nat) (l : list A) :
  (∀ j a, omap g (f j a) = h j) →
  omap g (concat (imap (λ j, f (k0 + j)) l)) = seq k0 (length l) ≫= h.
Proof.
  intros Hf. revert k0; induction l as [|a l IH]; intros k0; [done|].
  rewrite imap_cons. cbn [concat length seq]. rewrite omap_app, Hf, Nat.add_0_r.
  rewrite bind_cons. f_equal. rewrite <- (IH (S k0)). do 2 f_equal.
  apply imap_ext; intros; simpl. f_equal; lia.
Qed.

Lemma under_app temp l1 l2 : under temp (l1 ++ l2) = under temp l1 ++ under temp l2.
Proof. apply fmap_app. Qed.

Lemma under_bind {A : Type} temp (l : list A) (f : A → list string) :
  under temp (l ≫= f) = l ≫= λ a, under temp (f a).
Proof. induction l as [|a l IH]; [done|]. by rewrite !bind_cons, under_app, IH. Qed.

Lemma defines_stat_program serieName itemName percentiles :
  omap defines (stat_program serieName itemName percentiles)
  = under serieName (stat_suffixes (length percentiles)).
Proof.
  unfold stat_program, stat_suffixes. rewrite omap_app, under_app. f_equal.
  rewrite under_bind.
  apply (omap_concat_imap defines (percentile_block serieName itemName) _ 0).
  intros j p. reflexivity.
Qed.

Lemma defines_none_graph_block query percentiles k c :
  omap defines (none_graph_block query percentiles k c)
  = under (temp_name k) (none_suffixes (length percentiles)).
Proof.
  unfold none_graph_block, none_suffixes.
  rewrite omap_app, under_app, defines_stat_program. f_equal.
  simpl. by rewrite string_app_nil_r.
Qed.

Lemma defines_none_xport_block query k c :
  omap defines (none_xport_block query k c)
  = under (temp_name k) ["-orig0"; "-orig1"; ""].
Proof. simpl. by rewrite string_app_nil_r. Qed.

Lemma defines_agg_blocks serieName (cs : list contrib) :
  omap defines (concat (map (agg_block serieName) cs))
  = under serieName ((c_index <$> cs) ≫= operand_suffixes).
Proof.
  induction cs as [|c cs IH]; [done|].
  cbn [map concat fmap list_fmap]. rewrite omap_app, IH, bind_cons, under_app.
  f_equal. unfold agg_block, agg_temp. simpl. by rewrite !string_app_assoc.
Qed.

Lemma defines_agg_graph_program query percentiles cs :
  omap defines (agg_graph_program query percentiles cs)
  = under (temp_name 0) (agg_suffixes (c_index <$> cs) (length percentiles)).
Proof.
  unfold agg_graph_program, agg_suffixes.
  rewrite !omap_app, !under_app, defines_agg_blocks, defines_stat_program.
  do 2 f_equal.
Qed.

Lemma defines_agg_xport_program query cs :
  omap defines (agg_xport_program query cs)
  = under (temp_name 0) (((c_index <$> cs) ≫= operand_suffixes) ++ ["-orig"; ""]).
Proof.
  unfold agg_xport_program.
  rewrite !omap_app, !under_app, defines_agg_blocks.
  by f_equal.
Qed.

(** ** The positions of the contributing series *)

Lemma resolve_indices connector i series cs :
  resolve connector i series = Ok cs →
  NoDup (c_index <$> cs) ∧ Forall (λ c, i ≤ c_index c) cs.
Proof.
  revert i cs; induction series as [|serie series IH]; intros i cs; simpl.
  - intros [= <-]. split; constructor.
  - assert (∀ cs', resolve connector (S i) series = Ok cs' →
              NoDup (c_index <$> cs') ∧ Forall (λ c, i < c_index c) cs') as IH'.
    { intros cs' [? ?]%IH. split; [done|]. eapply Forall_impl; [done|].
      simpl; lia. }
    destruct (sq_Metric serie) as [m|].
    + intros (metric & _ & (cs' & Hcs' & [= <-])%obind_Ok_inv)%obind_Ok_inv.
      destruct (IH' cs' Hcs') as [Hnd Hlt]. split.
      * cbn [fmap list_fmap]. apply NoDup_cons; split; [|done].
        intros (c & Hc & Hin)%list_elem_of_fmap.
        apply (proj1 (Forall_forall _ _) Hlt) in Hin. simpl in Hc. lia.
      * constructor; [done|]. eapply Forall_impl; [done|]. simpl; lia.
    + intros [Hnd Hlt]%IH'. split; [done|].
      eapply Forall_impl; [done|]. simpl; lia.
Qed.

(** ** No identifier is defined twice *)

Lemma none_graph_defines_NoDup query percentiles k0 (cs : list contrib) :
  NoDup (omap defines
           (concat (imap (λ j, none_graph_block query percentiles (k0 + j)) cs))).
Proof.
  rewrite (omap_concat_imap defines (none_graph_block query percentiles)
             (λ k, under (temp_name k) (none_suffixes (length percentiles))))
    by apply defines_none_graph_block.
  apply (under_blocks_NoDup _ (λ _, none_suffixes _)); intros;
    [apply NoDup_seq|apply none_suffixes_NoDup|apply none_suffixes_head].
Qed.

Lemma none_xport_defines_NoDup query k0 (cs : list contrib) :
  NoDup (omap defines (concat (imap (λ j, none_xport_block query (k0 + j)) cs))).
Proof.
  rewrite (omap_concat_imap defines (none_xport_block query)
             (λ k, under (temp_name k) ["-orig0"; "-orig1"; ""]))
    by apply defines_none_xport_block.
  apply (under_blocks_NoDup _ (λ _, _)); intros;
    [apply NoDup_seq|compute_decide|by repeat constructor].
Qed.

Lemma agg_graph_defines_NoDup query percentiles (cs : list contrib) :
  NoDup (c_index <$> cs) →
  NoDup (omap defines (agg_graph_program query percentiles cs)).
Proof.
  intros Hnd. rewrite defines_agg_graph_program.
  by apply under_NoDup, agg_suffixes_NoDup.
Qed.

Lemma agg_xport_defines_NoDup query (cs : list contrib) :
  NoDup (c_index <$> cs) →
  NoDup (omap defines (agg_xport_program query cs)).
Proof.
  intros Hnd. rewrite defines_agg_xport_program. apply under_NoDup.
  pose proof (agg_suffixes_NoDup _ 0 Hnd) as Hagg.
  unfold agg_suffixes in Hagg. rewrite (app_assoc _ ["-orig"; ""]) in Hagg.
  by apply NoDup_app in Hagg as [? _].
Qed.

(** C20: the identifiers of a compilation are unique: in the graph
    program and in the export program [rrdGetData] builds for a query, no
    identifier is defined twice, whatever the number of series and of
    percentiles. *)
Theorem compile_defines_NoDup connector query percentiles infoOnly st :
  compile connector query percentiles infoOnly = Ok st →
  NoDup (omap defines (Grapher.args (cs_graph st)))
  ∧ ∀ xport, cs_xport st = Some xport →
      NoDup (omap defines (Exporter.args xport)).
Proof.
  rewrite compile_cases.
  destruct (gq_Type query); [| | |done];
    intros (cs & Hcs & [= <-])%obind_Ok_inv;
    apply resolve_indices in Hcs as [Hnd _].
  - unfold none_state. cbn [cs_graph cs_xport].
    rewrite compile_init_graph, compile_init_xport.
    split; [apply (none_graph_defines_NoDup query percentiles 0 cs)|].
    destruct infoOnly; [done|]. intros xport [= <-].
    apply (none_xport_defines_NoDup query 0 cs).
  - split; [by apply agg_graph_defines_NoDup|].
    simpl. destruct infoOnly; [done|]. intros xport [= <-].
    by apply agg_xport_defines_NoDup.
  - split; [by apply agg_graph_defines_NoDup|].
    simpl. destruct infoOnly; [done|]. intros xport [= <-].
    by apply agg_xport_defines_NoDup.
Qed.

Lemma compile_defines_NoDup_witness :
  ∃ st,
    compile ex_connector (ex_query OperGroupTypeAvg [ex_cpu; ex_unset; ex_mem])
      [f64_95; f64_99_9] false = Ok st
    ∧ NoDup (omap defines (Grapher.args (cs_graph st)))
    ∧ ∀ xport, cs_xport st = Some xport →
        NoDup (omap defines (Exporter.args xport)).
Proof.
  eexists. split; [reflexivity|].
  by apply (compile_defines_NoDup ex_connector
              (ex_query OperGroupTypeAvg [ex_cpu; ex_unset; ex_mem])
              [f64_95; f64_99_9] false).
Defined.
