(* ===== verification/Expressions.v ===== *)
(** * The expressions of a compilation, read by the engine

    [rrdGetData] writes three kinds of expressions: a scaling step
    ([src,scale,*]), the replacement of unknown samples by zero
    ([x,UN,0,x,IF]) and the sum of the operands of a group, divided by the
    number of series for an average.  This file reads them the way the
    engine does: the tokens of each, and its value at a row, stated with
    the reference operations [apply_scale], [zero_unknown], [sum_values]
    and [aggregate]. *)

From Stdlib Require Import ZArith String Ascii List Lia.
From Stdlib Require Import Floats.SpecFloat.
From stdpp Require Import base tactics option list gmap strings.
From S2P Require Import Prelude GoStrings Float64 Rpn Rrd SetGraph Connector.
From S2P Require Import Examples ParseInfo GetData CompileSpec.

(** ** Reference operations *)

(** An unknown sample counts as zero. *)
Definition zero_unknown (v : float64) : float64 :=
  if f64_is_nan v then f64_zero else v.

(** A scaling step: the sample times the scale as it was printed, with
    six decimals; a scale of zero leaves the sample as it is. *)
Definition apply_scale (scale v : float64) : float64 :=
  if f64_neqb scale f64_zero then f64_mul v (f64_rounded 6 scale) else v.

(** The sum of the values, added from left to right. *)
Definition sum_values (v : float64) (vs : list float64) : float64 :=
  fold_left f64_add vs v.

(** The number the engine reads for a count. *)
Definition count_value (n : nat) : float64 := f64_of_decimal false (Z.of_nat n) 0.

(** The value of a group at a row, from the values of its operands: their
    sum, divided by the number of series of the query for an average. *)
Definition aggregate (query : GroupQuery) (v : float64) (vs : list float64)
  : float64 :=
  let total := sum_values v vs in
  match gq_Type query with
  | OperGroupTypeAvg => f64_div total (count_value (length (gq_Series query)))
  | _ => total
  end.

(** The tokens of a sum: the first operand, then each operand followed
    by the addition. *)
Definition sum_tokens (temps : list string) : list token :=
  match temps with
  | [] => []
  | t :: ts => TVar t :: concat (map (λ t', [TVar t'; TAdd]) ts)
  end.

(** The tokens of the division of an average. *)
Definition divisor_tokens (query : GroupQuery) : list token :=
  match gq_Type query with
  | OperGroupTypeAvg => [TNum (count_value (length (gq_Series query))); TDiv]
  | _ => []
  end.

(** An identifier of the connector: [serie], then text without comma. *)
Definition is_ident (s : string) : Prop :=
  ∃ rest, s = "serie" +:+ rest ∧ free_of "," rest = true.

(** ** Identifiers *)

#[local] Arguments String.append !_ _ / : simpl nomatch.

Lemma is_ident_token s : is_ident s → token_of s = TVar s.
Proof. intros (rest & -> & _). apply token_of_serie. Qed.

Lemma is_ident_free s : is_ident s → free_of "," s = true.
Proof. intros (rest & -> & Hrest). by rewrite free_of_app, Hrest. Qed.

Lemma is_ident_app s t : is_ident s → free_of "," t = true → is_ident (s +:+ t).
Proof.
  intros (rest & -> & Hrest) Ht. exists (rest +:+ t).
  by rewrite string_app_assoc, free_of_app, Hrest, Ht.
Qed.

Lemma Itoa_nat_free_of_comma (n : nat) : free_of "," (Itoa_nat n) = true.
Proof. apply digits_free_of; [done|]. apply Itoa_digits. lia. Qed.

Lemma temp_name_ident k : is_ident (temp_name k).
Proof. exists (Itoa_nat k). split; [done|apply Itoa_nat_free_of_comma]. Qed.

Lemma agg_temp_ident k c : is_ident (agg_temp (temp_name k) c).
Proof.
  apply is_ident_app; [apply temp_name_ident|].
  by rewrite free_of_app, Itoa_nat_free_of_comma.
Qed.

Lemma orig0_ident k : is_ident (temp_name k +:+ "-orig0").
Proof. by apply is_ident_app; [apply temp_name_ident|]. Qed.

Lemma orig1_ident k : is_ident (temp_name k +:+ "-orig1").
Proof. by apply is_ident_app; [apply temp_name_ident|]. Qed.

Lemma orig_ident k : is_ident (temp_name k +:+ "-orig").
Proof. by apply is_ident_app; [apply temp_name_ident|]. Qed.

Lemma agg_ori_ident k c : is_ident (agg_temp (temp_name k) c +:+ "-ori").
Proof. by apply is_ident_app; [apply agg_temp_ident|]. Qed.

(** The expression of an operand, as the connector writes it. *)
Lemma agg_block_expression temp :
  temp +:+ "-ori,UN,0," +:+ temp +:+ "-ori,IF"
  = (temp +:+ "-ori") +:+ ",UN,0," +:+ (temp +:+ "-ori") +:+ ",IF".
Proof. by rewrite !string_app_assoc. Qed.

(** ** Tokens *)

Lemma tokens_of_ident x : is_ident x → tokens_of x = [TVar x].
Proof.
  intros Hx. rewrite <- (is_ident_token x Hx).
  apply (tokens_of_Join [x]); [done|]. constructor; [by apply is_ident_free|done].
Qed.

Lemma tokens_of_scaled src scale :
  is_ident src → f64_is_finite scale = true →
  tokens_of (scaled src scale)
  = if f64_neqb scale f64_zero
    then [TVar src; TNum (f64_rounded 6 scale); TMul]
    else [TVar src].
Proof.
  intros Hsrc Hfin. unfold scaled.
  destruct (f64_neqb scale f64_zero); [|by apply tokens_of_ident].
  rewrite <- (is_ident_token src Hsrc), <- (token_of_format_f 6 scale Hfin).
  apply (tokens_of_Join [src; format_f 6 scale; "*"]); [done|].
  repeat constructor; [by apply is_ident_free|apply format_f_free_of_comma].
Qed.

Lemma tokens_of_zeroed x :
  is_ident x →
  tokens_of (x +:+ ",UN,0," +:+ x +:+ ",IF")
  = [TVar x; TUn; TNum f64_zero; TVar x; TIf].
Proof.
  intros Hx. rewrite <- (is_ident_token x Hx).
  apply (tokens_of_Join [x; "UN"; "0"; x; "IF"]); [done|].
  repeat constructor; by apply is_ident_free.
Qed.

Lemma token_of_rpn_sum temps :
  Forall is_ident temps → map token_of (rpn_sum temps) = sum_tokens temps.
Proof.
  intros Htemps. destruct Htemps as [|t ts Ht Hts]; [done|].
  simpl. rewrite (is_ident_token t Ht). f_equal.
  induction Hts as [|t' ts Ht' Hts IH]; [done|].
  simpl. by rewrite (is_ident_token t' Ht'), IH.
Qed.

Lemma token_of_avg_divisor query :
  map token_of (avg_divisor query) = divisor_tokens query.
Proof.
  unfold avg_divisor, divisor_tokens. destruct (gq_Type query); try done.
  simpl. unfold Itoa_nat. rewrite token_of_Itoa by lia. done.
Qed.

Lemma rpn_sum_free temps :
  Forall is_ident temps → Forall (λ f, free_of "," f = true) (rpn_sum temps).
Proof.
  intros Htemps. destruct Htemps as [|t ts Ht Hts]; [done|].
  simpl. constructor; [by apply is_ident_free|].
  induction Hts as [|t' ts Ht' Hts IH]; [done|].
  simpl. repeat constructor; [by apply is_ident_free|done].
Qed.

Lemma avg_divisor_free query :
  Forall (λ f, free_of "," f = true) (avg_divisor query).
Proof.
  unfold avg_divisor. destruct (gq_Type query); try done.
  repeat constructor. apply Itoa_nat_free_of_comma.
Qed.

(** The tokens of the expression of a group that has an operand. *)
Lemma tokens_of_agg_expression query serieName (cs : list contrib) :
  cs ≠ [] → Forall is_ident (map (agg_temp serieName) cs) →
  tokens_of (agg_expression query serieName cs)
  = sum_tokens (map (agg_temp serieName) cs) ++ divisor_tokens query.
Proof.
  intros Hne Hid. unfold agg_expression.
  rewrite tokens_of_Join, map_app, token_of_rpn_sum, token_of_avg_divisor; try done.
  - by destruct cs.
  - apply Forall_app; split; [by apply rpn_sum_free|apply avg_divisor_free].
Qed.

(** ** Values *)

(** Runs the tokens of a closed expression on the stack. *)
Ltac rpn_steps H :=
  unfold rpn_eval, rpn_run; cbn [foldM rpn_step obind]; rewrite ?H;
  cbn [foldM rpn_step obind].

Section values.
Context (ρ : row_env).

Lemma rpn_eval_ident x v : is_ident x → ρ x = Some v → rpn_eval ρ (tokens_of x) = Ok v.
Proof.
  intros Hx Hv. rewrite tokens_of_ident by done. by rpn_steps Hv.
Qed.

(** A scaling step multiplies by the scale as printed. *)
Lemma rpn_eval_scaled src scale v :
  is_ident src → f64_is_finite scale = true → ρ src = Some v →
  rpn_eval ρ (tokens_of (scaled src scale)) = Ok (apply_scale scale v).
Proof.
  intros Hsrc Hfin Hv. rewrite tokens_of_scaled by done. unfold apply_scale.
  destruct (f64_neqb scale f64_zero); by rpn_steps Hv.
Qed.

(** [x,UN,0,x,IF] is [x] with unknown samples as zero. *)
Lemma rpn_eval_zeroed x v :
  is_ident x → ρ x = Some v →
  rpn_eval ρ (tokens_of (x +:+ ",UN,0," +:+ x +:+ ",IF")) = Ok (zero_unknown v).
Proof.
  intros Hx Hv. rewrite tokens_of_zeroed by done.
  rpn_steps Hv. unfold zero_unknown. by destruct (f64_is_nan v).
Qed.

Lemma rpn_run_additions temps vs acc :
  Forall2 (λ t v, ρ t = Some v) temps vs →
  rpn_run ρ (concat (map (λ t, [TVar t; TAdd]) temps)) [acc]
  = Ok [sum_values acc vs].
Proof.
  intros Hρ. revert acc; induction Hρ as [|t v temps vs Hv _ IH]; intros acc; [done|].
  cbn [map concat app]. rewrite !rpn_run_cons. cbn [rpn_step]. rewrite Hv.
  cbn [obind rpn_step]. apply IH.
Qed.

Lemma rpn_run_sum t temps v vs :
  ρ t = Some v → Forall2 (λ t v, ρ t = Some v) temps vs →
  rpn_run ρ (sum_tokens (t :: temps)) [] = Ok [sum_values v vs].
Proof.
  intros Hv Hvs. cbn [sum_tokens]. rewrite rpn_run_cons. cbn [rpn_step].
  rewrite Hv. cbn [obind]. by apply rpn_run_additions.
Qed.

(** The expression of a group is the aggregate of its operands. *)
Lemma rpn_eval_agg_expression query serieName (cs : list contrib) v vs :
  Forall is_ident (map (agg_temp serieName) cs) →
  Forall2 (λ t v, ρ t = Some v) (map (agg_temp serieName) cs) (v :: vs) →
  rpn_eval ρ (tokens_of (agg_expression query serieName cs))
  = Ok (aggregate query v vs).
Proof.
  intros Hid Hρ.
  rewrite tokens_of_agg_expression; [|intros ->; by inversion Hρ|done].
  destruct (map (agg_temp serieName) cs) as [|t temps]; [by inversion Hρ|].
  apply Forall2_cons in Hρ as [Hv Hvs].
  unfold rpn_eval. rewrite rpn_run_app, (rpn_run_sum t temps v vs) by done.
  unfold aggregate, divisor_tokens. by destruct (gq_Type query).
Qed.

End values.
