(* ===== verification/CompileWf.v ===== *)
(** * The compiled programs are well formed

    The programs [rrdGetData] builds pass the check of [ProgramWf] as soon
    as the archives of the contributing series can be read and the scales
    are finite numbers: every expression refers to identifiers defined
    before it and leaves one value, and no identifier is defined twice
    ([Names]).  So the engine runs them to their end. *)

From Stdlib Require Import ZArith String Ascii List Lia.
From stdpp Require Import base tactics option list gmap strings.
From S2P Require Import Prelude GoStrings Float64 Rpn Rrd SetGraph Connector.
From S2P Require Import Examples ParseInfo StatRoundTrip EngineSem ProgramWf.
From S2P Require Import GetData CompileSpec Names Expressions.

(** ** Conditions on a query *)

Section conditions.
Context `{Samples} (w : window).

(** The archive of a contributing series can be read. *)
Definition readable (c : contrib) : Prop :=
  is_Some (fetch (FilePath (c_metric c)) (Dataset (c_metric c)) "AVERAGE" w).

(** The scales of a contributing series and of its group are numbers. *)
Definition finite_scales (query : GroupQuery) (cs : list contrib) : Prop :=
  f64_is_finite (gq_Scale query) = true
  ∧ Forall (λ c, f64_is_finite (sq_Scale (c_serie c)) = true) cs.

End conditions.

(** The operator of the group is one of the three, and a sum or an
    average has an operand. *)
Definition has_operand (query : GroupQuery) (cs : list contrib) : Prop :=
  match gq_Type query with
  | OperGroupTypeNone => True
  | OperGroupTypeAvg | OperGroupTypeSum => cs ≠ []
  | OperGroupTypeOther _ => False
  end.

(** ** Expressions *)

(** The environment in which the identifiers of a set have a value. *)
Definition env_of (names : gset string) : row_env :=
  λ x, if bool_decide (x ∈ names) then Some f64_zero else None.

(** An expression that has a value in a scope is well formed in it. *)
Lemma rpn_wf_of_eval (names : gset string) (toks : list token) (v : float64) :
  rpn_eval (env_of names) toks = Ok v →
  rpn_wf (λ x, bool_decide (x ∈ names)) toks = true.
Proof.
  intros Hv%rpn_eval_Ok_wf. eapply rpn_wf_mono; [|done].
  intros x [z Hz]%bool_decide_eq_true. unfold env_of in Hz.
  by case_bool_decide.
Qed.

Lemma env_of_elem (names : gset string) x :
  x ∈ names → env_of names x = Some f64_zero.
Proof. intros Hx. unfold env_of. by rewrite bool_decide_eq_true_2. Qed.

Lemma scaled_wf (names : gset string) src scale :
  is_ident src → f64_is_finite scale = true → src ∈ names →
  rpn_wf (λ x, bool_decide (x ∈ names)) (tokens_of (scaled src scale)) = true.
Proof.
  intros Hsrc Hfin Hin. eapply rpn_wf_of_eval.
  apply rpn_eval_scaled; [done..|by apply env_of_elem].
Qed.

Lemma zeroed_wf (names : gset string) x :
  is_ident x → x ∈ names →
  rpn_wf (λ x, bool_decide (x ∈ names))
    (tokens_of (x +:+ ",UN,0," +:+ x +:+ ",IF")) = true.
Proof.
  intros Hx Hin. eapply rpn_wf_of_eval.
  apply rpn_eval_zeroed; [done|by apply env_of_elem].
Qed.

Lemma agg_expression_wf (names : gset string) query k (cs : list contrib) :
  cs ≠ [] → Forall (λ c, agg_temp (temp_name k) c ∈ names) cs →
  rpn_wf (λ x, bool_decide (x ∈ names))
    (tokens_of (agg_expression query (temp_name k) cs)) = true.
Proof.
  intros Hne Hin. destruct cs as [|c cs]; [done|].
  eapply rpn_wf_of_eval.
  apply (rpn_eval_agg_expression _ _ _ _ f64_zero (map (λ _, f64_zero) cs)).
  - apply Forall_fmap, Forall_forall. intros c' _. apply agg_temp_ident.
  - apply (Forall2_fmap _ _ _ (c :: cs) (c :: cs)), Forall_Forall2_diag.
    eapply Forall_impl; [done|]. intros c' Hc'. by apply env_of_elem.
Qed.

(** ** Blocks *)

#[local] Arguments String.append !_ _ / : simpl nomatch.

Lemma vdef_fields_summary t fn :
  is_ident t → free_of "," fn = true →
  vdef_fields (t +:+ String "," fn) = Some (t, [], fn).
Proof.
  intros Ht Hfn. unfold vdef_fields.
  change (t +:+ String "," fn) with (Join [t; fn] ",").
  rewrite rpn_fields_Join; [done..|].
  repeat constructor; [by apply is_ident_free|done].
Qed.

Lemma vdef_fields_percent x p :
  is_ident x → free_of "," p = true →
  vdef_fields (x +:+ "," +:+ p +:+ ",PERCENT") = Some (x, [p], "PERCENT").
Proof.
  intros Hx Hp. unfold vdef_fields.
  change (x +:+ "," +:+ p +:+ ",PERCENT") with (Join [x; p; "PERCENT"] ",").
  rewrite rpn_fields_Join; [done..|].
  repeat constructor; [by apply is_ident_free|done].
Qed.

Section checks.
Context `{Samples} (w : window).

Lemma check_DEF sc v (m : rrdMetric) :
  is_Some (fetch (FilePath m) (Dataset m) "AVERAGE" w) →
  check_arg w sc (DEF v (FilePath m) (Dataset m) "AVERAGE") = Some (bind_series v sc).
Proof. intros Hf. simpl. by rewrite bool_decide_eq_true_2. Qed.

Lemma check_CDEF sc v rpn :
  rpn_wf (λ x, bool_decide (x ∈ sc_series sc)) (tokens_of rpn) = true →
  check_arg w sc (CDEF v rpn) = Some (bind_series v sc).
Proof. intros Hwf. simpl. by rewrite Hwf. Qed.

(** A summary and its line. *)
Lemma check_summary sc t v fn format prog :
  is_ident t → t ∈ sc_series sc →
  fn ∈ ["MINIMUM"; "AVERAGE"; "MAXIMUM"; "LAST"] →
  check_uses w sc (VDEF v (t +:+ String "," fn) :: PRINT v format :: prog)
  = check_uses w (bind_value v sc) prog.
Proof.
  intros Ht Hin Hfn. cbn [check_uses check_arg].
  rewrite vdef_fields_summary, (bool_decide_eq_true_2 _ Hin); [|done|].
  - cbn [known_statistic andb]. rewrite (bool_decide_eq_true_2 _ Hfn).
    cbn [mbind option_bind bind_value sc_values].
    rewrite bool_decide_eq_true_2; [done|]. apply elem_of_union_l. by apply elem_of_singleton.
  - repeat (apply elem_of_cons in Hfn as [->|Hfn]; [done|]).
    by apply elem_of_nil in Hfn.
Qed.

Lemma check_summary_block sc t label :
  is_ident t → t ∈ sc_series sc →
  is_Some (check_uses w sc (summary_block t label)).
Proof.
  intros Ht Hin.
  change (summary_block t label) with
    [VDEF (t +:+ "-min") (t +:+ ",MINIMUM");
     PRINT (t +:+ "-min") (print_format label "min");
     VDEF (t +:+ "-avg") (t +:+ ",AVERAGE");
     PRINT (t +:+ "-avg") (print_format label "avg");
     VDEF (t +:+ "-max") (t +:+ ",MAXIMUM");
     PRINT (t +:+ "-max") (print_format label "max");
     VDEF (t +:+ "-last") (t +:+ ",LAST");
     PRINT (t +:+ "-last") (print_format label "last")].
  repeat (rewrite check_summary; [|done|done|rewrite !elem_of_cons; auto]).
  by eexists.
Qed.

(** The block of a percentile. *)
Lemma check_percentile_block sc t label i p :
  is_ident t → t ∈ sc_series sc →
  is_Some (check_uses w sc (percentile_block t label i p)).
Proof.
  intros Ht Hin. unfold percentile_block. cbn [check_uses].
  rewrite check_CDEF by (by apply zeroed_wf). cbn [mbind option_bind check_arg].
  replace (t +:+ "-cdef" +:+ Itoa_nat i +:+ "," +:+ format_f 6 p +:+ ",PERCENT")
    with ((t +:+ "-cdef" +:+ Itoa_nat i) +:+ "," +:+ format_f 6 p +:+ ",PERCENT")
    by (by rewrite !string_app_assoc).
  rewrite vdef_fields_percent; [| |apply format_f_free_of_comma].
  - cbn [bind_series sc_series sc_values known_statistic andb].
    rewrite !bool_decide_eq_true_2; [|done|apply elem_of_union_l; by apply elem_of_singleton].
    cbn [andb mbind option_bind bind_value sc_values].
    rewrite bool_decide_eq_true_2; [by eexists|].
    apply elem_of_union_l. by apply elem_of_singleton.
  - apply is_ident_app; [done|]. by rewrite free_of_app, Itoa_nat_free_of_comma.
Qed.

Lemma elem_bind_series x v sc : x ∈ sc_series sc → x ∈ sc_series (bind_series v sc).
Proof. intros Hx. by apply elem_of_union_r. Qed.

Lemma elem_bind_series_eq v sc : v ∈ sc_series (bind_series v sc).
Proof. apply elem_of_union_l. by apply elem_of_singleton. Qed.

(** The statistics block of an identifier that names a series. *)
Lemma check_stat_program sc t label percentiles :
  is_ident t → t ∈ sc_series sc →
  is_Some (check_uses w sc (stat_program t label percentiles)).
Proof.
  intros Ht Hin. unfold stat_program. rewrite check_uses_app.
  destruct (check_summary_block sc t label Ht Hin) as [sc1 Hsc1].
  rewrite Hsc1. cbn [mbind option_bind].
  apply (check_uses_blocks w (λ sc, t ∈ sc_series sc)).
  - intros sc2 sc3 Hin2 [Hs _]. by apply Hs.
  - apply Forall_forall. intros b (i & p & -> & _)%elem_of_lookup_imap.
    intros sc2 Hin2. by apply check_percentile_block.
  - apply check_uses_le in Hsc1 as [Hs _]. by apply Hs.
Qed.

(** The three definitions of a series of a group without operator. *)
Lemma check_none_defs sc query k c :
  readable w c → f64_is_finite (sq_Scale (c_serie c)) = true →
  f64_is_finite (gq_Scale query) = true →
  check_uses w sc (none_defs query (temp_name k) c)
  = Some (bind_series (temp_name k)
            (bind_series (temp_name k +:+ "-orig1")
               (bind_series (temp_name k +:+ "-orig0") sc))).
Proof.
  intros Hread Hs Hq. unfold none_defs. cbn [check_uses].
  rewrite check_DEF by done. cbn [mbind option_bind].
  rewrite check_CDEF; [|by apply scaled_wf, elem_bind_series_eq; [apply orig0_ident|]].
  cbn [mbind option_bind].
  rewrite check_CDEF; [done|].
  by apply scaled_wf, elem_bind_series_eq; [apply orig1_ident|].
Qed.

Lemma check_none_graph_block sc query percentiles k c :
  readable w c → f64_is_finite (sq_Scale (c_serie c)) = true →
  f64_is_finite (gq_Scale query) = true →
  is_Some (check_uses w sc (none_graph_block query percentiles k c)).
Proof.
  intros Hread Hs Hq. unfold none_graph_block.
  rewrite check_uses_app, check_none_defs by done. cbn [mbind option_bind].
  apply check_stat_program; [apply temp_name_ident|apply elem_bind_series_eq].
Qed.

Lemma check_none_xport_block sc query k c :
  readable w c → f64_is_finite (sq_Scale (c_serie c)) = true →
  f64_is_finite (gq_Scale query) = true →
  is_Some (check_uses w sc (none_xport_block query k c)).
Proof.
  intros Hread Hs Hq. unfold none_xport_block.
  rewrite check_uses_app, check_none_defs by done.
  cbn [mbind option_bind check_uses check_arg].
  rewrite bool_decide_eq_true_2 by apply elem_bind_series_eq. by eexists.
Qed.

(** The block of an operand of a sum or an average. *)
Lemma check_agg_block sc k c :
  readable w c → is_Some (check_uses w sc (agg_block (temp_name k) c)).
Proof.
  intros Hread. unfold agg_block. cbn [check_uses].
  rewrite check_DEF by done. cbn [mbind option_bind].
  rewrite agg_block_expression, check_CDEF; [by eexists|].
  apply zeroed_wf; [apply agg_ori_ident|apply elem_bind_series_eq].
Qed.

(** The two definitions of the identifier of a group. *)
Lemma check_agg_defs sc query k (cs : list contrib) :
  cs ≠ [] → f64_is_finite (gq_Scale query) = true →
  Forall (λ c, agg_temp (temp_name k) c ∈ sc_series sc) cs →
  check_uses w sc (agg_defs query (temp_name k) cs)
  = Some (bind_series (temp_name k) (bind_series (temp_name k +:+ "-orig") sc)).
Proof.
  intros Hne Hq Hin. unfold agg_defs. cbn [check_uses].
  rewrite check_CDEF by (by apply agg_expression_wf). cbn [mbind option_bind].
  rewrite check_CDEF; [done|].
  by apply scaled_wf, elem_bind_series_eq; [apply orig_ident|].
Qed.

End checks.

(** ** Programs *)

Section programs.
Context `{Samples} (w : window).

Lemma in_scope_empty v : in_scope scope_empty v = false.
Proof. unfold in_scope. simpl. by rewrite !bool_decide_eq_false_2 by set_solver. Qed.

(** The check of a program that starts in the empty scope. *)
Lemma wf_program_empty prog :
  NoDup (omap defines prog) → is_Some (check_uses w scope_empty prog) →
  wf_program w scope_empty prog = true.
Proof.
  intros Hnd Hcheck. unfold wf_program.
  rewrite !andb_true_iff, !bool_decide_eq_true. split; [split; [done|]|done].
  apply Is_true_true, forallb_True, Forall_forall. intros v _.
  by rewrite in_scope_empty.
Qed.

Lemma check_none_graph_blocks sc query percentiles k0 (cs : list contrib) :
  Forall (readable w) cs → finite_scales query cs →
  is_Some (check_uses w sc
             (concat (imap (λ j, none_graph_block query percentiles (k0 + j)) cs))).
Proof.
  intros Hread [Hq Hs]. apply (check_uses_blocks w (λ _, True)); [done| |done].
  apply Forall_forall. intros b (j & c & -> & Hc%list_elem_of_lookup_2)%elem_of_lookup_imap.
  intros sc1 _. apply check_none_graph_block; [|by eapply Forall_forall in Hs|done].
  by eapply Forall_forall in Hread.
Qed.

Lemma check_none_xport_blocks sc query k0 (cs : list contrib) :
  Forall (readable w) cs → finite_scales query cs →
  is_Some (check_uses w sc
             (concat (imap (λ j, none_xport_block query (k0 + j)) cs))).
Proof.
  intros Hread [Hq Hs]. apply (check_uses_blocks w (λ _, True)); [done| |done].
  apply Forall_forall. intros b (j & c & -> & Hc%list_elem_of_lookup_2)%elem_of_lookup_imap.
  intros sc1 _. apply check_none_xport_block; [|by eapply Forall_forall in Hs|done].
  by eapply Forall_forall in Hread.
Qed.

(** After the blocks of the operands, every operand is in scope. *)
Lemma check_agg_blocks sc k (cs : list contrib) :
  Forall (readable w) cs →
  ∃ sc', check_uses w sc (concat (map (agg_block (temp_name k)) cs)) = Some sc'
         ∧ Forall (λ c, agg_temp (temp_name k) c ∈ sc_series sc') cs.
Proof.
  intros Hread.
  destruct (check_uses_blocks w (λ _, True) (map (agg_block (temp_name k)) cs) sc)
    as [sc' Hsc']; [done| |done|].
  - apply Forall_fmap. eapply Forall_impl; [done|]. intros c Hc sc1 _.
    by apply check_agg_block.
  - exists sc'. split; [done|]. apply Forall_forall. intros c Hc.
    eapply (check_uses_series w _ _ _ (CDEF (agg_temp (temp_name k) c) _));
      [done| |done|done].
    apply elem_of_concat.
    exists (agg_block (temp_name k) c). split; [|by apply list_elem_of_fmap_2].
    unfold agg_block. apply elem_of_cons; right. by apply list_elem_of_singleton.
Qed.

Lemma check_agg_graph_program query percentiles (cs : list contrib) :
  cs ≠ [] → Forall (readable w) cs → f64_is_finite (gq_Scale query) = true →
  is_Some (check_uses w scope_empty (agg_graph_program query percentiles cs)).
Proof.
  intros Hne Hread Hq. unfold agg_graph_program.
  destruct (check_agg_blocks scope_empty 0 cs Hread) as (sc1 & Hsc1 & Hin).
  rewrite check_uses_app, Hsc1. cbn [mbind option_bind].
  rewrite check_uses_app, check_agg_defs by done. cbn [mbind option_bind].
  apply check_stat_program; [apply temp_name_ident|apply elem_bind_series_eq].
Qed.

Lemma check_agg_xport_program query (cs : list contrib) :
  cs ≠ [] → Forall (readable w) cs → f64_is_finite (gq_Scale query) = true →
  is_Some (check_uses w scope_empty (agg_xport_program query cs)).
Proof.
  intros Hne Hread Hq. unfold agg_xport_program.
  destruct (check_agg_blocks scope_empty 0 cs Hread) as (sc1 & Hsc1 & Hin).
  rewrite check_uses_app, Hsc1. cbn [mbind option_bind].
  rewrite check_uses_app, check_agg_defs by done.
  cbn [mbind option_bind check_uses check_arg].
  rewrite bool_decide_eq_true_2 by apply elem_bind_series_eq. by eexists.
Qed.

End programs.

(** ** The theorem *)

Section compiled.
Context `{Samples} (w : window).

Lemma none_state_wf connector query percentiles infoOnly (cs : list contrib) :
  Forall (readable w) cs → finite_scales query cs →
  let st := none_state query percentiles infoOnly cs (compile_init connector infoOnly) in
  wf_program w scope_empty (Grapher.args (cs_graph st)) = true
  ∧ ∀ xport, cs_xport st = Some xport →
      wf_program w scope_empty (Exporter.args xport) = true.
Proof.
  intros Hread Hfin. unfold none_state. cbn [cs_graph cs_xport].
  rewrite compile_init_graph, compile_init_xport. split.
  - apply wf_program_empty;
      [apply (none_graph_defines_NoDup query percentiles 0 cs)|].
    by apply (check_none_graph_blocks w scope_empty query percentiles 0 cs).
  - destruct infoOnly; [done|]. intros xport [= <-].
    apply wf_program_empty; [apply (none_xport_defines_NoDup query 0 cs)|].
    by apply (check_none_xport_blocks w scope_empty query 0 cs).
Qed.

Lemma agg_compiled_wf connector query percentiles infoOnly (cs : list contrib) :
  NoDup (c_index <$> cs) → cs ≠ [] →
  Forall (readable w) cs → finite_scales query cs →
  let st := agg_compiled connector query percentiles infoOnly cs in
  wf_program w scope_empty (Grapher.args (cs_graph st)) = true
  ∧ ∀ xport, cs_xport st = Some xport →
      wf_program w scope_empty (Exporter.args xport) = true.
Proof.
  intros Hnd Hne Hread [Hq _]. cbn [agg_compiled cs_graph cs_xport]. split.
  - apply wf_program_empty; [by apply agg_graph_defines_NoDup|].
    by apply check_agg_graph_program.
  - destruct infoOnly; [done|]. intros xport [= <-].
    apply wf_program_empty; [by apply agg_xport_defines_NoDup|].
    by apply check_agg_xport_program.
Qed.

(** C15: the programs of a query are well formed: when the series of the
    query resolve in the catalog, their archives can be read, the scales
    are finite numbers and a sum or an average has at least one operand,
    [compile] returns and both the graph program and the export program
    pass the check of well-formed programs: no identifier is defined
    twice, every expression refers to identifiers defined before it and
    leaves exactly one value. *)
Theorem compile_wf connector query percentiles infoOnly (cs : list contrib) :
  resolve connector 0 (gq_Series query) = Ok cs →
  has_operand query cs → Forall (readable w) cs → finite_scales query cs →
  ∃ st, compile connector query percentiles infoOnly = Ok st
        ∧ wf_program w scope_empty (Grapher.args (cs_graph st)) = true
        ∧ ∀ xport, cs_xport st = Some xport →
            wf_program w scope_empty (Exporter.args xport) = true.
Proof.
  intros Hcs Hop Hread Hfin. rewrite compile_cases, Hcs.
  pose proof (resolve_indices _ _ _ _ Hcs) as [Hnd _].
  unfold has_operand in Hop.
  destruct (gq_Type query); cbn [obind]; [| | |done];
    (eexists; split; [done|]);
    first [by apply none_state_wf|by apply agg_compiled_wf].
Qed.

End compiled.
