(* ===== verification/GetDataSpec.v ===== *)
(** * rrdGetData: errors, the collapsing rule and the two runs

    What a call of [rrdGetData] returns on each of its paths: the query
    without series, the group of one series, the operator that is none of
    the three, the series whose metric the catalog lacks, the failure of
    the export or of the graph run; which runs a call makes; what it
    leaves of the engine's buffers, and what it writes into the query;
    two calls, one after the other, in either order. *)

From Stdlib Require Import ZArith String Ascii List Lia Floats.SpecFloat.
From stdpp Require Import base tactics option list gmap strings.
From S2P Require Import Prelude GoStrings Float64 Rrd SetGraph Connector.
From S2P Require Import Examples ParseInfo GetData CompileSpec.

(** ** The collapsing rule *)

Lemma set_Type_same query : set_Type (gq_Type query) query = query.
Proof. by destruct query. Qed.

Lemma collapse_single query :
  length (gq_Series query) = 1 → collapse query = set_Type OperGroupTypeNone query.
Proof.
  intros Hlen. unfold collapse. rewrite Hlen. simpl.
  case_bool_decide as Hty; simpl; [|done].
  by rewrite <- Hty, set_Type_same.
Qed.

Lemma collapse_many query : length (gq_Series query) ≠ 1 → collapse query = query.
Proof.
  intros Hlen. unfold collapse.
  apply Nat.eqb_neq in Hlen as ->. by rewrite andb_false_r.
Qed.

Lemma collapse_Series query : gq_Series (collapse query) = gq_Series query.
Proof. unfold collapse. by destruct (_ && _). Qed.

Section getdata_spec.
Context `{Engine} `{Strconv}.
Implicit Types (connector : RRDConnector) (query : GroupQuery).
Implicit Types (percentiles : list float64) (infoOnly : bool) (live : nat).

(** ** Errors of the compilation *)

(** A query without series fails with "group has no series"; nothing
    is compiled or run, and the query and the engine's buffers are as
    before. *)
Theorem rrdGetData_empty connector query startTime endTime step percentiles
    infoOnly live :
  gq_Series query = [] →
  rrdGetData connector query startTime endTime step percentiles infoOnly live
  = {| cr_query := query; cr_live := live; cr_ret := Err "group has no series" |}.
Proof. intros Hs. unfold rrdGetData. by rewrite Hs. Qed.

(** C21: a group of exactly one series is handled as a group without
    operator, whatever its operator. *)
Theorem rrdGetData_single_series connector query startTime endTime step
    percentiles infoOnly live :
  length (gq_Series query) = 1 →
  rrdGetData connector query startTime endTime step percentiles infoOnly live
  = rrdGetData connector (set_Type OperGroupTypeNone query) startTime endTime
      step percentiles infoOnly live.
Proof.
  intros Hlen. unfold rrdGetData. simpl. rewrite Hlen. simpl.
  by rewrite !collapse_single.
Qed.

(** The rule for a group of one series applies once. *)
Lemma collapse_idemp query : collapse (collapse query) = collapse query.
Proof.
  destruct (decide (length (gq_Series query) = 1)) as [Hlen|Hlen].
  - by rewrite (collapse_single query), collapse_single.
  - by rewrite !(collapse_many query).
Qed.

(** C22: the query a call leaves is the query after the rule for a group
    of one series, on every path: the call writes the operator of the
    caller's query.  A later call with the query as it was left returns
    what a call with the original query returns. *)
Theorem rrdGetData_again connector query startTime endTime step percentiles
    infoOnly live live' :
  let r := rrdGetData connector query startTime endTime step percentiles
             infoOnly live in
  cr_query r = collapse query
  ∧ rrdGetData connector (cr_query r) startTime endTime step percentiles
      infoOnly live'
    = rrdGetData connector query startTime endTime step percentiles infoOnly live'.
Proof.
  assert (∀ l, cr_query (rrdGetData connector query startTime endTime step
                           percentiles infoOnly l) = collapse query) as Hq.
  { intros l. unfold rrdGetData.
    destruct (Nat.eqb_spec (length (gq_Series query)) 0) as [Hlen|_];
      [by rewrite collapse_many by lia|].
    destruct (compile _ _ _ _); [by destruct (execute _ _ _ _ _ _)|done..]. }
  split; [apply Hq|]. cbn zeta. rewrite Hq. unfold rrdGetData.
  rewrite collapse_idemp, collapse_Series.
  destruct (Nat.eqb_spec (length (gq_Series query)) 0) as [Hlen|_]; [|done].
  by rewrite collapse_many by lia.
Qed.

(** An operator that is none of the three fails a query of two series
    or more with "unknown `n' operator type"; no program is run. *)
Theorem rrdGetData_unknown_operator connector query n startTime endTime step
    percentiles infoOnly live :
  gq_Type query = OperGroupTypeOther n → 1 < length (gq_Series query) →
  rrdGetData connector query startTime endTime step percentiles infoOnly live
  = {| cr_query := query; cr_live := live;
       cr_ret := Err ("unknown `" +:+ Itoa n +:+ "' operator type") |}.
Proof.
  intros Hty Hlen. unfold rrdGetData.
  destruct (Nat.eqb_spec (length (gq_Series query)) 0) as [|_]; [lia|].
  rewrite collapse_many by lia. unfold compile. by rewrite Hty.
Qed.

Lemma resolve_missing connector i series serie m :
  serie ∈ series → sq_Metric serie = Some m →
  metrics_lookup connector (mq_SourceName m) (mq_Name m) = None →
  resolve connector i series = Panic NilDereference.
Proof.
  intros Hin Hm Hmiss. revert i.
  induction series as [|s series IH]; intros i;
    [exfalso; by eapply not_elem_of_nil|].
  apply elem_of_cons in Hin as [<-|Hin]; simpl.
  - by rewrite Hm, (metric_of_panics connector m Hmiss).
  - rewrite (IH Hin). destruct (sq_Metric s) as [m'|]; [|done].
    unfold metric_of.
    by destruct (metrics_lookup connector (mq_SourceName m') (mq_Name m')).
Qed.

Lemma compile_missing connector query percentiles infoOnly serie m :
  serie ∈ gq_Series query → sq_Metric serie = Some m →
  metrics_lookup connector (mq_SourceName m) (mq_Name m) = None →
  (∀ n, gq_Type query ≠ OperGroupTypeOther n) →
  compile connector query percentiles infoOnly = Panic NilDereference.
Proof.
  intros Hin Hm Hmiss Hty. rewrite compile_cases.
  destruct (gq_Type query) as [| | |n] eqn:E; [..|by destruct (Hty n)];
    by rewrite (resolve_missing _ _ _ serie m).
Qed.

(** A series that refers to a metric the catalog lacks makes the call
    panic with a nil dereference: there is no check before the lookup. *)
Theorem rrdGetData_missing_metric connector query serie m startTime endTime
    step percentiles infoOnly live :
  serie ∈ gq_Series query → sq_Metric serie = Some m →
  metrics_lookup connector (mq_SourceName m) (mq_Name m) = None →
  (∀ n, gq_Type (collapse query) ≠ OperGroupTypeOther n) →
  cr_ret (rrdGetData connector query startTime endTime step percentiles
            infoOnly live)
  = Panic NilDereference.
Proof.
  intros Hin Hm Hmiss Hty. unfold rrdGetData.
  destruct (Nat.eqb_spec (length (gq_Series query)) 0) as [Hlen|_].
  { destruct (gq_Series query); [exfalso; by eapply not_elem_of_nil|done]. }
  rewrite (compile_missing _ _ _ _ serie m); try done.
  by rewrite collapse_Series.
Qed.

(** ** The two runs *)

Lemma rrdGetData_compiled connector query st startTime endTime step percentiles
    infoOnly live :
  gq_Series query ≠ [] →
  compile connector (collapse query) percentiles infoOnly = Ok st →
  rrdGetData connector query startTime endTime step percentiles infoOnly live
  = {| cr_query := collapse query;
       cr_live := (execute st startTime endTime step infoOnly live).1;
       cr_ret := (execute st startTime endTime step infoOnly live).2 |}.
Proof.
  intros Hne Hc. unfold rrdGetData. rewrite Hc.
  destruct (gq_Series query); [done|]. simpl. by destruct (execute _ _ _ _ _ _).
Qed.

(** A failure of the export is returned as it is, and the graph
    program is not run. *)
Theorem execute_export_error st xport msg startTime endTime step live :
  cs_xport st = Some xport → Xport xport startTime endTime step = Err msg →
  execute st startTime endTime step false live = (live, Err msg).
Proof. intros Hx He. unfold execute, run_export. by rewrite Hx, He. Qed.

(** A failure of the graph run is returned as it is. *)
Theorem execute_graph_error st msg startTime endTime step infoOnly live live'
    result :
  run_export st startTime endTime step infoOnly live = (live', Ok result) →
  Graph (cs_graph st) startTime endTime = Err msg →
  execute st startTime endTime step infoOnly live = (live', Err msg).
Proof. intros Hx Hg. unfold execute, run_graph. by rewrite Hx, Hg. Qed.

(** A call for statistics only is the graph run on an empty result. *)
Lemma execute_infoOnly st startTime endTime step live :
  execute st startTime endTime step true live
  = run_graph st startTime endTime live ∅.
Proof. reflexivity. Qed.

(** The graph run leaves the engine's buffers as they are: the value it
    frees holds none. *)
Lemma run_graph_live st startTime endTime live result :
  (run_graph st startTime endTime live result).1 = live.
Proof.
  unfold run_graph. destruct (Graph _ _ _) as [info| |]; [|done..].
  by destruct (rrdParseInfo info result).
Qed.

(** C36: the buffer of an export is never released: when the export
    succeeds, the engine holds one buffer more after the call than before,
    whether the call then succeeds or fails. *)
Theorem execute_never_frees st xport data vs startTime endTime step live :
  cs_xport st = Some xport → Xport xport startTime endTime step = Ok data →
  values data = Some vs →
  (execute st startTime endTime step false live).1 = S live.
Proof.
  intros Hx Hd Hv. unfold execute, run_export. rewrite Hx, Hd, Hv.
  destruct (foldMi _ _ _ _); [|done..]. apply run_graph_live.
Qed.

(** ** The buffers of the engine as a frame *)

(** The two runs count the buffers they take on top of those the engine
    holds: what they return does not depend on that number. *)
Lemma run_graph_frame st startTime endTime live k result :
  run_graph st startTime endTime (live + k) result
  = ((run_graph st startTime endTime live result).1 + k,
     (run_graph st startTime endTime live result).2).
Proof.
  unfold run_graph. destruct (Graph _ _ _); [|done..].
  destruct (rrdParseInfo _ _); [|done..]. by rewrite !FreeValues_zero.
Qed.

Lemma execute_frame st startTime endTime step infoOnly live k :
  execute st startTime endTime step infoOnly (live + k)
  = ((execute st startTime endTime step infoOnly live).1 + k,
     (execute st startTime endTime step infoOnly live).2).
Proof.
  unfold execute, run_export. destruct infoOnly; [apply run_graph_frame|].
  destruct (cs_xport st) as [xport|]; [|done].
  destruct (Xport xport startTime endTime step) as [data| |]; [|done..].
  destruct (values data), (foldMi _ _ _ _); try done;
    apply (run_graph_frame _ _ _ (S live)) || apply run_graph_frame.
Qed.

(** A call adds its buffers to those the engine holds and is otherwise
    independent of them. *)
Theorem rrdGetData_frame connector query startTime endTime step percentiles
    infoOnly live k :
  let r := rrdGetData connector query startTime endTime step percentiles infoOnly live in
  rrdGetData connector query startTime endTime step percentiles infoOnly (live + k)
  = {| cr_query := cr_query r; cr_live := cr_live r + k; cr_ret := cr_ret r |}.
Proof.
  unfold rrdGetData. destruct (length (gq_Series query) =? 0)%nat; [done|].
  destruct (compile connector (collapse query) percentiles infoOnly); [|done..].
  rewrite execute_frame. by destruct (execute _ _ _ _ _ live).
Qed.

(** Two calls on the same connector, one after the other: each returns
    what it returns alone, and the engine holds the buffers of both,
    whichever comes first. *)
Theorem calls_commute connector q1 q2 startTime endTime step percentiles
    infoOnly live :
  let call q := rrdGetData connector q startTime endTime step percentiles infoOnly in
  cr_ret (call q2 (cr_live (call q1 live))) = cr_ret (call q2 live)
  ∧ cr_live (call q2 (cr_live (call q1 live)))
    = cr_live (call q1 (cr_live (call q2 live))).
Proof.
  intros call.
  assert (∀ q l, cr_ret (call q l) = cr_ret (call q 0)
                 ∧ cr_live (call q l) = cr_live (call q 0) + l) as Hcall.
  { intros q l. unfold call.
    pose proof (rrdGetData_frame connector q startTime endTime step percentiles
                  infoOnly 0 l) as Hf. cbn [Nat.add] in Hf. by rewrite Hf. }
  destruct (Hcall q2 (cr_live (call q1 live))) as [-> ->].
  destruct (Hcall q1 (cr_live (call q2 live))) as [_ ->].
  destruct (Hcall q1 live) as [_ ->]. destruct (Hcall q2 live) as [-> ->].
  split; [done|lia].
Qed.

End getdata_spec.

(** A call for statistics only never runs the export: two engines
    that agree on graph runs give the same result. *)
Theorem execute_infoOnly_no_export (E1 E2 : Engine) `{Strconv} st startTime
    endTime step live :
  (∀ g s e, @Graph E1 g s e = @Graph E2 g s e) →
  @execute E1 _ st startTime endTime step true live
  = @execute E2 _ st startTime endTime step true live.
Proof.
  intros Hg. rewrite !execute_infoOnly. unfold run_graph. by rewrite Hg.
Qed.

(** ** Scales *)

(** C35: a scale is written into the expression with six decimals: a
    positive scale below 0.0000005 is written as [0.000000], and the series
    is multiplied by zero. *)
Theorem scaled_small_scale src (m : positive) (e : Z) :
  (e < 0)%Z → (2 * (Zpos m * 10 ^ 6) < 2 ^ (- e))%Z →
  scaled src (S754_finite false m e) = src +:+ ",0.000000,*".
Proof.
  intros He Hlt. unfold scaled. cbn [f64_neqb SFeqb SFcompare f64_zero negb].
  by rewrite (format_f_small 6).
Qed.

(** ** Witnesses and examples *)

Lemma rrdGetData_empty_witness :
  @rrdGetData (failing_Engine "x" "g") decimal_Strconv ex_connector
    (ex_query OperGroupTypeSum []) 0 60 1 [f64_50] false 0
  = {| cr_query := ex_query OperGroupTypeSum []; cr_live := 0;
       cr_ret := Err "group has no series" |}.
Proof. by apply (@rrdGetData_empty (failing_Engine "x" "g") decimal_Strconv). Defined.

Lemma rrdGetData_single_series_witness :
  @rrdGetData (fixed_Engine ex_table ["cpu,min,1.5"]) decimal_Strconv ex_connector
    (ex_query OperGroupTypeSum [ex_cpu]) 0 60 1 [f64_50] false 0
  = @rrdGetData (fixed_Engine ex_table ["cpu,min,1.5"]) decimal_Strconv ex_connector
      (set_Type OperGroupTypeNone (ex_query OperGroupTypeSum [ex_cpu]))
      0 60 1 [f64_50] false 0.
Proof. by apply @rrdGetData_single_series. Defined.

Lemma rrdGetData_unknown_operator_witness :
  @rrdGetData (failing_Engine "x" "g") decimal_Strconv ex_connector
    (ex_query (OperGroupTypeOther 7) [ex_cpu; ex_mem]) 0 60 1 [] false 0
  = {| cr_query := ex_query (OperGroupTypeOther 7) [ex_cpu; ex_mem]; cr_live := 0;
       cr_ret := Err ("unknown `" +:+ Itoa 7 +:+ "' operator type") |}.
Proof. apply @rrdGetData_unknown_operator; [done|simpl; lia]. Defined.

Lemma rrdGetData_missing_metric_witness :
  cr_ret (@rrdGetData (failing_Engine "x" "g") decimal_Strconv ex_connector
            (ex_query OperGroupTypeSum [ex_cpu; ex_lost]) 0 60 1 [] false 0)
  = Panic NilDereference.
Proof.
  apply (@rrdGetData_missing_metric _ _ _ _ ex_lost
           {| mq_Name := "disk/value"; mq_SourceName := "host1" |});
    [by right; left | done | by vm_compute | done].
Defined.

Lemma execute_export_error_witness :
  @execute (failing_Engine "rrdcached: connection refused" "g") decimal_Strconv
    (compile_init ex_connector false) 0 60 1 false 3
  = (3, Err "rrdcached: connection refused").
Proof. by eapply @execute_export_error. Defined.

Lemma execute_graph_error_witness :
  @execute (graph_failing_Engine ex_table "no such file") decimal_Strconv
    (compile_init ex_connector true) 0 60 1 true 3
  = (3, Err "no such file").
Proof. by eapply @execute_graph_error. Defined.

Lemma execute_never_frees_witness :
  (@execute (graph_failing_Engine ex_table "no such file") decimal_Strconv
     (compile_init ex_connector false) 0 60 1 false 3).1 = 4.
Proof. by eapply @execute_never_frees. Defined.

Lemma execute_infoOnly_no_export_witness :
  @execute (failing_Engine "a" "g") decimal_Strconv
    (compile_init ex_connector true) 0 60 1 true 0
  = @execute (failing_Engine "b" "g") decimal_Strconv
      (compile_init ex_connector true) 0 60 1 true 0.
Proof. by apply execute_infoOnly_no_export. Defined.

(** The collapsing rule counts the series of the query, not those
    that have a metric: a sum of two series of which one has no metric keeps
    the group's name as label, where the same query without operator uses
    the name of the series. *)
Example collapse_counts_all_series :
  outcome_map cs_series
    (compile ex_connector (collapse (ex_query OperGroupTypeSum [ex_cpu; ex_unset]))
       [] true)
  = Ok {[ "serie0" := "grp" ]}
  ∧ outcome_map cs_series
      (compile ex_connector (collapse (ex_query OperGroupTypeNone [ex_cpu; ex_unset]))
         [] true)
    = Ok {[ "serie0" := "cpu" ]}.
Proof. split; vm_compute; reflexivity. Qed.

(** An operator that is none of the three is not reported for a
    query of one series: the collapsing rule turns it into no operator
    first. *)
Example unknown_operator_single_series :
  compile ex_connector (collapse (ex_query (OperGroupTypeOther 7) [ex_cpu])) [] true
  = compile ex_connector (ex_query OperGroupTypeNone [ex_cpu]) [] true
  ∧ is_Ok (compile ex_connector (collapse (ex_query (OperGroupTypeOther 7) [ex_cpu]))
             [] true) = true.
Proof. split; vm_compute; reflexivity. Qed.

Lemma scaled_small_scale_witness :
  scaled "serie0-orig0" f64_1e_7 = "serie0-orig0,0.000000,*".
Proof. by apply scaled_small_scale. Defined.
