(* ===== verification/Merge.v ===== *)
(** * The merge: export columns into results

    After an export, [rrdGetData] walks the legends of the table.  For
    each legend it looks up the label the identifier stands for, stores a
    fresh result under that label and appends the values of the column,
    row by row.  This file states what the walk computes as one assignment
    per column, proves it for every table that has a value for each legend
    and row, and follows the result through the graph run. *)

From Stdlib Require Import ZArith String Ascii List Lia.
From stdpp Require Import base tactics option list gmap strings.
From S2P Require Import Prelude GoStrings Float64 Rrd SetGraph Connector.
From S2P Require Import Examples ParseInfo GetData.

(** ** The specification *)

(** The label a column is stored under: the label of its identifier, the
    empty string when the identifier has none. *)
Definition label_of (series : gmap string string) (serieName : string) : string :=
  default "" (series !! serieName).

(** The values of a column of a well-formed table, in row order. *)
Definition column_values (data : XportResult) (index : nat) : list float64 :=
  map (λ row, default NaN (default [] (values data)
                              !! (length (Legends data) * row + index)))
    (seq 0 (Z.to_nat (RowCnt data))).

(** The result of a label that has samples and no statistic yet. *)
Definition plot_of_column (col : list float64) : PlotResult :=
  {| Plots := col; Info := ∅ |}.

(** One assignment per column: label and result. *)
Definition column_results (data : XportResult) (series : gmap string string)
    (first : nat) (legends : list string) : list (string * PlotResult) :=
  imap (λ j name,
          (label_of series name, plot_of_column (column_values data (first + j))))
    legends.

(** ** One column *)

(** The loop over the rows appends the values to the samples of the
    label, or panics with the first row that has no value. *)
Lemma collect_rows data index label rows (result : gmap string PlotResult) r :
  result !! label = Some r →
  foldM (λ result i,
           let! v := ValueAt data index i in
           Ok (alter (append_Plots v) label result)) rows result
  = let! col := mapM (ValueAt data index) rows in
    Ok (<[label := {| Plots := Plots r ++ col; Info := Info r |}]> result).
Proof.
  revert result r; induction rows as [|i rows IH]; intros result r Hr; simpl.
  - rewrite app_nil_r. f_equal. symmetry. destruct r. by apply insert_id.
  - destruct (ValueAt data index i) as [v| |]; simpl; [|done..].
    rewrite (IH _ (append_Plots v r)) by (by rewrite lookup_alter_eq, Hr).
    destruct (mapM _ rows) as [col| |]; simpl; [|done..].
    rewrite (alter_alt_Some _ _ _ _ Hr), insert_insert_eq.
    by rewrite <- app_assoc.
Qed.

Lemma collect_legend_spec data series result index serieName :
  collect_legend data series result index serieName
  = let! col := mapM (ValueAt data index) (seq 0 (Z.to_nat (RowCnt data))) in
    Ok (<[label_of series serieName := plot_of_column col]> result).
Proof.
  unfold collect_legend. fold (label_of series serieName).
  rewrite (collect_rows _ _ _ _ _ PlotResult_new) by apply lookup_insert_eq.
  destruct (mapM _ _) as [col| |]; simpl; [|done..].
  by rewrite insert_insert_eq.
Qed.

(** In a well-formed table every row of a column has a value. *)
Lemma column_wf data index :
  XportResult_wf data → index < length (Legends data) →
  mapM (ValueAt data index) (seq 0 (Z.to_nat (RowCnt data)))
  = Ok (column_values data index).
Proof.
  intros Hwf Hi. unfold column_values. apply mapM_total.
  intros row [_ Hrow]%elem_of_seq.
  destruct (ValueAt_wf data index row Hwf Hi) as [v Hv]; [lia|].
  rewrite Hv. unfold ValueAt in Hv.
  by destruct (default [] (values data) !! _); simplify_eq/=.
Qed.

(** ** The walk over the legends *)

Lemma column_results_cons data series first name legends :
  column_results data series first (name :: legends)
  = (label_of series name, plot_of_column (column_values data first))
    :: column_results data series (S first) legends.
Proof.
  unfold column_results. rewrite imap_cons, Nat.add_0_r. f_equal.
  apply imap_ext; intros; simpl. do 3 f_equal. lia.
Qed.

Lemma collect_legends_from data series first legends result :
  XportResult_wf data → first + length legends ≤ length (Legends data) →
  foldMi (collect_legend data series) first legends result
  = Ok (insert_all (column_results data series first legends) result).
Proof.
  intros Hwf. revert first result.
  induction legends as [|name legends IH]; intros first result Hlen; [done|].
  simpl in Hlen. cbn [foldMi]. rewrite collect_legend_spec, column_wf by (done || lia).
  cbn [obind]. rewrite IH by lia. by rewrite column_results_cons.
Qed.

Lemma column_results_labels data series first legends :
  (column_results data series first legends).*1 = label_of series <$> legends.
Proof.
  unfold column_results. rewrite fmap_imap.
  revert first; induction legends as [|name legends IH]; intros first; [done|].
  rewrite imap_cons, fmap_cons. f_equal. rewrite <- (IH (S first)).
  by apply imap_ext.
Qed.

(** The walk over the legends of a well-formed table succeeds and
    assigns to the label of each column the column's values, in the order of
    the columns. *)
Theorem collect_legends_spec data series :
  XportResult_wf data →
  foldMi (collect_legend data series) 0 (Legends data) ∅
  = Ok (insert_all (column_results data series 0 (Legends data)) ∅).
Proof. intros Hwf. by apply collect_legends_from. Qed.

(** A label has the column of the last legend that stands for it. *)
Lemma column_results_last data series before name after :
  label_of series name ∉ label_of series <$> after →
  insert_all (column_results data series 0 (before ++ name :: after)) ∅
    !! label_of series name
  = Some (plot_of_column (column_values data (length before))).
Proof.
  intros Hlast. unfold column_results.
  rewrite imap_app, imap_cons, Nat.add_0_r.
  apply insert_all_lookup_last.
  rewrite fmap_imap. intros (j & Hj)%list_elem_of_lookup.
  rewrite list_lookup_imap in Hj. apply Hlast, list_elem_of_lookup.
  exists j. rewrite list_lookup_fmap.
  destruct (after !! j); simplify_eq/=. by rewrite Hj.
Qed.

(** With distinct labels, each label has the column of its legend. *)
Lemma column_results_lookup data series legends index name :
  NoDup (label_of series <$> legends) → legends !! index = Some name →
  insert_all (column_results data series 0 legends) ∅ !! label_of series name
  = Some (plot_of_column (column_values data index)).
Proof.
  intros Hnd Hname.
  rewrite <- (take_drop_middle legends index name Hname) in Hnd |- *.
  rewrite fmap_app, fmap_cons in Hnd.
  apply NoDup_app in Hnd as (_ & _ & [Hlast _]%NoDup_cons).
  rewrite column_results_last by done.
  by rewrite length_take_le by (apply Nat.lt_le_incl; by eapply lookup_lt_Some).
Qed.

(** C27: when the labels of the columns are distinct, each label has the
    samples of its column, one per row and in row order, and no statistic. *)
Theorem collect_legends_lookup data series res index name :
  XportResult_wf data →
  NoDup (label_of series <$> Legends data) →
  foldMi (collect_legend data series) 0 (Legends data) ∅ = Ok res →
  Legends data !! index = Some name →
  res !! label_of series name = Some (plot_of_column (column_values data index)).
Proof.
  intros Hwf Hnd Hres Hname. rewrite (collect_legends_from _ _ 0) in Hres by done.
  injection Hres as <-. by apply column_results_lookup.
Qed.

(** When two columns have the same label, the later column replaces
    the earlier one: the label has the samples of the last column under
    it. *)
Theorem collect_legends_last_wins data series res before after name :
  XportResult_wf data →
  Legends data = before ++ name :: after →
  label_of series name ∉ label_of series <$> after →
  foldMi (collect_legend data series) 0 (Legends data) ∅ = Ok res →
  res !! label_of series name
  = Some (plot_of_column (column_values data (length before))).
Proof.
  intros Hwf Hsplit Hlast Hres. rewrite (collect_legends_from _ _ 0) in Hres by done.
  injection Hres as <-. rewrite Hsplit at 1. by apply column_results_last.
Qed.

Lemma column_values_length data index :
  length (column_values data index) = Z.to_nat (RowCnt data).
Proof. unfold column_values. by rewrite length_map, length_seq. Qed.

(** The labels of a merged result: those of the columns, when samples
    were asked for, and those of the lines. *)
Lemma result_is_Some ts (kvs : list (string * PlotResult)) (infoOnly : bool) label :
  is_Some (store ts (if infoOnly then ∅ else insert_all kvs ∅) !! label)
  ↔ (infoOnly = false ∧ label ∈ kvs.*1) ∨ label ∈ (λ t, t.1.1) <$> ts.
Proof.
  rewrite store_lookup_is_Some.
  change (map (λ t, t.1.1) ts) with ((λ t : string * string * float64, t.1.1) <$> ts).
  destruct infoOnly.
  - rewrite lookup_empty, is_Some_alt. intuition congruence.
  - rewrite insert_all_is_Some, lookup_empty, is_Some_alt. tauto.
Qed.

(** ** The two runs together *)

Section execute.
Context `{Engine} `{Strconv}.

Lemma XportResult_wf_values data : XportResult_wf data → is_Some (values data).
Proof. intros (_ & vs & -> & _). by eexists. Qed.

(** The export run on a well-formed table. *)
Lemma run_export_Ok st xport data startTime endTime step live :
  cs_xport st = Some xport →
  Xport xport startTime endTime step = Ok data → XportResult_wf data →
  run_export st startTime endTime step false live
  = (S live, Ok (insert_all (column_results data (cs_series st) 0 (Legends data)) ∅)).
Proof.
  intros Hx Hd Hwf. unfold run_export.
  rewrite Hx, Hd, (collect_legends_from _ _ 0) by done.
  by destruct (XportResult_wf_values data Hwf) as [vs ->].
Qed.

(** The graph run on lines that have their fields. *)
Lemma run_graph_Ok st info ts startTime endTime live result :
  Graph (cs_graph st) startTime endTime = Ok info →
  parse_lines (Print info) = Ok ts →
  run_graph st startTime endTime live result = (live, Ok (store ts result)).
Proof.
  intros Hg Hts. unfold run_graph. by rewrite Hg, rrdParseInfo_spec, Hts.
Qed.

(** Both runs, for a call with or without samples: the export is not run
    for the statistics only, and the buffers are then left alone. *)
Lemma execute_Ok st data info ts startTime endTime step infoOnly live :
  (infoOnly = false →
   ∃ xport, cs_xport st = Some xport
            ∧ Xport xport startTime endTime step = Ok data ∧ XportResult_wf data) →
  Graph (cs_graph st) startTime endTime = Ok info →
  parse_lines (Print info) = Ok ts →
  execute st startTime endTime step infoOnly live
  = (if infoOnly then live else S live,
     Ok (store ts
           (if infoOnly then ∅
            else insert_all (column_results data (cs_series st) 0 (Legends data)) ∅))).
Proof.
  intros Hx Hg Hts. unfold execute. destruct infoOnly.
  - unfold run_export. by rewrite (run_graph_Ok _ _ _ _ _ _ _ Hg Hts).
  - destruct Hx as (xport & Hx & Hd & Hwf); [done|].
    by rewrite (run_export_Ok _ _ _ _ _ _ _ Hx Hd Hwf),
      (run_graph_Ok _ _ _ _ _ _ _ Hg Hts).
Qed.

(** C7: when both runs succeed, the table is well formed and every line
    has its two commas, the call returns, for each label, the samples of
    its column and the statistics of its lines; and the engine holds one
    buffer more than before. *)
Theorem execute_success st xport data info ts startTime endTime step live :
  cs_xport st = Some xport →
  Xport xport startTime endTime step = Ok data → XportResult_wf data →
  Graph (cs_graph st) startTime endTime = Ok info →
  parse_lines (Print info) = Ok ts →
  execute st startTime endTime step false live
  = (S live,
     Ok (store ts
           (insert_all (column_results data (cs_series st) 0 (Legends data)) ∅))).
Proof. intros. apply (execute_Ok st data info); eauto. Qed.

(** A call for statistics only returns the statistics of the lines,
    under labels without samples, and leaves the engine's buffers alone. *)
Theorem execute_infoOnly_success st info ts startTime endTime step live :
  Graph (cs_graph st) startTime endTime = Ok info →
  parse_lines (Print info) = Ok ts →
  execute st startTime endTime step true live = (live, Ok (store ts ∅)).
Proof. intros. by apply (execute_Ok st XportResult_zero info). Qed.

End execute.

(** ** Witnesses and examples *)

Lemma collect_legends_spec_witness :
  foldMi (collect_legend ex_table ex_series) 0 (Legends ex_table) ∅
  = Ok (insert_all (column_results ex_table ex_series 0 (Legends ex_table)) ∅).
Proof. apply collect_legends_spec, ex_table_wf. Defined.

Lemma collect_legends_lookup_witness :
  insert_all (column_results ex_table ex_series 0 (Legends ex_table)) ∅ !! "mem"
  = Some (plot_of_column [f64_2; f64_50]).
Proof.
  apply (collect_legends_lookup ex_table ex_series _ 1 "serie1");
    [apply ex_table_wf | | by vm_compute | done].
  compute_decide.
Defined.

Lemma collect_legends_last_wins_witness :
  insert_all (column_results ex_table ex_series_same 0 (Legends ex_table)) ∅ !! "cpu"
  = Some (plot_of_column [f64_2; f64_50]).
Proof.
  apply (collect_legends_last_wins ex_table ex_series_same _ ["serie0"] [] "serie1");
    [apply ex_table_wf | done | | by vm_compute].
  compute_decide.
Defined.

Lemma execute_success_witness :
  @execute (fixed_Engine ex_table ["cpu,min,1.5"]) decimal_Strconv
    {| cs_graph := Grapher.NewGrapher; cs_xport := Some Exporter.NewExporter;
       cs_series := ex_series; cs_stack := []; cs_count := 2 |} 0 60 1 false 0
  = (1, Ok (store [("cpu", "min", f64_1_5)]
              (insert_all (column_results ex_table ex_series 0 (Legends ex_table)) ∅))).
Proof.
  eapply (@execute_success (fixed_Engine ex_table ["cpu,min,1.5"]) decimal_Strconv);
    [done | done | apply ex_table_wf | done | by vm_compute].
Defined.

Lemma execute_infoOnly_success_witness :
  @execute (fixed_Engine ex_table ["cpu,min,1.5"]) decimal_Strconv
    (compile_init ex_connector true) 0 60 1 true 0
  = (0, Ok (store [("cpu", "min", f64_1_5)] ∅)).
Proof.
  eapply (@execute_infoOnly_success (fixed_Engine ex_table ["cpu,min,1.5"])
            decimal_Strconv); [done | by vm_compute].
Defined.

(** Two columns that stand for the same label leave one result: the
    samples of the later column, those of the earlier one are lost. *)
Example duplicate_label_overwrites :
  foldMi (collect_legend ex_table ex_series_same) 0 (Legends ex_table) ∅
  = Ok {[ "cpu" := plot_of_column [f64_2; f64_50] ]}.
Proof. compute_decide. Qed.
