(* ===== verification/ProgramSem.v ===== *)
(** * What the compiled programs compute

    The export program of a query, run on the engine of [EngineSem],
    yields one column per final identifier.  This file follows the run
    operation by operation and states the columns with the reference
    operations of [Expressions]: for a group without operator, the samples
    of each contributing series through its two scaling steps; for a sum
    or an average, the aggregate of the samples with unknown samples as
    zero, through the scaling step of the group. *)

From Stdlib Require Import ZArith String Ascii List Lia.
From stdpp Require Import base tactics option list gmap strings.
From S2P Require Import Prelude GoStrings Float64 Rpn Rrd SetGraph Connector.
From S2P Require Import Examples ParseInfo StatRoundTrip EngineSem GetData.
From S2P Require Import CompileSpec Expressions.

(** ** The columns, by reference *)

Section reference.
Context `{Samples} (w : window).

(** The samples of a metric, by row; not-a-number where the archive
    cannot be read. *)
Definition samples_of (m : rrdMetric) : nat → float64 :=
  default (λ _, NaN) (fetch (FilePath m) (Dataset m) "AVERAGE" w).

(** A function of the row as a column. *)
Definition column (g : nat → float64) : list float64 := map g (seq 0 (rows w)).

(** The value of a series of a group without operator at a row: its
    sample through the scale of the series and the scale of the group. *)
Definition none_value (query : GroupQuery) (c : contrib) (r : nat) : float64 :=
  apply_scale (gq_Scale query)
    (apply_scale (sq_Scale (c_serie c)) (samples_of (c_metric c) r)).

Definition none_column (query : GroupQuery) (c : contrib) : list float64 :=
  column (none_value query c).

(** The operand of a series of a sum or an average: its samples with
    unknown samples as zero. *)
Definition operand_column (c : contrib) : list float64 :=
  column (λ r, zero_unknown (samples_of (c_metric c) r)).

(** The value of a sum or an average at a row, before the scale of the
    group and after it. *)
Definition agg_orig_value (query : GroupQuery) (c : contrib) (cs : list contrib)
    (r : nat) : float64 :=
  aggregate query (zero_unknown (samples_of (c_metric c) r))
    (map (λ c', zero_unknown (samples_of (c_metric c') r)) cs).

Definition agg_value (query : GroupQuery) (c : contrib) (cs : list contrib)
    (r : nat) : float64 :=
  apply_scale (gq_Scale query) (agg_orig_value query c cs r).

End reference.

(** ** Runs, operation by operation *)

Lemma lookup_column `{Samples} (w : window) (g : nat → float64) (r : nat) :
  r < rows w → column w g !! r = Some (g r).
Proof.
  intros Hr. unfold column. rewrite list_lookup_fmap, lookup_seq_lt by done.
  done.
Qed.

Lemma column_ext `{Samples} (w : window) (g g' : nat → float64) :
  (∀ r, g r = g' r) → column w g = column w g'.
Proof. intros Hg. unfold column. apply map_ext. intros r. apply Hg. Qed.

Lemma length_column `{Samples} (w : window) (g : nat → float64) :
  length (column w g) = rows w.
Proof. unfold column. by rewrite length_map, length_seq. Qed.

Section runs.
Context `{Samples} `{Statistics} (w : window).

(** A run keeps the series it has. *)
Lemma run_arg_series st a st' x col :
  run_arg w st a = Ok st' → es_series st !! x = Some col →
  es_series st' !! x = Some col.
Proof.
  intros Hrun Hx.
  assert (∀ v, defined st v = false → v ≠ x) as Hfresh.
  { intros v Hv ->. unfold defined in Hv. by rewrite Hx, bool_decide_eq_true_2 in Hv. }
  destruct a; simpl in Hrun; repeat case_match; simplify_eq; try done;
    try (apply obind_Ok_inv in Hrun as (? & ? & ?); simplify_eq);
    simpl; by rewrite lookup_insert_ne by (by apply Hfresh).
Qed.

Lemma run_program_series prog st st' x col :
  run_program w prog st = Ok st' → es_series st !! x = Some col →
  es_series st' !! x = Some col.
Proof.
  revert st; induction prog as [|a prog IH]; intros st; [by intros [= <-]|].
  rewrite run_program_cons. intros (st1 & Ha & Hp)%obind_Ok_inv Hx.
  eapply IH; [done|]. by eapply run_arg_series.
Qed.

Lemma run_program_DEF v file ds cf prog st st' :
  run_program w (DEF v file ds cf :: prog) st = Ok st' →
  ∃ f, fetch file ds cf w = Some f
       ∧ run_program w prog (add_series v (column w f) st) = Ok st'.
Proof.
  rewrite run_program_cons. intros (st1 & Ha & Hp)%obind_Ok_inv.
  simpl in Ha. repeat case_match; simplify_eq. by eexists.
Qed.

Lemma run_program_CDEF v rpn prog st st' :
  run_program w (CDEF v rpn :: prog) st = Ok st' →
  ∃ col, derive (rows w) (es_series st) (tokens_of rpn) = Ok col
         ∧ run_program w prog (add_series v col st) = Ok st'.
Proof.
  rewrite run_program_cons. intros (st1 & Ha & Hp)%obind_Ok_inv.
  simpl in Ha. case_match; [done|].
  apply obind_Ok_inv in Ha as (col & Hcol & [= <-]). by eexists.
Qed.

Lemma run_program_XPORT v legend prog st st' :
  run_program w (XPORT v legend :: prog) st = Ok st' →
  ∃ col, es_series st !! v = Some col
         ∧ run_program w prog (add_column legend col st) = Ok st'.
Proof.
  rewrite run_program_cons. intros (st1 & Ha & Hp)%obind_Ok_inv.
  simpl in Ha. repeat case_match; simplify_eq. by eexists.
Qed.

(** A derived series whose expression has the value [g r] at every row
    [r] is the column of [g]. *)
Lemma derive_column series toks col (g : nat → float64) :
  derive (rows w) series toks = Ok col →
  (∀ r, r < rows w → rpn_eval (row_of series r) toks = Ok (g r)) →
  col = column w g.
Proof.
  intros Hcol Hrows. rewrite (derive_rows _ _ _ g Hrows) in Hcol. by simplify_eq.
Qed.

Lemma row_of_column series x (g : nat → float64) r :
  series !! x = Some (column w g) → r < rows w → row_of series r x = Some (g r).
Proof. intros Hx Hr. unfold row_of. rewrite Hx. simpl. by apply lookup_column. Qed.

(** Every line of a run is a format of the program, filled. *)
Lemma run_program_lines (P : string → Prop) prog st st' :
  (∀ v format val, PRINT v format ∈ prog → P (fill_lf format val)) →
  Forall P (es_lines st) → run_program w prog st = Ok st' →
  Forall P (es_lines st').
Proof.
  intros Hprog Hst Hrun.
  eapply (foldM_invariant (λ st, Forall P (es_lines st))); [done| |done].
  intros s a s' Ha Hs Hstep.
  destruct a; simpl in Hstep; repeat case_match; simplify_eq; try done;
    try (apply obind_Ok_inv in Hstep as (? & ? & ?); by simplify_eq).
  simpl. apply Forall_app; split; [done|]. constructor; [|done]. by eapply Hprog.
Qed.

Lemma run_program_app_inv prog1 prog2 st st' :
  run_program w (prog1 ++ prog2) st = Ok st' →
  ∃ st1, run_program w prog1 st = Ok st1 ∧ run_program w prog2 st1 = Ok st'.
Proof. rewrite run_program_app. apply obind_Ok_inv. Qed.

(** ** A sum or an average *)

(** The block of an operand defines it as the samples of its series with
    unknown samples as zero. *)
Lemma run_agg_block k c st st' :
  run_program w (agg_block (temp_name k) c) st = Ok st' →
  es_series st' !! agg_temp (temp_name k) c = Some (operand_column w c)
  ∧ es_columns st' = es_columns st.
Proof.
  unfold agg_block. set (x := agg_temp (temp_name k) c).
  intros (f & Hf & (col & Hcol & [= <-])%run_program_CDEF)%run_program_DEF.
  rewrite agg_block_expression in Hcol.
  apply (derive_column _ _ _ (λ r, zero_unknown (f r))) in Hcol as ->.
  - split; [|done]. simpl. rewrite lookup_insert_eq.
    unfold operand_column, samples_of. by rewrite Hf.
  - intros r Hr. apply rpn_eval_zeroed; [apply agg_ori_ident|].
    apply (row_of_column _ _ f); [|done]. simpl. by rewrite lookup_insert_eq.
Qed.

Lemma run_agg_blocks k (cs : list contrib) st st' :
  run_program w (concat (map (agg_block (temp_name k)) cs)) st = Ok st' →
  Forall (λ c, es_series st' !! agg_temp (temp_name k) c
               = Some (operand_column w c)) cs
  ∧ es_columns st' = es_columns st.
Proof.
  revert st; induction cs as [|c cs IH]; intros st.
  - intros [= <-]. by split.
  - cbn [map concat]. intros (st1 & Hc & Hcs)%run_program_app_inv.
    apply run_agg_block in Hc as [Hc Hcols1].
    destruct (IH _ Hcs) as [Hall Hcols]. split; [|congruence].
    constructor; [|done]. by eapply run_program_series.
Qed.

(** The values of the operands at a row. *)
Lemma operands_at_row k (cs : list contrib) series r :
  Forall (λ c, series !! agg_temp (temp_name k) c = Some (operand_column w c)) cs →
  r < rows w →
  Forall2 (λ t v, row_of series r t = Some v)
    (map (agg_temp (temp_name k)) cs)
    (map (λ c, zero_unknown (samples_of w (c_metric c) r)) cs).
Proof.
  intros Hall Hr. apply Forall2_fmap, Forall_Forall2_diag.
  eapply Forall_impl; [done|]. intros c Hc. simpl.
  by apply (row_of_column _ _ (λ r, zero_unknown (samples_of w (c_metric c) r))).
Qed.

(** The two definitions of the group's identifier. *)
Lemma run_agg_defs k query c (cs : list contrib) st st' :
  f64_is_finite (gq_Scale query) = true →
  Forall (λ c, es_series st !! agg_temp (temp_name k) c
               = Some (operand_column w c)) (c :: cs) →
  run_program w (agg_defs query (temp_name k) (c :: cs)) st = Ok st' →
  es_series st' !! temp_name k = Some (column w (agg_value w query c cs))
  ∧ es_columns st' = es_columns st.
Proof.
  intros Hfin Hall. unfold agg_defs.
  intros (col1 & Hcol1 & (col & Hcol & [= <-])%run_program_CDEF)%run_program_CDEF.
  apply (derive_column _ _ _ (agg_orig_value w query c cs)) in Hcol1 as ->.
  - apply (derive_column _ _ _ (agg_value w query c cs)) in Hcol as ->.
    + split; [|done]. simpl. by rewrite lookup_insert_eq.
    + intros r Hr. apply rpn_eval_scaled; [apply orig_ident|done|].
      apply (row_of_column _ _ (agg_orig_value w query c cs)); [|done].
      simpl. by rewrite lookup_insert_eq.
  - intros r Hr. apply rpn_eval_agg_expression.
    + apply Forall_fmap, Forall_forall. intros c' _. apply agg_temp_ident.
    + by apply (operands_at_row k (c :: cs)).
Qed.

(** The export program of a sum or an average has one column: the
    aggregate of the operands, scaled. *)
Lemma run_agg_xport_program query c (cs : list contrib) st :
  f64_is_finite (gq_Scale query) = true →
  run_program w (agg_xport_program query (c :: cs)) engine_init = Ok st →
  es_columns st = [(temp_name 0, column w (agg_value w query c cs))].
Proof.
  intros Hfin. unfold agg_xport_program.
  intros (st1 & Hblocks & (st2 & Hdefs & Hx)%run_program_app_inv)%run_program_app_inv.
  apply run_agg_blocks in Hblocks as [Hall Hcols1].
  apply (run_agg_defs 0 query c cs) in Hdefs as [Hcol Hcols2]; [|done..].
  apply run_program_XPORT in Hx as (col & Hcol' & [= <-]).
  simpl. rewrite Hcols2, Hcols1. simpl. congruence.
Qed.

(** ** A group without operator *)

(** The definitions of a series: its identifier stands for its samples
    through the two scaling steps. *)
Lemma run_none_defs k query c st st' :
  f64_is_finite (sq_Scale (c_serie c)) = true →
  f64_is_finite (gq_Scale query) = true →
  run_program w (none_defs query (temp_name k) c) st = Ok st' →
  es_series st' !! temp_name k = Some (none_column w query c)
  ∧ es_columns st' = es_columns st ∧ es_lines st' = es_lines st.
Proof.
  intros Hs Hq. unfold none_defs.
  intros (f & Hf & (col1 & Hcol1 & (col & Hcol & [= <-])%run_program_CDEF)
            %run_program_CDEF)%run_program_DEF.
  apply (derive_column _ _ _ (λ r, apply_scale (sq_Scale (c_serie c)) (f r)))
    in Hcol1 as ->.
  - apply (derive_column _ _ _
             (λ r, apply_scale (gq_Scale query)
                     (apply_scale (sq_Scale (c_serie c)) (f r)))) in Hcol as ->.
    + simpl. rewrite lookup_insert_eq.
      unfold none_column, none_value, samples_of. by rewrite Hf.
    + intros r Hr. apply rpn_eval_scaled; [apply orig1_ident|done|].
      apply (row_of_column _ _ (λ r, apply_scale (sq_Scale (c_serie c)) (f r)));
        [|done].
      simpl. by rewrite lookup_insert_eq.
  - intros r Hr. apply rpn_eval_scaled; [apply orig0_ident|done|].
    apply (row_of_column _ _ f); [|done]. simpl. by rewrite lookup_insert_eq.
Qed.

(** The block of a series exports its samples through the two scaling
    steps. *)
Lemma run_none_xport_block k query c st st' :
  f64_is_finite (sq_Scale (c_serie c)) = true →
  f64_is_finite (gq_Scale query) = true →
  run_program w (none_xport_block query k c) st = Ok st' →
  es_columns st' = es_columns st ++ [(temp_name k, none_column w query c)].
Proof.
  intros Hs Hq. unfold none_xport_block.
  intros (st1 & (Hcol & Hcols & _)%run_none_defs & Hx)%run_program_app_inv;
    [|done..].
  apply run_program_XPORT in Hx as (col' & Hcol' & [= <-]).
  simpl. congruence.
Qed.

(** The export program of a group without operator has one column per
    contributing series, in the order of the query. *)
Lemma run_none_xport_blocks k0 query (cs : list contrib) st st' :
  Forall (λ c, f64_is_finite (sq_Scale (c_serie c)) = true) cs →
  f64_is_finite (gq_Scale query) = true →
  run_program w (concat (imap (λ j, none_xport_block query (k0 + j)) cs)) st
  = Ok st' →
  es_columns st'
  = es_columns st ++ imap (λ j c, (temp_name (k0 + j), none_column w query c)) cs.
Proof.
  intros Hcs Hq. revert k0 st.
  induction Hcs as [|c cs Hc _ IH]; intros k0 st.
  - intros [= <-]. by rewrite app_nil_r.
  - rewrite !imap_cons. cbn [concat].
    intros (st1 & Hb & Hrest)%run_program_app_inv.
    apply run_none_xport_block in Hb; [|done..].
    rewrite (imap_ext _ (λ j, none_xport_block query (S k0 + j))) in Hrest
      by (intros; simpl; f_equal; lia).
    rewrite (IH _ _ Hrest), Hb, <- app_assoc, Nat.add_0_r. do 2 f_equal.
    apply imap_ext; intros; simpl. do 2 f_equal. lia.
Qed.

End runs.

(** ** The lines of a graph program *)

(** The formats of a statistics block are those of its label. *)
Lemma stat_program_PRINT t label percentiles v format :
  PRINT v format ∈ stat_program t label percentiles →
  ∃ key, format = print_format label key.
Proof.
  unfold stat_program. intros [Hin|Hin]%elem_of_app.
  - unfold summary_block in Hin. simpl in Hin.
    repeat (apply elem_of_cons in Hin as [Heq|Hin]; [simplify_eq; by eexists|]).
    by apply elem_of_nil in Hin.
  - apply elem_of_concat in Hin as (b & Hin & (i & p & -> & _)%elem_of_lookup_imap).
    unfold percentile_block in Hin.
    repeat (apply elem_of_cons in Hin as [Heq|Hin]; [simplify_eq; by eexists|]).
    by apply elem_of_nil in Hin.
Qed.

(** Every format of a compiled graph program is [label,key,%lf]. *)
Lemma none_graph_PRINT query percentiles k0 (cs : list contrib) v format :
  PRINT v format
    ∈ concat (imap (λ j, none_graph_block query percentiles (k0 + j)) cs) →
  ∃ label key, format = print_format label key.
Proof.
  intros (b & Hin & (j & c & -> & _)%elem_of_lookup_imap)%elem_of_concat.
  unfold none_graph_block in Hin. apply elem_of_app in Hin as [Hin|Hin].
  - unfold none_defs in Hin.
    repeat (apply elem_of_cons in Hin as [Heq|Hin]; [done|]).
    by apply elem_of_nil in Hin.
  - apply stat_program_PRINT in Hin as [key ->]. by eexists _, _.
Qed.

Lemma agg_graph_PRINT query percentiles (cs : list contrib) v format :
  PRINT v format ∈ agg_graph_program query percentiles cs →
  ∃ label key, format = print_format label key.
Proof.
  unfold agg_graph_program. rewrite !elem_of_app. intros [Hin|[Hin|Hin]].
  - apply elem_of_concat in Hin as (b & Hin & (c & -> & _)%list_elem_of_fmap).
    unfold agg_block in Hin.
    repeat (apply elem_of_cons in Hin as [Heq|Hin]; [done|]).
    by apply elem_of_nil in Hin.
  - unfold agg_defs in Hin.
    repeat (apply elem_of_cons in Hin as [Heq|Hin]; [done|]).
    by apply elem_of_nil in Hin.
  - apply stat_program_PRINT in Hin as [key ->]. by eexists _, _.
Qed.
