(* ===== verification/StatSem.v ===== *)
(** * What the statistics blocks compute

    The graph program of a query ends, for each label, in the block of
    [rrdSetGraph]: four summaries of the final series and, per percentile,
    the percentile of the series with unknown samples as zero.  This file
    follows the run of the block on the engine of [EngineSem]: the lines
    it prints are the formats of the block, in order, each filled with the
    text of the value of its statistic. *)

From Stdlib Require Import ZArith String Ascii List Lia.
From stdpp Require Import base tactics option list gmap strings.
From S2P Require Import Prelude GoStrings Float64 Rpn Rrd SetGraph Connector.
From S2P Require Import Examples ParseInfo StatRoundTrip EngineSem GetData.
From S2P Require Import CompileSpec Expressions CompileWf ProgramSem.

(** ** The values, by reference *)

(** A label that [rrdParseInfo] can tell from its key and its value. *)
Definition plain_label (label : string) : Prop :=
  free_of "," label = true ∧ free_of "%" label = true.

Section reference.
Context `{Samples} `{Statistics} (w : window).

(** The value of a statistic over a series; the functions the connector
    asks for have a value on every series. *)
Definition stat_value (fn : string) (params : list string) (col : list float64)
  : float64 :=
  default NaN (statistic fn params col).

(** The four summaries of the series of [g]. *)
Definition summary_values (g : nat → float64) : list float64 :=
  (λ fn, stat_value fn [] (column w g)) <$> ["MINIMUM"; "AVERAGE"; "MAXIMUM"; "LAST"].

(** A percentile of the series of [g], unknown samples counting as zero;
    the percentile is passed as [%f] prints it. *)
Definition percentile_value (g : nat → float64) (p : float64) : float64 :=
  stat_value "PERCENT" [format_f 6 p] (column w (λ r, zero_unknown (g r))).

(** The values of the statistics of a label, in the order of its keys. *)
Definition stat_values (g : nat → float64) (percentiles : list float64)
  : list float64 :=
  summary_values g ++ map (percentile_value g) percentiles.

(** The lines of the statistics of a label. *)
Definition stat_lines (label : string) (g : nat → float64)
    (percentiles : list float64) : list string :=
  printed (print_format label <$> stat_keys percentiles)
    (print_lf <$> stat_values g percentiles).

(** The lines of a group without operator: those of its series, in
    the order of the query. *)
Definition none_stat_lines (query : GroupQuery) (percentiles : list float64)
    (cs : list contrib) : list string :=
  cs ≫= λ c, stat_lines (sq_Name (c_serie c)) (none_value w query c) percentiles.

(** The statistics of a label as [rrdParseInfo] reads them: label, key
    and what [ParseFloat] makes of the text of the value. *)
Definition stat_triples `{Strconv} (label : string) (g : nat → float64)
    (percentiles : list float64) : list (string * string * float64) :=
  zip_with (λ key v, (label, key, default NaN (ParseFloat v)))
    (stat_keys percentiles) (print_lf <$> stat_values g percentiles).

End reference.

(** ** Runs *)

(** The statistics depend on the values of the series only. *)
Lemma stat_values_ext `{Samples} `{Statistics} (w : window)
    (g g' : nat → float64) percentiles :
  (∀ r, g r = g' r) → stat_values w g percentiles = stat_values w g' percentiles.
Proof.
  intros Hg. unfold stat_values, summary_values, percentile_value.
  rewrite (column_ext w g g' Hg).
  by rewrite (column_ext w (λ r, zero_unknown (g r)) (λ r, zero_unknown (g' r)))
    by (intros; by rewrite Hg).
Qed.

Section runs.
Context `{Samples} `{Statistics} (w : window).

Lemma run_program_VDEF v rpn prog st st' :
  run_program w (VDEF v rpn :: prog) st = Ok st' →
  ∃ x params fn col val,
    vdef_fields rpn = Some (x, params, fn) ∧ es_series st !! x = Some col
    ∧ statistic fn params col = Some val
    ∧ run_program w prog (add_value v val st) = Ok st'.
Proof.
  rewrite run_program_cons. intros (st1 & Ha & Hp)%obind_Ok_inv.
  simpl in Ha. repeat case_match; simplify_eq. by repeat eexists.
Qed.

Lemma run_program_PRINT v format prog st st' :
  run_program w (PRINT v format :: prog) st = Ok st' →
  ∃ val, es_values st !! v = Some val
         ∧ run_program w prog (add_line (fill_lf format (print_lf val)) st) = Ok st'.
Proof.
  rewrite run_program_cons. intros (st1 & Ha & Hp)%obind_Ok_inv.
  simpl in Ha. repeat case_match; simplify_eq. by eexists.
Qed.

(** A statistic and its line: the line printed is the format filled with
    the text of the value. *)
Lemma run_statistic v rpn format x params fn col prog st st' :
  vdef_fields rpn = Some (x, params, fn) → es_series st !! x = Some col →
  run_program w (VDEF v rpn :: PRINT v format :: prog) st = Ok st' →
  ∃ st1, run_program w prog st1 = Ok st'
         ∧ es_series st1 = es_series st
         ∧ es_lines st1
           = es_lines st ++ [fill_lf format (print_lf (stat_value fn params col))].
Proof.
  intros Hfields Hx
    (x' & params' & fn' & col' & val & Hf & Hx' & Hval
       & (val' & Hv & Hrest)%run_program_PRINT)%run_program_VDEF.
  simpl in Hv. rewrite lookup_insert_eq in Hv. simplify_eq.
  eexists; split; [done|]. unfold stat_value. by rewrite Hval.
Qed.

(** The four summaries. *)
Lemma run_summary_block t label (g : nat → float64) st st' :
  is_ident t → es_series st !! t = Some (column w g) →
  run_program w (summary_block t label) st = Ok st' →
  es_series st' = es_series st
  ∧ es_lines st'
    = es_lines st
      ++ printed (print_format label <$> ["min"; "avg"; "max"; "last"])
           (print_lf <$> summary_values w g).
Proof.
  intros Ht Hcol.
  change (summary_block t label) with
    [VDEF (t +:+ "-min") (t +:+ ",MINIMUM"); PRINT (t +:+ "-min") (print_format label "min");
     VDEF (t +:+ "-avg") (t +:+ ",AVERAGE"); PRINT (t +:+ "-avg") (print_format label "avg");
     VDEF (t +:+ "-max") (t +:+ ",MAXIMUM"); PRINT (t +:+ "-max") (print_format label "max");
     VDEF (t +:+ "-last") (t +:+ ",LAST"); PRINT (t +:+ "-last") (print_format label "last")].
  intros (st1 & Hrun & Hs1 & Hl1)%(run_statistic _ _ _ t [] "MINIMUM" (column w g));
    [|by apply vdef_fields_summary|done].
  apply (run_statistic _ _ _ t [] "AVERAGE" (column w g)) in Hrun
    as (st2 & Hrun & Hs2 & Hl2); [|by apply vdef_fields_summary|congruence].
  apply (run_statistic _ _ _ t [] "MAXIMUM" (column w g)) in Hrun
    as (st3 & Hrun & Hs3 & Hl3); [|by apply vdef_fields_summary|congruence].
  apply (run_statistic _ _ _ t [] "LAST" (column w g)) in Hrun
    as (st4 & [= <-] & Hs4 & Hl4); [|by apply vdef_fields_summary|congruence].
  split; [congruence|]. rewrite Hl4, Hl3, Hl2, Hl1, <- !app_assoc. done.
Qed.

(** A percentile: the series with unknowns as zero, its percentile and
    its line. *)
Lemma run_percentile_block t label index p (g : nat → float64) st st' :
  is_ident t → es_series st !! t = Some (column w g) →
  run_program w (percentile_block t label index p) st = Ok st' →
  es_series st' !! t = Some (column w g)
  ∧ es_lines st'
    = es_lines st
      ++ [fill_lf (print_format label (percentile_key p))
            (print_lf (percentile_value w g p))].
Proof.
  intros Ht Hcol Hrun. split; [by eapply run_program_series|].
  revert Hrun. unfold percentile_block. set (x := t +:+ "-cdef" +:+ Itoa_nat index).
  assert (is_ident x) as Hx.
  { apply is_ident_app; [done|]. by rewrite free_of_app, Itoa_nat_free_of_comma. }
  intros (col & Hd & Hrun)%run_program_CDEF.
  apply (derive_column w _ _ _ (λ r, zero_unknown (g r))) in Hd as ->.
  - replace (t +:+ "-cdef" +:+ Itoa_nat index +:+ "," +:+ format_f 6 p +:+ ",PERCENT")
      with (x +:+ "," +:+ format_f 6 p +:+ ",PERCENT") in Hrun
      by (unfold x; by rewrite !string_app_assoc).
    apply (run_statistic _ _ _ x [format_f 6 p] "PERCENT"
             (column w (λ r, zero_unknown (g r)))) in Hrun
      as (st1 & [= <-] & _ & Hl);
      [done|apply vdef_fields_percent; [done|apply format_f_free_of_comma]|].
    simpl. by rewrite lookup_insert_eq.
  - intros r Hr. apply rpn_eval_zeroed; [done|]. by apply (row_of_column w _ _ g).
Qed.

Lemma run_percentile_blocks t label k0 percentiles (g : nat → float64) st st' :
  is_ident t → es_series st !! t = Some (column w g) →
  run_program w (concat (imap (λ j, percentile_block t label (k0 + j)) percentiles)) st
  = Ok st' →
  es_lines st'
  = es_lines st
    ++ printed (print_format label <$> map percentile_key percentiles)
         (print_lf <$> map (percentile_value w g) percentiles).
Proof.
  intros Ht. revert k0 st.
  induction percentiles as [|p ps IH]; intros k0 st Hcol.
  - intros [= <-]. by rewrite app_nil_r.
  - rewrite imap_cons. cbn [concat].
    intros (st1 & Hp & Hps)%run_program_app_inv.
    apply (run_percentile_block _ _ _ _ g) in Hp as [Hcol1 Hl1]; [|done..].
    rewrite (imap_ext _ (λ j, percentile_block t label (S k0 + j))) in Hps
      by (intros; simpl; f_equal; lia).
    rewrite (IH _ _ Hcol1 Hps), Hl1, <- app_assoc. done.
Qed.

(** The statistics block of a label prints the lines of its statistics. *)
Lemma run_stat_program t label percentiles (g : nat → float64) st st' :
  is_ident t → es_series st !! t = Some (column w g) →
  run_program w (stat_program t label percentiles) st = Ok st' →
  es_lines st' = es_lines st ++ stat_lines w label g percentiles.
Proof.
  intros Ht Hcol. unfold stat_program.
  intros (st1 & Hsum & Hps)%run_program_app_inv.
  apply (run_summary_block _ _ g) in Hsum as [Hs1 Hl1]; [|done..].
  apply (run_percentile_blocks t label 0 percentiles g) in Hps; [|done|congruence].
  rewrite Hps, Hl1, <- app_assoc. by f_equal.
Qed.

(** A program without PRINT prints nothing. *)
Lemma run_program_no_lines prog st st' :
  print_formats prog = [] → run_program w prog st = Ok st' →
  es_lines st' = es_lines st.
Proof.
  revert st; induction prog as [|a prog IH]; intros st Hnone; [by intros [= <-]|].
  rewrite run_program_cons. intros (st1 & Ha & Hp)%obind_Ok_inv.
  destruct a; try done; rewrite (IH st1) by done;
    simpl in Ha; repeat case_match; simplify_eq; try done;
    apply obind_Ok_inv in Ha as (? & ? & ?); by simplify_eq.
Qed.

Lemma print_formats_agg_blocks t (cs : list contrib) :
  print_formats (concat (map (agg_block t) cs)) = [].
Proof. induction cs as [|c cs IH]; [done|]. exact IH. Qed.

(** The graph program of a sum or an average prints the statistics of
    the aggregate, under the name of the group. *)
Lemma run_agg_graph_program query percentiles c (cs : list contrib) st :
  f64_is_finite (gq_Scale query) = true →
  run_program w (agg_graph_program query percentiles (c :: cs)) engine_init = Ok st →
  es_lines st
  = stat_lines w (gq_Name query) (agg_value w query c cs) percentiles.
Proof.
  intros Hfin. unfold agg_graph_program.
  intros (st1 & Hblocks & (st2 & Hdefs & Hstat)%run_program_app_inv)%run_program_app_inv.
  pose proof (run_program_no_lines _ _ _ (print_formats_agg_blocks _ _) Hblocks) as Hl1.
  pose proof (run_program_no_lines (agg_defs _ _ _) _ _ eq_refl Hdefs) as Hl2.
  apply run_agg_blocks in Hblocks as [Hall _].
  apply (run_agg_defs w 0 query c cs) in Hdefs as [Hcol _]; [|done..].
  apply (run_stat_program _ _ _ (agg_value w query c cs)) in Hstat as ->;
    [|apply temp_name_ident|done].
  by rewrite Hl2, Hl1.
Qed.

(** The graph operations of a series of a group without operator print
    the statistics of the series under its name. *)
Lemma run_none_graph_block k query percentiles c st st' :
  f64_is_finite (sq_Scale (c_serie c)) = true →
  f64_is_finite (gq_Scale query) = true →
  run_program w (none_graph_block query percentiles k c) st = Ok st' →
  es_lines st'
  = es_lines st
    ++ stat_lines w (sq_Name (c_serie c)) (none_value w query c) percentiles.
Proof.
  intros Hs Hq. unfold none_graph_block.
  intros (st1 & (Hcol & _ & Hl)%(run_none_defs w) & Hstat)%run_program_app_inv;
    [|done..].
  apply (run_stat_program _ _ _ (none_value w query c)) in Hstat as ->;
    [|apply temp_name_ident|done].
  by rewrite Hl.
Qed.

Lemma run_none_graph_blocks k0 query percentiles (cs : list contrib) st st' :
  Forall (λ c, f64_is_finite (sq_Scale (c_serie c)) = true) cs →
  f64_is_finite (gq_Scale query) = true →
  run_program w
    (concat (imap (λ j, none_graph_block query percentiles (k0 + j)) cs)) st
  = Ok st' →
  es_lines st' = es_lines st ++ none_stat_lines w query percentiles cs.
Proof.
  intros Hcs Hq. revert k0 st.
  induction Hcs as [|c cs Hc _ IH]; intros k0 st.
  - intros [= <-]. by rewrite app_nil_r.
  - rewrite !imap_cons. cbn [concat].
    intros (st1 & Hb & Hrest)%run_program_app_inv.
    apply run_none_graph_block in Hb; [|done..].
    rewrite (imap_ext _ (λ j, none_graph_block query percentiles (S k0 + j)))
      in Hrest by (intros; simpl; f_equal; lia).
    rewrite (IH _ _ Hrest), Hb, <- app_assoc. done.
Qed.

End runs.

(** ** The lines, read by [rrdParseInfo] *)

Section read.
Context `{Samples} `{Statistics} `{Strconv} (w : window).

Lemma stat_keys_plain percentiles :
  Forall (λ key, free_of "," key = true ∧ free_of "%" key = true)
    (stat_keys percentiles).
Proof.
  apply Forall_forall. intros k Hk. split.
  - by apply (stat_keys_free_of_comma percentiles).
  - by apply (stat_keys_free_of_percent percentiles).
Qed.

Lemma stat_lines_parse label (g : nat → float64) percentiles :
  plain_label label →
  parse_lines (stat_lines w label g percentiles)
  = Ok (stat_triples w label g percentiles).
Proof.
  intros [Hc Hp]. apply parse_lines_printed; [done..|apply stat_keys_plain].
Qed.

Lemma none_stat_lines_parse query percentiles (cs : list contrib) :
  Forall (λ c, plain_label (sq_Name (c_serie c))) cs →
  parse_lines (none_stat_lines w query percentiles cs)
  = Ok (cs ≫= λ c, stat_triples w (sq_Name (c_serie c)) (none_value w query c)
                     percentiles).
Proof.
  unfold none_stat_lines. induction 1 as [|c cs Hc _ IH]; [done|].
  rewrite !bind_cons, parse_lines_app, stat_lines_parse, IH by done. done.
Qed.

(** The triples of a label are under that label, and there is one. *)
Lemma stat_triples_labels label label' (g : nat → float64) percentiles :
  label' ∈ (λ t, t.1.1) <$> stat_triples w label g percentiles ↔ label' = label.
Proof.
  split.
  - intros (t & -> & Hin)%list_elem_of_fmap. unfold stat_triples in Hin.
    by apply elem_of_lookup_zip_with in Hin as (i & k & v & -> & _).
  - intros ->. unfold stat_triples, stat_keys, stat_values, summary_values.
    cbn [fmap list_fmap app zip_with fst]. by left.
Qed.

(** The labels of the triples of a group without operator are the names
    of its series. *)
Lemma none_triples_labels query percentiles (cs : list contrib) label :
  label ∈ (λ t, t.1.1)
          <$> (cs ≫= λ c, stat_triples w (sq_Name (c_serie c)) (none_value w query c)
                            percentiles)
  ↔ label ∈ (λ c, sq_Name (c_serie c)) <$> cs.
Proof.
  induction cs as [|c cs IH]; [done|].
  by rewrite bind_cons, fmap_app, elem_of_app, stat_triples_labels, fmap_cons,
    elem_of_cons, IH.
Qed.

(** The statistic of a key of the label. *)
Lemma last_value_stat_triples label (g : nat → float64) percentiles i key v :
  NoDup (stat_keys percentiles) →
  stat_keys percentiles !! i = Some key →
  stat_values w g percentiles !! i = Some v →
  last_value (stat_triples w label g percentiles) (label, key)
  = Some (default NaN (ParseFloat (print_lf v))).
Proof.
  intros Hnd Hkey Hv. apply (last_value_zip _ _ _ i); [done..|].
  by rewrite list_lookup_fmap, Hv.
Qed.

(** The triples of a label say nothing of another. *)
Lemma last_value_stat_triples_ne label label' (g : nat → float64) percentiles key :
  label ≠ label' →
  last_value (stat_triples w label g percentiles) (label', key) = None.
Proof.
  intros Hne. apply last_value_notin.
  intros ([[l k] x] & Heq & Hin)%list_elem_of_fmap.
  apply elem_of_lookup_zip_with in Hin as (j & k' & v' & Ht & _).
  unfold stat_of in Heq. by simplify_eq/=.
Qed.

Lemma last_value_none_triples_notin query percentiles (cs : list contrib) label key :
  label ∉ (λ c, sq_Name (c_serie c)) <$> cs →
  last_value
    (cs ≫= λ c, stat_triples w (sq_Name (c_serie c)) (none_value w query c) percentiles)
    (label, key)
  = None.
Proof.
  induction cs as [|c cs IH]; [done|].
  rewrite fmap_cons. intros [Hne Hnot]%not_elem_of_cons.
  rewrite bind_cons, last_value_app, IH by done.
  by rewrite last_value_stat_triples_ne.
Qed.

(** The statistic of a key under a name is the one of the lines of the
    last series of that name. *)
Lemma last_value_none_triples_last query percentiles (before after : list contrib)
    c i key v :
  sq_Name (c_serie c) ∉ (λ c, sq_Name (c_serie c)) <$> after →
  NoDup (stat_keys percentiles) →
  stat_keys percentiles !! i = Some key →
  stat_values w (none_value w query c) percentiles !! i = Some v →
  last_value
    ((before ++ c :: after)
       ≫= λ c, stat_triples w (sq_Name (c_serie c)) (none_value w query c) percentiles)
    (sq_Name (c_serie c), key)
  = Some (default NaN (ParseFloat (print_lf v))).
Proof.
  intros Hlast Hnd Hkey Hv.
  rewrite bind_app, bind_cons, !last_value_app.
  rewrite (last_value_none_triples_notin query percentiles after _ key Hlast).
  by rewrite (last_value_stat_triples _ _ _ i key v).
Qed.

(** With distinct names, the statistic of a key of a series is the one
    of the lines of the series. *)
Lemma last_value_none_triples query percentiles (cs : list contrib) c i key v :
  NoDup ((λ c, sq_Name (c_serie c)) <$> cs) → c ∈ cs →
  NoDup (stat_keys percentiles) →
  stat_keys percentiles !! i = Some key →
  stat_values w (none_value w query c) percentiles !! i = Some v →
  last_value
    (cs ≫= λ c, stat_triples w (sq_Name (c_serie c)) (none_value w query c) percentiles)
    (sq_Name (c_serie c), key)
  = Some (default NaN (ParseFloat (print_lf v))).
Proof.
  intros Hnames [k Hk]%list_elem_of_lookup Hnd Hkey Hv.
  rewrite <- (take_drop_middle cs k c Hk) in Hnames |- *.
  rewrite fmap_app, fmap_cons in Hnames.
  apply NoDup_app in Hnames as (_ & _ & [Hlast _]%NoDup_cons).
  by apply (last_value_none_triples_last _ _ _ _ _ i).
Qed.

End read.
