(* ===== verification/EndToEnd.v ===== *)
(** * From the query to the samples

    The whole of [rrdGetData], run on the engine of [EngineSem], for the
    two kinds of group.  For a sum or an average of several series, the
    samples under the name of the group are, row by row, the sum of the
    samples of the series with unknown samples as zero, divided by the
    number of series of the query for an average, through the scaling
    step of the group.  For a group without operator, the samples under
    the name of each series are the samples of its archive through the
    scaling steps of the series and of the group.  The proofs compose the
    compiler ([CompileSpec]), the well-formedness of its programs
    ([CompileWf]), their run ([ProgramSem]), the walk over the table
    ([Merge]) and the statistics ([StatRoundTrip], [ParseInfo]). *)

From Stdlib Require Import ZArith String Ascii List Lia.
From stdpp Require Import base tactics option list gmap strings.
From S2P Require Import Prelude GoStrings Float64 Rpn Rrd SetGraph Connector.
From S2P Require Import Examples ParseInfo StatRoundTrip EngineSem ProgramWf.
From S2P Require Import GetData CompileSpec Names Expressions CompileWf.
From S2P Require Import GetDataSpec Merge ProgramSem StatSem.

(** ** The table of the columns *)

(** The column of a legend of the engine's table is the column the run
    exported. *)
Lemma column_values_table_of n columns i legend col :
  columns !! i = Some (legend, col) → length col = n →
  column_values (table_of n columns) i = col.
Proof.
  intros Hi Hlen. unfold column_values.
  change (RowCnt (table_of n columns)) with (Z.of_nat n). rewrite Nat2Z.id.
  apply list_eq; intros r. rewrite list_lookup_fmap.
  destruct (decide (r < n)) as [Hr|Hr].
  - rewrite lookup_seq_lt by done. cbn [fmap option_fmap option_map Nat.add].
    rewrite (table_of_lookup n columns i legend col r) by done. simpl.
    destruct (lookup_lt_is_Some_2 col r) as [v Hv]; [lia|]. by rewrite Hv.
  - rewrite lookup_seq_ge, lookup_ge_None_2 by lia. done.
Qed.

Section end_to_end.
Context `{Samples} `{Statistics} `{Strconv}.

(** ** The two runs *)

(** The lines of a graph run of a compiled program all have their
    fields. *)
Lemma graph_lines_parse w prog st :
  (∀ v format, PRINT v format ∈ prog → ∃ label key, format = print_format label key) →
  run_program w prog engine_init = Ok st →
  ∃ ts, parse_lines (es_lines st) = Ok ts.
Proof.
  intros Hprint Hrun. apply parse_lines_two_commas.
  eapply (run_program_lines w _ prog engine_init st); [|constructor|done].
  intros v format val (label & key & ->)%Hprint. apply printed_line_count.
Qed.

(** The export of a sum or an average is the table of one column. *)
Lemma agg_Xport connector query percentiles c (cs : list contrib) xport
    startTime endTime step :
  let w := xport_window startTime endTime step in
  NoDup (c_index <$> c :: cs) →
  Forall (readable w) (c :: cs) → finite_scales query (c :: cs) →
  cs_xport (agg_compiled connector query percentiles false (c :: cs)) = Some xport →
  rpn_Xport xport startTime endTime step
  = Ok (table_of (rows w) [(temp_name 0, column w (agg_value w query c cs))]).
Proof.
  intros w Hnd Hread Hfin Hx.
  destruct (agg_compiled_wf w connector query percentiles false (c :: cs))
    as [_ Hwf]; [done..|].
  destruct (run_wf_program w _ (Hwf _ Hx)) as [st Hst].
  unfold rpn_Xport. fold w. rewrite Hst. cbn [obind]. simplify_eq/=.
  by erewrite run_agg_xport_program; [| |exact Hst]; [|apply Hfin].
Qed.

(** Its graph run prints the statistics of the aggregate, and the lines
    have their fields. *)
Lemma agg_Graph connector query percentiles infoOnly c (cs : list contrib)
    startTime endTime :
  let w := graph_window startTime endTime in
  NoDup (c_index <$> c :: cs) →
  Forall (readable w) (c :: cs) → finite_scales query (c :: cs) →
  ∃ ts,
    rpn_Graph (cs_graph (agg_compiled connector query percentiles infoOnly (c :: cs)))
      startTime endTime
    = Ok {| Print := stat_lines w (gq_Name query) (agg_value w query c cs) percentiles |}
    ∧ parse_lines (stat_lines w (gq_Name query) (agg_value w query c cs) percentiles)
      = Ok ts.
Proof.
  intros w Hnd Hread Hfin.
  destruct (agg_compiled_wf w connector query percentiles infoOnly (c :: cs))
    as [Hwf _]; [done..|].
  destruct (run_wf_program w _ Hwf) as [st Hst].
  destruct (graph_lines_parse w _ st (agg_graph_PRINT query percentiles (c :: cs)) Hst)
    as [ts Hts].
  rewrite (run_agg_graph_program w query percentiles c cs st) in Hts
    by (done || apply Hfin).
  exists ts. split; [|done]. unfold rpn_Graph. fold w. rewrite Hst. cbn [obind].
  by rewrite (run_agg_graph_program w query percentiles c cs st)
    by (done || apply Hfin).
Qed.

(** The statistics of the lines of a label: under each key, what
    [ParseFloat] reads in the text of the value. *)
Lemma stat_lines_info w label (g : nat → float64) percentiles ts result i key v :
  plain_label label → NoDup (stat_keys percentiles) →
  parse_lines (stat_lines w label g percentiles) = Ok ts →
  stat_keys percentiles !! i = Some key →
  stat_values w g percentiles !! i = Some v →
  info_of (store ts result) (label, key) = Some (default NaN (ParseFloat (print_lf v))).
Proof.
  intros Hlabel Hnd Hts Hkey Hv. rewrite stat_lines_parse in Hts by done.
  assert (ts = stat_triples w label g percentiles) as -> by congruence.
  by rewrite store_info_of, (last_value_stat_triples w _ _ _ i key v).
Qed.

(** The same for the lines of a group without operator: under a name,
    the statistics of the last series of that name. *)
Lemma none_stat_lines_info w query percentiles (before after : list contrib)
    ts result c i key v :
  Forall (λ c, plain_label (sq_Name (c_serie c))) (before ++ c :: after) →
  sq_Name (c_serie c) ∉ (λ c, sq_Name (c_serie c)) <$> after →
  NoDup (stat_keys percentiles) →
  parse_lines (none_stat_lines w query percentiles (before ++ c :: after)) = Ok ts →
  stat_keys percentiles !! i = Some key →
  stat_values w (none_value w query c) percentiles !! i = Some v →
  info_of (store ts result) (sq_Name (c_serie c), key)
  = Some (default NaN (ParseFloat (print_lf v))).
Proof.
  intros Hplain Hlast Hnd Hts Hkey Hv.
  rewrite none_stat_lines_parse in Hts by done.
  assert (ts = (before ++ c :: after)
                 ≫= λ c, stat_triples w (sq_Name (c_serie c)) (none_value w query c)
                           percentiles) as -> by congruence.
  by rewrite store_info_of, (last_value_none_triples_last w _ _ _ _ c i key v).
Qed.

(** The samples of the table of one column, under the label of its
    legend. *)
Lemma single_column_plots n legend label col ts :
  length col = n →
  plots_of
    (store ts
       (insert_all
          (column_results (table_of n [(legend, col)]) {[ legend := label ]} 0 [legend])
          ∅))
    label
  = col.
Proof.
  intros Hlen. rewrite store_plots_of. unfold plots_of, column_results, label_of.
  cbn [imap insert_all fold_left fst snd]. rewrite lookup_singleton_eq.
  cbn [default]. rewrite lookup_insert_eq. cbn [default plot_of_column Plots].
  by apply (column_values_table_of n _ 0 legend).
Qed.

(** A sum or an average of several series, with or without samples:
    when every series of the query has a metric whose archive can be read
    and the scales are numbers, the call succeeds.  When samples are asked
    for, the engine
    holds one buffer more, and the samples under the name of the group
    are, for each row, the sum of the samples of the series, an unknown
    sample counting as zero, divided by the number of series of the query
    for an average, and multiplied by the scale of the group when it is
    not zero; a call for the statistics only runs no export, leaves the
    buffers alone and returns no samples.  When the name of the group has
    neither a comma nor a percent sign, the result has an entry under the
    name of the group and under no other label; when also the keys of the
    percentiles are distinct, the statistics under the name of the group
    are those of the same aggregate over the window of the graph run,
    each as [ParseFloat] reads it in the text the engine prints. *)
Theorem rrdGetData_aggregate connector query c (cs : list contrib)
    startTime endTime step percentiles infoOnly live :
  let wx := xport_window startTime endTime step in
  let wg := graph_window startTime endTime in
  gq_Type query = OperGroupTypeSum ∨ gq_Type query = OperGroupTypeAvg →
  2 ≤ length (gq_Series query) →
  resolve connector 0 (gq_Series query) = Ok (c :: cs) →
  (infoOnly = false → Forall (readable wx) (c :: cs)) →
  Forall (readable wg) (c :: cs) →
  finite_scales query (c :: cs) →
  ∃ data,
    @rrdGetData rpn_Engine _ connector query startTime endTime step percentiles
      infoOnly live
    = {| cr_query := query; cr_live := if infoOnly then live else S live;
         cr_ret := Ok data |}
    ∧ plots_of data (gq_Name query)
      = (if infoOnly then [] else column wx (agg_value wx query c cs))
    ∧ (plain_label (gq_Name query) →
       ∀ label, is_Some (data !! label) ↔ label = gq_Name query)
    ∧ (plain_label (gq_Name query) → NoDup (stat_keys percentiles) →
       ∀ i key v,
         stat_keys percentiles !! i = Some key →
         stat_values wg (agg_value wg query c cs) percentiles !! i = Some v →
         info_of data (gq_Name query, key)
         = Some (default NaN (ParseFloat (print_lf v)))).
Proof.
  intros wx wg Hty Hlen Hres Hrx Hrg Hfin.
  destruct (resolve_indices _ _ _ _ Hres) as [Hnd _].
  pose (st := agg_compiled connector query percentiles infoOnly (c :: cs)).
  assert (compile connector (collapse query) percentiles infoOnly = Ok st) as Hc.
  { rewrite collapse_many, compile_cases, Hres by lia. by destruct Hty as [-> | ->]. }
  destruct (agg_Graph connector query percentiles infoOnly c cs startTime endTime)
    as (ts & Hg & Hts); [done..|].
  assert (gq_Series query ≠ []) as Hne
    by (intros Hnil; rewrite Hnil in Hlen; simpl in Hlen; lia).
  rewrite (@rrdGetData_compiled rpn_Engine _ _ _ st) by done.
  rewrite collapse_many by lia.
  erewrite (@execute_Ok rpn_Engine); [|intros ->; eexists; split; [done|]|done..].
  2: { split; [by apply (agg_Xport connector query percentiles c cs); auto|].
       apply table_of_wf. }
  cbn [fst snd]. eexists; split; [done|]. split; [|split].
  - rewrite store_plots_of. destruct infoOnly; [done|].
    rewrite <- (store_plots_of []). apply single_column_plots, length_column.
  - intros Hplain label. rewrite stat_lines_parse in Hts by done.
    injection Hts as <-.
    rewrite result_is_Some, stat_triples_labels, column_results_labels.
    cbn [Legends table_of fmap list_fmap fst]. unfold label_of.
    change (cs_series st) with ({[temp_name 0 := gq_Name query]} : gmap string string).
    rewrite lookup_singleton_eq, list_elem_of_singleton. cbn [default]. tauto.
  - intros Hplain Hkeys i key v Hkey Hv.
    by apply (stat_lines_info wg _ (agg_value wg query c cs) percentiles _ _ i).
Qed.

(** C1: [GetPlots] of a sum or an average of several series: when
    every series of the query has a metric whose archive can be read and
    the scales are numbers, the call succeeds, the engine holds one buffer
    more, and the samples under the name of the group are, for each row,
    the sum of the samples of the series, an unknown sample counting as
    zero, divided by the number of series of the query for an average, and
    multiplied by the scale of the group when it is not zero.  When the
    name of the group has neither a comma nor a percent sign, the result
    has an entry under the name of the group and under no other label;
    when also the keys of the percentiles are distinct, the statistics
    under the name of the group are those of the same aggregate over the
    window of the graph run, each as [ParseFloat] reads it in the text the
    engine prints. *)
Theorem GetPlots_aggregate connector query c (cs : list contrib)
    startTime endTime step percentiles live :
  let wx := xport_window startTime endTime step in
  let wg := graph_window startTime endTime in
  gq_Type query = OperGroupTypeSum ∨ gq_Type query = OperGroupTypeAvg →
  2 ≤ length (gq_Series query) →
  resolve connector 0 (gq_Series query) = Ok (c :: cs) →
  Forall (readable wx) (c :: cs) → Forall (readable wg) (c :: cs) →
  finite_scales query (c :: cs) →
  ∃ data,
    @GetPlots rpn_Engine _ connector query startTime endTime step percentiles live
    = {| cr_query := query; cr_live := S live; cr_ret := Ok data |}
    ∧ plots_of data (gq_Name query) = column wx (agg_value wx query c cs)
    ∧ (plain_label (gq_Name query) →
       ∀ label, is_Some (data !! label) ↔ label = gq_Name query)
    ∧ (plain_label (gq_Name query) → NoDup (stat_keys percentiles) →
       ∀ i key v,
         stat_keys percentiles !! i = Some key →
         stat_values wg (agg_value wg query c cs) percentiles !! i = Some v →
         info_of data (gq_Name query, key)
         = Some (default NaN (ParseFloat (print_lf v)))).
Proof.
  intros wx wg Hty Hlen Hres Hrx Hrg Hfin.
  by apply (rrdGetData_aggregate connector query c cs _ _ _ _ false).
Qed.

(** ** A group without operator *)

Lemma collapse_Scale query : gq_Scale (collapse query) = gq_Scale query.
Proof. unfold collapse. by case_match. Qed.

(** The operator after the first statement, for a group without operator
    or of one series. *)
Lemma collapse_None query :
  gq_Type query = OperGroupTypeNone ∨ length (gq_Series query) = 1 →
  gq_Type (collapse query) = OperGroupTypeNone.
Proof.
  intros [Hty| Hlen]; unfold collapse.
  - by rewrite Hty.
  - rewrite Hlen. by case_bool_decide.
Qed.

(** The labels of the exported columns are the names of the series. *)
Lemma none_column_labels (f : nat → contrib → list float64) (cs : list contrib) :
  label_of (insert_all (none_labels 0 cs) ∅) <$> (imap (λ j c, (temp_name j, f j c)) cs).*1
  = (λ c, sq_Name (c_serie c)) <$> cs.
Proof.
  apply list_eq; intros k. rewrite !list_lookup_fmap, list_lookup_imap.
  destruct (cs !! k) as [c|] eqn:Hk; [|done]. cbn [fmap option_fmap option_map fst].
  unfold label_of. by rewrite (none_labels_lookup cs k c).
Qed.

(** The export of a group without operator is the table of the columns
    of its series. *)
Lemma none_Xport connector query percentiles (cs : list contrib) xport
    startTime endTime step :
  let w := xport_window startTime endTime step in
  Forall (readable w) cs → finite_scales query cs →
  cs_xport (none_state query percentiles false cs (compile_init connector false))
  = Some xport →
  rpn_Xport xport startTime endTime step
  = Ok (table_of (rows w) (imap (λ j c, (temp_name j, none_column w query c)) cs)).
Proof.
  intros w Hread Hfin Hx.
  destruct (none_state_wf w connector query percentiles false cs) as [_ Hwf]; [done..|].
  destruct (run_wf_program w _ (Hwf _ Hx)) as [st Hst].
  unfold rpn_Xport. fold w. rewrite Hst. cbn [obind].
  unfold none_state in Hx. cbn [cs_xport] in Hx.
  rewrite compile_init_xport in Hx. simplify_eq/=.
  by erewrite (run_none_xport_blocks w 0); [| | |exact Hst]; [|apply Hfin..].
Qed.

Lemma none_Graph connector query percentiles infoOnly (cs : list contrib)
    startTime endTime :
  let w := graph_window startTime endTime in
  Forall (readable w) cs → finite_scales query cs →
  ∃ ts,
    rpn_Graph
      (cs_graph (none_state query percentiles infoOnly cs
                   (compile_init connector infoOnly)))
      startTime endTime
    = Ok {| Print := none_stat_lines w query percentiles cs |}
    ∧ parse_lines (none_stat_lines w query percentiles cs) = Ok ts.
Proof.
  intros w Hread Hfin.
  destruct (none_state_wf w connector query percentiles infoOnly cs)
    as [Hwf _]; [done..|].
  destruct (run_wf_program w _ Hwf) as [st Hst].
  assert (∃ ts, parse_lines (es_lines st) = Ok ts) as [ts Hts].
  { eapply graph_lines_parse; [|exact Hst].
    unfold none_state. cbn [cs_graph]. rewrite compile_init_graph.
    apply (none_graph_PRINT query percentiles 0 cs). }
  assert (es_lines st = none_stat_lines w query percentiles cs) as Hlines.
  { unfold none_state in Hst. cbn [cs_graph] in Hst.
    rewrite compile_init_graph in Hst.
    by apply (run_none_graph_blocks w 0) in Hst; [|apply Hfin..]. }
  exists ts. rewrite <- Hlines. split; [|done]. unfold rpn_Graph. fold w.
  by rewrite Hst.
Qed.

Lemma none_value_collapse `{Samples} w query c r :
  none_value w (collapse query) c r = none_value w query c r.
Proof. unfold none_value. by rewrite collapse_Scale. Qed.

(** The samples of the table of the series' columns, under a name:
    those of the last series of that name. *)
Lemma none_column_plots n (f : contrib → list float64) (before after : list contrib)
    ts c :
  sq_Name (c_serie c) ∉ (λ c, sq_Name (c_serie c)) <$> after →
  length (f c) = n →
  let cs := before ++ c :: after in
  let columns := imap (λ j c, (temp_name j, f c)) cs in
  plots_of
    (store ts
       (insert_all
          (column_results (table_of n columns) (insert_all (none_labels 0 cs) ∅) 0
             columns.*1)
          ∅))
    (sq_Name (c_serie c))
  = f c.
Proof.
  intros Hlast Hlen cs columns. set (k := length before).
  assert (cs !! k = Some c) as Hk by apply list_lookup_middle, eq_refl.
  assert (columns !! k = Some (temp_name k, f c)) as Hcol
    by (unfold columns; by rewrite list_lookup_imap, Hk).
  assert (columns.*1 !! k = Some (temp_name k)) as Hleg
    by (by rewrite list_lookup_fmap, Hcol).
  rewrite store_plots_of. unfold plots_of.
  assert (sq_Name (c_serie c)
          = label_of (insert_all (none_labels 0 cs) ∅) (temp_name k)) as ->
    by (unfold label_of; by rewrite (none_labels_lookup cs k c Hk)).
  rewrite <- (take_drop_middle _ _ _ Hleg).
  rewrite column_results_last.
  - cbn [default plot_of_column Plots].
    rewrite length_take_le by (apply Nat.lt_le_incl; by eapply lookup_lt_Some).
    by apply (column_values_table_of n _ k (temp_name k)).
  - rewrite fmap_drop. unfold columns.
    rewrite (none_column_labels (λ _, f)), <- fmap_drop.
    replace (drop (S k) cs) with after;
      [unfold label_of; by rewrite (none_labels_lookup cs k c Hk)|].
    unfold cs, k. rewrite (cons_middle c before after), app_assoc.
    symmetry. apply drop_app_length'. rewrite length_app. simpl. lia.
Qed.

(** A group without operator, or of one series, with or without
    samples: when every series of the query has a metric whose archive can
    be read and the scales are numbers, the call succeeds.  When samples
    are asked for, the engine holds one buffer more, and the samples under
    a name are those of the last series of that name: the samples of its
    archive, multiplied by the scale of the series and then by the scale
    of the group, a scale of zero standing for no scaling; a call for the
    statistics only runs no export, leaves the buffers alone and returns
    no samples.  When no name has a comma or a percent sign, the result
    has an entry under the name of each series that has a metric and
    under no other label: a series without metric is left out.  When also
    the keys of the percentiles are distinct, the statistics under a name
    are those of the same samples over the window of the graph run, each
    as [ParseFloat] reads it in the text the engine prints. *)
Theorem rrdGetData_series connector query (cs : list contrib)
    startTime endTime step percentiles infoOnly live :
  let wx := xport_window startTime endTime step in
  let wg := graph_window startTime endTime in
  gq_Type query = OperGroupTypeNone ∨ length (gq_Series query) = 1 →
  gq_Series query ≠ [] →
  resolve connector 0 (gq_Series query) = Ok cs →
  (infoOnly = false → Forall (readable wx) cs) →
  Forall (readable wg) cs → finite_scales query cs →
  ∃ data,
    @rrdGetData rpn_Engine _ connector query startTime endTime step percentiles
      infoOnly live
    = {| cr_query := collapse query; cr_live := if infoOnly then live else S live;
         cr_ret := Ok data |}
    ∧ (Forall (λ c, plain_label (sq_Name (c_serie c))) cs →
       ∀ label, is_Some (data !! label) ↔ label ∈ (λ c, sq_Name (c_serie c)) <$> cs)
    ∧ ∀ before c after,
        cs = before ++ c :: after →
        sq_Name (c_serie c) ∉ (λ c, sq_Name (c_serie c)) <$> after →
        plots_of data (sq_Name (c_serie c))
        = (if infoOnly then [] else none_column wx query c)
        ∧ (Forall (λ c, plain_label (sq_Name (c_serie c))) cs →
           NoDup (stat_keys percentiles) →
           ∀ i key v,
             stat_keys percentiles !! i = Some key →
             stat_values wg (none_value wg query c) percentiles !! i = Some v →
             info_of data (sq_Name (c_serie c), key)
             = Some (default NaN (ParseFloat (print_lf v)))).
Proof.
  intros wx wg Hty Hne Hres Hrx Hrg Hfin.
  pose (st := none_state (collapse query) percentiles infoOnly cs
                (compile_init connector infoOnly)).
  assert (finite_scales (collapse query) cs) as Hfin'
    by (unfold finite_scales; by rewrite collapse_Scale).
  assert (compile connector (collapse query) percentiles infoOnly = Ok st) as Hc.
  { by rewrite compile_cases, collapse_None, collapse_Series, Hres. }
  destruct (none_Graph connector (collapse query) percentiles infoOnly cs
              startTime endTime) as (ts & Hg & Hts); [done..|].
  rewrite (@rrdGetData_compiled rpn_Engine _ _ _ st) by done.
  erewrite (@execute_Ok rpn_Engine); [|intros ->|done..].
  2: { destruct (cs_xport st) as [xport|] eqn:Hx;
         [|by unfold st, none_state in Hx; cbn [cs_xport] in Hx;
              rewrite compile_init_xport in Hx].
       exists xport. split; [done|]. split; [|apply table_of_wf].
       apply (none_Xport connector (collapse query) percentiles cs); auto. }
  cbn [fst snd]. eexists; split; [done|]. split.
  { intros Hplain label. rewrite none_stat_lines_parse in Hts by done.
    injection Hts as <-.
    rewrite result_is_Some, none_triples_labels, column_results_labels.
    cbn [Legends table_of].
    change (cs_series st) with (insert_all (none_labels 0 cs) ∅).
    rewrite (none_column_labels (λ _, none_column wx (collapse query))). tauto. }
  intros before c after -> Hlast. split.
  - rewrite store_plots_of. destruct infoOnly; [done|].
    rewrite <- (store_plots_of []). unfold none_column.
    rewrite <- (column_ext wx _ _ (none_value_collapse wx query c)).
    by apply (none_column_plots (rows wx) (none_column wx (collapse query)));
      [|apply length_column].
  - intros Hplain Hkeys i key v Hkey Hv.
    apply (none_stat_lines_info wg (collapse query) percentiles before after _ _ c i);
      [done..|].
    by rewrite (stat_values_ext wg _ _ _ (none_value_collapse wg query c)).
Qed.

(** C4: [GetPlots] of a group without operator, or of one series: when
    every series of the query has a metric whose archive can be read and
    the scales are numbers, the call succeeds, the engine holds one buffer
    more, and the samples under a name are those of the last series of
    that name in the query (of the series itself when the names are
    distinct): the samples of its archive, multiplied by the scale of the
    series and then by the scale of the group, a scale of zero standing
    for no scaling.  When no name has a comma or a percent sign, the
    result has an entry under the name of each series that has a metric
    and under no other label: a series without metric is left out.  When
    also the keys of the percentiles are distinct, the statistics under
    the name are those of the same samples over the window of the graph
    run, each as [ParseFloat] reads it in the text the engine prints. *)
Theorem GetPlots_series connector query (cs : list contrib)
    startTime endTime step percentiles live :
  let wx := xport_window startTime endTime step in
  let wg := graph_window startTime endTime in
  gq_Type query = OperGroupTypeNone ∨ length (gq_Series query) = 1 →
  gq_Series query ≠ [] →
  resolve connector 0 (gq_Series query) = Ok cs →
  Forall (readable wx) cs → Forall (readable wg) cs → finite_scales query cs →
  ∃ data,
    @GetPlots rpn_Engine _ connector query startTime endTime step percentiles live
    = {| cr_query := collapse query; cr_live := S live; cr_ret := Ok data |}
    ∧ (Forall (λ c, plain_label (sq_Name (c_serie c))) cs →
       ∀ label, is_Some (data !! label) ↔ label ∈ (λ c, sq_Name (c_serie c)) <$> cs)
    ∧ ∀ before c after,
        cs = before ++ c :: after →
        sq_Name (c_serie c) ∉ (λ c, sq_Name (c_serie c)) <$> after →
        plots_of data (sq_Name (c_serie c)) = none_column wx query c
        ∧ (Forall (λ c, plain_label (sq_Name (c_serie c))) cs →
           NoDup (stat_keys percentiles) →
           ∀ i key v,
             stat_keys percentiles !! i = Some key →
             stat_values wg (none_value wg query c) percentiles !! i = Some v →
             info_of data (sq_Name (c_serie c), key)
             = Some (default NaN (ParseFloat (print_lf v)))).
Proof.
  intros wx wg Hty Hne Hres Hrx Hrg Hfin.
  by apply (rrdGetData_series connector query cs _ _ _ _ false).
Qed.

End end_to_end.
