(* ===== verification/Safety.v ===== *)
(** * Which calls panic, and which return an error

    [rrdGetData] has three places where it can panic: the dereference
    of the descriptor of a metric during the compilation, the read of a
    cell of the exported table, and the read of the third field of a
    printed line in [rrdParseInfo].  The last two depend on what the
    engine returns.  [EngineContract] states what the connector relies
    on: a run does not panic, an exported table has a value for every
    legend and row, and a line printed for a format of a statistics block
    has its fields.  Against that contract a call panics exactly when a
    series of the query names a metric the catalog lacks and the operator
    of the group is one of the three, and returns an error exactly when
    the query has no series, the operator is none of the three, or one of
    the two runs of the engine fails (the error is then the engine's own);
    the reference engine of [EngineSem] meets the contract. *)

From Stdlib Require Import ZArith String Ascii List Lia.
From stdpp Require Import base tactics option list gmap strings.
From S2P Require Import Prelude GoStrings Float64 Rpn Rrd SetGraph Connector.
From S2P Require Import ParseInfo StatRoundTrip EngineSem GetData CompileSpec.
From S2P Require Import GetDataSpec Merge ProgramSem.

(** ** Definitions *)

(** The series names a metric the catalog lacks. *)
Definition missing_metric (connector : RRDConnector) (serie : SerieQuery) : bool :=
  match sq_Metric serie with
  | Some m =>
      bool_decide (metrics_lookup connector (mq_SourceName m) (mq_Name m) = None)
  | None => false
  end.

(** The operator is one of the three the switch knows. *)
Definition known_operator (t : OperGroupType) : bool :=
  match t with OperGroupTypeOther _ => false | _ => true end.

(** The condition under which a call panics: a known operator, after the
    rule for a group of one series, and a series with a missing metric. *)
Definition panics (connector : RRDConnector) (query : GroupQuery) : bool :=
  known_operator (gq_Type (collapse query))
  && existsb (missing_metric connector) (gq_Series query).

(** Every format of the graph program is the format of a statistic. *)
Definition stat_formats (graph : Grapher.t) : Prop :=
  ∀ v format, PRINT v format ∈ Grapher.args graph →
    ∃ label key, format = print_format label key.

(** What the connector relies on from the engine. *)
Class EngineContract (E : Engine) : Prop := {
  Xport_no_panic : ∀ xport startTime endTime step p,
    Xport xport startTime endTime step ≠ Panic p;
  Xport_wf : ∀ xport startTime endTime step data,
    Xport xport startTime endTime step = Ok data → XportResult_wf data;
  Graph_no_panic : ∀ graph startTime endTime p,
    Graph graph startTime endTime ≠ Panic p;
  Graph_fields : ∀ graph startTime endTime info,
    stat_formats graph → Graph graph startTime endTime = Ok info →
    Forall (λ line, 2 ≤ count_byte "," line) (Print info)
}.

(** ** The condition in the terms of the query *)

Lemma known_operator_true t :
  known_operator t = true ↔ ∀ n, t ≠ OperGroupTypeOther n.
Proof. destruct t; simpl; split; try done. intros Hn. by destruct (Hn n). Qed.

Lemma missing_metric_true connector serie :
  missing_metric connector serie = true
  ↔ ∃ m, sq_Metric serie = Some m
         ∧ metrics_lookup connector (mq_SourceName m) (mq_Name m) = None.
Proof.
  unfold missing_metric. destruct (sq_Metric serie) as [m|].
  - rewrite bool_decide_eq_true. split; [by exists m|]. by intros (? & [= <-] & ?).
  - split; [done|]. by intros (? & ? & _).
Qed.

Lemma existsb_missing_metric connector series :
  existsb (missing_metric connector) series = true
  ↔ ∃ serie m, serie ∈ series ∧ sq_Metric serie = Some m
               ∧ metrics_lookup connector (mq_SourceName m) (mq_Name m) = None.
Proof.
  rewrite existsb_exists. setoid_rewrite missing_metric_true.
  setoid_rewrite <- list_elem_of_In.
  split; [intros (serie & Hin & m & Hm & Hl)|intros (serie & m & Hin & Hm & Hl)];
    eauto 10.
Qed.

(** ** The compilation *)

(** The resolution of the series fails in one way only. *)
Lemma resolve_cases connector i series :
  if existsb (missing_metric connector) series
  then resolve connector i series = Panic NilDereference
  else ∃ cs, resolve connector i series = Ok cs.
Proof.
  revert i. induction series as [|serie series IH]; intros i; [by eexists|].
  specialize (IH (S i)). cbn [existsb resolve]. unfold missing_metric at 1.
  destruct (sq_Metric serie) as [m|]; [|done]. unfold metric_of.
  case_bool_decide as Hm; [by rewrite Hm|].
  destruct (metrics_lookup _ _ _) as [metric|]; [|done]. cbn [orb of_option obind].
  destruct (existsb _ series); [by rewrite IH|].
  destruct IH as [cs ->]. by eexists.
Qed.

Lemma compile_panics connector query percentiles infoOnly :
  known_operator (gq_Type query) && existsb (missing_metric connector) (gq_Series query)
  = true →
  compile connector query percentiles infoOnly = Panic NilDereference.
Proof.
  intros [Hop Hmiss]%andb_true_iff. rewrite compile_cases.
  pose proof (resolve_cases connector 0 (gq_Series query)) as Hres.
  rewrite Hmiss in Hres. rewrite Hres. by destruct (gq_Type query).
Qed.

Lemma compile_no_panic connector query percentiles infoOnly p :
  known_operator (gq_Type query) && existsb (missing_metric connector) (gq_Series query)
  = false →
  compile connector query percentiles infoOnly ≠ Panic p.
Proof.
  intros Hp. rewrite compile_cases.
  pose proof (resolve_cases connector 0 (gq_Series query)) as Hres.
  destruct (gq_Type query); [| | |done]; simpl in Hp; rewrite Hp in Hres;
    by destruct Hres as [cs ->].
Qed.

(** A compiled state has an exporter unless the call is for the
    statistics only, and the formats of its graph program are those of
    statistics. *)
Lemma compile_xport connector query percentiles st :
  compile connector query percentiles false = Ok st → is_Some (cs_xport st).
Proof.
  rewrite compile_cases.
  destruct (gq_Type query); [| | |done];
    intros (cs & _ & [= <-])%obind_Ok_inv; [|done..].
  unfold none_state. cbn [cs_xport]. by rewrite compile_init_xport.
Qed.

Lemma compile_stat_formats connector query percentiles infoOnly st :
  compile connector query percentiles infoOnly = Ok st → stat_formats (cs_graph st).
Proof.
  rewrite compile_cases.
  destruct (gq_Type query); [| | |done];
    intros (cs & _ & [= <-])%obind_Ok_inv v format;
    [|apply agg_graph_PRINT..].
  unfold none_state. cbn [cs_graph]. rewrite compile_init_graph.
  apply (none_graph_PRINT query percentiles 0 cs).
Qed.

(** The compilation fails for an unknown operator only. *)
Lemma compile_Err connector query percentiles infoOnly e :
  compile connector query percentiles infoOnly = Err e
  ↔ ∃ n, gq_Type query = OperGroupTypeOther n ∧ e = unknown_operator n.
Proof.
  rewrite compile_cases.
  pose proof (resolve_cases connector 0 (gq_Series query)) as Hres.
  destruct (gq_Type query) as [| | |n];
    try (destruct (existsb _ _); [rewrite Hres|destruct Hres as [cs ->]];
         cbn [obind]; (split; [done|by intros (? & [=] & _)])).
  unfold unknown_operator. split; [intros [= <-]; by exists n|].
  by intros (? & [= <-] & ->).
Qed.


(** ** The two runs *)

Section contract.
Context {E : Engine} `{!EngineContract E} `{Strconv}.

Lemma run_export_no_panic st startTime endTime step infoOnly live p :
  (infoOnly = false → is_Some (cs_xport st)) →
  (run_export st startTime endTime step infoOnly live).2 ≠ Panic p.
Proof.
  intros Hx. destruct infoOnly; [done|]. destruct Hx as [xport Hx]; [done|].
  pose proof (Xport_no_panic xport startTime endTime step) as Hp.
  pose proof (Xport_wf xport startTime endTime step) as Hwf.
  destruct (Xport xport startTime endTime step) as [data| |q] eqn:Hd.
  - by rewrite (run_export_Ok st xport data) by eauto.
  - unfold run_export. by rewrite Hx, Hd.
  - by destruct (Hp q).
Qed.

Lemma run_graph_no_panic st startTime endTime live result p :
  stat_formats (cs_graph st) →
  (run_graph st startTime endTime live result).2 ≠ Panic p.
Proof.
  intros Hf.
  pose proof (Graph_no_panic (cs_graph st) startTime endTime) as Hp.
  pose proof (Graph_fields (cs_graph st) startTime endTime) as Hl.
  destruct (Graph (cs_graph st) startTime endTime) as [info| |q] eqn:Hg.
  - destruct (parse_lines_two_commas (Print info)) as [ts Hts]; [by apply Hl|].
    by rewrite (run_graph_Ok st info ts).
  - unfold run_graph. by rewrite Hg.
  - by destruct (Hp q).
Qed.

Lemma execute_no_panic st startTime endTime step infoOnly live p :
  (infoOnly = false → is_Some (cs_xport st)) → stat_formats (cs_graph st) →
  (execute st startTime endTime step infoOnly live).2 ≠ Panic p.
Proof.
  intros Hx Hf. unfold execute.
  pose proof (run_export_no_panic st startTime endTime step infoOnly live p Hx).
  destruct (run_export _ _ _ _ _ _) as [live' [result| |q]]; [|done..].
  by apply run_graph_no_panic.
Qed.

(** On an engine that meets its contract, a call panics exactly under
    the condition [panics], which can be evaluated. *)
Lemma panics_spec connector query startTime endTime step percentiles infoOnly live p :
  cr_ret (rrdGetData connector query startTime endTime step percentiles
            infoOnly live)
  = Panic p
  ↔ p = NilDereference ∧ panics connector query = true.
Proof.
  destruct (decide (gq_Series query = [])) as [Hnil|Hne].
  { unfold rrdGetData, panics. rewrite Hnil, andb_false_r.
    split; [done|]. by intros [_ ?]. }
  pose proof (eq_refl (panics connector query)) as Hp. unfold panics at 1 in Hp.
  rewrite <- (collapse_Series query) in Hp.
  destruct (panics connector query).
  - unfold rrdGetData. rewrite (compile_panics _ _ _ _ Hp).
    destruct (gq_Series query); [done|]. cbn. split; [by intros [= <-]|].
    by intros [-> _].
  - split; [|by intros [_ ?]]. intros Hret. exfalso.
    pose proof (compile_no_panic connector _ percentiles infoOnly p Hp) as Hc.
    destruct (compile connector (collapse query) percentiles infoOnly)
      as [st| |q] eqn:Hst;
      [|unfold rrdGetData in Hret; rewrite Hst in Hret;
        destruct (gq_Series query); simpl in Hret; congruence..].
    rewrite (rrdGetData_compiled _ _ st) in Hret by done.
    eapply execute_no_panic; [| |exact Hret].
    + intros ->. by eapply compile_xport.
    + by eapply compile_stat_formats.
Qed.

(** C5: on an engine that meets its contract, a call panics exactly
    when the operator of the group, after the rule for a group of one
    series, is one of the three and a series of the query names a metric
    the catalog lacks; the panic is then the dereference of a nil
    descriptor.  Nothing else in the call panics: not the walk over the
    exported table, not the split of the printed lines. *)
Theorem rrdGetData_panics_iff connector query startTime endTime step percentiles
    infoOnly live p :
  cr_ret (rrdGetData connector query startTime endTime step percentiles
            infoOnly live)
  = Panic p
  ↔ p = NilDereference
    ∧ (∀ n, gq_Type (collapse query) ≠ OperGroupTypeOther n)
    ∧ ∃ serie m,
        serie ∈ gq_Series query ∧ sq_Metric serie = Some m
        ∧ metrics_lookup connector (mq_SourceName m) (mq_Name m) = None.
Proof.
  rewrite panics_spec. unfold panics.
  rewrite andb_true_iff, known_operator_true, existsb_missing_metric. tauto.
Qed.

(** ** The errors of a call *)

(** The graph run fails with the error of the engine, and with no
    other. *)
Lemma run_graph_Err st startTime endTime live result e :
  stat_formats (cs_graph st) →
  (run_graph st startTime endTime live result).2 = Err e
  ↔ Graph (cs_graph st) startTime endTime = Err e.
Proof.
  intros Hf.
  pose proof (Graph_no_panic (cs_graph st) startTime endTime) as Hp.
  pose proof (Graph_fields (cs_graph st) startTime endTime) as Hl.
  destruct (Graph (cs_graph st) startTime endTime) as [info| |q] eqn:Hg.
  - destruct (parse_lines_two_commas (Print info)) as [ts Hts]; [by apply Hl|].
    by rewrite (run_graph_Ok st info ts).
  - unfold run_graph. rewrite Hg. cbn [snd]. split; by intros [= ->].
  - by destruct (Hp q).
Qed.

(** The two runs fail with the error of the export, or with the error
    of the graph run when the export has succeeded or was not asked
    for. *)
Lemma execute_Err st startTime endTime step infoOnly live e :
  (infoOnly = false → is_Some (cs_xport st)) → stat_formats (cs_graph st) →
  (execute st startTime endTime step infoOnly live).2 = Err e
  ↔ (infoOnly = false
     ∧ ∃ xport, cs_xport st = Some xport
                ∧ Xport xport startTime endTime step = Err e)
    ∨ ((infoOnly = true
        ∨ ∃ xport data, cs_xport st = Some xport
                        ∧ Xport xport startTime endTime step = Ok data)
       ∧ Graph (cs_graph st) startTime endTime = Err e).
Proof.
  intros Hx Hf. unfold execute. destruct infoOnly.
  - unfold run_export. rewrite run_graph_Err by done.
    split; [by right; split; [left|]|]. by intros [[[=] _]|[_ ?]].
  - destruct Hx as [xport Hx]; [done|].
    pose proof (Xport_no_panic xport startTime endTime step) as Hp.
    pose proof (Xport_wf xport startTime endTime step) as Hwf.
    destruct (Xport xport startTime endTime step) as [data| |q] eqn:Hd;
      [|  |by destruct (Hp q)].
    + rewrite (run_export_Ok st xport data) by eauto. rewrite run_graph_Err by done.
      split; [right; split; [right; by exists xport, data|done]|].
      intros [(_ & xport' & Hx' & Hd')|[_ ?]]; [|done]. congruence.
    + unfold run_export. rewrite Hx, Hd. cbn [snd]. split.
      * intros [= <-]. left. split; [done|]. by exists xport.
      * intros [(_ & xport' & Hx' & Hd')|[[[=]|(xport' & data & Hx' & Hd')] _]];
          congruence.
Qed.

(** C6: the errors of a call, on an engine that meets its contract: a
    call returns an error exactly when the query has no series (the error
    is "group has no series"), or the operator of the group, after the
    rule for a group of one series, is none of the three (the error names
    it), or the export fails, or the export succeeds or is not asked for
    and the graph run fails; the error of the engine is returned as it
    is.  The merge of the table and of the printed lines adds no error of
    its own. *)
Theorem rrdGetData_errors connector query startTime endTime step percentiles
    infoOnly live e :
  cr_ret (rrdGetData connector query startTime endTime step percentiles
            infoOnly live)
  = Err e
  ↔ (gq_Series query = [] ∧ e = "group has no series")
    ∨ (gq_Series query ≠ []
       ∧ ∃ n, gq_Type (collapse query) = OperGroupTypeOther n
              ∧ e = "unknown `" +:+ Itoa n +:+ "' operator type")
    ∨ (gq_Series query ≠ []
       ∧ ∃ st, compile connector (collapse query) percentiles infoOnly = Ok st
         ∧ ((infoOnly = false
             ∧ ∃ xport, cs_xport st = Some xport
                        ∧ Xport xport startTime endTime step = Err e)
            ∨ ((infoOnly = true
                ∨ ∃ xport data, cs_xport st = Some xport
                                ∧ Xport xport startTime endTime step = Ok data)
               ∧ Graph (cs_graph st) startTime endTime = Err e))).
Proof.
  destruct (decide (gq_Series query = [])) as [Hnil|Hne].
  { unfold rrdGetData. rewrite Hnil. cbn. split; [intros [= <-]; by left|].
    by intros [[_ ->]|[[? _]|[? _]]]. }
  destruct (compile connector (collapse query) percentiles infoOnly)
    as [st|e'|q] eqn:Hst.
  - rewrite (rrdGetData_compiled _ _ st) by done. cbn [cr_ret].
    rewrite execute_Err;
      [|intros ->; by eapply compile_xport|by eapply compile_stat_formats].
    split.
    + intros Hrun. right; right. split; [done|]. by exists st.
    + intros [[? _]|[(_ & n & Hn & _)|(_ & st' & [= <-] & Hrun)]]; [done| |done].
      assert (compile connector (collapse query) percentiles infoOnly
              = Err (unknown_operator n)) as Hc by (apply compile_Err; eauto).
      congruence.
  - assert (cr_ret (rrdGetData connector query startTime endTime step percentiles
                      infoOnly live) = Err e') as ->
      by (unfold rrdGetData; rewrite Hst; by destruct (gq_Series query)).
    apply compile_Err in Hst as (n & Hn & ->). split.
    + intros [= <-]. right; left. split; [done|]. by exists n.
    + intros [[? _]|[(_ & n' & Hn' & ->)|(_ & st' & [=] & _)]]; [done|].
      by assert (n' = n) as -> by congruence.
  - assert (cr_ret (rrdGetData connector query startTime endTime step percentiles
                      infoOnly live) = Panic q) as ->
      by (unfold rrdGetData; rewrite Hst; by destruct (gq_Series query)).
    split; [done|].
    intros [[? _]|[(_ & n & Hn & _)|(_ & st' & [=] & _)]]; [done|].
    rewrite compile_cases, Hn in Hst. done.
Qed.

End contract.

(** ** The reference engine meets the contract *)

Section reference_engine.
Context `{Samples} `{Statistics}.

#[export] Instance rpn_EngineContract : EngineContract rpn_Engine.
Proof.
  split; cbn [Xport Graph rpn_Engine].
  - intros xport startTime endTime step p.
    pose proof (rpn_Xport_cases xport startTime endTime step) as Hc.
    cbn zeta in Hc. destruct (run_program _ _ _); [by rewrite Hc..|done].
  - intros xport startTime endTime step data.
    pose proof (rpn_Xport_cases xport startTime endTime step) as Hc.
    cbn zeta in Hc. destruct (run_program _ _ _); [|by rewrite Hc|done].
    rewrite Hc. intros [= <-]. apply table_of_wf.
  - intros graph startTime endTime p.
    pose proof (rpn_Graph_cases graph startTime endTime) as Hc.
    cbn zeta in Hc. destruct (run_program _ _ _); [by rewrite Hc..|done].
  - intros graph startTime endTime info Hf.
    pose proof (rpn_Graph_cases graph startTime endTime) as Hc.
    cbn zeta in Hc.
    destruct (run_program _ _ _) as [st| |] eqn:Hst; [|by rewrite Hc|done].
    rewrite Hc. intros [= <-]. cbn [Print].
    eapply (run_program_lines _ _ (Grapher.args graph) engine_init st);
      [|constructor|done].
    intros v format val (label & key & ->)%Hf. apply printed_line_count.
Qed.

End reference_engine.
