(* ===== verification/RefreshQuery.v ===== *)
(** * Discovery and queries together

    The catalog is what [Refresh] and [rrdGetData] share: the walk of
    [Refresh] writes it in place, file after file, and a query reads the
    descriptors of its metrics from it.  This file composes the two
    halves of the connector.

    - A query reads the connector through its daemon setting and the
      lookups of the catalog only ([connector_equiv]); what it returns
      is the same on connectors that agree on these, so it does not depend
      on the order in which the walk found the archives.
    - The connector between two visits of a walk ([connector_after]) is
      the state the code is in after the calls for the visits before,
      when each has returned nil ([walk_connector_after],
      [walk_reaches]).  A query that runs
      there panics exactly when one of its metrics was not in the catalog
      before the refresh and has not been found yet.
    - After a refresh, the query of a metric the walk found returns the
      samples of the archive found last for it, through the scales. *)

From Stdlib Require Import ZArith String Ascii List Lia.
From stdpp Require Import base tactics option list gmap strings.
From S2P Require Import Prelude Stateful GoStrings Float64 Rpn Rrd SetGraph.
From S2P Require Import Connector Discovery DiscoverySpec ParseInfo StatRoundTrip.
From S2P Require Import EngineSem GetData CompileSpec Expressions CompileWf GetDataSpec Merge.
From S2P Require Import ProgramSem StatSem EndToEnd Safety.

(** ** Definitions *)

(** Connectors a query cannot tell apart: the same daemon setting, and
    catalogs that agree on every metric of every source. *)
Definition connector_equiv (c c' : RRDConnector) : Prop :=
  Daemon c = Daemon c' ∧ catalog_equiv (metrics c) (metrics c').

(** The key of the metric a series names. *)
Definition metric_key (m : MetricQuery) : string * string :=
  (mq_SourceName m, mq_Name m).

(** The series names a metric that the entries do not have. *)
Definition not_found (es : list entry) (serie : SerieQuery) : bool :=
  match sq_Metric serie with
  | Some m => bool_decide (metric_key m ∉ es.*1)
  | None => true
  end.

(** The connector between two visits of a walk: after the visits
    [before], and before the others. *)
Definition connector_after `{Regexp} `{Archives} (re : regexp)
    (before : list visit) (st : refresh_state) : RRDConnector :=
  rs_connector (apply_effect (walk_effect re (Path (rs_connector st)) before) st).

(** The query of one series of a metric, without operator. *)
Definition single_query (label source name : string) (scale : float64) : GroupQuery :=
  {| gq_Name := label; gq_Type := OperGroupTypeNone;
     gq_Series := [{| sq_Name := label;
                      sq_Metric := Some {| mq_Name := name; mq_SourceName := source |};
                      sq_Scale := scale |}];
     gq_Scale := f64_zero |}.

(** ** What a query reads of the connector *)

#[export] Instance connector_equiv_equivalence : Equivalence connector_equiv.
Proof.
  split.
  - by intros c.
  - intros c c' [Hd Hm]. by split.
  - intros c1 c2 c3 [Hd Hm] [Hd' Hm']. split; [congruence|by etrans].
Qed.

Lemma metrics_lookup_lookup2 connector m :
  metrics_lookup connector (mq_SourceName m) (mq_Name m)
  = lookup2 (metrics connector) (metric_key m).
Proof. done. Qed.

#[export] Instance metric_of_proper : Proper (connector_equiv ==> eq ==> eq) metric_of.
Proof.
  intros c c' [_ Hm] m ? <-. unfold metric_of.
  by rewrite !metrics_lookup_lookup2, (Hm (metric_key m)).
Qed.

#[export] Instance resolve_proper :
  Proper (connector_equiv ==> eq ==> eq ==> eq) resolve.
Proof.
  intros c c' Hc i ? <- series ? <-. revert i.
  induction series as [|serie series IH]; intros i; [done|]. cbn [resolve].
  rewrite IH. destruct (sq_Metric serie) as [m|]; [|done].
  by rewrite (metric_of_proper c c' Hc m m eq_refl).
Qed.

#[export] Instance compile_proper :
  Proper (connector_equiv ==> eq ==> eq ==> eq ==> eq) compile.
Proof.
  intros c c' Hc query ? <- percentiles ? <- infoOnly ? <-.
  rewrite !compile_cases.
  rewrite (resolve_proper c c' Hc 0 0 eq_refl (gq_Series query) _ eq_refl).
  destruct Hc as [Hd _]. unfold agg_compiled, compile_init. by rewrite Hd.
Qed.

#[export] Instance missing_metric_proper :
  Proper (connector_equiv ==> eq ==> eq) missing_metric.
Proof.
  intros c c' [_ Hm] serie ? <-. unfold missing_metric.
  destruct (sq_Metric serie) as [m|]; [|done].
  by rewrite !metrics_lookup_lookup2, (Hm (metric_key m)).
Qed.

Section any_engine.
Context `{Engine} `{Strconv}.

#[export] Instance rrdGetData_proper :
  Proper (connector_equiv ==> eq ==> eq ==> eq ==> eq ==> eq ==> eq ==> eq ==> eq)
    rrdGetData.
Proof.
  intros c c' Hc query ? <- startTime ? <- endTime ? <- step ? <-
    percentiles ? <- infoOnly ? <- live ? <-.
  unfold rrdGetData.
  by rewrite (compile_proper c c' Hc (collapse query) _ eq_refl
                percentiles _ eq_refl infoOnly _ eq_refl).
Qed.

End any_engine.

(** ** The connector during a walk *)

Section walk.
Context `{Regexp} `{Walker} `{Archives}.
Implicit Types (st : refresh_state) (re : regexp) (before after : list visit).

(** The connector between two visits is the connector the code has
    there: after the calls for [before], when each has returned nil. *)
Lemma walk_connector_after re before st :
  closed (out_chan st) = false →
  (walk_calls re (Path (rs_connector st)) before).2 = Ok tt →
  sfor before (walkFunc re) st
  = (apply_effect (walk_effect re (Path (rs_connector st)) before) st, Ok tt).
Proof.
  intros Ho Hok. rewrite WalkDir_total by done.
  by rewrite Hok, (walk_calls_all _ _ _ Hok).
Qed.

(** The walk over [before ++ after] goes through the state after
    [before], and goes on from there. *)
Lemma walk_reaches re before after st :
  closed (out_chan st) = false →
  (walk_calls re (Path (rs_connector st)) before).2 = Ok tt →
  sfor (before ++ after) (walkFunc re) st
  = sfor after (walkFunc re)
      (apply_effect (walk_effect re (Path (rs_connector st)) before) st).
Proof.
  intros Ho Hok. rewrite sfor_app. unfold sbind.
  by rewrite walk_connector_after.
Qed.

(** The catalog between two visits: the archive found last for a metric,
    or what the catalog had before the refresh. *)
Lemma connector_after_lookup re before st key :
  lookup2 (metrics (connector_after re before st)) key
  = match last_assoc (discovered re (Path (rs_connector st)) before) key with
    | Some m => Some m
    | None => lookup2 (catalog st) key
    end.
Proof.
  unfold connector_after. fold (catalog (apply_effect
    (walk_effect re (Path (rs_connector st)) before) st)).
  by rewrite lookup2_apply_effect, walk_effect_entries by apply walk_effect_wf.
Qed.

Lemma connector_after_Daemon re before st :
  Daemon (connector_after re before st) = Daemon (rs_connector st).
Proof. done. Qed.

(** A metric is missing between two visits when it was missing before
    the refresh and the visits so far have not found it. *)
Lemma missing_metric_after re before st serie :
  missing_metric (connector_after re before st) serie
  = missing_metric (rs_connector st) serie
    && not_found (discovered re (Path (rs_connector st)) before) serie.
Proof.
  unfold missing_metric, not_found. destruct (sq_Metric serie) as [m|]; [|done].
  rewrite !metrics_lookup_lookup2, connector_after_lookup.
  destruct (last_assoc _ _) as [metric|] eqn:Hl.
  - rewrite (bool_decide_eq_false_2 (Some metric = None)) by done.
    rewrite (bool_decide_eq_false_2 (_ ∉ _)), andb_false_r; [done|].
    intros Hnot%last_assoc_None. congruence.
  - apply last_assoc_None in Hl. by rewrite (bool_decide_eq_true_2 (_ ∉ _)), andb_true_r.
Qed.

(** The order of the walk does not matter to a query, as long as no two
    archives are of the same metric of the same source. *)
Lemma connector_after_order re visits visits' st :
  visits ≡ₚ visits' → NoDup (discovered re (Path (rs_connector st)) visits).*1 →
  connector_equiv (connector_after re visits st) (connector_after re visits' st).
Proof.
  intros Hp Hnd. split; [done|]. intros key. rewrite !connector_after_lookup.
  rewrite (last_assoc_Permutation _ (discovered re (Path (rs_connector st)) visits'));
    [done..|].
  unfold discovered. by rewrite Hp.
Qed.

End walk.

(** ** Queries while the walk runs *)

Section order.
Context `{Regexp} `{Archives} `{Engine} `{Strconv}.

(** C30: what a query returns does not depend on the order in which the
    walk of the refresh visited the tree, as long as no two archives are
    of the same metric of the same source: the result, the buffers and
    the query itself are the same after the walk over any permutation of
    the visits. *)
Theorem query_walk_order re visits visits' st query startTime endTime step
    percentiles infoOnly live :
  visits ≡ₚ visits' → NoDup (discovered re (Path (rs_connector st)) visits).*1 →
  rrdGetData (connector_after re visits st) query startTime endTime step
    percentiles infoOnly live
  = rrdGetData (connector_after re visits' st) query startTime endTime step
      percentiles infoOnly live.
Proof.
  intros Hp Hnd. by rewrite (connector_after_order re visits visits' st Hp Hnd).
Qed.

End order.

Section between.
Context `{Regexp} `{Archives} {E : Engine} `{!EngineContract E} `{Strconv}.

Lemma panics_after re before st query :
  panics (connector_after re before st) query
  = known_operator (gq_Type (collapse query))
    && existsb (λ serie,
         missing_metric (rs_connector st) serie
         && not_found (discovered re (Path (rs_connector st)) before) serie)
         (gq_Series query).
Proof.
  unfold panics. f_equal. induction (gq_Series query) as [|serie series IH]; [done|].
  cbn [existsb]. by rewrite IH, missing_metric_after.
Qed.

(** A query that does not panic before a refresh does not panic while
    the refresh runs: the walk only adds to the catalog. *)
Lemma panics_after_mono re before st query :
  panics (rs_connector st) query = false →
  panics (connector_after re before st) query = false.
Proof.
  rewrite panics_after. unfold panics.
  destruct (known_operator _); [|done]. cbn [andb].
  induction (gq_Series query) as [|serie series IH]; [done|]. cbn [existsb].
  intros [-> ?]%orb_false_iff. by rewrite IH.
Qed.

(** C14: a query that runs between two visits of the walk of a refresh,
    on an engine that meets its contract, panics exactly when the
    operator of its group is one of the three and one of its series names
    a metric that the catalog lacked before the refresh and that the
    visits so far have not found.  So a query of metrics the catalog had
    is safe at every point of a refresh, and a query of a metric the
    refresh is about to find panics until the walk has reached its
    archive: the catalog is filled in place, and a reader sees it partly
    filled. *)
Theorem query_between_visits re before st query startTime endTime step
    percentiles infoOnly live p :
  cr_ret (rrdGetData (connector_after re before st) query startTime endTime step
            percentiles infoOnly live)
  = Panic p
  ↔ p = NilDereference
    ∧ (∀ n, gq_Type (collapse query) ≠ OperGroupTypeOther n)
    ∧ ∃ serie m,
        serie ∈ gq_Series query ∧ sq_Metric serie = Some m
        ∧ lookup2 (catalog st) (metric_key m) = None
        ∧ metric_key m ∉ (discovered re (Path (rs_connector st)) before).*1.
Proof.
  rewrite panics_spec, panics_after, andb_true_iff, known_operator_true.
  rewrite existsb_exists. setoid_rewrite andb_true_iff.
  setoid_rewrite missing_metric_true. setoid_rewrite <- list_elem_of_In.
  unfold not_found. split; intros (Hp & Hop & Hex); (split; [done|split; [done|]]).
  - destruct Hex as (serie & Hin & (m & Hm & Hl) & Hnf). rewrite Hm in Hnf.
    apply bool_decide_eq_true in Hnf. by exists serie, m.
  - destruct Hex as (serie & m & Hin & Hm & Hl & Hnf). exists serie.
    rewrite Hm, bool_decide_eq_true. eauto.
Qed.

End between.

(** ** From the tree to the samples *)

Section pipeline.
Context `{Regexp} `{Walker} `{Archives} `{Samples} `{Statistics} `{Strconv}.

(** The connector a refresh leaves when the pattern is valid: to a
    query, the connector after the visits before the first error of the
    walk. *)
Lemma Refresh_connector_walk re st :
  chans_open st → Compile (Pattern (rs_connector st)) = Some re →
  pattern_error (SubexpNames re) = None →
  Forall (visit_safe (Path (rs_connector st)))
    (until_error (walk (Path (rs_connector st)))).1 →
  connector_equiv (rs_connector (Refresh st).1)
    (connector_after re (until_error (walk (Path (rs_connector st)))).1 st).
Proof.
  intros Hopen Hre Hvalid Hsafe. rewrite (Refresh_walk st re) by done.
  unfold walked. by destruct (until_error _).2.
Qed.

(** The connector a refresh leaves when the pattern is valid and the walk
    meets no error: to a query, the connector after all the visits. *)
Lemma Refresh_connector re st :
  chans_open st → Compile (Pattern (rs_connector st)) = Some re →
  pattern_error (SubexpNames re) = None →
  Forall (visit_ok (Path (rs_connector st))) (walk (Path (rs_connector st))) →
  connector_equiv (rs_connector (Refresh st).1)
    (connector_after re (walk (Path (rs_connector st))) st).
Proof.
  intros Hopen Hre Hvalid [Hnone Hsafe]%Forall_visit_ok.
  rewrite (Refresh_connector_walk re st) by (done || by apply until_error_Forall).
  by rewrite until_error_None.
Qed.

(** The connector a refresh leaves when the walk stops with an error: the
    connector between the visits before the error and the others. *)
Lemma Refresh_connector_error re st before v err after :
  chans_open st → Compile (Pattern (rs_connector st)) = Some re →
  pattern_error (SubexpNames re) = None →
  walk (Path (rs_connector st)) = before ++ v :: after →
  Forall (visit_ok (Path (rs_connector st))) before → v_err v = Some err →
  connector_equiv (rs_connector (Refresh st).1) (connector_after re before st).
Proof.
  intros Hopen Hre Hvalid Hwalk [Hnone Hsafe]%Forall_visit_ok Herr.
  assert (until_error (walk (Path (rs_connector st))) = (before, Some err)) as Hu
    by (by rewrite Hwalk, (until_error_Some before v err after)).
  rewrite (Refresh_connector_walk re st) by (done || by rewrite Hu).
  by rewrite Hu.
Qed.

(** The query of a metric the visits so far have found returns the
    samples of the archive found last for it. *)
Theorem GetPlots_found re before st label source name scale metric f
    startTime endTime step percentiles live :
  let wx := xport_window startTime endTime step in
  let wg := graph_window startTime endTime in
  last_assoc (discovered re (Path (rs_connector st)) before) (source, name)
  = Some metric →
  fetch (FilePath metric) (Dataset metric) "AVERAGE" wx = Some f →
  is_Some (fetch (FilePath metric) (Dataset metric) "AVERAGE" wg) →
  f64_is_finite scale = true →
  ∃ data,
    @GetPlots rpn_Engine _ (connector_after re before st)
      (single_query label source name scale) startTime endTime step percentiles live
    = {| cr_query := single_query label source name scale; cr_live := S live;
         cr_ret := Ok data |}
    ∧ plots_of data label = column wx (λ r, apply_scale scale (f r))
    ∧ (plain_label label → ∀ l, is_Some (data !! l) ↔ l = label).
Proof.
  intros wx wg. subst wx wg. intros Hlast Hfx Hfg Hscale.
  pose (c := {| c_index := 0; c_metric := metric;
                c_serie := {| sq_Name := label; sq_Scale := scale;
                              sq_Metric := Some {| mq_Name := name;
                                                   mq_SourceName := source |} |} |}).
  unfold GetPlots.
  destruct (rrdGetData_series (connector_after re before st)
              (single_query label source name scale) [c]
              startTime endTime step percentiles false live)
    as (data & -> & Hdom & Hplots).
  - by left.
  - done.
  - cbn [resolve single_query gq_Series sq_Metric]. unfold metric_of.
    rewrite (metrics_lookup_lookup2 _ {| mq_Name := name; mq_SourceName := source |}).
    rewrite connector_after_lookup. unfold metric_key. cbn [mq_SourceName mq_Name].
    by rewrite Hlast.
  - intros _. repeat constructor. by exists f.
  - by repeat constructor.
  - split; [done|by repeat constructor].
  - exists data. split; [done|]. split.
    + destruct (Hplots [] c []) as [Hc _]; [done|set_solver|].
      etrans; [exact Hc|].
      apply column_ext. intros r. unfold none_value, samples_of.
      cbn [c c_metric c_serie sq_Scale single_query gq_Scale]. by rewrite Hfx.
    + intros Hplain l. rewrite Hdom by (apply Forall_singleton; exact Hplain).
      apply list_elem_of_singleton.
Qed.

(** The query of a metric the catalog lacked before the refresh and the
    visits so far have not found panics. *)
Theorem GetPlots_not_found re before st label source name scale
    startTime endTime step percentiles live :
  lookup2 (catalog st) (source, name) = None →
  last_assoc (discovered re (Path (rs_connector st)) before) (source, name) = None →
  cr_ret (@GetPlots rpn_Engine _ (connector_after re before st)
            (single_query label source name scale) startTime endTime step
            percentiles live)
  = Panic NilDereference.
Proof.
  intros Hcat Hlast. unfold GetPlots. apply panics_spec. split; [done|].
  unfold panics. cbn [single_query collapse gq_Series gq_Type length existsb].
  rewrite orb_false_r. apply andb_true_intro. split; [done|].
  apply missing_metric_true. eexists. split; [done|].
  rewrite (metrics_lookup_lookup2 _ {| mq_Name := name; mq_SourceName := source |}).
  rewrite connector_after_lookup. unfold metric_key. cbn [mq_SourceName mq_Name].
  by rewrite Hlast.
Qed.

(** C12: from the tree to the samples: after a refresh whose pattern is
    valid and whose walk meets no error, [GetPlots] of the one series of
    a metric the walk found returns, under the name of the series, the
    samples of the archive found last for that metric, multiplied by the
    scale of the series when it is not zero, provided the archive can be
    read over both windows and the scale is a number; the result has no
    other entry when the name has neither a comma nor a percent sign. *)
Theorem refresh_then_GetPlots re st label source name scale metric f
    startTime endTime step percentiles live :
  let root := Path (rs_connector st) in
  let wx := xport_window startTime endTime step in
  let wg := graph_window startTime endTime in
  chans_open st → Compile (Pattern (rs_connector st)) = Some re →
  pattern_error (SubexpNames re) = None →
  Forall (visit_ok root) (walk root) →
  last_assoc (discovered re root (walk root)) (source, name) = Some metric →
  fetch (FilePath metric) (Dataset metric) "AVERAGE" wx = Some f →
  is_Some (fetch (FilePath metric) (Dataset metric) "AVERAGE" wg) →
  f64_is_finite scale = true →
  ∃ data,
    @GetPlots rpn_Engine _ (rs_connector (Refresh st).1)
      (single_query label source name scale) startTime endTime step percentiles live
    = {| cr_query := single_query label source name scale; cr_live := S live;
         cr_ret := Ok data |}
    ∧ plots_of data label = column wx (λ r, apply_scale scale (f r))
    ∧ (plain_label label → ∀ l, is_Some (data !! l) ↔ l = label).
Proof.
  intros root wx wg. subst root wx wg. intros Hopen Hre Hvalid Hok Hlast Hfx Hfg Hscale.
  unfold GetPlots. setoid_rewrite (Refresh_connector re st Hopen Hre Hvalid Hok).
  by apply (GetPlots_found re _ st label source name scale metric f).
Qed.

End pipeline.
