(* ===== verification/Configured.v ===== *)
(** * From the configuration to the samples

    The components in the order a server uses them: the factory [init]
    registers builds the connector from its settings, the first
    [Refresh] walks the file tree at the configured path and fills the
    catalog, and [GetPlots] answers a query from the catalog and the
    archives.  The connector of the factory has an empty catalog, so what
    a query of one metric returns after the first refresh is decided by
    the walk alone: the samples of the archive found last for the metric,
    or a panic when the walk has found none before its first error. *)

From Stdlib Require Import ZArith NArith String Ascii List Lia.
From stdpp Require Import base tactics option list gmap strings.
From S2P Require Import Prelude Stateful GoStrings Float64 Rpn Rrd SetGraph.
From S2P Require Import Connector Registry Discovery DiscoverySpec WalkTree.
From S2P Require Import ParseInfo StatRoundTrip EngineSem GetData CompileSpec Expressions CompileWf GetDataSpec Merge ProgramSem StatSem.
From S2P Require Import EndToEnd Safety RefreshQuery.

(** ** Definitions *)

(** The archives the first refresh of a connector finds in a tree: the
    entries of the visits before the first error of the walk. *)
Definition found `{Regexp} `{Archives} (clean : string → string) (re : regexp)
    (t : node) (connector : RRDConnector) : list entry :=
  discovered re (Path connector) (until_error (walk_tree clean (Path connector) t)).1.

(** ** Theorems *)

Section configured.
Context `{Regexp} `{Archives} `{Samples} `{Statistics} `{Strconv}.
Variable clean : string → string.
Implicit Types (t : node) (st : refresh_state) (re : regexp).

(** The catalog of a connector of the factory is empty. *)
Lemma rrd_factory_catalog ch config st key :
  rrd_factory ch config = Ok (rs_connector st) → lookup2 (catalog st) key = None.
Proof.
  intros (_ & _ & Hempty)%rrd_factory_Ok. unfold catalog, lookup2.
  by rewrite Hempty, lookup_empty.
Qed.

(** The connector the first refresh on a tree leaves, to a query. *)
Lemma Refresh_tree_connector t st re :
  is_dir t = true →
  String.length (Path (rs_connector st)) ≤ String.length (clean (Path (rs_connector st))) →
  (∀ path p, rrd_Info path ≠ Panic p) →
  chans_open st → Compile (Pattern (rs_connector st)) = Some re →
  pattern_error (SubexpNames re) = None →
  connector_equiv (rs_connector (@Refresh _ (tree_Walker clean t) _ st).1)
    (connector_after re
       (until_error (walk_tree clean (Path (rs_connector st)) t)).1 st).
Proof.
  intros Hdir Hclean Hinfo Hopen Hre Hvalid.
  apply (@Refresh_connector_walk _ (tree_Walker clean t)); [done..|].
  by apply until_error_Forall, walk_tree_safe.
Qed.

(** C13: from the configuration to the samples.  A connector the factory
    built from its settings is refreshed for the first time on a file
    tree whose root is a directory, with a valid pattern, and then asked
    for the one series of a metric.  When the walk has found an archive
    of the metric before its first error, [GetPlots] returns under the
    name of the series the samples of the archive found last, multiplied
    by the scale of the series when it is not zero, provided the archive
    can be read over both windows and the scale is a number.  When the
    walk has found none, the call panics with a nil dereference: the
    catalog of the factory is empty, and nothing else fills it. *)
Theorem configured_GetPlots config ch t st re label source name scale
    startTime endTime step percentiles live :
  let wx := xport_window startTime endTime step in
  let wg := graph_window startTime endTime in
  let result :=
    @GetPlots rpn_Engine _
      (rs_connector (@Refresh _ (tree_Walker clean t) _ st).1)
      (single_query label source name scale) startTime endTime step percentiles live in
  rrd_factory ch config = Ok (rs_connector st) →
  closed ch = false → closed (rs_errChan st) = false →
  Compile (Pattern (rs_connector st)) = Some re →
  pattern_error (SubexpNames re) = None →
  is_dir t = true →
  String.length (Path (rs_connector st)) ≤ String.length (clean (Path (rs_connector st))) →
  (∀ path p, rrd_Info path ≠ Panic p) →
  match last_assoc (found clean re t (rs_connector st)) (source, name) with
  | Some metric =>
      ∀ f, fetch (FilePath metric) (Dataset metric) "AVERAGE" wx = Some f →
           is_Some (fetch (FilePath metric) (Dataset metric) "AVERAGE" wg) →
           f64_is_finite scale = true →
           ∃ data,
             result = {| cr_query := single_query label source name scale;
                         cr_live := S live; cr_ret := Ok data |}
             ∧ plots_of data label = column wx (λ r, apply_scale scale (f r))
             ∧ (plain_label label → ∀ l, is_Some (data !! l) ↔ l = label)
  | None => cr_ret result = Panic NilDereference
  end.
Proof.
  intros wx wg result. subst wx wg result.
  intros Hfactory Hch Herr Hre Hvalid Hdir Hclean Hinfo.
  assert (chans_open st) as Hopen.
  { split; [done|]. by apply rrd_factory_Ok in Hfactory as (_ & -> & _). }
  pose proof (Refresh_tree_connector t st re Hdir Hclean Hinfo Hopen Hre Hvalid) as Hc.
  unfold found, GetPlots. destruct (last_assoc _ _) as [metric|] eqn:Hlast.
  - intros f Hfx Hfg Hscale. setoid_rewrite Hc.
    by apply (GetPlots_found re _ st label source name scale metric f).
  - rewrite Hc. apply GetPlots_not_found; [|done].
    by apply (rrd_factory_catalog ch config).
Qed.

End configured.
