(* ===== verification/EngineExamples.v ===== *)
(** * The engine on example archives

    Two archives of three rows, one of them with an unknown sample, and
    statistics that take the first or the last value of a series: a
    concrete engine on which whole calls of [rrdGetData] evaluate, and on
    which the theorems about the engine and the compiled programs are
    instantiated. *)

From Stdlib Require Import ZArith String Ascii List Lia.
From stdpp Require Import base tactics option list gmap strings.
From S2P Require Import Prelude GoStrings Float64 Rpn Rrd SetGraph Connector.
From S2P Require Import Examples ParseInfo StatRoundTrip EngineSem ProgramWf.
From S2P Require Import GetData CompileSpec Names Expressions CompileWf.
From S2P Require Import GetDataSpec Merge ProgramSem StatSem EndToEnd Safety.

(** ** The archives and the statistics *)

(** The samples of the two archives of the example catalog. *)
Definition ex_samples (file : string) : option (list float64) :=
  if decide (file = "/var/lib/rrd/host1/cpu.rrd") then Some [f64_1; NaN; f64_3]
  else if decide (file = "/var/lib/rrd/host1/mem.rrd") then Some [f64_2; f64_2; f64_50]
  else None.

Definition ex_Samples : Samples :=
  {| rows := λ _, 3;
     fetch := λ file ds cf _,
       if decide (ds = "value" ∧ cf = "AVERAGE")
       then (λ col r, default NaN (col !! r)) <$> ex_samples file
       else None |}.

(** The last value of a series for [LAST], the first for the others. *)
Definition ex_statistic (fn : string) (params : list string) (col : list float64)
  : option float64 :=
  Some (default NaN (if decide (fn = "LAST") then last col else head col)).

(** It has a value on every series. *)
Definition ex_statistic_total (fn : string) (params : list string)
    (col : list float64) : is_Some (ex_statistic fn params col) :=
  ex_intro _ _ eq_refl.

Definition ex_Statistics : Statistics :=
  {| statistic := ex_statistic; print_lf := format_f 6;
     statistic_summary := λ fn col _, ex_statistic_total fn [] col;
     statistic_percent := λ p col, ex_statistic_total "PERCENT" [p] col |}.

Definition ex_Engine : Engine := @rpn_Engine ex_Samples ex_Statistics.

(** A call for the samples and the statistics of a group of the example
    catalog, over a window of three rows. *)
Definition ex_call (ty : OperGroupType) (series : list SerieQuery) : call_result :=
  @GetPlots ex_Engine decimal_Strconv ex_connector (ex_query ty series)
    0 3 1 [] 0.

(** The same call with the percentiles 50 and 99.9. *)
Definition ex_call_percentiles (ty : OperGroupType) (series : list SerieQuery)
  : call_result :=
  @GetPlots ex_Engine decimal_Strconv ex_connector (ex_query ty series)
    0 3 1 [f64_50; f64_99_9] 0.

(** The same call for the statistics only. *)
Definition ex_info (ty : OperGroupType) (series : list SerieQuery) : call_result :=
  @rrdGetData ex_Engine decimal_Strconv ex_connector (ex_query ty series)
    0 3 1 [] true 0.

(** The contributing series of the two archives, at the positions 0 and
    [i]. *)
Definition ex_contrib_cpu : contrib :=
  {| c_index := 0; c_serie := ex_cpu; c_metric := ex_metric "host1/cpu.rrd" |}.

Definition ex_contrib_mem (i : nat) : contrib :=
  {| c_index := i; c_serie := ex_mem; c_metric := ex_metric "host1/mem.rrd" |}.

(** ** Witnesses *)

Lemma ex_readable w i :
  Forall (@readable ex_Samples w) [ex_contrib_cpu; ex_contrib_mem i].
Proof. repeat constructor; by eexists. Qed.

Lemma ex_finite_scales ty series i :
  finite_scales (ex_query ty series) [ex_contrib_cpu; ex_contrib_mem i].
Proof. split; [done|by repeat constructor]. Qed.

Lemma wf_program_runs_witness :
  ∃ data,
    @rpn_Xport ex_Samples ex_Statistics
      {| Exporter.daemon := "";
         Exporter.args := agg_xport_program (ex_query OperGroupTypeSum [ex_cpu; ex_mem])
                            [ex_contrib_cpu; ex_contrib_mem 1] |}
      0 3 1
    = Ok data ∧ XportResult_wf data.
Proof.
  by apply (@wf_program_runs ex_Samples ex_Statistics _ Grapher.NewGrapher 0 3 1).
Defined.

Lemma compile_wf_witness :
  ∃ st,
    compile ex_connector (ex_query OperGroupTypeAvg [ex_cpu; ex_unset; ex_mem]) [f64_95]
      false = Ok st
    ∧ @wf_program ex_Samples (graph_window 0 3) scope_empty
        (Grapher.args (cs_graph st)) = true
    ∧ ∀ xport, cs_xport st = Some xport →
        @wf_program ex_Samples (graph_window 0 3) scope_empty
          (Exporter.args xport) = true.
Proof.
  apply (@compile_wf ex_Samples (graph_window 0 3) ex_connector
           (ex_query OperGroupTypeAvg [ex_cpu; ex_unset; ex_mem]) [f64_95] false
           [ex_contrib_cpu; ex_contrib_mem 2]);
    [done|done|apply ex_readable|apply ex_finite_scales].
Defined.

Lemma GetPlots_aggregate_witness :
  let query := ex_query OperGroupTypeAvg [ex_cpu; ex_unset; ex_mem] in
  let wx := xport_window 0 3 1 in
  let wg := graph_window 0 3 in
  ∃ data,
    ex_call_percentiles OperGroupTypeAvg [ex_cpu; ex_unset; ex_mem]
    = {| cr_query := query; cr_live := 1; cr_ret := Ok data |}
    ∧ plots_of data "grp"
      = @column ex_Samples wx
          (@agg_value ex_Samples wx query ex_contrib_cpu [ex_contrib_mem 2])
    ∧ (plain_label (gq_Name query) →
       ∀ label, is_Some (data !! label) ↔ label = gq_Name query)
    ∧ (plain_label (gq_Name query) → NoDup (stat_keys [f64_50; f64_99_9]) →
       ∀ i key v,
         stat_keys [f64_50; f64_99_9] !! i = Some key →
         @stat_values ex_Samples ex_Statistics wg
           (@agg_value ex_Samples wg query ex_contrib_cpu [ex_contrib_mem 2])
           [f64_50; f64_99_9]
           !! i = Some v →
         info_of data (gq_Name query, key)
         = Some (default NaN (ParseFloat_decimal (format_f 6 v)))).
Proof.
  apply (@GetPlots_aggregate ex_Samples ex_Statistics decimal_Strconv ex_connector
           (ex_query OperGroupTypeAvg [ex_cpu; ex_unset; ex_mem])
           ex_contrib_cpu [ex_contrib_mem 2] 0 3 1 [f64_50; f64_99_9] 0);
    [by right|simpl; lia|done|apply ex_readable..|apply ex_finite_scales].
Defined.

Lemma GetPlots_series_witness :
  let query := ex_query OperGroupTypeNone [ex_cpu; ex_unset; ex_mem] in
  let cs := [ex_contrib_cpu; ex_contrib_mem 2] in
  ∃ data,
    ex_call_percentiles OperGroupTypeNone [ex_cpu; ex_unset; ex_mem]
    = {| cr_query := collapse query; cr_live := 1; cr_ret := Ok data |}
    ∧ (Forall (λ c, plain_label (sq_Name (c_serie c))) cs →
       ∀ label, is_Some (data !! label) ↔ label ∈ (λ c, sq_Name (c_serie c)) <$> cs)
    ∧ ∀ before c after,
        cs = before ++ c :: after →
        sq_Name (c_serie c) ∉ (λ c, sq_Name (c_serie c)) <$> after →
        plots_of data (sq_Name (c_serie c))
        = @none_column ex_Samples (xport_window 0 3 1) query c
        ∧ (Forall (λ c, plain_label (sq_Name (c_serie c))) cs →
           NoDup (stat_keys [f64_50; f64_99_9]) →
           ∀ i key v,
             stat_keys [f64_50; f64_99_9] !! i = Some key →
             @stat_values ex_Samples ex_Statistics (graph_window 0 3)
               (@none_value ex_Samples (graph_window 0 3) query c) [f64_50; f64_99_9]
               !! i = Some v →
             info_of data (sq_Name (c_serie c), key)
             = Some (default NaN (ParseFloat_decimal (format_f 6 v)))).
Proof.
  apply (@GetPlots_series ex_Samples ex_Statistics decimal_Strconv ex_connector
           (ex_query OperGroupTypeNone [ex_cpu; ex_unset; ex_mem])
           [ex_contrib_cpu; ex_contrib_mem 2] 0 3 1 [f64_50; f64_99_9] 0);
    [by left|done|done|apply ex_readable..|apply ex_finite_scales].
Defined.

Lemma rrdGetData_panics_iff_witness :
  cr_ret (ex_call OperGroupTypeSum [ex_cpu; ex_lost]) = Panic NilDereference
  ↔ NilDereference = NilDereference
    ∧ (∀ n, gq_Type (collapse (ex_query OperGroupTypeSum [ex_cpu; ex_lost]))
            ≠ OperGroupTypeOther n)
    ∧ ∃ serie m,
        serie ∈ [ex_cpu; ex_lost] ∧ sq_Metric serie = Some m
        ∧ metrics_lookup ex_connector (mq_SourceName m) (mq_Name m) = None.
Proof.
  apply (@rrdGetData_panics_iff ex_Engine
           (@rpn_EngineContract ex_Samples ex_Statistics) decimal_Strconv).
Defined.

Lemma rrdGetData_errors_witness :
  let query := ex_query OperGroupTypeSum [ex_unset; ex_unset] in
  let e := "unknown variable `'" in
  cr_ret (ex_call OperGroupTypeSum [ex_unset; ex_unset]) = Err e
  ↔ (gq_Series query = [] ∧ e = "group has no series")
    ∨ (gq_Series query ≠ []
       ∧ ∃ n, gq_Type (collapse query) = OperGroupTypeOther n
              ∧ e = "unknown `" +:+ Itoa n +:+ "' operator type")
    ∨ (gq_Series query ≠ []
       ∧ ∃ st, compile ex_connector (collapse query) [] false = Ok st
         ∧ ((false = false
             ∧ ∃ xport, cs_xport st = Some xport
                        ∧ @Xport ex_Engine xport 0 3 1 = Err e)
            ∨ ((false = true
                ∨ ∃ xport data, cs_xport st = Some xport
                                ∧ @Xport ex_Engine xport 0 3 1 = Ok data)
               ∧ @Graph ex_Engine (cs_graph st) 0 3 = Err e))).
Proof.
  apply (@rrdGetData_errors ex_Engine
           (@rpn_EngineContract ex_Samples ex_Statistics) decimal_Strconv).
Defined.

(** ** Whole calls *)

(** The labels and the keys of a call with percentiles: a series
    without metric has no entry, and each percentile has its key. *)
Example series_labels_and_keys :
  (let! data := cr_ret (ex_call_percentiles OperGroupTypeNone
                          [ex_cpu; ex_unset; ex_mem]) in
   Ok (size data, bool_decide (is_Some (data !! sq_Name ex_unset)),
       (λ r, size (Info r)) <$> data !! "cpu",
       info_of data ("cpu", "99.90th"), info_of data ("mem", "50th")))
  = Ok (2, false, Some 6, Some f64_1, Some (f64_mul f64_2 f64_2_5)).
Proof. by vm_compute. Qed.

(** A sum over an archive with an unknown sample: the unknown sample
    counts as zero. *)
Example sum_with_unknown_sample :
  (let! data := cr_ret (ex_call OperGroupTypeSum [ex_cpu; ex_mem]) in
   Ok (plots_of data "grp"))
  = Ok [f64_3; f64_2; f64_add f64_3 f64_50].
Proof. by vm_compute. Qed.

(** An average over three series of which one has no metric: the sum of
    the two others, divided by three. *)
Example avg_divides_by_three :
  (let! data := cr_ret (ex_call OperGroupTypeAvg [ex_cpu; ex_unset; ex_mem]) in
   Ok (plots_of data "grp"))
  = Ok [f64_1; f64_div f64_2 f64_3; f64_div (f64_add f64_3 f64_50) f64_3].
Proof. by vm_compute. Qed.

(** A group without operator keeps the unknown sample, and applies the
    scale of each series. *)
Example series_keep_unknown_sample :
  (let! data := cr_ret (ex_call OperGroupTypeNone [ex_cpu; ex_unset; ex_mem]) in
   Ok (plots_of data "cpu", plots_of data "mem"))
  = Ok ([f64_1; NaN; f64_3],
        [f64_mul f64_2 f64_2_5; f64_mul f64_2 f64_2_5; f64_mul f64_50 f64_2_5]).
Proof. by vm_compute. Qed.

(** The scale of a series has no effect under a sum: the samples of
    [mem] enter the sum as they are. *)
Example sum_ignores_series_scale :
  cr_ret (ex_call OperGroupTypeSum [ex_cpu; ex_mem])
  = cr_ret (ex_call OperGroupTypeSum [ex_cpu; ex_serie "mem" "mem/value" f64_zero]).
Proof. by vm_compute. Qed.

(** A sum of series none of which has a metric reaches the engine with
    an empty expression, and the call returns the engine's error. *)
Example sum_of_nothing_fails :
  cr_ret (ex_call OperGroupTypeSum [ex_unset; ex_unset])
  = Err "unknown variable `'".
Proof. by vm_compute. Qed.

(** A scale that is not a number is written into the expression as a
    word the engine does not know. *)
Example nan_scale_fails :
  cr_ret (ex_call OperGroupTypeNone [ex_serie "a" "cpu/value" NaN; ex_mem])
  = Err "unknown variable `NaN'".
Proof. by vm_compute. Qed.

(** The statistics of a sum come back under the name of the group. *)
Example sum_statistics :
  (let! data := cr_ret (ex_call OperGroupTypeSum [ex_cpu; ex_mem]) in
   Ok (info_of data ("grp", "min"), info_of data ("grp", "last")))
  = Ok (Some f64_3, Some (f64_add f64_3 f64_50)).
Proof. by vm_compute. Qed.

(** A call for the statistics only returns them under a label without
    samples, and the engine holds no buffer more. *)
Example statistics_only :
  (cr_live (ex_info OperGroupTypeSum [ex_cpu; ex_mem]),
   let! data := cr_ret (ex_info OperGroupTypeSum [ex_cpu; ex_mem]) in
   Ok (plots_of data "grp", info_of data ("grp", "min")))
  = (0, Ok ([], Some f64_3)).
Proof. by vm_compute. Qed.

(** The query of a metric the catalog lacks panics, with or without
    operator, and the condition of the panic evaluates. *)
Example lost_metric_panics :
  (cr_ret (ex_call OperGroupTypeNone [ex_cpu; ex_lost]),
   panics ex_connector (ex_query OperGroupTypeNone [ex_cpu; ex_lost]),
   panics ex_connector (ex_query OperGroupTypeNone [ex_cpu; ex_mem]),
   panics ex_connector (ex_query (OperGroupTypeOther 7) [ex_cpu; ex_lost]))
  = (Panic NilDereference, true, false, false).
Proof. by vm_compute. Qed.

(** The contract of the engine is needed: an engine that prints a line
    without its fields makes a call panic whose metrics are all there. *)
Example short_line_engine_panics :
  (cr_ret (@rrdGetData (fixed_Engine ex_table ["cpu"]) decimal_Strconv ex_connector
             (ex_query OperGroupTypeNone [ex_cpu; ex_mem]) 0 3 1 [] false 0),
   panics ex_connector (ex_query OperGroupTypeNone [ex_cpu; ex_mem]))
  = (Panic IndexOutOfRange, false).
Proof. by vm_compute. Qed.

(** Two series of the same name: the name has the samples and the
    statistics of the second, and nothing of the first is returned. *)
Example same_name_last_wins :
  (let! data := cr_ret (ex_call OperGroupTypeNone
                          [ex_serie "x" "cpu/value" f64_zero;
                           ex_serie "x" "mem/value" f64_zero]) in
   Ok (plots_of data "x", info_of data ("x", "min"), size data))
  = Ok ([f64_2; f64_2; f64_50], Some f64_2, 1).
Proof. by vm_compute. Qed.
