(* ===== verification/PipelineExamples.v ===== *)
(** * A refresh and queries on the example tree

    The tree of [DiscoveryExamples] and the archives of [EngineExamples]
    together: the connector starts with an empty catalog, the walk finds
    the archive of [cpu] of [host1], and queries run before, between and
    after the visits.  The theorems that compose discovery and queries
    are instantiated here. *)

From Stdlib Require Import ZArith NArith String Ascii List Lia.
From stdpp Require Import base tactics option list gmap strings.
From S2P Require Import Prelude Stateful GoStrings Float64 Rpn Rrd SetGraph.
From S2P Require Import Connector Discovery DiscoverySpec DiscoveryExamples Examples.
From S2P Require Import ParseInfo EngineSem GetData CompileSpec Expressions GetDataSpec.
From S2P Require Import ProgramSem StatSem EndToEnd Safety RefreshQuery EngineExamples.
From S2P Require Import Registry WalkTree TreeExamples Configured.

(** ** The example *)

(** The connector after the first [k] visits of the walk of the example
    tree, from an empty catalog. *)
Definition ex_after (k : nat) : RRDConnector :=
  @connector_after toy_Regexp ex_Archives SourceMetric (take k ex_visits)
    (ex_refresh ex_pattern).

(** The query of the archive of [cpu]. *)
Definition ex_cpu_query : GroupQuery := single_query "cpu" "host1" "cpu/value" f64_zero.

(** A call of [GetPlots] on a connector, over the window of three rows. *)
Definition ex_plots (connector : RRDConnector) (query : GroupQuery) : call_result :=
  @GetPlots ex_Engine decimal_Strconv connector query 0 3 1 [] 0.

(** The settings of the examples with the address of a daemon, here the
    empty one. *)
Definition ex_config_daemon : gmap string config_value :=
  <["daemon" := ConfigString ""]> ex_config.

(** The connector after the first refresh on a tree. *)
Definition ex_refreshed (t : node) : RRDConnector :=
  rs_connector
    (@Refresh toy_Regexp (tree_Walker as_given t) ex_Archives (ex_refresh ex_pattern)).1.

(** ** Witnesses *)

Lemma query_walk_order_witness :
  ex_plots (@connector_after toy_Regexp ex_Archives SourceMetric ex_visits
              (ex_refresh ex_pattern)) ex_cpu_query
  = ex_plots (@connector_after toy_Regexp ex_Archives SourceMetric (reverse ex_visits)
                (ex_refresh ex_pattern)) ex_cpu_query.
Proof.
  apply (@query_walk_order toy_Regexp ex_Archives ex_Engine decimal_Strconv
           SourceMetric ex_visits (reverse ex_visits) (ex_refresh ex_pattern));
    [by rewrite reverse_Permutation|compute_decide].
Defined.

Lemma query_between_visits_witness :
  cr_ret (ex_plots (ex_after 1) ex_cpu_query) = Panic NilDereference
  ↔ NilDereference = NilDereference
    ∧ (∀ n, gq_Type (collapse ex_cpu_query) ≠ OperGroupTypeOther n)
    ∧ ∃ serie m,
        serie ∈ gq_Series ex_cpu_query ∧ sq_Metric serie = Some m
        ∧ lookup2 (catalog (ex_refresh ex_pattern)) (metric_key m) = None
        ∧ metric_key m
          ∉ (@discovered toy_Regexp ex_Archives SourceMetric "/var/lib/rrd"
               (take 1 ex_visits)).*1.
Proof.
  apply (@query_between_visits toy_Regexp ex_Archives ex_Engine
           (@rpn_EngineContract ex_Samples ex_Statistics) decimal_Strconv
           SourceMetric (take 1 ex_visits) (ex_refresh ex_pattern)).
Defined.

Lemma refresh_then_GetPlots_witness :
  ∃ data,
    ex_plots
      (rs_connector
         (@Refresh toy_Regexp ex_Walker ex_Archives (ex_refresh ex_pattern)).1)
      ex_cpu_query
    = {| cr_query := ex_cpu_query; cr_live := 1; cr_ret := Ok data |}
    ∧ plots_of data "cpu"
      = @column ex_Samples (xport_window 0 3 1)
          (λ r, apply_scale f64_zero (default NaN ([f64_1; NaN; f64_3] !! r)))
    ∧ (plain_label "cpu" → ∀ l, is_Some (data !! l) ↔ l = "cpu").
Proof.
  apply (@refresh_then_GetPlots toy_Regexp ex_Walker ex_Archives ex_Samples
           ex_Statistics decimal_Strconv SourceMetric (ex_refresh ex_pattern)
           "cpu" "host1" "cpu/value" f64_zero (ex_metric "host1/cpu.rrd")
           (λ r, default NaN ([f64_1; NaN; f64_3] !! r)) 0 3 1 [] 0);
    [done|done|done|apply ex_visits_ok|by vm_compute|done|by eexists|done].
Defined.

Lemma configured_GetPlots_witness :
  ∃ data,
    ex_plots (ex_refreshed ex_tree_unreadable) ex_cpu_query
    = {| cr_query := ex_cpu_query; cr_live := 1; cr_ret := Ok data |}
    ∧ plots_of data "cpu"
      = @column ex_Samples (xport_window 0 3 1)
          (λ r, apply_scale f64_zero (default NaN ([f64_1; NaN; f64_3] !! r)))
    ∧ (plain_label "cpu" → ∀ l, is_Some (data !! l) ↔ l = "cpu").
Proof.
  pose proof (@configured_GetPlots toy_Regexp ex_Archives ex_Samples ex_Statistics
                decimal_Strconv as_given ex_config_daemon chan_make
                ex_tree_unreadable (ex_refresh ex_pattern) SourceMetric
                "cpu" "host1" "cpu/value" f64_zero 0 3 1 [] 0) as Hc.
  cbn zeta in Hc.
  specialize (Hc eq_refl eq_refl eq_refl eq_refl eq_refl eq_refl (le_n _)
                ex_Archives_no_panic).
  assert (last_assoc
            (@found toy_Regexp ex_Archives as_given SourceMetric ex_tree_unreadable
               (rs_connector (ex_refresh ex_pattern))) ("host1", "cpu/value")
          = Some (ex_metric "host1/cpu.rrd")) as Hfound by (by vm_compute).
  rewrite Hfound in Hc.
  by apply (Hc (λ r, default NaN ([f64_1; NaN; f64_3] !! r))); [|eexists|].
Defined.

(** ** A query before, during and after a refresh *)

(** Before the walk has reached the archive, the query of its metric
    panics; from the visit of the archive on it returns its samples. *)
Example query_during_refresh :
  (cr_ret (ex_plots (ex_after 1) ex_cpu_query),
   let! data := cr_ret (ex_plots (ex_after 2) ex_cpu_query) in
   Ok (plots_of data "cpu"))
  = (Panic NilDereference, Ok [f64_1; NaN; f64_3]).
Proof. by vm_compute. Qed.

(** A walk that stops with an error at the second host leaves the
    catalog with what it found before: the archive of [cpu] can be
    queried, and the refresh has reported the error. *)
Example query_after_failed_refresh :
  let st := (@Refresh toy_Regexp ex_failing_Walker ex_Archives
               (ex_refresh ex_pattern)).1 in
  (sent (rs_errChan st),
   let! data := cr_ret (ex_plots (rs_connector st) ex_cpu_query) in
   Ok (plots_of data "cpu"))
  = (["open /var/lib/rrd/host2: permission denied"], Ok [f64_1; NaN; f64_3]).
Proof. by vm_compute. Qed.

(** The settings of the examples build the connector of the examples. *)
Example factory_ex_config :
  rrd_factory chan_make ex_config_daemon = Ok (rs_connector (ex_refresh ex_pattern)).
Proof. done. Qed.

(** After the first refresh on the tree whose second host cannot be
    listed, the archive of the first host is answered and the one of the
    second is not in the catalog: its query panics. *)
Example query_of_unreadable_host :
  (let! data := cr_ret (ex_plots (ex_refreshed ex_tree_unreadable) ex_cpu_query) in
   Ok (plots_of data "cpu"),
   cr_ret (ex_plots (ex_refreshed ex_tree_unreadable)
             (single_query "broken" "host2" "broken/value" f64_zero)))
  = (Ok [f64_1; NaN; f64_3], Panic NilDereference).
Proof. by vm_compute. Qed.
